(* ===== verification/_CoqProject ===== *)
-Q . S2P
Prelude.v
Checked.v
Identity.v
Hash.v
State.v
Policy.v
Request.v
Authority.v
Decision.v
Ledger.v
History.v
Bytes.v
Records.v
Journal.v
File.v
Engine.v
Log.v
Recovery.v
Admission.v
Capacity.v
Frames.v
Grant.v
Safety.v
Api.v
Enforce.v
Reach.v
Broker.v
Fencing.v
Restart.v
Compaction.v
Continuity.v
Mirror.v
Report.v
Protocol.v
Durable.v
Survival.v
Stream.v
Stdio.v
Wire.v
Server.v
Socket.v
Client.v
Tools.v
Service.v
Exchange.v
Demo.v
