(* ===== verification/Prelude.v ===== *)
(** * Network Admission Fabric: a verification development

    A model of the C++ sources in src/ with the theorems that make it correct.  This
    file is its root: it documents the development and holds the shared prelude.

    ** The program

    A coordinator decides which network demands may load which resources.  Adjacent
    runtimes publish snapshots of what is true (capacity, reservations, paths, QoS and
    priority catalogs) and an operator publishes a policy; claimants send admission
    requests.  An admission is checked against all of this, is granted a rate within
    the capacity that remains, and is recorded as load in a ledger and as a record in
    a history, and durably in a journal before it takes effect.  A change of authority
    triggers an enforcement pass that revokes what no longer fits.  A coordinator that
    restarts replays its journal, restores the committed grants, and moves to a later
    epoch, which fences all earlier claims.  Claimants reach the coordinator through a
    framed protocol over a local socket or a pipe.

    ** The files and what they model

    - Checked, Identity, Hash: include/naf/core (checked arithmetic, both forms of the
      128-bit helpers; identities, epochs, limits, rates; FNV-1a and CRC-32C).
    - State, Policy, Request, Authority, Decision: include/naf/model, src/model,
      src/authority, src/engine/decision.cpp (snapshots and their validators, the
      policy, the request with its contract and fingerprint, authority vectors,
      outcomes and explanations).
    - Ledger, History: src/engine/ledger.cpp, src/engine/history.cpp.
    - Bytes, Records, Journal, File: the byte codec, the seven durable payloads,
      src/durable/journal.cpp with the primitives of src/core/file.cpp it calls, and the
      handle and the whole-file operations of file.cpp on their own.
    - Engine, Admission, Api, Recovery: src/engine/engine_core.hpp, admission.cpp and
      engine.cpp.  [EngineCore] is the record of the state behind the one mutex; every
      member function is a definition of the same name in the monad [M EngineCore].
    - Report: the texts operators read.
    - Protocol, Stream, Stdio, Wire, Server, Socket, Client: src/ipc.  A transport is a type
      with an instance of the class [Stream]; [ReliableStream] states its laws; the
      in-memory stream, the socket stream and the stdio stream are instances.
    - Tools: tools/nafd.cpp and tools/nafctl.cpp up to what they print.
    - Capacity, Log, Frames, Grant, Safety, Enforce, Reach, Broker, Fencing, Restart,
      Compaction, Continuity, Mirror, Durable, Survival, Service, Exchange, Demo: the
      theorems, in the order in which they build on each other.  Log reads the journal's
      frames as records and states what each durable writer appends; Mirror says when a
      log tells the grants of an engine and that recovery from it brings them back;
      Durable and Survival prove that every public call keeps the log telling them, and
      that a call the process dies in leaves a file that tells all it did not take back.

    ** How the code is modelled

    - A 64-bit word is an [N]; operations that can wrap around write the reduction out
      ([w_add], [w_sub], [w_mul]).  A [std::map] is a [gmap] listed in key order
      ([items]); lists and strings are lists and strings.
    - Fallible code returns [Expected]; code with state runs in the monad [M S]: an
      error keeps the state reached, as an early return does.
    - Operating-system calls of the journal take their outcomes from a script in its
      state: success, or failure with an [errno] and, for a write, the part that still
      reached the file; or the end of the process ([IoGone]), after which no call has an
      effect, so that the file is as a crash at that point leaves it.  The calls of a
      socket are the class [Kernel].
    - A public call of the engine holds the mutex from its first to its last
      statement, so an execution is a sequence of calls, whatever the threads; the
      relations [engine_step] (Reach) and [wire_step] (Service) say which.  What other
      threads do to a connection enters as the values of the stop flag it reads.

    ** Bounds and fuel

    Loops that are not structural take fuel that is enough by construction: scanning
    and replaying a journal use the length of the file, since every frame has at least
    28 bytes; evicting attempts uses the size of the registry; reading exactly n bytes
    uses n, since an empty read ends it; a socket write uses the bytes to write and the
    signals still pending.  Serving a connection has no bound of its own: [serving_settles] proves that the bytes sent
    divided by twenty, a header's size, and a little more are enough.

    ** What the theorems show

    - The engine as a whole (Broker, Reach): it refines an abstract load broker; a
      grant that is gone never comes back; admitted load stays within the published
      authority in every run; the invariant holds in every run; clocks only advance.
    - One request (Safety, Capacity): a grant is sound; capacity evaluation is exact;
      retries are idempotent; conflicts and stale claims are refused; only a fresh
      grant moves load.
    - Change of authority (Enforce, Reach): enforcement restores the accounting and
      cannot overlook a grant; revocation and revalidation do and say what they should.
    - Fencing: exactly live claims pass, and a new incarnation fences the old one.
    - Durability (Journal, Records, Restart, Compaction, Continuity): codecs round-trip
      and are canonical; an acknowledged record survives a crash in the middle of the
      next; damage inside the history is refused; compaction is atomic; recovery
      restores exactly the committed load; a restart on a compacted journal is never
      refused and carries on with the same load.
    - Durability of whole runs (Mirror, Durable, Survival): after any run of public calls
      from a first start, a restart on the file is not refused and holds exactly the
      grants the process held; and when the process dies at any point of a call, the
      restart holds every grant that call does not take back, and nothing else but
      perhaps the grant it was making.  The run is one of a first process, whose calls on
      the file succeed until it dies, whose requests ask for more than nothing on no more
      resources than one record can hold, and after whose admissions the journal could be
      compacted.  What a write of a dead process left is a prefix of it; what the disk
      loses of synchronised data is outside the model.
    - The wire (Protocol, Wire, Service, Exchange, Socket): messages and frames
      round-trip over any reliable transport; whatever a peer sends, the accounting
      stands, serving ends and settles the session; an admission over the wire is the
      engine's admission; a lost reply is recovered by asking again.
    - Components: ledger, history, registry, validators, fingerprint, arithmetic and
      checksum each have their exactness theorems in their own file.
    - Theorems about concrete runs record where the code departs from what its
      documentation or its comments say, among them [path_total_wraps],
      [failed_append_poisons_journal], [failed_compaction_closes_journal],
      [exhausted_path_admitted], [fenced_claim_displaces_attempt],
      [orderly_goodbye_leaks_session], [wire_claims_unfenced],
      [recovered_grant_escapes_enforcement], [unrecorded_epoch_reused] and
      [interrupted_read_disconnects].

    ** Not modelled, and why

    - The Windows halves of file.cpp, stream.cpp and endpoint.cpp: the other build of
      the same interfaces, over calls whose behaviour is not in the sources.
    - The buffering of the C library behind the journal's file: a call has its outcome
      and its effect on the file at once.
    - What the tools print, signal handlers, and the threads [nafd] starts around [run].
    - Data races: the state is protected by one mutex, and each call is one step.
    - The benchmark, the consumer example and the tests: they only call what is
      modelled.

    ** This file

    Notations for machine words and record update, the error and state monads with
    their weakest-precondition rules and tactics, and lemmas on lists, options, maps
    and bits that the components share. *)

From Stdlib Require Export NArith Lia Ascii.
From stdpp Require Export base tactics option list numbers gmap strings sorting pretty.

#[export] Set Default Goal Selector "!".

(** ** Unsigned machine words

    A [std::uint64_t] is an [N] below [two64]; the operations that can wrap
    write the reduction out.  [std::size_t] is 64 bits wide as well. *)

Local Open Scope N_scope.

Declare Scope naf_scope.
Delimit Scope naf_scope with naf.

Definition two8 : N := 256.
Definition two16 : N := 65536.
Definition two32 : N := 4294967296.
Definition two64 : N := 18446744073709551616.
Definition u64_max : N := 18446744073709551615.
(** No container holds more elements than this. *)
Definition ptrdiff_max : N := 9223372036854775807.
Definition u32_max : N := 4294967295.

Definition wrap64 (x : N) : N := x mod two64.
Definition w_add (a b : N) : N := wrap64 (a + b).
Definition w_sub (a b : N) : N := wrap64 (a + two64 - b).
Definition w_mul (a b : N) : N := wrap64 (a * b).

Notation "a '+w' b" := (w_add a b) (at level 50, left associativity) : naf_scope.
Notation "a '-w' b" := (w_sub a b) (at level 50, left associativity) : naf_scope.
Notation "a '*w' b" := (w_mul a b) (at level 40, left associativity) : naf_scope.

(** A value that fits a 64-bit word. *)
Definition u64 (x : N) : Prop := (x < two64)%N.

(** ** Record update

    [r <| f := v |>] is the C++ assignment [r.f = v] on an immutable record.
    The setter of a field is found from the eta-expansion of its record. *)

Class Eta (R : Type) := eta : R -> R.
Class Setter {R T : Type} (proj : R -> T) := set_field : T -> R -> R.
#[global] Hint Mode Eta ! : typeclass_instances.

Ltac build_setter proj :=
  lazymatch type of proj with
  | ?R -> ?T =>
      let e := constr:(_ : Eta R) in
      let e' := eval cbv delta [eta] in e in
      let e'' := eval hnf in e' in
      let body := lazymatch e'' with (fun r => @?b r) => b end in
      let f := constr:(fun (v : T) (r : R) =>
        ltac:(let b := eval cbv beta in (body r) in
              let p := eval pattern (proj r) in b in
              lazymatch p with
              | ?g _ => let t := eval cbv beta in (g v) in exact t
              end)) in
      exact f
  end.

#[global] Hint Extern 1 (@Setter ?R ?T ?proj) => build_setter proj : typeclass_instances.

Notation "r <| f := v |>" := (set_field (proj := f) v r)
  (at level 1, left associativity, f at next level) : naf_scope.

(** ** Arithmetic automation

    [word_lia] is [lia] with the machine words opened and the reductions modulo
    [2^64] turned into their defining equations. *)

Ltac open_words :=
  unfold w_add, w_sub, w_mul, wrap64, u64, two64, u64_max, two32, u32_max, two16, two8 in *.
Ltac word_lia := open_words; zify; Z.to_euclidean_division_equations; lia.

(** Case analysis on the comparisons of the goal, innermost first. *)
Ltac ncase a b lem :=
  lazymatch a with
  | context [if _ then _ else _] => fail
  | _ => lazymatch b with context [if _ then _ else _] => fail | _ => destruct (lem a b) end
  end.
Ltac ncases :=
  repeat match goal with
    | |- context [N.ltb ?a ?b] => ncase a b N.ltb_spec
    | |- context [N.leb ?a ?b] => ncase a b N.leb_spec
    | |- context [N.eqb ?a ?b] => ncase a b N.eqb_spec
    end; cbn [negb andb orb].

Lemma w_add_exact (a b : N) : (a + b < two64)%N -> w_add a b = (a + b)%N.
Proof. intros. unfold w_add, wrap64. by rewrite N.mod_small. Qed.

Lemma w_sub_exact (a b : N) : u64 a -> (b <= a)%N -> w_sub a b = (a - b)%N.
Proof. intros. word_lia. Qed.

Lemma w_sub_borrow (a b : N) : (a < b)%N -> (b <= two64)%N -> w_sub a b = (a + two64 - b)%N.
Proof. intros. word_lia. Qed.

Lemma wrap64_u64 (x : N) : u64 (wrap64 x).
Proof. word_lia. Qed.

Lemma u64_le (x y : N) : u64 y -> (x <= y)%N -> u64 x.
Proof. unfold u64. lia. Qed.

Create HintDb naf discriminated.
#[export] Hint Resolve wrap64_u64 : naf.
Create Rewrite HintDb words.
#[export] Hint Rewrite w_add_exact w_sub_exact using (open_words; lia) : words.

(** ** Status and expected values (src/include/naf/core/status.hpp)

    A C++ function returning [Status] is a computation in [Expected unit]:
    [Val tt] is [Status::ok()], [Err s] an error status.  [Status] itself is the
    value the program stores in its reports. *)

Inductive StatusCode :=
  | Ok | InvalidArgument | MalformedInput | OversizedInput | UnknownResource | UnknownPath
  | DuplicateIdentity | ConflictIdentity | StaleGenerationCode | EpochMismatch | Fenced | NotFound
  | AlreadyExists | ArithmeticOverflow | ArithmeticUnderflow | CapacityViolation
  | AuthorityViolation | DurableFailure | CorruptJournal | TruncatedFrame | OversizedFrame
  | ProtocolViolation | TransportFailure | Unsupported | ShuttingDown | Busy | Internal.

#[export] Instance StatusCode_eq_dec : EqDecision StatusCode.
Proof. solve_decision. Defined.

Record Status := mkStatus { code : StatusCode; message : string }.

#[export] Instance Status_eq_dec : EqDecision Status.
Proof. solve_decision. Defined.

Definition status_ok : Status := mkStatus Ok "".
Definition status_error (c : StatusCode) (m : string) : Status := mkStatus c m.
Definition is_ok (s : Status) : bool := bool_decide (code s = Ok).

Definition code_to_string (c : StatusCode) : string :=
  match c with
  | Ok => "ok"
  | InvalidArgument => "invalid_argument"
  | MalformedInput => "malformed_input"
  | OversizedInput => "oversized_input"
  | UnknownResource => "unknown_resource"
  | UnknownPath => "unknown_path"
  | DuplicateIdentity => "duplicate_identity"
  | ConflictIdentity => "conflict_identity"
  | StaleGenerationCode => "stale_generation"
  | EpochMismatch => "epoch_mismatch"
  | Fenced => "fenced"
  | NotFound => "not_found"
  | AlreadyExists => "already_exists"
  | ArithmeticOverflow => "arithmetic_overflow"
  | ArithmeticUnderflow => "arithmetic_underflow"
  | CapacityViolation => "capacity_violation"
  | AuthorityViolation => "authority_violation"
  | DurableFailure => "durable_failure"
  | CorruptJournal => "corrupt_journal"
  | TruncatedFrame => "truncated_frame"
  | OversizedFrame => "oversized_frame"
  | ProtocolViolation => "protocol_violation"
  | TransportFailure => "transport_failure"
  | Unsupported => "unsupported"
  | ShuttingDown => "shutting_down"
  | Busy => "busy"
  | Internal => "internal"
  end.
Definition status_to_string (s : Status) : string :=
  code_to_string (code s) +:+ (if String.eqb (message s) "" then "" else ": " +:+ message s).

Inductive Expected (A : Type) :=
  | Val (value : A)
  | Err (status : Status).
Arguments Val {_} _.
Arguments Err {_} _.

Definition has_value {A} (e : Expected A) : bool :=
  match e with Val _ => true | Err _ => false end.

Definition status_of {A} (e : Expected A) : Status :=
  match e with Val _ => status_ok | Err s => s end.

#[export] Instance expected_ret : MRet Expected := fun A a => Val a.
#[export] Instance expected_bind : MBind Expected := fun A B f m =>
  match m with Val a => f a | Err s => Err s end.
#[export] Instance expected_fmap : FMap Expected := fun A B f m =>
  match m with Val a => Val (f a) | Err s => Err s end.

Definition malformed {A} (m : string) : Expected A := Err (status_error MalformedInput m).
Definition oversized {A} (m : string) : Expected A := Err (status_error OversizedInput m).
Definition error {A} (c : StatusCode) (m : string) : Expected A := Err (status_error c m).

(** [refuse_if b e] is the guard [if (b) return e;]. *)
Definition refuse_if (b : bool) (e : Expected unit) : Expected unit :=
  if b then e else Val tt.

Lemma expected_bind_val {A B} (m : Expected A) (f : A -> Expected B) (b : B) :
  m ≫= f = Val b <-> exists a, m = Val a /\ f a = Val b.
Proof. destruct m; cbn; naive_solver. Qed.

Lemma refuse_seq {A} (b : bool) (s : Status) (k : Expected A) (a : A) :
  (refuse_if b (Err s) ;; k) = Val a <-> b = false /\ k = Val a.
Proof. destruct b; cbn; naive_solver. Qed.

Lemma bind_unit_val {A} (m : Expected unit) (k : Expected A) (a : A) :
  (m ;; k) = Val a <-> m = Val tt /\ k = Val a.
Proof. destruct m as [[]|]; cbn; naive_solver. Qed.

(** ** The state and error monad of the stateful components

    A method that mutates its object and may return early with an error: the
    mutations made before the early return stay. *)

Definition M (S A : Type) : Type := S -> Expected A * S.

#[export] Instance M_ret {S} : MRet (M S) := fun A a s => (Val a, s).
#[export] Instance M_bind {S} : MBind (M S) := fun A B f m s =>
  match m s with
  | (Val a, s') => f a s'
  | (Err e, s') => (Err e, s')
  end.

Definition get {S} : M S S := fun s => (Val s, s).
Definition gets {S A} (f : S -> A) : M S A := fun s => (Val (f s), s).
Definition modify {S} (f : S -> S) : M S unit := fun s => (Val tt, f s).
Definition lift {S A} (e : Expected A) : M S A := fun s => (e, s).
Definition fail {S A} (c : StatusCode) (m : string) : M S A := lift (error c m).
(** [attempt m] runs [m] and hands its status to the continuation. *)
Definition attempt {S A} (m : M S A) : M S (Expected A) := fun s =>
  let '(r, s') := m s in (Val r, s').

(** A weakest precondition for the monad: [wp m Q s] holds when running [m]
    from [s] ends in a result and state satisfying [Q]. *)
Definition wp {S A} (m : M S A) (Q : Expected A -> S -> Prop) (s : S) : Prop :=
  Q (m s).1 (m s).2.

Section wp.
Context {S : Type}.

Lemma wp_ret {A} (a : A) Q (s : S) : Q (Val a) s -> wp (mret a) Q s.
Proof. done. Qed.

Lemma wp_bind {A B} (m : M S A) (k : A -> M S B) Q s :
  wp m (fun r s' => match r with Val a => wp (k a) Q s' | Err e => Q (Err e) s' end) s ->
  wp (m ≫= k) Q s.
Proof. unfold wp, mbind, M_bind. destruct (m s) as [[a|e] s']; done. Qed.

Lemma wp_attempt {A} (m : M S A) Q s :
  wp m (fun r s' => Q (Val r) s') s -> wp (attempt m) Q s.
Proof. unfold wp, attempt. destruct (m s); done. Qed.

Lemma wp_get Q (s : S) : Q (Val s) s -> wp get Q s.
Proof. done. Qed.

Lemma wp_gets {A} (f : S -> A) Q s : Q (Val (f s)) s -> wp (gets f) Q s.
Proof. done. Qed.

Lemma wp_modify f Q (s : S) : Q (Val tt) (f s) -> wp (modify f) Q s.
Proof. done. Qed.

Lemma wp_lift {A} (e : Expected A) Q (s : S) : Q e s -> wp (lift e) Q s.
Proof. done. Qed.

Lemma wp_mono {A} (m : M S A) (Q Q' : Expected A -> S -> Prop) s :
  wp m Q s -> (forall r s', Q r s' -> Q' r s') -> wp m Q' s.
Proof. unfold wp. auto. Qed.

Lemma wp_runs {A} (m : M S A) Q s : wp m Q s <-> exists r s', m s = (r, s') /\ Q r s'.
Proof. unfold wp. destruct (m s) as [r s']. naive_solver. Qed.

Lemma wp_elim {A} (m : M S A) Q s r s' : wp m Q s -> m s = (r, s') -> Q r s'.
Proof. unfold wp. intros H E. by rewrite E in H. Qed.
End wp.

(** Rewriting the first operation of a sequence. *)
Lemma bind_run {S A B} (m : M S A) (k : A -> M S B) (s s' : S) (a : A) :
  m s = (Val a, s') -> (m ≫= k) s = k a s'.
Proof. intros H. unfold mbind, M_bind. by rewrite H. Qed.

(** Runs straight-line code of the monad one operation at a time. *)
Ltac wp_step :=
  lazymatch goal with
  | |- wp (mbind _ _) _ _ => apply wp_bind
  | |- wp get _ _ => apply wp_get
  | |- wp (gets _) _ _ => apply wp_gets
  | |- wp (modify _) _ _ => apply wp_modify
  | |- wp (mret _) _ _ => apply wp_ret
  | |- wp (attempt _) _ _ => apply wp_attempt
  end.
Ltac wp_run := repeat wp_step.

(** ** Bit lemmas shared by the arithmetic and the codecs *)

Lemma testbit_above (b n m : N) : (b < 2 ^ n)%N -> (n <= m)%N -> N.testbit b m = false.
Proof.
  intros Hb Hm. destruct (N.eq_dec b 0) as [->|Hne]; [apply N.bits_0|].
  apply N.bits_above_log2. apply N.log2_lt_pow2 in Hb; lia.
Qed.

Lemma land_shift_low (a b n : N) : (b < 2 ^ n)%N -> N.land (a * 2 ^ n) b = 0%N.
Proof.
  intros Hb. apply N.bits_inj_0. intros m. rewrite N.land_spec.
  destruct (N.lt_ge_cases m n).
  - by rewrite N.mul_pow2_bits_low.
  - by rewrite (testbit_above b n m), andb_false_r.
Qed.

(** Joining a high part and a low part that do not overlap. *)
Lemma lor_shift_add (a b n : N) : (b < 2 ^ n)%N -> N.lor (a * 2 ^ n) b = (a * 2 ^ n + b)%N.
Proof.
  intros Hb. pose proof (land_shift_low a b n Hb) as H0.
  by rewrite N.add_nocarry_lxor, N.lxor_lor.
Qed.

Lemma land_low_mask (x n : N) : N.land x (N.ones n) = (x mod 2 ^ n)%N.
Proof. apply N.land_ones. Qed.

(** The sum of a list of words, as a mathematical integer. *)
Definition sumN (l : list N) : N := foldr N.add 0%N l.

Lemma sumN_app (l k : list N) : sumN (l ++ k) = (sumN l + sumN k)%N.
Proof. induction l as [|x l IH]; cbn; [done|]. fold (sumN (l ++ k)) (sumN l). lia. Qed.

Lemma sumN_elem (x : N) (l : list N) : x ∈ l -> (x <= sumN l)%N.
Proof. induction 1; cbn; fold (sumN l); lia. Qed.

#[export] Instance sumN_perm : Proper ((≡ₚ) ==> eq) sumN.
Proof. intros l k. induction 1; cbn; unfold sumN in *; lia. Qed.

(** The sum of [f] over a finite map. *)
Definition map_sum {A} (f : N -> A -> N) (m : gmap N A) : N :=
  sumN ((fun p => f p.1 p.2) <$> map_to_list m).

Lemma map_sum_empty {A} (f : N -> A -> N) : map_sum f ∅ = 0%N.
Proof. unfold map_sum. by rewrite map_to_list_empty. Qed.

Lemma map_sum_insert {A} (f : N -> A -> N) (m : gmap N A) (k : N) (a : A) :
  m !! k = None -> map_sum f (<[k := a]> m) = (f k a + map_sum f m)%N.
Proof. intros Hk. unfold map_sum. by rewrite map_to_list_insert. Qed.

Lemma map_sum_ext {A B} (f : N -> A -> N) (g : N -> B -> N) (m : gmap N A) (m' : gmap N B) :
  (forall k, f k <$> m !! k = g k <$> m' !! k) -> map_sum f m = map_sum g m'.
Proof.
  revert m'. induction m as [|k a m Hk IH] using map_ind; intros m' H.
  - assert (m' = ∅) as ->; [|by rewrite !map_sum_empty].
    apply map_empty. intros k. specialize (H k). rewrite lookup_empty in H. by destruct (m' !! k).
  - pose proof (H k) as Hb. rewrite lookup_insert_eq in Hb. destruct (m' !! k) as [b|] eqn:E; [|done].
    injection Hb as Hb. rewrite <- (insert_delete_id m' k b) by done.
    rewrite !map_sum_insert by (done || apply lookup_delete_eq). f_equal; [done|]. apply IH.
    intros i. specialize (H i). destruct (decide (i = k)) as [->|Hne].
    + by rewrite Hk, lookup_delete_eq.
    + by rewrite lookup_insert_ne in H by done; rewrite lookup_delete_ne by done.
Qed.

Lemma map_sum_subseteq {A} (f : N -> A -> N) (m m' : gmap N A) : m ⊆ m' -> (map_sum f m <= map_sum f m')%N.
Proof.
  revert m'. induction m as [|k a m Hk IH] using map_ind; intros m' H; [rewrite map_sum_empty; lia|].
  assert (E : m' !! k = Some a) by (eapply lookup_weaken; [apply lookup_insert_eq|done]).
  rewrite <- (insert_delete_id m' k a) by done.
  rewrite !map_sum_insert by (done || apply lookup_delete_eq).
  apply N.add_le_mono_l, IH. apply map_subseteq_spec. intros i x Hi.
  assert (i <> k) by congruence. rewrite lookup_delete_ne by done.
  eapply lookup_weaken; [|exact H]. by rewrite lookup_insert_ne.
Qed.

Lemma elem_mid {A} (l k : list A) (x : A) : x ∈ l ++ x :: k.
Proof. apply elem_of_app. right. left. Qed.

(** ** Ordered maps

    A [std::map] is a [gmap]; its iteration visits the keys in ascending order,
    which [map_keys] lists and [map_items] pairs with the values. *)

Section ordered.
Context {K : Type} `{Countable K} (le : relation K) `{!RelDecision le} {A : Type}.

Definition map_keys (m : gmap K A) : list K := merge_sort le (map_to_list m).*1.
Definition map_items (m : gmap K A) : list (K * A) :=
  map_keys m ≫= fun k => match m !! k with Some a => [(k, a)] | None => [] end.

Lemma map_keys_perm (m : gmap K A) : map_keys m ≡ₚ (map_to_list m).*1.
Proof. apply merge_sort_Permutation. Qed.

Lemma elem_of_map_keys (m : gmap K A) (k : K) : k ∈ map_keys m <-> is_Some (m !! k).
Proof.
  rewrite map_keys_perm, list_elem_of_fmap. split.
  - intros ([k' a] & -> & Hin). apply elem_of_map_to_list in Hin. by exists a.
  - intros [a Ha]. exists (k, a). by rewrite elem_of_map_to_list.
Qed.

Lemma map_keys_NoDup (m : gmap K A) : NoDup (map_keys m).
Proof. rewrite map_keys_perm. apply NoDup_fst_map_to_list. Qed.

Lemma map_keys_sorted `{!Total le} (m : gmap K A) : Sorted le (map_keys m).
Proof. apply Sorted_merge_sort; apply _. Qed.

Lemma map_keys_length (m : gmap K A) : length (map_keys m) = size m.
Proof. by rewrite map_keys_perm, length_fmap, length_map_to_list. Qed.

Lemma elem_of_map_items (m : gmap K A) (k : K) (a : A) :
  (k, a) ∈ map_items m <-> m !! k = Some a.
Proof.
  unfold map_items. rewrite list_elem_of_bind. split.
  - intros (k' & Hin & _). destruct (m !! k') eqn:E; [|by apply not_elem_of_nil in Hin].
    by apply list_elem_of_singleton in Hin as [= -> ->].
  - intros Hk. exists k. rewrite Hk, list_elem_of_singleton, elem_of_map_keys. by split.
Qed.

Lemma map_items_perm (m : gmap K A) : map_items m ≡ₚ map_to_list m.
Proof.
  unfold map_items.
  assert (Hl : forall l, (forall k a, (k, a) ∈ l -> m !! k = Some a) ->
               (l.*1 ≫= fun k => match m !! k return list (K * A) with Some a => [(k, a)] | None => [] end) = l).
  { induction l as [|[k a] l IH]; intros Hm; [done|]. cbn. rewrite (Hm k a), IH; [done| |left].
    intros k' a' Hin. apply Hm. by right. }
  rewrite <- (Hl (map_to_list m)); [by rewrite map_keys_perm|].
  intros k a. by rewrite elem_of_map_to_list.
Qed.
End ordered.

Abbreviation keys := (map_keys N.le).
Abbreviation items := (map_items N.le).

Lemma StronglySorted_filter {A} (R : relation A) (P : A -> Prop) `{!forall x, Decision (P x)}
    (l : list A) : StronglySorted R l -> StronglySorted R (filter P l).
Proof.
  induction 1 as [|x l Hl IH Hx]; [constructor|]. rewrite filter_cons. case_decide; [|done].
  constructor; [done|]. apply Forall_forall. intros y [_ Hy]%list_elem_of_filter.
  rewrite Forall_forall in Hx. auto.
Qed.

(** Iteration visits the keys in strictly ascending order. *)
Lemma keys_ascending {A} (m : gmap N A) : StronglySorted N.lt (keys m).
Proof.
  assert (Hs : StronglySorted N.le (keys m))
    by (apply Sorted_StronglySorted; [apply _|apply map_keys_sorted; apply _]).
  pose proof (map_keys_NoDup N.le m) as Hnd. revert Hs Hnd.
  induction 1 as [|x l Hl IH Hx]; intros Hnd; constructor.
  - apply IH. by apply NoDup_cons in Hnd as [_ ?].
  - apply NoDup_cons in Hnd as [Hnin _]. apply Forall_forall. intros y Hy.
    rewrite Forall_forall in Hx. specialize (Hx y Hy).
    assert (x <> y) by (by intros ->). lia.
Qed.

Lemma items_ascending {A} (m : gmap N A) : StronglySorted (fun p q => p.1 < q.1) (items m).
Proof.
  unfold map_items. pose proof (keys_ascending m) as Hs. revert Hs.
  induction 1 as [|k l Hl IH Hk]; cbn; [constructor|].
  apply StronglySorted_app_2; [| |exact IH].
  - intros p q Hp (k' & Hq & Hin)%list_elem_of_bind.
    rewrite Forall_forall in Hk. specialize (Hk k' Hin).
    destruct (m !! k); [|by apply not_elem_of_nil in Hp]. apply list_elem_of_singleton in Hp as ->.
    destruct (m !! k'); [|by apply not_elem_of_nil in Hq]. by apply list_elem_of_singleton in Hq as ->.
  - destruct (m !! k); repeat constructor.
Qed.

Lemma last_greatest (l : list N) (x y : N) :
  StronglySorted N.lt l -> last l = Some x -> y ∈ l -> y <= x.
Proof.
  intros Hs [l' ->]%last_Some [Hy| ->%list_elem_of_singleton]%elem_of_app; [|done].
  apply N.lt_le_incl. eapply (StronglySorted_app_1_elem_of _ _ _ _ _ Hs Hy). left.
Qed.
