(* ===== verification/Checked.v ===== *)
(** * Checked integer arithmetic (src/include/naf/core/checked.hpp)

    Every capacity computation of the runtime goes through these helpers.  The
    128-bit helpers exist twice in the source, once on the compiler's 128-bit
    integer and once portably; both are modelled and proved equal. *)

From S2P Require Import Prelude.
Local Open Scope N_scope.
Local Open Scope naf_scope.

(** ** Definitions *)

Record U128 := mkU128 { hi : N; lo : N }.

Definition u128_val (v : U128) : N := hi v * two64 + lo v.
Definition u128_ok (v : U128) : Prop := u64 (hi v) /\ u64 (lo v).

Definition mul_u64_portable (a b : N) : U128 :=
  let a0 := N.land a u32_max in
  let a1 := N.shiftr a 32 in
  let b0 := N.land b u32_max in
  let b1 := N.shiftr b 32 in
  let p00 := a0 *w b0 in
  let p01 := a0 *w b1 in
  let p10 := a1 *w b0 in
  let p11 := a1 *w b1 in
  let mid := N.shiftr p00 32 +w N.land p01 u32_max +w N.land p10 u32_max in
  mkU128 (p11 +w N.shiftr p01 32 +w N.shiftr p10 32 +w N.shiftr mid 32)
         (N.lor (N.land p00 u32_max) (wrap64 (N.shiftl mid 32))).

(** The [unsigned __int128] branch. *)
Definition mul_u64 (a b : N) : U128 :=
  let p := a * b in mkU128 (wrap64 (N.shiftr p 64)) (wrap64 p).

(** One iteration of the long division for bit [i]. *)
Definition divmod_step (lo d : N) (i : nat) (st : N * N) : N * N :=
  let '(rem, quot) := st in
  let bit := N.land (N.shiftr lo (N.of_nat i)) 1 in
  let carry := N.shiftr rem 63 in
  let rem' := N.lor (wrap64 (N.shiftl rem 1)) bit in
  if negb (carry =? 0) || (d <=? rem')
  then (rem' -w d, N.lor quot (wrap64 (N.shiftl 1 (N.of_nat i))))
  else (rem', quot).

(** [for (int i = n - 1; i >= 0; --i)] *)
Fixpoint divmod_loop (lo d : N) (n : nat) (st : N * N) : N * N :=
  match n with
  | O => st
  | S i => divmod_loop lo d i (divmod_step lo d i st)
  end.

(** [None] is [return false]; [Some (q, r)] sets both out parameters. *)
Definition divmod_u128_portable (v : U128) (d : N) : option (N * N) :=
  if d =? 0 then None
  else if d <=? hi v then None
  else let '(rem, quot) := divmod_loop (lo v) d 64 (hi v, 0) in Some (quot, rem).

Definition divmod_u128 (v : U128) (d : N) : option (N * N) :=
  if d =? 0 then None
  else if d <=? hi v then None
  else let n := N.lor (N.shiftl (hi v) 64) (lo v) in
       Some (wrap64 (n / d), wrap64 (n mod d)).

Definition mul_div_floor (a num den : N) : option N :=
  if den =? 0 then None
  else if (a =? 0) || (num =? 0) then Some 0
  else match divmod_u128 (mul_u64 a num) den with
       | None => None
       | Some (q, _) => Some q
       end.

Definition mul_div_ceil (a num den : N) : option N :=
  if den =? 0 then None
  else if (a =? 0) || (num =? 0) then Some 0
  else match divmod_u128 (mul_u64 a num) den with
       | None => None
       | Some (q, r) =>
           if negb (r =? 0)
           then if q =? u64_max then None else Some (q +w 1)
           else Some q
       end.

Definition add_u64 (a b : N) : option N :=
  if (u64_max -w b) <? a then None else Some (a +w b).

Definition sub_u64 (a b : N) : option N :=
  if a <? b then None else Some (a -w b).

Definition sat_add (a b : N) : N :=
  match add_u64 a b with Some out => out | None => u64_max end.

Definition sat_sub (a b : N) : N := if a <? b then 0 else a -w b.

Definition sat_mul_div_floor (a num den : N) : N :=
  match mul_div_floor a num den with Some out => out | None => u64_max end.

(** Running sum with an overflow latch. *)
Record SumLatch := mkSumLatch { total : N; overflowed : bool }.

Definition SumLatch_new : SumLatch := mkSumLatch 0 false.

Definition SumLatch_add (l : SumLatch) (v : N) : SumLatch :=
  if overflowed l then l
  else match add_u64 (total l) v with
       | Some t => mkSumLatch t false
       | None => mkSumLatch (total l) true
       end.

Definition saturated_total (l : SumLatch) : N :=
  if overflowed l then u64_max else total l.

(** [SumLatch latch; for (v : vs) latch.add(v);] *)
Definition SumLatch_of (vs : list N) : SumLatch := foldl SumLatch_add SumLatch_new vs.

(** ** Saturating and checked addition and subtraction *)

Lemma add_u64_spec (a b : N) :
  u64 a -> u64 b -> add_u64 a b = if a + b <? two64 then Some (a + b) else None.
Proof.
  intros Ha Hb. unfold add_u64.
  rewrite w_sub_exact by (open_words; lia).
  destruct (N.ltb_spec (u64_max - b) a), (N.ltb_spec (a + b) two64); try (open_words; lia).
  - done.
  - by rewrite w_add_exact.
Qed.

Lemma sub_u64_spec (a b : N) :
  u64 a -> u64 b -> sub_u64 a b = if a <? b then None else Some (a - b).
Proof.
  intros Ha Hb. unfold sub_u64. destruct (N.ltb_spec a b); [done|].
  by rewrite w_sub_exact by (open_words; lia).
Qed.

Lemma sat_add_spec (a b : N) : u64 a -> u64 b -> sat_add a b = N.min (a + b) u64_max.
Proof.
  intros Ha Hb. unfold sat_add. rewrite add_u64_spec by done.
  destruct (N.ltb_spec (a + b) two64); open_words; lia.
Qed.

Lemma sat_sub_spec (a b : N) : u64 a -> sat_sub a b = a - b.
Proof.
  intros Ha. unfold sat_sub. destruct (N.ltb_spec a b); [lia|]. by rewrite w_sub_exact.
Qed.

Lemma sat_add_u64 (a b : N) : u64 a -> u64 b -> u64 (sat_add a b).
Proof. intros. rewrite sat_add_spec by done. open_words. lia. Qed.

Lemma sat_sub_u64 (a b : N) : u64 a -> u64 (sat_sub a b).
Proof. intros. rewrite sat_sub_spec by done. open_words. lia. Qed.

Lemma sat_sub_le (a b : N) : u64 a -> sat_sub a b <= a.
Proof. intros. rewrite sat_sub_spec by done. lia. Qed.

#[export] Hint Resolve sat_add_u64 sat_sub_u64 : naf.

(** ** 128-bit multiplication *)

Lemma mul_u64_spec (a b : N) :
  u64 a -> u64 b -> u128_val (mul_u64 a b) = a * b /\ u128_ok (mul_u64 a b).
Proof.
  unfold u128_val, u128_ok, u64. intros Ha Hb.
  assert (a * b < two64 * two64) by (unfold two64 in *; nia).
  cbn [mul_u64 hi lo]. rewrite N.shiftr_div_pow2. change (2 ^ 64) with two64.
  assert (a * b / two64 < two64) by (apply N.Div0.div_lt_upper_bound; lia).
  unfold wrap64. rewrite (N.mod_small (a * b / two64)) by done.
  pose proof (N.mod_lt (a * b) two64 ltac:(done)).
  pose proof (N.div_mod (a * b) two64 ltac:(done)). split; [lia|done].
Qed.

(** A number splits into its two halves. *)
Lemma half_split (x : N) :
  x = (N.shiftr x 32) * two32 + N.land x u32_max /\ N.land x u32_max < two32.
Proof.
  change u32_max with (N.ones 32). rewrite land_low_mask, N.shiftr_div_pow2.
  change (2 ^ 32) with two32. pose proof (N.div_mod x two32 ltac:(done)).
  pose proof (N.mod_lt x two32 ltac:(done)). lia.
Qed.

Lemma half_high (x : N) : u64 x -> N.shiftr x 32 < two32.
Proof.
  intros Hx. rewrite N.shiftr_div_pow2. change (2 ^ 32) with two32.
  apply N.Div0.div_lt_upper_bound. by open_words.
Qed.

Lemma half_mul (x y : N) : x < two32 -> y < two32 -> x * y <= 18446744065119617025.
Proof. unfold two32. nia. Qed.

Lemma mul_u64_portable_value (a b : N) :
  u64 a -> u64 b -> u128_val (mul_u64_portable a b) = a * b /\ u128_ok (mul_u64_portable a b).
Proof.
  intros Ha Hb.
  pose proof (half_high a Ha) as Ha1. pose proof (half_high b Hb) as Hb1.
  destruct (half_split a) as [Ea Ha0], (half_split b) as [Eb Hb0].
  unfold mul_u64_portable, u128_val, u128_ok. cbn [hi lo].
  set (a0 := N.land a u32_max) in *. set (a1 := N.shiftr a 32) in *.
  set (b0 := N.land b u32_max) in *. set (b1 := N.shiftr b 32) in *.
  clearbody a0 a1 b0 b1.
  pose proof (half_mul a0 b0 Ha0 Hb0). pose proof (half_mul a0 b1 Ha0 Hb1).
  pose proof (half_mul a1 b0 Ha1 Hb0). pose proof (half_mul a1 b1 Ha1 Hb1).
  unfold w_mul, wrap64. rewrite !(N.mod_small (_ * _)) by (open_words; lia).
  destruct (half_split (a0 * b0)) as [E00 H00], (half_split (a0 * b1)) as [E01 H01],
    (half_split (a1 * b0)) as [E10 H10].
  assert (a * b = a1 * b1 * (two32 * two32) + (a0 * b1 + a1 * b0) * two32 + a0 * b0) as ->
    by (rewrite Ea, Eb; unfold two32; lia).
  set (p00 := a0 * b0) in *. set (p01 := a0 * b1) in *. set (p10 := a1 * b0) in *.
  set (p11 := a1 * b1) in *.
  set (h00 := N.shiftr p00 32) in *. set (h01 := N.shiftr p01 32) in *.
  set (h10 := N.shiftr p10 32) in *.
  set (l00 := N.land p00 u32_max) in *. set (l01 := N.land p01 u32_max) in *.
  set (l10 := N.land p10 u32_max) in *. clearbody p00 p01 p10 p11 h00 h01 h10 l00 l01 l10.
  rewrite (w_add_exact h00) by (open_words; lia).
  rewrite (w_add_exact (h00 + l01)) by (open_words; lia).
  set (mid := h00 + l01 + l10).
  destruct (half_split mid) as [Em Hm].
  rewrite N.shiftl_mul_pow2. change (2 ^ 32) with two32.
  replace (mid * two32 mod two64) with (N.land mid u32_max * two32) by
    (rewrite Em at 2; set (hm := N.shiftr mid 32); set (lm := N.land mid u32_max) in *;
     clearbody hm lm; rewrite N.mul_add_distr_r, <- N.mul_assoc;
     change (two32 * two32) with two64; rewrite N.add_comm, N.Div0.mod_add;
     rewrite N.mod_small; [done | open_words; lia]).
  rewrite N.lor_comm. change (N.land mid u32_max * two32) with (N.land mid u32_max * 2 ^ 32).
  rewrite lor_shift_add by done.
  set (hm := N.shiftr mid 32) in *. set (lm := N.land mid u32_max) in *.
  change (2 ^ 32) with two32. unfold mid in Em. clearbody hm lm mid.
  rewrite (w_add_exact p11), (w_add_exact (p11 + h01)), (w_add_exact (p11 + h01 + h10));
    open_words; lia.
Qed.

Lemma mul_u64_portable_eq (a b : N) : u64 a -> u64 b -> mul_u64_portable a b = mul_u64 a b.
Proof.
  intros Ha Hb.
  destruct (mul_u64_portable_value a b Ha Hb) as [E1 [H1 L1]].
  destruct (mul_u64_spec a b Ha Hb) as [E2 [H2 L2]].
  destruct (mul_u64_portable a b) as [h1 l1], (mul_u64 a b) as [h2 l2].
  unfold u128_val, u64 in *. cbn [hi lo] in *.
  assert (h1 = h2) as -> by (unfold two64 in *; lia). f_equal. lia.
Qed.

(** ** 128-by-64 division *)

Lemma double_lor_bit (x bit : N) : bit < 2 -> N.lor (2 * x) bit = 2 * x + bit.
Proof. intros. rewrite (N.mul_comm 2 x). apply (lor_shift_add x bit 1). by change (2 ^ 1) with 2. Qed.

(** Shifting in bit [i] of the low word turns the prefix [v / 2^(i+1)] into [v / 2^i]. *)
Lemma prefix_step (v i : N) : v / 2 ^ i = 2 * (v / 2 ^ (i + 1)) + N.land (N.shiftr v i) 1.
Proof.
  rewrite N.add_1_r, N.pow_succ_r', (N.mul_comm 2 (2 ^ i)), <- N.Div0.div_div.
  change 1 with (N.ones 1). rewrite land_low_mask, N.shiftr_div_pow2.
  change (2 ^ 1) with 2. apply N.div_mod. done.
Qed.

Lemma low_word_bit (h l i : N) :
  i < 64 -> N.land (N.shiftr (h * two64 + l) i) 1 = N.land (N.shiftr l i) 1.
Proof.
  intros Hi. change 1 with (N.ones 1). rewrite !land_low_mask, !N.shiftr_div_pow2.
  change (2 ^ 1) with 2.
  replace (h * two64) with (2 * (h * 2 ^ (63 - i)) * 2 ^ i).
  2:{ transitivity (h * (2 * (2 ^ (63 - i) * 2 ^ i))); [lia|].
      rewrite <- N.pow_add_r. by replace (63 - i + i) with 63 by lia. }
  rewrite N.add_comm, N.div_add by (apply N.pow_nonzero; done).
  by rewrite (N.mul_comm 2 (h * _)), N.Div0.mod_add.
Qed.

Section division.
Context (v : U128) (d : N).
Hypothesis Hv : u128_ok v.
Hypothesis Hd : u64 d.

(** Before bit [i-1] is shifted in: the quotient's bits from [i] up and the
    remainder divide the prefix of the dividend. *)
Definition divmod_inv (i : nat) (st : N * N) : Prop :=
  exists Q, st.2 = Q * 2 ^ N.of_nat i /\ st.1 < d /\
            u128_val v / 2 ^ N.of_nat i = Q * d + st.1 /\ Q * 2 ^ N.of_nat i < two64.

Lemma divmod_step_inv (i : nat) (st : N * N) :
  (i < 64)%nat -> divmod_inv (S i) st -> divmod_inv i (divmod_step (lo v) d i st).
Proof.
  destruct st as [rem quot]. intros Hi (Q & Hq & Hr & Hpre & HQ). cbn [fst snd] in *.
  replace (N.of_nat (S i)) with (N.of_nat i + 1) in * by lia.
  pose proof (prefix_step (u128_val v) (N.of_nat i)) as Hs.
  unfold u128_val in Hs at 3. rewrite low_word_bit in Hs by lia.
  unfold divmod_step. set (bit := N.land (N.shiftr (lo v) (N.of_nat i)) 1) in *.
  assert (bit < 2) as Hbit.
  { unfold bit. change 1 with (N.ones 1) at 1. rewrite land_low_mask. by apply N.mod_lt. }
  rewrite N.shiftr_div_pow2, N.shiftl_mul_pow2. change (2 ^ 63) with 9223372036854775808.
  change (2 ^ 1) with 2.
  assert (wrap64 (rem * 2) = 2 * (wrap64 (rem * 2) / 2) /\
          wrap64 (rem * 2) = if rem / 9223372036854775808 =? 0 then rem * 2 else rem * 2 - two64)
    as [Hw Hc].
  { destruct (N.eqb_spec (rem / 9223372036854775808) 0); word_lia. }
  rewrite Hw, double_lor_bit, <- Hw, Hc by done. clear Hw Hc.
  rewrite N.add_1_r, N.pow_succ_r' in *.
  set (P := 2 ^ N.of_nat i) in *.
  assert (Hone : wrap64 (N.shiftl 1 (N.of_nat i)) = P).
  { rewrite N.shiftl_1_l. unfold wrap64. apply N.mod_small.
    change two64 with (2 ^ 64). apply N.pow_lt_mono_r; lia. }
  assert (Hlor : N.lor (Q * (2 * P)) P = (2 * Q + 1) * P).
  { rewrite N.mul_assoc. replace P with (2 ^ N.of_nat i * 1) at 2 by (unfold P; lia).
    rewrite (N.mul_comm (Q * 2)), N.mul_comm with (m := 1).
    fold P. replace (P * (Q * 2)) with (Q * 2 ^ (N.of_nat i + 1)).
    - rewrite N.mul_1_l. rewrite lor_shift_add; rewrite N.add_1_r, N.pow_succ_r'; fold P; [lia|].
      pose proof (N.pow_nonzero 2 (N.of_nat i) ltac:(done)). lia.
    - rewrite N.add_1_r, N.pow_succ_r'. fold P. lia. }
  assert (HP : P <> 0) by (apply N.pow_nonzero; done).
  rewrite Hone, Hq, Hlor.
  assert (HQP : (2 * Q + 1) * P < two64).
  { replace two64 with (2 ^ (64 - N.of_nat i) * P).
    - apply N.mul_lt_mono_pos_r; [lia|].
      replace (64 - N.of_nat i) with (N.succ (63 - N.of_nat i)) by lia. rewrite N.pow_succ_r'.
      enough (Q < 2 ^ (63 - N.of_nat i)) by lia.
      apply (N.mul_lt_mono_pos_r (2 * P)); [lia|].
      eapply N.lt_le_trans; [exact HQ|].
      unfold P. rewrite <- N.pow_succ_r', <- N.pow_add_r.
      replace (63 - N.of_nat i + N.succ (N.of_nat i)) with 64 by lia. done.
    - unfold P. rewrite <- N.pow_add_r. replace (64 - N.of_nat i + N.of_nat i) with 64 by lia.
      done. }
  assert (HQP' : 2 * Q * P < two64) by lia.
  destruct (N.eqb_spec (rem / 9223372036854775808) 0) as [Hz|Hz]; cbn [negb orb].
  - assert (rem < 9223372036854775808) by (by apply N.div_small_iff).
    destruct (N.leb_spec d (rem * 2 + bit)).
    + exists (2 * Q + 1). cbn [fst snd]. rewrite w_sub_exact by (unfold u64 in *; open_words; lia).
      split_and!; [done|lia|fold P; rewrite Hs, Hpre; lia|done].
    + exists (2 * Q). cbn [fst snd]. split_and!; [lia|lia|fold P; rewrite Hs, Hpre; lia|done].
  - exists (2 * Q + 1). cbn [fst snd].
    assert (two64 <= rem * 2) by (open_words; zify; Z.to_euclidean_division_equations; lia).
    assert (rem * 2 - two64 + bit -w d = rem * 2 + bit - d) as -> by
      (pose proof Hd; unfold u64 in *; rewrite w_sub_borrow; lia).
    assert (d < two64) by exact Hd.
    split_and!; [done|lia|fold P; rewrite Hs, Hpre; lia|done].
Qed.

Lemma divmod_loop_inv (n : nat) (st : N * N) :
  (n <= 64)%nat -> divmod_inv n st -> divmod_inv 0 (divmod_loop (lo v) d n st).
Proof.
  revert st. induction n as [|i IH]; intros st Hn Hst; [done|].
  cbn [divmod_loop]. apply IH; [lia|]. apply divmod_step_inv; [lia|done].
Qed.

Lemma divmod_portable_value :
  hi v < d ->
  divmod_u128_portable v d = Some (u128_val v / d, u128_val v mod d).
Proof.
  intros Hlt. unfold divmod_u128_portable.
  destruct (N.eqb_spec d 0); [lia|]. destruct (N.leb_spec d (hi v)); [lia|].
  assert (divmod_inv 64 (hi v, 0)) as Hinit.
  { exists 0. cbn [fst snd]. change (2 ^ N.of_nat 64) with two64. split_and!; try done.
    unfold u128_val. rewrite N.mul_0_l, N.add_0_l, N.div_add_l by done.
    destruct Hv. rewrite (N.div_small (lo v)) by done. lia. }
  apply divmod_loop_inv in Hinit as (Q & Hq & Hr & Hpre & _); [|lia].
  destruct (divmod_loop (lo v) d 64 (hi v, 0)) as [rem quot]. cbn [fst snd] in *.
  change (2 ^ N.of_nat 0) with 1 in *. rewrite N.div_1_r in Hpre. rewrite N.mul_1_r in Hq.
  subst quot. f_equal. f_equal.
  - apply (N.div_unique _ _ _ rem); lia.
  - apply (N.mod_unique _ _ Q); lia.
Qed.
End division.

Lemma divmod_u128_value (v : U128) (d : N) :
  u128_ok v -> u64 d -> hi v < d ->
  divmod_u128 v d = Some (u128_val v / d, u128_val v mod d).
Proof.
  intros [Hh Hl] Hd Hlt. unfold divmod_u128.
  destruct (N.eqb_spec d 0); [lia|]. destruct (N.leb_spec d (hi v)); [lia|].
  rewrite N.shiftl_mul_pow2, lor_shift_add by done. change (2 ^ 64) with two64.
  fold (u128_val v). unfold wrap64.
  assert (u128_val v / d < two64).
  { apply N.Div0.div_lt_upper_bound. unfold u128_val, u64 in *. unfold two64 in *. nia. }
  assert (u128_val v mod d < two64) by (eapply N.lt_trans; [by apply N.mod_lt|exact Hd]).
  by rewrite (N.mod_small (u128_val v / d)), (N.mod_small (_ mod d)).
Qed.

Lemma divmod_refuses (v : U128) (d : N) : d <= hi v -> divmod_u128 v d = None.
Proof. intros. unfold divmod_u128. case_match; [done|]. destruct (N.leb_spec d (hi v)); [done|lia]. Qed.

Lemma divmod_portable_eq (v : U128) (d : N) :
  u128_ok v -> u64 d -> divmod_u128_portable v d = divmod_u128 v d.
Proof.
  intros Hv Hd. destruct (N.lt_ge_cases (hi v) d).
  - by rewrite divmod_portable_value, divmod_u128_value.
  - rewrite divmod_refuses by done. unfold divmod_u128_portable. case_match; [done|].
    destruct (N.leb_spec d (hi v)); [done|lia].
Qed.

(** [divmod_u128 (mul_u64 a num) den] in terms of the exact product. *)
Lemma mul_divmod (a num den : N) :
  u64 a -> u64 num -> u64 den -> den <> 0 ->
  divmod_u128 (mul_u64 a num) den =
    if a * num / den <? two64 then Some (a * num / den, (a * num) mod den) else None.
Proof.
  intros Ha Hn Hd Hz. destruct (mul_u64_spec a num Ha Hn) as [Ev Hok].
  destruct (N.lt_ge_cases (hi (mul_u64 a num)) den) as [Hlt|Hge].
  - rewrite divmod_u128_value, Ev by done.
    destruct (N.ltb_spec (a * num / den) two64) as [|Hq]; [done|exfalso].
    assert (a * num < two64 * den).
    { rewrite <- Ev. destruct Hok as [_ Hl]. unfold u128_val, u64 in *. unfold two64 in *. nia. }
    assert (a * num / den < two64) by (apply N.Div0.div_lt_upper_bound; lia). lia.
  - rewrite divmod_refuses by done.
    destruct (N.ltb_spec (a * num / den) two64) as [Hq|]; [exfalso|done].
    assert (two64 <= a * num / den); [|lia].
    apply N.div_le_lower_bound; [done|]. rewrite <- Ev. unfold u128_val. nia.
Qed.

Lemma mul_div_floor_value (a num den : N) :
  u64 a -> u64 num -> u64 den ->
  mul_div_floor a num den =
    if den =? 0 then None
    else if a * num / den <? two64 then Some (a * num / den) else None.
Proof.
  intros Ha Hn Hd. unfold mul_div_floor. destruct (N.eqb_spec den 0); [done|].
  destruct (N.eqb_spec a 0) as [->|]; [by rewrite N.mul_0_l, N.Div0.div_0_l|].
  destruct (N.eqb_spec num 0) as [->|]; [by rewrite N.mul_0_r, N.Div0.div_0_l|].
  cbn [orb]. rewrite mul_divmod by done. by destruct (_ <? two64).
Qed.

Lemma sat_mul_div_floor_le (a num den : N) :
  u64 a -> u64 num -> u64 den -> den <> 0 -> num <= den -> sat_mul_div_floor a num den <= a.
Proof.
  intros Ha Hn Hd Hz Hle. unfold sat_mul_div_floor. rewrite mul_div_floor_value by done.
  destruct (N.eqb_spec den 0); [done|].
  assert (a * num / den <= a) by (apply N.Div0.div_le_upper_bound; nia).
  destruct (N.ltb_spec (a * num / den) two64); unfold u64 in *; lia.
Qed.

Lemma sat_mul_div_floor_u64 (a num den : N) :
  u64 a -> u64 num -> u64 den -> u64 (sat_mul_div_floor a num den).
Proof.
  intros Ha Hn Hd. unfold sat_mul_div_floor. rewrite mul_div_floor_value by done.
  repeat case_match; try done.
  - apply N.ltb_lt. congruence.
Qed.

(** ** The overflow latch *)

Lemma SumLatch_add_spec (l : SumLatch) (v : N) :
  u64 (total l) -> u64 v ->
  SumLatch_add l v =
    if overflowed l then l
    else if total l + v <? two64 then mkSumLatch (total l + v) false
    else mkSumLatch (total l) true.
Proof.
  intros. unfold SumLatch_add. rewrite add_u64_spec by done.
  destruct (overflowed l); [done|]. by destruct (_ <? two64).
Qed.

Lemma SumLatch_fold (vs : list N) (l : SumLatch) :
  u64 (total l) -> Forall u64 vs ->
  saturated_total (foldl SumLatch_add l vs) =
    (if overflowed l then u64_max else N.min (total l + sumN vs) u64_max) /\
  overflowed (foldl SumLatch_add l vs) =
    (overflowed l || (two64 <=? total l + sumN vs)).
Proof.
  intros Hl Hvs. revert l Hl. induction Hvs as [|v vs Hv Hvs IH]; intros l Hl; cbn [foldl sumN foldr].
  - unfold saturated_total. destruct (overflowed l); cbn; [done|].
    destruct (N.leb_spec two64 (total l + 0)); split; try done; open_words; lia.
  - fold (sumN vs). rewrite SumLatch_add_spec by done.
    destruct (overflowed l) eqn:Ho.
    + destruct (IH l Hl) as [E1 E2]. by rewrite E1, E2, Ho.
    + destruct (N.ltb_spec (total l + v) two64) as [Hlt|Hge].
      * destruct (IH (mkSumLatch (total l + v) false) Hlt) as [E1 E2]. rewrite E1, E2.
        cbn [total overflowed]. by rewrite N.add_assoc.
      * destruct (IH (mkSumLatch (total l) true) Hl) as [E1 E2]. rewrite E1, E2.
        cbn [overflowed orb]. destruct (N.leb_spec two64 (total l + (v + sumN vs))); split;
          try done; open_words; lia.
Qed.

Lemma SumLatch_of_total (vs : list N) :
  Forall u64 vs -> saturated_total (SumLatch_of vs) = N.min (sumN vs) u64_max.
Proof. intros H. by apply (SumLatch_fold vs SumLatch_new). Qed.

(** ** Properties of the component *)

(** C39: [mul_u64_portable], the four-partial-product multiplication, loses
    nothing: for any two 64-bit words the pair it returns is the exact 128-bit
    product, both halves fit their words, and it agrees with the branch that
    uses the compiler's 128-bit integer. *)
Theorem mul_u64_portable_exact (a b : N) (Ha : u64 a) (Hb : u64 b) :
  u128_val (mul_u64_portable a b) = a * b /\ u128_ok (mul_u64_portable a b) /\
  mul_u64_portable a b = mul_u64 a b.
Proof.
  destruct (mul_u64_portable_value a b Ha Hb). by rewrite mul_u64_portable_eq at 3.
Qed.

Lemma mul_u64_portable_exact_witness :
  let a := 18446744073709551615 in let b := 12345678901234567890 in
  u64 a /\ u64 b /\ u128_val (mul_u64_portable a b) = a * b.
Proof.
  split; [done|]. split; [done|].
  exact (proj1 (mul_u64_portable_exact 18446744073709551615 12345678901234567890 eq_refl eq_refl)).
Defined.

(** [divmod_u128_portable], the bit-by-bit long division, is exact: it
    refuses (returns false) exactly for a zero divisor or a quotient that does
    not fit 64 bits, otherwise it yields the quotient and the remainder; and it
    agrees with the hardware or compiler division on every input. *)
Theorem divmod_u128_portable_correct (v : U128) (d : N) (Hv : u128_ok v) (Hd : u64 d) :
  divmod_u128_portable v d =
    (if (d =? 0) || (two64 <=? u128_val v / d) then None
     else Some (u128_val v / d, u128_val v mod d)) /\
  divmod_u128_portable v d = divmod_u128 v d.
Proof.
  split; [|by apply divmod_portable_eq].
  destruct (N.eqb_spec d 0) as [->|Hz]; [done|]. cbn [orb].
  destruct (N.lt_ge_cases (hi v) d) as [Hlt|Hge].
  - rewrite divmod_portable_value by done.
    destruct (N.leb_spec two64 (u128_val v / d)) as [Hq|]; [exfalso|done].
    assert (u128_val v / d < two64); [|lia]. apply N.Div0.div_lt_upper_bound.
    destruct Hv as [_ Hl]. unfold u128_val, u64 in *. unfold two64 in *. nia.
  - rewrite divmod_portable_eq, divmod_refuses by done.
    destruct (N.leb_spec two64 (u128_val v / d)) as [|Hq]; [done|exfalso].
    assert (two64 <= u128_val v / d); [|lia].
    apply N.div_le_lower_bound; [done|]. unfold u128_val. nia.
Qed.

Lemma divmod_u128_portable_correct_witness :
  u128_ok (mkU128 41 7) /\ divmod_u128_portable (mkU128 41 7) 1000003 <> None.
Proof.
  split; [done|].
  rewrite (proj1 (divmod_u128_portable_correct (mkU128 41 7) 1000003 (conj eq_refl eq_refl) eq_refl)).
  discriminate.
Defined.

(** C39: [mul_div_floor] and [mul_div_ceil] compute the floor and the ceiling of
    [a * num / den] without intermediate overflow, and refuse exactly when the
    denominator is zero or the result does not fit 64 bits. *)
Theorem mul_div_exact (a num den : N) (Ha : u64 a) (Hn : u64 num) (Hd : u64 den) :
  mul_div_floor a num den =
    (if (den =? 0) || (two64 <=? a * num / den) then None else Some (a * num / den)) /\
  mul_div_ceil a num den =
    (let c := a * num / den + (if (a * num) mod den =? 0 then 0 else 1) in
     if (den =? 0) || (two64 <=? c) then None else Some c).
Proof.
  split.
  - rewrite mul_div_floor_value by done. destruct (N.eqb_spec den 0); [done|]. cbn [orb].
    destruct (N.ltb_spec (a * num / den) two64), (N.leb_spec two64 (a * num / den)); (done || lia).
  - unfold mul_div_ceil. destruct (N.eqb_spec den 0); [done|]. cbn [orb].
    destruct (N.eqb_spec a 0) as [->|];
      [by rewrite N.mul_0_l, N.Div0.div_0_l, N.Div0.mod_0_l|].
    destruct (N.eqb_spec num 0) as [->|];
      [by rewrite N.mul_0_r, N.Div0.div_0_l, N.Div0.mod_0_l|].
    cbn [orb]. rewrite mul_divmod by done.
    destruct (N.ltb_spec (a * num / den) two64) as [Hq|Hq].
    + destruct (N.eqb_spec ((a * num) mod den) 0); cbn [negb].
      * rewrite N.add_0_r. by destruct (N.leb_spec two64 (a * num / den)); [lia|].
      * destruct (N.eqb_spec (a * num / den) u64_max) as [->|]; [done|].
        rewrite w_add_exact by (open_words; lia).
        by destruct (N.leb_spec two64 (a * num / den + 1)); [open_words; lia|].
    + set (r := if _ =? 0 then _ else _). by destruct (N.leb_spec two64 (a * num / den + r)); [|lia].
Qed.

Lemma mul_div_exact_witness :
  mul_div_floor 18446744073709551615 999 1000 = Some 18428297329635842063.
Proof.
  rewrite (proj1 (mul_div_exact 18446744073709551615 999 1000 eq_refl eq_refl eq_refl)).
  reflexivity.
Defined.

(** A [SumLatch] fed any sequence of 64-bit words holds their exact sum as
    long as that fits 64 bits, raises the overflow latch exactly when it does
    not, and its saturated total is never a wrapped value. *)
Theorem SumLatch_sum (vs : list N) (Hvs : Forall u64 vs) :
  overflowed (SumLatch_of vs) = (two64 <=? sumN vs) /\
  saturated_total (SumLatch_of vs) = N.min (sumN vs) u64_max.
Proof.
  split; [|by apply SumLatch_of_total].
  exact (proj2 (SumLatch_fold vs SumLatch_new eq_refl Hvs)).
Qed.

Lemma SumLatch_sum_witness :
  overflowed (SumLatch_of [18446744073709551000; 616; 5]) = true.
Proof.
  rewrite (proj1 (SumLatch_sum [18446744073709551000; 616; 5]
    ltac:(repeat constructor))). reflexivity.
Defined.
