(* ===== verification/Identity.v ===== *)
(** * Identities, generations, epochs, limits and quantities
    (src/include/naf/core/limits.hpp, identity.hpp, text.hpp and
    src/include/naf/model/quantity.hpp)

    The source gives every identity kind a distinct tag type; the tags have no
    run-time content, so an identity here is its 64-bit value and the kinds are
    abbreviations. *)

From S2P Require Import Prelude Checked.
Local Open Scope N_scope.
Local Open Scope naf_scope.

Abbreviation AdmissionRequestId := N (only parsing).
Abbreviation AdmissionDecisionId := N (only parsing).
Abbreviation DemandId := N (only parsing).
Abbreviation ResourceId := N (only parsing).
Abbreviation PathId := N (only parsing).
Abbreviation CapacitySnapshotId := N (only parsing).
Abbreviation ReservationSnapshotId := N (only parsing).
Abbreviation ReservationId := N (only parsing).
Abbreviation QoSClassId := N (only parsing).
Abbreviation PriorityClassId := N (only parsing).
Abbreviation PolicyId := N (only parsing).
Abbreviation PublisherId := N (only parsing).
Abbreviation BootId := N (only parsing).
Abbreviation SessionNonce := N (only parsing).
Abbreviation AttemptId := N (only parsing).
Abbreviation FairnessGroupId := N (only parsing).
Abbreviation AuditSequence := N (only parsing).
Abbreviation TenantId := N (only parsing).
Abbreviation TraceId := N (only parsing).
Abbreviation Generation := N (only parsing).
Abbreviation FabricEpoch := N (only parsing).
Abbreviation CoordinatorIncarnation := N (only parsing).
Abbreviation Rate := N (only parsing).
Abbreviation Latency := N (only parsing).
Abbreviation Duration := N (only parsing).

(** ** limits.hpp *)

Definition max_resources : N := 4096.
Definition max_resource_bindings : N := 1024.
Definition max_path_candidates : N := 256.
Definition max_path_resources : N := 512.
Definition max_paths : N := 4096.
Definition max_obligations : N := 16384.
Definition max_qos_classes : N := 256.
Definition max_priority_classes : N := 64.
Definition max_allowed_classes : N := 256.
Definition max_reservation_refs : N := 64.
Definition max_explanation_constraints_limit : N := 48.
Definition max_explanation_bytes_limit : N := 8192.
Definition max_effective_resources_limit : N := 64.
Definition max_authority_refs : N := 320.
Definition max_ledger_entries : N := 65536.
Definition max_attempt_records : N := 65536.
Definition max_decision_records : N := 65536.
Definition max_session_records : N := 1024.
Definition max_string_bytes : N := 96.
Definition max_detail_bytes : N := 192.
Definition max_journal_payload : N := 65536.
Definition max_journal_records : N := 1048576.
Definition journal_compact_at_records : N := 16384.
Definition unknown_generation : N := 0.
Definition max_generation : N := u64_max.
Definition unknown_epoch : N := 0.
Definition first_epoch : N := 1.

(** [size()] of a container, as the [std::size_t] the code compares. *)
Definition sizeN {A} (l : list A) : N := N.of_nat (length l).

(** ** StrongId, Generation, FabricEpoch *)

Definition is_unknown (id : N) : bool := id =? 0.
Definition is_known (id : N) : bool := negb (id =? 0).

Definition gen_is_unknown (g : Generation) : bool := g =? unknown_generation.
Definition gen_is_max (g : Generation) : bool := g =? max_generation.
Definition gen_well_formed (g : Generation) : bool :=
  negb (g =? unknown_generation) && negb (g =? max_generation).
Definition gen_unknown : Generation := unknown_generation.
Definition gen_first : Generation := 1.
(** [advance]: the new value and whether it moved. *)
Definition gen_advance (g : Generation) : bool * Generation :=
  if g =? max_generation then (false, g) else (true, g +w 1).
Definition gen_next (g : Generation) : Generation :=
  if g =? max_generation then max_generation else g +w 1.

Definition epoch_is_none (e : FabricEpoch) : bool := e =? unknown_epoch.
Definition epoch_well_formed (e : FabricEpoch) : bool := negb (e =? unknown_epoch).
Definition epoch_advance (e : FabricEpoch) : bool * FabricEpoch :=
  if e =? max_generation then (false, e) else (true, e +w 1).

Inductive OriginKind := InProcess | Claimant | Operator | Recovery | Replay_.
#[export] Instance OriginKind_eq_dec : EqDecision OriginKind.
Proof. solve_decision. Defined.

Definition OriginKind_to_N (k : OriginKind) : N :=
  match k with InProcess => 0 | Claimant => 1 | Operator => 2 | Recovery => 3 | Replay_ => 4 end.

Record Provenance := mkProvenance {
  prov_publisher : PublisherId;
  prov_boot : BootId;
  prov_incarnation : CoordinatorIncarnation;
  prov_epoch : FabricEpoch;
  prov_attempt : AttemptId;
  prov_trace : TraceId;
  prov_sequence : N;
  prov_origin : OriginKind;
}.

(** ** Quantities *)

Definition saturating_add (a b : N) : N := sat_add a b.
Definition saturating_sub (a b : N) : N := sat_sub a b.
Definition permille (q parts : N) : N := sat_mul_div_floor q parts 1000.
Definition clamped_to (q upper : N) : N := if q <? upper then q else upper.
Definition floored_at (q lower : N) : N := if lower <? q then q else lower.

Record RateBounds := mkRateBounds { minimum : Rate; desired : Rate; maximum : Rate }.

Definition is_coherent (r : RateBounds) : bool :=
  negb (maximum r =? 0) && (minimum r <=? desired r) && (desired r <=? maximum r).
Definition is_degenerate (r : RateBounds) : bool := maximum r =? 0.

(** ** Decimal rendering (src/src/core/text.hpp)

    The do-while loop collects the digits least significant first, at most 20
    of them, and the second loop appends them in reverse. *)

Definition digit (n : N) : ascii := ascii_of_N (48 + n).

Fixpoint digit_loop (room : nat) (value : N) : list ascii :=
  match room with
  | O => []
  | S room' =>
      digit (value mod 10) ::
      (let value' := value / 10 in
       if negb (value' =? 0) then digit_loop room' value' else [])
  end.

Fixpoint append_chars (out : string) (cs : list ascii) : string :=
  match cs with
  | [] => out
  | c :: cs' => append_chars (out +:+ String c EmptyString) cs'
  end.

Definition append_u64 (out : string) (value : N) : string :=
  append_chars out (rev (digit_loop 20 value)).

(** [std::to_string] of an unsigned value: the same decimal text. *)
Definition std_to_string (value : N) : string := append_u64 "" value.

(** ** Lemmas *)

Lemma gen_well_formed_spec (g : Generation) :
  gen_well_formed g = true <-> g <> 0 /\ g <> u64_max.
Proof.
  unfold gen_well_formed, unknown_generation, max_generation.
  rewrite andb_true_iff, !negb_true_iff, !N.eqb_neq. done.
Qed.

Lemma is_unknown_false (x : N) : is_unknown x = false <-> x <> 0.
Proof. unfold is_unknown. apply N.eqb_neq. Qed.

Lemma clamped_to_min (q upper : N) : clamped_to q upper = N.min q upper.
Proof. unfold clamped_to. destruct (N.ltb_spec q upper); lia. Qed.

Lemma is_coherent_spec (r : RateBounds) :
  is_coherent r = true <-> maximum r <> 0 /\ minimum r <= desired r <= maximum r.
Proof.
  unfold is_coherent. rewrite !andb_true_iff, negb_true_iff, N.eqb_neq, !N.leb_le. naive_solver.
Qed.

Lemma permille_le (q parts : N) : u64 q -> parts <= 1000 -> permille q parts <= q.
Proof. intros. apply sat_mul_div_floor_le; try done. unfold u64, two64. lia. Qed.

(** The value a least-significant-first digit string denotes. *)
Fixpoint digits_value (cs : list ascii) : N :=
  match cs with
  | [] => 0
  | c :: cs' => (N_of_ascii c - 48) + 10 * digits_value cs'
  end.

Lemma digit_value (n : N) : n < 10 -> N_of_ascii (digit n) - 48 = n.
Proof. intros. unfold digit. rewrite N_ascii_embedding by lia. lia. Qed.

Lemma digit_loop_value (room : nat) (value : N) :
  value < 10 ^ N.of_nat room -> digits_value (digit_loop room value) = value.
Proof.
  revert value. induction room as [|room IH]; intros value Hv.
  - cbn in *. lia.
  - cbn [digit_loop digits_value]. rewrite digit_value by (by apply N.mod_lt).
    pose proof (N.div_mod value 10 ltac:(done)).
    destruct (N.eqb_spec (value / 10) 0) as [Hz|Hz]; cbn [negb digits_value]; [lia|].
    rewrite IH; [lia|]. apply N.Div0.div_lt_upper_bound.
    replace (N.of_nat (S room)) with (N.succ (N.of_nat room)) in Hv by lia.
    by rewrite N.pow_succ_r' in Hv.
Qed.

Lemma list_ascii_app (s t : string) :
  String.list_ascii_of_string (s +:+ t) =
  String.list_ascii_of_string s ++ String.list_ascii_of_string t.
Proof. induction s as [|c s IH]; [done|].
  change (String c s +:+ t) with (String c (s +:+ t)). cbn. by rewrite IH.
Qed.

Lemma append_chars_list (cs : list ascii) (out : string) :
  String.list_ascii_of_string (append_chars out cs) = String.list_ascii_of_string out ++ cs.
Proof.
  revert out. induction cs as [|c cs IH]; intros out; cbn [append_chars].
  - by rewrite app_nil_r.
  - by rewrite IH, list_ascii_app, <- app_assoc.
Qed.

(** [append_u64] renders every 64-bit word completely: the 20-character
    digit buffer is never too small, the appended text denotes exactly the value,
    and what was already in the output is kept in front of it. *)
Theorem append_u64_decimal (out : string) (value : N) (Hv : u64 value) :
  exists cs, String.list_ascii_of_string (append_u64 out value) = String.list_ascii_of_string out ++ cs /\
             (length cs <= 20)%nat /\ digits_value (rev cs) = value.
Proof.
  exists (rev (digit_loop 20 value)). unfold append_u64. rewrite append_chars_list, rev_involutive.
  split_and!; [done| |].
  - rewrite length_rev. generalize 20%nat. intros n. revert value Hv.
    induction n as [|n IH]; intros; cbn; [lia|]. destruct (negb _); cbn; [|lia].
    enough (length (digit_loop n (value / 10)) <= n)%nat by lia. apply IH.
    unfold u64 in *. pose proof (N.Div0.div_le_upper_bound value 10 value). lia.
  - apply digit_loop_value. unfold u64, two64 in Hv. cbn. lia.
Qed.

Lemma append_u64_decimal_witness :
  u64 18446744073709551615 /\
  exists cs, String.list_ascii_of_string (append_u64 "id=" 18446744073709551615) =
             String.list_ascii_of_string "id=" ++ cs /\ digits_value (rev cs) = 18446744073709551615.
Proof.
  split; [done|].
  destruct (append_u64_decimal "id=" 18446744073709551615 eq_refl) as (cs & H1 & _ & H2).
  by exists cs.
Defined.


