(* ===== verification/Hash.v ===== *)
(** * Content fingerprints and frame integrity
    (src/include/naf/core/hash.hpp, src/include/naf/core/crc32c.hpp)

    The 64-bit FNV-1a fingerprint used for identity and digests, and the
    table-driven CRC-32C that protects journal and wire frames. *)

From S2P Require Import Prelude Checked.
Local Open Scope N_scope.
Local Open Scope naf_scope.

(** ** Little-endian words

    [le_bytes n v] is the loop [for (i = 0; i < n; ++i) out((v >> (8 * i)) & 0xFF)]. *)

Fixpoint le_bytes (n : nat) (v : N) : list N :=
  match n with
  | O => []
  | S n' => N.land v 255 :: le_bytes n' (N.shiftr v 8)
  end.

(** [le_value bs] is the loop [v |= byte << (8 * i)] over the bytes [bs]. *)
Fixpoint le_value (bs : list N) : N :=
  match bs with
  | [] => 0
  | b :: bs' => N.lor b (N.shiftl (le_value bs') 8)
  end.

Definition is_byte (b : N) : Prop := b < 256.

(** ** Fingerprint *)

Definition fnv_offset_basis : N := 0xCBF29CE484222325.
Definition fnv_prime : N := 0x100000001B3.

Definition fp_byte (v : N) (value : N) : N := N.lxor value v *w fnv_prime.
Definition fp_u8 (v : N) (value : N) : N := fp_byte v value.
Definition fp_bytes (bs : list N) (value : N) : N := foldl (fun f b => fp_byte b f) value bs.
Definition fp_u16 (v : N) (value : N) : N :=
  fp_byte (N.land (N.shiftr v 8) 255) (fp_byte (N.land v 255) value).
Definition fp_u32 (v : N) (value : N) : N := fp_bytes (le_bytes 4 v) value.
Definition fp_u64 (v : N) (value : N) : N := fp_bytes (le_bytes 8 v) value.
Definition fp_boolean (v : bool) (value : N) : N := fp_byte (if v then 1 else 0) value.
Definition fp_separator (tag : N) (value : N) : N := fp_byte 0x5A (fp_byte tag value).

(** A sequence of updates of one [Fingerprint] object. *)
Definition fp_run (ops : list (N -> N)) (value : N) : N := foldl (fun f op => op f) value ops.

Definition fingerprint_u64 (v : N) : N := fp_u64 v fnv_offset_basis.

(** ** CRC-32C *)

Definition crc_poly : N := 0x82F63B78.

Fixpoint crc_bits (n : nat) (crc : N) : N :=
  match n with
  | O => crc
  | S n' =>
      crc_bits n' (if negb (N.land crc 1 =? 0) then N.lxor (N.shiftr crc 1) crc_poly
                   else N.shiftr crc 1)
  end.

(** The compile-time table constructor. *)
Definition crc32c_table : list N :=
  Eval vm_compute in map (fun i => crc_bits 8 (N.of_nat i)) (seq 0 256).

Definition crc32c_step (crc byte : N) : N :=
  let mixed := N.land (N.lxor crc byte) 0xFF in
  let index := mixed mod 256 in
  N.lxor (nth (N.to_nat index) crc32c_table 0) (N.shiftr crc 8).

Definition crc32c_loop (crc : N) (data : list N) : N := foldl crc32c_step crc data.

Definition crc32c (data : list N) : N := N.lxor (crc32c_loop u32_max data) u32_max.

Definition crc32c_extend (seed : N) (data : list N) : N :=
  N.lxor (crc32c_loop (N.lxor seed u32_max) data) u32_max.

(** ** Little-endian lemmas *)

Lemma byte_mask (v : N) : N.land v 255 = v mod 256.
Proof. change 255 with (N.ones 8). apply N.land_ones. Qed.

Lemma le_bytes_length (n : nat) (v : N) : length (le_bytes n v) = n.
Proof. revert v. induction n; cbn; auto. Qed.

Lemma le_bytes_byte (n : nat) (v : N) : Forall is_byte (le_bytes n v).
Proof.
  revert v. induction n as [|n IH]; intros v; cbn; constructor; [|done].
  unfold is_byte. rewrite byte_mask. by apply N.mod_lt.
Qed.

Lemma le_value_cons (b : N) (bs : list N) :
  is_byte b -> le_value (b :: bs) = b + 256 * le_value bs.
Proof.
  intros Hb. cbn [le_value]. rewrite N.shiftl_mul_pow2, N.lor_comm, lor_shift_add by done.
  change (2 ^ 8) with 256. lia.
Qed.

Lemma le_value_bytes (n : nat) (v : N) : v < 256 ^ N.of_nat n -> le_value (le_bytes n v) = v.
Proof.
  revert v. induction n as [|n IH]; intros v Hv.
  - cbn in *. lia.
  - cbn [le_bytes]. rewrite byte_mask, le_value_cons by (by apply N.mod_lt).
    rewrite N.shiftr_div_pow2. change (2 ^ 8) with 256.
    rewrite IH; [pose proof (N.div_mod v 256 ltac:(done)); lia|].
    apply N.Div0.div_lt_upper_bound.
    replace (N.of_nat (S n)) with (N.succ (N.of_nat n)) in Hv by lia. by rewrite N.pow_succ_r' in Hv.
Qed.

Lemma le_value_lt (bs : list N) : Forall is_byte bs -> le_value bs < 256 ^ N.of_nat (length bs).
Proof.
  induction 1 as [|b bs Hb _ IH]; [done|]. rewrite le_value_cons by done. cbn [length].
  replace (N.of_nat (S (length bs))) with (N.succ (N.of_nat (length bs))) by lia.
  rewrite N.pow_succ_r'. unfold is_byte in *. lia.
Qed.

Lemma le_bytes_value (bs : list N) : Forall is_byte bs -> le_bytes (length bs) (le_value bs) = bs.
Proof.
  induction 1 as [|b bs Hb _ IH]; [done|]. cbn [length le_bytes]. rewrite le_value_cons by done.
  unfold is_byte in *.
  rewrite byte_mask, N.shiftr_div_pow2. change (2 ^ 8) with 256.
  rewrite N.mul_comm, N.Div0.mod_add, N.div_add, N.mod_small, N.div_small, N.add_0_l, IH by done.
  done.
Qed.

Lemma le_bytes_inj (n : nat) (v w : N) :
  v < 256 ^ N.of_nat n -> w < 256 ^ N.of_nat n -> le_bytes n v = le_bytes n w -> v = w.
Proof. intros Hv Hw E. by rewrite <- (le_value_bytes n v), <- (le_value_bytes n w), E. Qed.

Lemma le8_inj (v w : N) : u64 v -> u64 w -> le_bytes 8 v = le_bytes 8 w -> v = w.
Proof. apply (le_bytes_inj 8). Qed.

(** ** The fingerprint is a fold over one byte stream *)

Lemma fp_bytes_app (bs cs : list N) (f : N) : fp_bytes (bs ++ cs) f = fp_bytes cs (fp_bytes bs f).
Proof. apply foldl_app. Qed.

Lemma fp_bytes_u64 (f : N -> N) (v : N) : u64 v -> u64 (fp_byte v v).
Proof. intros. apply wrap64_u64. Qed.

(** ** CRC lemmas *)

Definition table_top (i : N) : N := N.shiftr (nth (N.to_nat i) crc32c_table 0) 24.

Lemma table_tops_distinct : NoDup ((fun t => N.shiftr t 24) <$> crc32c_table).
Proof. apply (bool_decide_unpack _). vm_compute. exact I. Qed.

Lemma table_entries_u32 : Forall (fun t => t < two32) crc32c_table.
Proof. apply (bool_decide_unpack _). vm_compute. exact I. Qed.

Lemma table_top_inj (i j : N) : i < 256 -> j < 256 -> table_top i = table_top j -> i = j.
Proof.
  assert (Htop : forall k, k < 256 ->
    ((fun t => N.shiftr t 24) <$> crc32c_table) !! N.to_nat k = Some (table_top k)).
  { intros k Hk. rewrite list_lookup_fmap.
    destruct (lookup_lt_is_Some_2 crc32c_table (N.to_nat k)) as [x Hx].
    { change (length crc32c_table) with 256%nat. lia. }
    rewrite Hx. unfold table_top. by rewrite (nth_lookup_Some _ _ _ _ Hx). }
  intros Hi Hj E. apply N2Nat.inj.
  eapply (proj1 (NoDup_alt _) table_tops_distinct); [by apply Htop|]. rewrite E. by apply Htop.
Qed.

Lemma step_index (crc byte : N) :
  crc32c_step crc byte =
  N.lxor (nth (N.to_nat (N.lxor crc byte mod 256)) crc32c_table 0) (N.shiftr crc 8).
Proof.
  unfold crc32c_step. change 0xFF with 255. by rewrite byte_mask, N.Div0.mod_mod.
Qed.

Lemma step_top (crc byte : N) :
  crc < two32 -> N.shiftr (crc32c_step crc byte) 24 = table_top (N.lxor crc byte mod 256).
Proof.
  intros Hc. rewrite step_index, N.shiftr_lxor, N.shiftr_shiftr.
  replace (N.shiftr crc (8 + 24)) with 0; [by rewrite N.lxor_0_r|].
  rewrite N.shiftr_div_pow2, N.div_small; done.
Qed.

Lemma lxor_u32 (a b : N) : a < two32 -> b < two32 -> N.lxor a b < two32.
Proof.
  intros Ha Hb. destruct (N.eq_dec (N.lxor a b) 0%N) as [->|Hne]; [done|].
  change two32 with (2 ^ 32). apply N.log2_lt_pow2; [lia|].
  eapply N.le_lt_trans; [apply N.log2_lxor|].
  apply N.max_lub_lt.
  - destruct (N.eq_dec a 0%N) as [->|]; [done|]. apply N.log2_lt_pow2; [lia|done].
  - destruct (N.eq_dec b 0%N) as [->|]; [done|]. apply N.log2_lt_pow2; [lia|done].
Qed.

Lemma step_u32 (crc byte : N) : crc < two32 -> crc32c_step crc byte < two32.
Proof.
  intros Hc. rewrite step_index. apply lxor_u32.
  - pose proof table_entries_u32 as Ht. rewrite Forall_forall in Ht.
    destruct (nth_in_or_default (N.to_nat (N.lxor crc byte mod 256)) crc32c_table 0) as [H| ->];
      [|done]. apply Ht. by apply list_elem_of_In.
  - rewrite N.shiftr_div_pow2. apply N.Div0.div_lt_upper_bound. unfold two32 in *. cbn. lia.
Qed.

Lemma loop_u32 (data : list N) (crc : N) : crc < two32 -> crc32c_loop crc data < two32.
Proof.
  revert crc. induction data as [|b data IH]; intros crc Hc; [done|]. by apply IH, step_u32.
Qed.

(** Equal results come from equal table indices, hence equal states when the byte agrees. *)
Lemma step_inj (c1 c2 b1 b2 : N) :
  c1 < two32 -> c2 < two32 -> crc32c_step c1 b1 = crc32c_step c2 b2 ->
  N.lxor c1 b1 mod 256 = N.lxor c2 b2 mod 256 /\ N.shiftr c1 8 = N.shiftr c2 8.
Proof.
  intros H1 H2 E.
  assert (Hi : N.lxor c1 b1 mod 256 = N.lxor c2 b2 mod 256).
  { apply table_top_inj; [by apply N.mod_lt|by apply N.mod_lt|].
    rewrite <- !step_top by done. by rewrite E. }
  split; [done|]. rewrite !step_index, Hi in E.
  apply (f_equal (N.lxor (nth (N.to_nat (N.lxor c2 b2 mod 256)) crc32c_table 0))) in E.
  by rewrite <- !N.lxor_assoc, !N.lxor_nilpotent, !N.lxor_0_l in E.
Qed.

Lemma lxor_mod_256 (a b : N) : N.lxor a b mod 256 = N.lxor (a mod 256) (b mod 256).
Proof.
  rewrite <- !byte_mask. change 255 with (N.ones 8). apply N.bits_inj. intros n.
  rewrite N.land_spec, !N.lxor_spec, !N.land_spec. by destruct (N.testbit (N.ones 8) n);
    rewrite ?andb_true_r, ?andb_false_r.
Qed.

Lemma lxor_cancel_r (a b c : N) : N.lxor a c = N.lxor b c -> a = b.
Proof.
  intros E. apply (f_equal (fun x => N.lxor x c)) in E.
  by rewrite !N.lxor_assoc, !N.lxor_nilpotent, !N.lxor_0_r in E.
Qed.

Lemma step_inj_state (c1 c2 b : N) :
  c1 < two32 -> c2 < two32 -> crc32c_step c1 b = crc32c_step c2 b -> c1 = c2.
Proof.
  intros H1 H2 E. destruct (step_inj _ _ _ _ H1 H2 E) as [Hi Hs].
  rewrite !lxor_mod_256 in Hi. apply lxor_cancel_r in Hi.
  rewrite !N.shiftr_div_pow2 in Hs. change (2 ^ 8) with 256 in Hs.
  pose proof (N.div_mod c1 256 ltac:(done)). pose proof (N.div_mod c2 256 ltac:(done)). lia.
Qed.

Lemma loop_inj_state (data : list N) (c1 c2 : N) :
  c1 < two32 -> c2 < two32 -> crc32c_loop c1 data = crc32c_loop c2 data -> c1 = c2.
Proof.
  revert c1 c2. induction data as [|b data IH]; intros c1 c2 H1 H2 E; [done|].
  apply (step_inj_state _ _ b); [done|done|]. by apply IH; [apply step_u32|apply step_u32|].
Qed.

Lemma step_inj_byte (c b1 b2 : N) :
  c < two32 -> is_byte b1 -> is_byte b2 -> crc32c_step c b1 = crc32c_step c b2 -> b1 = b2.
Proof.
  unfold is_byte. intros Hc H1 H2 E. destruct (step_inj _ _ _ _ Hc Hc E) as [Hi _].
  rewrite !lxor_mod_256, !(N.lxor_comm (c mod 256)) in Hi. apply lxor_cancel_r in Hi.
  by rewrite !N.mod_small in Hi.
Qed.

(** ** Properties *)

Lemma crc32c_byte_change (pre post : list N) (b1 b2 : N)
    (H1 : is_byte b1) (H2 : is_byte b2) (Hne : b1 <> b2) :
  crc32c (pre ++ b1 :: post) <> crc32c (pre ++ b2 :: post).
Proof.
  unfold crc32c. intros E%lxor_cancel_r. unfold crc32c_loop in E. rewrite !foldl_app in E.
  cbn [foldl] in E.
  fold (crc32c_loop u32_max pre) in E. assert (Hp := loop_u32 pre u32_max eq_refl).
  apply loop_inj_state in E; [|by apply step_u32..]. by apply step_inj_byte in E.
Qed.

Lemma crc32c_u32 (data : list N) : crc32c data < two32.
Proof. unfold crc32c. apply lxor_u32; [by apply loop_u32|done]. Qed.

(** C40: [crc32c] detects every single-byte corruption: two buffers of equal
    length that differ in exactly one byte never have the same checksum, wherever
    the damaged byte is and whatever follows it. *)
Theorem crc32c_detects_byte (pre post : list N) (b1 b2 : N)
    (H1 : is_byte b1) (H2 : is_byte b2) (Hne : b1 <> b2) :
  crc32c (pre ++ b1 :: post) <> crc32c (pre ++ b2 :: post).
Proof. by apply crc32c_byte_change. Qed.

Lemma crc32c_detects_byte_witness :
  crc32c ([78; 65; 70] ++ 74 :: [1; 0]) <> crc32c ([78; 65; 70] ++ 75 :: [1; 0]).
Proof. apply crc32c_detects_byte; [reflexivity|reflexivity|discriminate]. Defined.

(** Checksumming in pieces is checksumming the whole: extending the checksum
    of a prefix by the rest of a buffer gives the checksum of the buffer, so the
    incremental and the one-shot functions are interchangeable. *)
Theorem crc32c_extend_app (a b : list N) : crc32c_extend (crc32c a) b = crc32c (a ++ b).
Proof.
  unfold crc32c_extend, crc32c, crc32c_loop.
  by rewrite N.lxor_assoc, N.lxor_nilpotent, N.lxor_0_r, foldl_app.
Qed.
