(* ===== verification/State.v ===== *)
(** * Authoritative fabric state inputs
    (src/include/naf/model/state.hpp, src/src/model/state.cpp)

    The snapshots the adjacent runtimes publish, and the structural validation
    every snapshot passes before it can become current authority.  Each validator
    is translated check by check, in the source's order, and characterised by a
    well-formedness predicate. *)

From S2P Require Import Prelude Checked Identity.
Local Open Scope N_scope.
Local Open Scope naf_scope.

(** ** Data *)

Inductive EvidenceState := EvidenceUnknown | EvidenceKnown.
Inductive PathState := PathUnknown | PathUp | PathDown.
#[export] Instance EvidenceState_eq_dec : EqDecision EvidenceState.
Proof. solve_decision. Defined.
#[export] Instance PathState_eq_dec : EqDecision PathState.
Proof. solve_decision. Defined.

Record ResourceCapacity := mkResourceCapacity {
  rc_resource : ResourceId;
  rc_generation : Generation;
  rc_evidence : EvidenceState;
  rc_usable : Rate;
  rc_mandatory_headroom : Rate;
}.

Record CapacitySnapshot := mkCapacitySnapshot {
  cs_snapshot : CapacitySnapshotId;
  cs_generation : Generation;
  cs_epoch : FabricEpoch;
  cs_observed_tick : N;
  cs_resources : list ResourceCapacity;
}.

Record ProtectedObligation := mkProtectedObligation {
  po_reservation : ReservationId;
  po_reservation_generation : Generation;
  po_resource : ResourceId;
  po_reserved : Rate;
  po_priority : PriorityClassId;
  po_release_tick : N;
  po_inviolable : bool;
}.

Record ReservationSnapshot := mkReservationSnapshot {
  rs_snapshot : ReservationSnapshotId;
  rs_generation : Generation;
  rs_epoch : FabricEpoch;
  rs_observed_tick : N;
  rs_obligations : list ProtectedObligation;
}.

Record PathAdmissionFact := mkPathAdmissionFact {
  pf_path : PathId;
  pf_path_authority_generation : Generation;
  pf_state : PathState;
  pf_path_usable_capacity : Rate;
  pf_path_latency : Latency;
  pf_resources : list ResourceId;
}.

Record PathCatalog := mkPathCatalog {
  pc_path_authority_generation : Generation;
  pc_epoch : FabricEpoch;
  pc_observed_tick : N;
  pc_paths : list PathAdmissionFact;
}.

Record QoSClassFact := mkQoSClassFact {
  qf_qos : QoSClassId;
  qf_generation : Generation;
  qf_minimum_rate : Rate;
  qf_maximum_rate : Rate;
  qf_maximum_latency : Latency;
  qf_degradation_allowed : bool;
}.

Record QoSClassCatalog := mkQoSClassCatalog {
  qc_generation : Generation;
  qc_epoch : FabricEpoch;
  qc_observed_tick : N;
  qc_classes : list QoSClassFact;
}.

Record PriorityClassFact := mkPriorityClassFact {
  prf_priority : PriorityClassId;
  prf_generation : Generation;
  prf_rank : N;
  prf_preemptible : bool;
}.

Record PriorityClassCatalog := mkPriorityClassCatalog {
  prc_generation : Generation;
  prc_epoch : FabricEpoch;
  prc_observed_tick : N;
  prc_classes : list PriorityClassFact;
}.

#[export] Instance ResourceCapacity_eq_dec : EqDecision ResourceCapacity.
Proof. solve_decision. Defined.
#[export] Instance ProtectedObligation_eq_dec : EqDecision ProtectedObligation.
Proof. solve_decision. Defined.
#[export] Instance PathAdmissionFact_eq_dec : EqDecision PathAdmissionFact.
Proof. solve_decision. Defined.
#[export] Instance QoSClassFact_eq_dec : EqDecision QoSClassFact.
Proof. solve_decision. Defined.
#[export] Instance PriorityClassFact_eq_dec : EqDecision PriorityClassFact.
Proof. solve_decision. Defined.

(** ** Validation *)

Definition check_generation (g : Generation) (what : string) : Expected unit :=
  refuse_if (negb (gen_well_formed g)) (malformed (what +:+ " generation is not well formed")).

Definition check_epoch (e : FabricEpoch) (what : string) : Expected unit :=
  refuse_if (negb (epoch_well_formed e)) (malformed (what +:+ " epoch is not well formed")).

(** The [previous]/[first] pair of the ordering loops: [None] while [first]. *)
Definition not_increasing (previous : option N) (value : N) : bool :=
  match previous with None => false | Some p => value <=? p end.

Fixpoint check_capacity_entries (previous : option N) (l : list ResourceCapacity) : Expected unit :=
  match l with
  | [] => Val tt
  | entry :: l' =>
      refuse_if (is_unknown (rc_resource entry))
        (malformed "capacity entry has an unknown resource id") ;;
      refuse_if (not_increasing previous (rc_resource entry))
        (malformed "capacity snapshot resources are not strictly increasing") ;;
      check_generation (rc_generation entry) "resource capacity" ;;
      (match rc_evidence entry with
       | EvidenceUnknown =>
           refuse_if (negb (rc_usable entry =? 0) || negb (rc_mandatory_headroom entry =? 0))
             (malformed "unknown capacity evidence must not carry values")
       | EvidenceKnown =>
           refuse_if (rc_usable entry <? rc_mandatory_headroom entry)
             (error CapacityViolation
                ("mandatory headroom exceeds usable capacity for resource " +:+
                 std_to_string (rc_resource entry)))
       end) ;;
      check_capacity_entries (Some (rc_resource entry)) l'
  end.

Definition validate_capacity (snapshot : CapacitySnapshot) : Expected unit :=
  refuse_if (is_unknown (cs_snapshot snapshot)) (malformed "capacity snapshot id is unknown") ;;
  check_generation (cs_generation snapshot) "capacity snapshot" ;;
  check_epoch (cs_epoch snapshot) "capacity snapshot" ;;
  refuse_if (max_resources <? sizeN (cs_resources snapshot))
    (oversized "capacity snapshot has too many resources") ;;
  check_capacity_entries None (cs_resources snapshot).

(** The [if (!first)] block: resources ascend, reservations ascend within one. *)
Definition check_obligation_order (previous : option (N * N)) (o : ProtectedObligation)
    : Expected unit :=
  match previous with
  | None => Val tt
  | Some (previous_resource, previous_reservation) =>
      refuse_if (po_resource o <? previous_resource)
        (malformed "reservation snapshot obligations are not ordered by resource") ;;
      refuse_if ((po_resource o =? previous_resource) &&
                 (po_reservation o <=? previous_reservation))
        (malformed "reservation snapshot has duplicate obligations for one resource")
  end.

(** The loop state: the previous (resource, reservation) pair and the per-resource
    overflow latches. *)
Fixpoint check_obligations (previous : option (N * N)) (per_resource : gmap N SumLatch)
    (l : list ProtectedObligation) : Expected unit :=
  match l with
  | [] => Val tt
  | o :: l' =>
      refuse_if (is_unknown (po_reservation o))
        (malformed "obligation has an unknown reservation id") ;;
      refuse_if (is_unknown (po_resource o))
        (malformed "obligation has an unknown resource id") ;;
      check_generation (po_reservation_generation o) "reservation" ;;
      check_obligation_order previous o ;;
      let latch := SumLatch_add (default SumLatch_new (per_resource !! po_resource o))
                                (po_reserved o) in
      refuse_if (overflowed latch)
        (error ArithmeticOverflow
           ("protected obligations overflow for resource " +:+ std_to_string (po_resource o))) ;;
      check_obligations (Some (po_resource o, po_reservation o))
        (<[po_resource o := latch]> per_resource) l'
  end.

Definition validate_reservations (snapshot : ReservationSnapshot) : Expected unit :=
  refuse_if (is_unknown (rs_snapshot snapshot)) (malformed "reservation snapshot id is unknown") ;;
  check_generation (rs_generation snapshot) "reservation snapshot" ;;
  check_epoch (rs_epoch snapshot) "reservation snapshot" ;;
  refuse_if (max_obligations <? sizeN (rs_obligations snapshot))
    (oversized "reservation snapshot has too many obligations") ;;
  check_obligations None ∅ (rs_obligations snapshot).

Fixpoint check_traversal (previous : option N) (l : list ResourceId) : Expected unit :=
  match l with
  | [] => Val tt
  | resource :: l' =>
      refuse_if (is_unknown resource)
        (malformed "path traversal set has an unknown resource id") ;;
      refuse_if (not_increasing previous resource)
        (malformed "path traversal set is not strictly increasing") ;;
      check_traversal (Some resource) l'
  end.

Fixpoint check_paths (previous : option N) (l : list PathAdmissionFact) : Expected unit :=
  match l with
  | [] => Val tt
  | fact :: l' =>
      refuse_if (is_unknown (pf_path fact))
        (malformed "path catalog entry has an unknown path id") ;;
      refuse_if (not_increasing previous (pf_path fact))
        (malformed "path catalog paths are not strictly increasing") ;;
      check_generation (pf_path_authority_generation fact) "path" ;;
      refuse_if (max_path_resources <? sizeN (pf_resources fact))
        (oversized "path traversal set is too large") ;;
      check_traversal None (pf_resources fact) ;;
      check_paths (Some (pf_path fact)) l'
  end.

Definition validate_paths (catalog : PathCatalog) : Expected unit :=
  check_generation (pc_path_authority_generation catalog) "path authority" ;;
  check_epoch (pc_epoch catalog) "path authority" ;;
  refuse_if (max_paths <? sizeN (pc_paths catalog)) (oversized "path catalog has too many paths") ;;
  check_paths None (pc_paths catalog).

Fixpoint check_qos_classes (previous : option N) (l : list QoSClassFact) : Expected unit :=
  match l with
  | [] => Val tt
  | fact :: l' =>
      refuse_if (is_unknown (qf_qos fact))
        (malformed "qos catalog entry has an unknown class id") ;;
      refuse_if (not_increasing previous (qf_qos fact))
        (malformed "qos catalog classes are not strictly increasing") ;;
      check_generation (qf_generation fact) "qos class" ;;
      refuse_if (qf_maximum_rate fact <? qf_minimum_rate fact)
        (malformed "qos class minimum rate exceeds maximum rate") ;;
      refuse_if (qf_maximum_rate fact =? 0) (malformed "qos class maximum rate is zero") ;;
      check_qos_classes (Some (qf_qos fact)) l'
  end.

Definition validate_qos (catalog : QoSClassCatalog) : Expected unit :=
  check_generation (qc_generation catalog) "qos catalog" ;;
  check_epoch (qc_epoch catalog) "qos catalog" ;;
  refuse_if (max_qos_classes <? sizeN (qc_classes catalog)) (oversized "qos catalog is too large") ;;
  check_qos_classes None (qc_classes catalog).

Fixpoint check_priority_classes (previous : option N) (ranks : gmap N N)
    (l : list PriorityClassFact) : Expected unit :=
  match l with
  | [] => Val tt
  | fact :: l' =>
      refuse_if (is_unknown (prf_priority fact))
        (malformed "priority catalog entry has an unknown class id") ;;
      refuse_if (not_increasing previous (prf_priority fact))
        (malformed "priority catalog classes are not strictly increasing") ;;
      check_generation (prf_generation fact) "priority class" ;;
      refuse_if (bool_decide (is_Some (ranks !! prf_rank fact)))
        (malformed ("priority catalog has duplicate rank " +:+ std_to_string (prf_rank fact))) ;;
      check_priority_classes (Some (prf_priority fact))
        (<[prf_rank fact := prf_priority fact]> ranks) l'
  end.

Definition validate_priorities (catalog : PriorityClassCatalog) : Expected unit :=
  check_generation (prc_generation catalog) "priority catalog" ;;
  check_epoch (prc_epoch catalog) "priority catalog" ;;
  refuse_if (max_priority_classes <? sizeN (prc_classes catalog))
    (oversized "priority catalog is too large") ;;
  check_priority_classes None ∅ (prc_classes catalog).

(** ** Well-formed snapshots *)

Definition gen_ok (g : Generation) : Prop := g <> 0 /\ g <> u64_max.
Definition increasing (l : list N) : Prop := Sorted N.lt l.

Definition capacity_entry_ok (e : ResourceCapacity) : Prop :=
  rc_resource e <> 0 /\ gen_ok (rc_generation e) /\
  match rc_evidence e with
  | EvidenceUnknown => rc_usable e = 0 /\ rc_mandatory_headroom e = 0
  | EvidenceKnown => rc_mandatory_headroom e <= rc_usable e
  end.

Record capacity_wf (s : CapacitySnapshot) : Prop := {
  cwf_id : cs_snapshot s <> 0;
  cwf_generation : gen_ok (cs_generation s);
  cwf_epoch : cs_epoch s <> 0;
  cwf_size : sizeN (cs_resources s) <= max_resources;
  cwf_entries : Forall capacity_entry_ok (cs_resources s);
  cwf_sorted : increasing (rc_resource <$> cs_resources s);
}.

Definition obligation_ok (o : ProtectedObligation) : Prop :=
  po_reservation o <> 0 /\ po_resource o <> 0 /\ gen_ok (po_reservation_generation o).

(** Strict (resource, reservation) order. *)
Definition obligation_lt (a b : N * N) : Prop := a.1 < b.1 \/ (a.1 = b.1 /\ a.2 < b.2).
Definition obligation_key (o : ProtectedObligation) : N * N := (po_resource o, po_reservation o).

Definition on_resource (r : ResourceId) (l : list ProtectedObligation) : list ProtectedObligation :=
  filter (fun o => po_resource o = r) l.
(** The exact total of the obligations on a resource. *)
Definition obligation_sum (r : ResourceId) (l : list ProtectedObligation) : N :=
  sumN (po_reserved <$> on_resource r l).

Record reservations_wf (s : ReservationSnapshot) : Prop := {
  rwf_id : rs_snapshot s <> 0;
  rwf_generation : gen_ok (rs_generation s);
  rwf_epoch : rs_epoch s <> 0;
  rwf_size : sizeN (rs_obligations s) <= max_obligations;
  rwf_entries : Forall obligation_ok (rs_obligations s);
  rwf_sorted : Sorted obligation_lt (obligation_key <$> rs_obligations s);
  rwf_sums : forall r, obligation_sum r (rs_obligations s) < two64;
}.

Definition path_fact_ok (f : PathAdmissionFact) : Prop :=
  pf_path f <> 0 /\ gen_ok (pf_path_authority_generation f) /\
  sizeN (pf_resources f) <= max_path_resources /\
  Forall (fun r => r <> 0) (pf_resources f) /\ increasing (pf_resources f).

Record paths_wf (c : PathCatalog) : Prop := {
  pwf_generation : gen_ok (pc_path_authority_generation c);
  pwf_epoch : pc_epoch c <> 0;
  pwf_size : sizeN (pc_paths c) <= max_paths;
  pwf_entries : Forall path_fact_ok (pc_paths c);
  pwf_sorted : increasing (pf_path <$> pc_paths c);
}.

Definition qos_fact_ok (f : QoSClassFact) : Prop :=
  qf_qos f <> 0 /\ gen_ok (qf_generation f) /\
  qf_minimum_rate f <= qf_maximum_rate f /\ qf_maximum_rate f <> 0.

Record qos_wf (c : QoSClassCatalog) : Prop := {
  qwf_generation : gen_ok (qc_generation c);
  qwf_epoch : qc_epoch c <> 0;
  qwf_size : sizeN (qc_classes c) <= max_qos_classes;
  qwf_entries : Forall qos_fact_ok (qc_classes c);
  qwf_sorted : increasing (qf_qos <$> qc_classes c);
}.

Definition priority_fact_ok (f : PriorityClassFact) : Prop :=
  prf_priority f <> 0 /\ gen_ok (prf_generation f).

Record priorities_wf (c : PriorityClassCatalog) : Prop := {
  prwf_generation : gen_ok (prc_generation c);
  prwf_epoch : prc_epoch c <> 0;
  prwf_size : sizeN (prc_classes c) <= max_priority_classes;
  prwf_entries : Forall priority_fact_ok (prc_classes c);
  prwf_sorted : increasing (prf_priority <$> prc_classes c);
  prwf_ranks : NoDup (prf_rank <$> prc_classes c);
}.

(** ** The guards *)

Lemma check_generation_seq {A} (g : N) (w : string) (k : Expected A) (a : A) :
  (check_generation g w ;; k) = Val a <-> gen_ok g /\ k = Val a.
Proof.
  unfold check_generation, malformed. rewrite refuse_seq.
  by rewrite negb_false_iff, gen_well_formed_spec.
Qed.

Lemma check_epoch_seq {A} (e : N) (w : string) (k : Expected A) (a : A) :
  (check_epoch e w ;; k) = Val a <-> e <> 0 /\ k = Val a.
Proof.
  unfold check_epoch, malformed, epoch_well_formed, unknown_epoch.
  by rewrite refuse_seq, negb_involutive, N.eqb_neq.
Qed.

Definition sorted_from (previous : option N) (l : list N) : Prop :=
  increasing (option_list previous ++ l).

Lemma sorted_from_cons (previous : option N) (x : N) (l : list N) :
  sorted_from previous (x :: l) <-> not_increasing previous x = false /\ sorted_from (Some x) l.
Proof.
  unfold sorted_from, increasing. destruct previous as [p|]; cbn.
  - rewrite N.leb_gt. split.
    + intros H. apply Sorted_inv in H as [H1 H2]. apply HdRel_inv in H2. done.
    + intros [H1 H2]. constructor; [done|by constructor].
  - naive_solver.
Qed.

Lemma sorted_from_nil (previous : option N) : sorted_from previous [] <-> True.
Proof. unfold sorted_from, increasing. destruct previous; cbn; split; auto using Sorted. Qed.

Lemma increasing_strongly (l : list N) : increasing l -> StronglySorted N.lt l.
Proof. apply Sorted_StronglySorted. intros x y z. apply N.lt_trans. Qed.

Lemma increasing_NoDup (l : list N) : increasing l -> NoDup l.
Proof.
  intros H%increasing_strongly. induction H as [|x l Hs IH Hx]; constructor; [|done].
  intros Hin. rewrite Forall_forall in Hx. specialize (Hx x Hin). lia.
Qed.

Ltac guards :=
  unfold malformed, oversized, error;
  repeat first
    [ rewrite refuse_seq | rewrite check_generation_seq | rewrite check_epoch_seq
    | rewrite is_unknown_false | rewrite N.ltb_ge | rewrite N.eqb_neq | rewrite N.leb_gt ].

(** ** The loops accept exactly the well-formed lists *)

Lemma check_capacity_entries_spec (l : list ResourceCapacity) (previous : option N) :
  check_capacity_entries previous l = Val tt <->
  Forall capacity_entry_ok l /\ sorted_from previous (rc_resource <$> l).
Proof.
  revert previous. induction l as [|e l IH]; intros previous; cbn [check_capacity_entries fmap list_fmap].
  - rewrite sorted_from_nil, Forall_nil. naive_solver.
  - guards. rewrite Forall_cons, sorted_from_cons. unfold capacity_entry_ok.
    destruct (rc_evidence e); guards; rewrite IH.
    + rewrite orb_false_iff, !negb_false_iff, !N.eqb_eq. naive_solver.
    + naive_solver.
Qed.

Lemma validate_capacity_spec (s : CapacitySnapshot) :
  validate_capacity s = Val tt <-> capacity_wf s.
Proof.
  unfold validate_capacity. guards. rewrite check_capacity_entries_spec.
  split; [intros (?&?&?&?&?&?); by constructor|by intros []].
Qed.

(** The latches of a scan that has not overflowed: each holds the exact sum so far. *)
Definition latches_exact (m : gmap N SumLatch) (base : N -> N) : Prop :=
  forall r, default SumLatch_new (m !! r) = mkSumLatch (base r) false /\ u64 (base r).

Lemma obligation_sum_cons (r : N) (o : ProtectedObligation) (l : list ProtectedObligation) :
  obligation_sum r (o :: l) =
  (if decide (po_resource o = r) then po_reserved o else 0) + obligation_sum r l.
Proof. unfold obligation_sum, on_resource. rewrite filter_cons. by case_decide. Qed.

Definition obligations_from (previous : option (N * N)) (l : list ProtectedObligation) : Prop :=
  Sorted obligation_lt (option_list previous ++ (obligation_key <$> l)).

Definition order_ok (previous : option (N * N)) (o : ProtectedObligation) : Prop :=
  match previous with None => True | Some p => obligation_lt p (obligation_key o) end.

Lemma check_order_val (previous : option (N * N)) (o : ProtectedObligation) :
  check_obligation_order previous o = Val tt <-> order_ok previous o.
Proof.
  destruct previous as [[pr pv]|]; cbn; [|done]. unfold malformed, error.
  rewrite refuse_seq, N.ltb_ge. unfold obligation_lt, obligation_key. cbn.
  destruct (N.eqb_spec (po_resource o) pr), (N.leb_spec (po_reservation o) pv); cbn;
    split; intros; destruct_and?; try done; try lia; split; (done || lia).
Qed.

Lemma check_order_seq {A} (previous : option (N * N)) (o : ProtectedObligation)
    (k : Expected A) (a : A) :
  (check_obligation_order previous o ;; k) = Val a <-> order_ok previous o /\ k = Val a.
Proof. rewrite expected_bind_val, <- check_order_val. split; [intros ([] & ? & ?)|exists tt]; done. Qed.

Lemma obligations_from_cons (previous : option (N * N)) (o : ProtectedObligation)
    (l : list ProtectedObligation) :
  obligations_from previous (o :: l) <->
  order_ok previous o /\ obligations_from (Some (obligation_key o)) l.
Proof.
  unfold obligations_from. destruct previous as [p|]; cbn; [|naive_solver]. split.
  - intros [H1 H2]%Sorted_inv. by apply HdRel_inv in H2.
  - intros [H1 H2]. constructor; [done|by constructor].
Qed.

Lemma latches_exact_insert (m : gmap N SumLatch) (base : N -> N) (r v : N) :
  latches_exact m base -> u64 v ->
  latches_exact (<[r := mkSumLatch v false]> m) (fun r' => if decide (r = r') then v else base r').
Proof. intros Hm Hv r'. rewrite lookup_insert. case_decide; [done|]. apply Hm. Qed.

Lemma obligation_sums_step (base : N -> N) (o : ProtectedObligation) (l : list ProtectedObligation) :
  let r := po_resource o in let v := base r + po_reserved o in
  (forall r', base r' + obligation_sum r' (o :: l) < two64) <->
  v < two64 /\ (forall r', (if decide (r = r') then v else base r') + obligation_sum r' l < two64).
Proof.
  intros r v. setoid_rewrite obligation_sum_cons. fold r. split.
  - intros H. split.
    + specialize (H r). rewrite decide_True in H by done. unfold v. lia.
    + intros r'. specialize (H r'). unfold v. case_decide; subst; lia.
  - intros [_ H] r'. specialize (H r'). unfold v in H. case_decide; subst; lia.
Qed.

Lemma check_obligations_spec (l : list ProtectedObligation) (previous : option (N * N))
    (m : gmap N SumLatch) (base : N -> N) :
  latches_exact m base -> Forall (fun o => u64 (po_reserved o)) l ->
  check_obligations previous m l = Val tt <->
  Forall obligation_ok l /\ obligations_from previous l /\
  (forall r, base r + obligation_sum r l < two64).
Proof.
  revert previous m base. induction l as [|o l IH]; intros previous m base Hm Hu.
  - cbn. split; [|done]. intros _. split_and!; [done| |].
    + unfold obligations_from. destruct previous; cbn; auto using Sorted.
    + intros r. rewrite N.add_0_r. apply (Hm r).
  - apply Forall_cons in Hu as [Ho Hu]. cbn [check_obligations]. guards.
    rewrite check_order_seq. guards. rewrite Forall_cons, obligations_from_cons, obligation_sums_step.
    destruct (Hm (po_resource o)) as [Hr Hb].
    rewrite Hr, SumLatch_add_spec by done. cbn [total overflowed].
    destruct (N.ltb_spec (base (po_resource o) + po_reserved o) two64) as [Hlt|Hge].
    + rewrite IH by (by try apply latches_exact_insert). unfold obligation_ok. cbn. naive_solver.
    + cbn. split; [naive_solver|]. intros (_ & _ & ? & _). lia.
Qed.

Lemma validate_reservations_spec (s : ReservationSnapshot) :
  Forall (fun o => u64 (po_reserved o)) (rs_obligations s) ->
  validate_reservations s = Val tt <-> reservations_wf s.
Proof.
  intros Hu. unfold validate_reservations. guards.
  rewrite (check_obligations_spec _ _ _ (fun _ => 0)) by done.
  split; [intros (?&?&?&?&?&?&?); by constructor|by intros []].
Qed.

Lemma check_traversal_spec (l : list N) (previous : option N) :
  check_traversal previous l = Val tt <-> Forall (fun r => r <> 0) l /\ sorted_from previous l.
Proof.
  revert previous. induction l as [|r l IH]; intros previous; cbn [check_traversal].
  - rewrite sorted_from_nil, Forall_nil. naive_solver.
  - guards. rewrite IH, Forall_cons, sorted_from_cons. naive_solver.
Qed.

Lemma check_paths_spec (l : list PathAdmissionFact) (previous : option N) :
  check_paths previous l = Val tt <->
  Forall path_fact_ok l /\ sorted_from previous (pf_path <$> l).
Proof.
  revert previous. induction l as [|f l IH]; intros previous; cbn [check_paths fmap list_fmap].
  - rewrite sorted_from_nil, Forall_nil. naive_solver.
  - guards. rewrite expected_bind_val, Forall_cons, sorted_from_cons. unfold path_fact_ok at 1.
    setoid_rewrite IH. split.
    + intros (?&?&?&?&[]&[? ?]%check_traversal_spec&?). naive_solver.
    + intros (((?&?&?&?&?)&?)&?&?). split_and!; try done. exists tt. by rewrite check_traversal_spec.
Qed.

Lemma validate_paths_spec (c : PathCatalog) : validate_paths c = Val tt <-> paths_wf c.
Proof.
  unfold validate_paths. guards. rewrite check_paths_spec.
  split; [intros (?&?&?&?&?); by constructor|by intros []].
Qed.

Lemma check_qos_classes_spec (l : list QoSClassFact) (previous : option N) :
  check_qos_classes previous l = Val tt <->
  Forall qos_fact_ok l /\ sorted_from previous (qf_qos <$> l).
Proof.
  revert previous. induction l as [|f l IH]; intros previous; cbn [check_qos_classes fmap list_fmap].
  - rewrite sorted_from_nil, Forall_nil. naive_solver.
  - guards. rewrite IH, Forall_cons, sorted_from_cons. unfold qos_fact_ok. naive_solver.
Qed.

Lemma validate_qos_spec (c : QoSClassCatalog) : validate_qos c = Val tt <-> qos_wf c.
Proof.
  unfold validate_qos. guards. rewrite check_qos_classes_spec.
  split; [intros (?&?&?&?&?); by constructor|by intros []].
Qed.

Lemma check_priority_classes_spec (l : list PriorityClassFact) (previous : option N)
    (ranks : gmap N N) :
  check_priority_classes previous ranks l = Val tt <->
  Forall priority_fact_ok l /\ sorted_from previous (prf_priority <$> l) /\
  NoDup (prf_rank <$> l) /\ (forall k, k ∈ prf_rank <$> l -> ranks !! k = None).
Proof.
  revert previous ranks.
  induction l as [|f l IH]; intros previous ranks; cbn [check_priority_classes fmap list_fmap].
  - rewrite sorted_from_nil, Forall_nil. split; [|done]. intros _. split_and!; try done.
    + apply NoDup_nil_2.
    + intros k Hk. by apply elem_of_nil in Hk.
  - guards. rewrite bool_decide_eq_false, <- eq_None_not_Some.
    rewrite IH, Forall_cons, sorted_from_cons, NoDup_cons.
    unfold priority_fact_ok. setoid_rewrite elem_of_cons. split.
    + intros (?&?&?&?&?&?&?&Hr). split_and!; try done.
      * intros Hin. specialize (Hr _ Hin). by rewrite lookup_insert_eq in Hr.
      * intros k [->|Hk]; [done|]. specialize (Hr _ Hk).
        by apply lookup_insert_None in Hr as [? _].
    + intros (((?&?)&?)&(?&?)&(Hnin&?)&Hr). split_and!; eauto. intros k Hk.
      rewrite lookup_insert_ne by (intros <-; done). eauto.
Qed.

Lemma validate_priorities_spec (c : PriorityClassCatalog) :
  validate_priorities c = Val tt <-> priorities_wf c.
Proof.
  unfold validate_priorities. guards. rewrite check_priority_classes_spec.
  split; [intros (?&?&?&?&?&?&?); by constructor|].
  intros []. split_and!; try done.
Qed.

(** ** Properties *)

(** C38: snapshot validation is exact.  A snapshot or catalog passes validation if
    and only if it is well formed: known identities, well-formed generations, a
    real epoch, bounded size, strictly increasing unique keys, UNKNOWN evidence
    without numbers, headroom within usable capacity, obligation totals that fit
    64 bits on every resource, and unique priority ranks. *)
Theorem validation_exact (cap : CapacitySnapshot) (res : ReservationSnapshot) (paths : PathCatalog)
    (qos : QoSClassCatalog) (prio : PriorityClassCatalog)
    (Hwords : Forall (fun o => u64 (po_reserved o)) (rs_obligations res)) :
  (validate_capacity cap = Val tt <-> capacity_wf cap) /\
  (validate_reservations res = Val tt <-> reservations_wf res) /\
  (validate_paths paths = Val tt <-> paths_wf paths) /\
  (validate_qos qos = Val tt <-> qos_wf qos) /\
  (validate_priorities prio = Val tt <-> priorities_wf prio).
Proof.
  split_and!; auto using validate_capacity_spec, validate_reservations_spec, validate_paths_spec,
    validate_qos_spec, validate_priorities_spec.
Qed.

(** Two obligations of [2^63] on one resource overflow; on two resources they do not. *)
Definition half_word : N := 9223372036854775808.
Definition obligation_on (r v amount : N) : ProtectedObligation :=
  mkProtectedObligation v 1 r amount 1 0 true.
Definition reservation_of (l : list ProtectedObligation) : ReservationSnapshot :=
  mkReservationSnapshot 1 1 1 0 l.

Lemma validation_exact_witness :
  reservations_wf (reservation_of [obligation_on 1 1 half_word; obligation_on 2 1 half_word]) /\
  ~ reservations_wf (reservation_of [obligation_on 1 1 half_word; obligation_on 1 2 half_word]).
Proof.
  set (cap := mkCapacitySnapshot 1 1 1 0 []). set (pc := mkPathCatalog 1 1 0 []).
  set (qc := mkQoSClassCatalog 1 1 0 []). set (prc := mkPriorityClassCatalog 1 1 0 []).
  split.
  - apply (validation_exact cap (reservation_of [obligation_on 1 1 half_word; obligation_on 2 1 half_word])
      pc qc prc); [by repeat constructor|reflexivity].
  - intros H.
    apply (validation_exact cap (reservation_of [obligation_on 1 1 half_word; obligation_on 1 2 half_word])
      pc qc prc) in H; [discriminate H|by repeat constructor].
Defined.
