(* ===== verification/Policy.v ===== *)
(** * Admission policy (src/include/naf/model/policy.hpp, src/src/model/policy.cpp) *)

From S2P Require Import Prelude Checked Identity State.
Local Open Scope N_scope.
Local Open Scope naf_scope.

Inductive ContentionAction := ActionDefer | ActionReject.
#[export] Instance ContentionAction_eq_dec : EqDecision ContentionAction.
Proof. solve_decision. Defined.

Record AdmissionPolicy := mkAdmissionPolicy {
  pol_id : PolicyId;
  pol_generation : Generation;
  pol_epoch : FabricEpoch;
  pol_observed_tick : N;
  pol_headroom_permille : N;
  pol_headroom_floor : Rate;
  pol_allow_degraded : bool;
  pol_allow_preemptible_admission : bool;
  pol_require_path_binding : bool;
  pol_require_reservation_reference : bool;
  pol_allow_path_substitution : bool;
  pol_on_contention : ContentionAction;
  pol_allowed_qos : list QoSClassId;
  pol_allowed_priorities : list PriorityClassId;
  pol_max_explanation_constraints : N;
  pol_max_explanation_bytes : N;
  pol_max_effective_resources : N;
  pol_defer_horizon_ticks : N;
}.

#[export] Instance AdmissionPolicy_eq_dec : EqDecision AdmissionPolicy.
Proof. solve_decision. Defined.

Fixpoint check_sorted_loop (previous : option N) (what : string) (l : list N) : Expected unit :=
  match l with
  | [] => Val tt
  | value :: l' =>
      refuse_if (is_unknown value) (malformed (what +:+ " list contains an unknown id")) ;;
      refuse_if (not_increasing previous value)
        (malformed (what +:+ " list is not strictly increasing")) ;;
      check_sorted_loop (Some value) what l'
  end.

Definition check_sorted_unique (values : list N) (what : string) : Expected unit :=
  refuse_if (max_allowed_classes <? sizeN values) (oversized (what +:+ " list is too large")) ;;
  check_sorted_loop None what values.

Definition validate_policy (policy : AdmissionPolicy) : Expected unit :=
  refuse_if (is_unknown (pol_id policy)) (malformed "policy id is unknown") ;;
  refuse_if (negb (gen_well_formed (pol_generation policy)))
    (malformed "policy generation is not well formed") ;;
  refuse_if (negb (epoch_well_formed (pol_epoch policy)))
    (malformed "policy epoch is not well formed") ;;
  refuse_if (1000 <? pol_headroom_permille policy)
    (malformed "policy headroom permille exceeds 1000") ;;
  refuse_if ((pol_max_explanation_constraints policy =? 0) ||
             (max_explanation_constraints_limit <? pol_max_explanation_constraints policy))
    (malformed "policy explanation constraint bound is out of range") ;;
  refuse_if ((pol_max_explanation_bytes policy <? 128) ||
             (max_explanation_bytes_limit <? pol_max_explanation_bytes policy))
    (malformed "policy explanation byte bound is out of range") ;;
  refuse_if ((pol_max_effective_resources policy =? 0) ||
             (max_effective_resources_limit <? pol_max_effective_resources policy))
    (malformed "policy effective resource bound is out of range") ;;
  check_sorted_unique (pol_allowed_qos policy) "allowed qos" ;;
  check_sorted_unique (pol_allowed_priorities policy) "allowed priority".

(** ** Well-formed policies *)

Definition class_list_ok (l : list N) : Prop :=
  sizeN l <= max_allowed_classes /\ Forall (fun x => x <> 0) l /\ increasing l.

Record policy_wf (p : AdmissionPolicy) : Prop := {
  powf_id : pol_id p <> 0;
  powf_generation : gen_ok (pol_generation p);
  powf_epoch : pol_epoch p <> 0;
  powf_permille : pol_headroom_permille p <= 1000;
  powf_constraints : 1 <= pol_max_explanation_constraints p <= 48;
  powf_bytes : 128 <= pol_max_explanation_bytes p <= 8192;
  powf_effective : 1 <= pol_max_effective_resources p <= 64;
  powf_qos : class_list_ok (pol_allowed_qos p);
  powf_priorities : class_list_ok (pol_allowed_priorities p);
}.

Lemma check_sorted_loop_spec (what : string) (l : list N) (previous : option N) :
  check_sorted_loop previous what l = Val tt <->
  Forall (fun x => x <> 0) l /\ sorted_from previous l.
Proof.
  revert previous. induction l as [|x l IH]; intros previous; cbn [check_sorted_loop].
  - rewrite sorted_from_nil, Forall_nil. naive_solver.
  - guards. rewrite IH, Forall_cons, sorted_from_cons. naive_solver.
Qed.

Lemma check_sorted_unique_val (what : string) (l : list N) :
  check_sorted_unique l what = Val tt <-> class_list_ok l.
Proof.
  unfold check_sorted_unique. guards. rewrite check_sorted_loop_spec.
  unfold class_list_ok. naive_solver.
Qed.

Lemma validate_policy_spec (p : AdmissionPolicy) : validate_policy p = Val tt <-> policy_wf p.
Proof.
  unfold validate_policy, epoch_well_formed, unknown_epoch. guards.
  rewrite expected_bind_val, negb_involutive, !orb_false_iff. guards.
  rewrite negb_false_iff, gen_well_formed_spec.
  unfold max_explanation_constraints_limit, max_explanation_bytes_limit,
    max_effective_resources_limit.
  split.
  - intros (?&?&?&?&?&?&?&[]&?&?). constructor; try done; try lia;
      by eapply check_sorted_unique_val.
  - intros [? [? ?] ? ? ? ? ? ? ?]. repeat split; try done; try lia.
    exists tt. by rewrite !check_sorted_unique_val.
Qed.
