(* ===== verification/Request.v ===== *)
(** * The admission request contract
    (src/include/naf/model/request.hpp, src/src/model/request.cpp) *)

From S2P Require Import Prelude Checked Identity Hash State.
Local Open Scope N_scope.
Local Open Scope naf_scope.

Inductive ContentionPreference := ContentionInheritPolicy | ContentionDefer | ContentionReject.
Inductive DegradePreference := DegradeInheritPolicy | DegradeNever | DegradeDownToMinimum.
#[export] Instance ContentionPreference_eq_dec : EqDecision ContentionPreference.
Proof. solve_decision. Defined.
#[export] Instance DegradePreference_eq_dec : EqDecision DegradePreference.
Proof. solve_decision. Defined.

Definition ContentionPreference_to_N (p : ContentionPreference) : N :=
  match p with ContentionInheritPolicy => 0 | ContentionDefer => 1 | ContentionReject => 2 end.
Definition DegradePreference_to_N (p : DegradePreference) : N :=
  match p with DegradeInheritPolicy => 0 | DegradeNever => 1 | DegradeDownToMinimum => 2 end.

Record ResourceBinding := mkResourceBinding { rb_resource : ResourceId; rb_generation : Generation }.
Record PathCandidate := mkPathCandidate {
  pcd_path : PathId;
  pcd_path_authority_generation : Generation;
}.
Record ReservationRef := mkReservationRef { rr_reservation : ReservationId; rr_generation : Generation }.

Record AuthorityExpectation := mkAuthorityExpectation {
  ex_capacity_snapshot : CapacitySnapshotId;
  ex_capacity_generation : Generation;
  ex_reservation_snapshot : ReservationSnapshotId;
  ex_reservation_generation : Generation;
  ex_path_authority_generation : Generation;
  ex_policy_generation : Generation;
  ex_qos_catalog_generation : Generation;
  ex_priority_catalog_generation : Generation;
}.

Record AdmissionRequest := mkAdmissionRequest {
  rq_request : AdmissionRequestId;
  rq_demand : DemandId;
  rq_demand_generation : Generation;
  rq_attempt : AttemptId;
  rq_rate : RateBounds;
  rq_qos : QoSClassId;
  rq_qos_generation : Generation;
  rq_priority : PriorityClassId;
  rq_priority_generation : Generation;
  rq_maximum_latency : Latency;
  rq_resource_bindings : list ResourceBinding;
  rq_path_candidates : list PathCandidate;
  rq_required_path : PathId;
  rq_reservation_refs : list ReservationRef;
  rq_fairness_group : FairnessGroupId;
  rq_tenant : TenantId;
  rq_preemptible : bool;
  rq_requests_obligation_preemption : bool;
  rq_allow_path_substitution : bool;
  rq_contention : ContentionPreference;
  rq_degradation : DegradePreference;
  rq_deadline_ticks : N;
  rq_effective_tick : N;
  rq_effective_interval : Duration;
  rq_expected : AuthorityExpectation;
  rq_provenance : Provenance;
}.

#[export] Instance eta_AdmissionRequest : Eta AdmissionRequest := fun r =>
  mkAdmissionRequest (rq_request r) (rq_demand r) (rq_demand_generation r) (rq_attempt r)
    (rq_rate r) (rq_qos r) (rq_qos_generation r) (rq_priority r) (rq_priority_generation r)
    (rq_maximum_latency r) (rq_resource_bindings r) (rq_path_candidates r) (rq_required_path r)
    (rq_reservation_refs r) (rq_fairness_group r) (rq_tenant r) (rq_preemptible r)
    (rq_requests_obligation_preemption r) (rq_allow_path_substitution r) (rq_contention r)
    (rq_degradation r) (rq_deadline_ticks r) (rq_effective_tick r) (rq_effective_interval r)
    (rq_expected r) (rq_provenance r).

(** ** Structural validation *)

Fixpoint check_bindings (previous : option N) (l : list ResourceBinding) : Expected unit :=
  match l with
  | [] => Val tt
  | binding :: l' =>
      refuse_if (is_unknown (rb_resource binding))
        (malformed "resource binding has an unknown resource id") ;;
      refuse_if (not_increasing previous (rb_resource binding))
        (malformed "resource bindings are not strictly increasing") ;;
      check_generation (rb_generation binding) "resource binding" ;;
      check_bindings (Some (rb_resource binding)) l'
  end.

(** The loop over the candidates; the result is the final [seen_paths]. *)
Fixpoint check_candidates (seen_paths : list N) (l : list PathCandidate) : Expected (list N) :=
  match l with
  | [] => Val seen_paths
  | candidate :: l' =>
      refuse_if (is_unknown (pcd_path candidate))
        (malformed "path candidate has an unknown path id") ;;
      refuse_if (existsb (fun seen => seen =? pcd_path candidate) seen_paths)
        (malformed "duplicate path candidate") ;;
      check_generation (pcd_path_authority_generation candidate) "path candidate" ;;
      check_candidates (seen_paths ++ [pcd_path candidate]) l'
  end.

Fixpoint check_refs (previous : option N) (l : list ReservationRef) : Expected unit :=
  match l with
  | [] => Val tt
  | ref :: l' =>
      refuse_if (is_unknown (rr_reservation ref))
        (malformed "reservation reference has an unknown id") ;;
      refuse_if (not_increasing previous (rr_reservation ref))
        (malformed "reservation references are not strictly increasing") ;;
      check_generation (rr_generation ref) "reservation reference" ;;
      check_refs (Some (rr_reservation ref)) l'
  end.

Definition check_required_path (request : AdmissionRequest) (seen_paths : list N) : Expected unit :=
  if is_known (rq_required_path request) then
    refuse_if (negb (existsb (fun seen => seen =? rq_required_path request) seen_paths))
      (malformed "required path is not one of the declared candidates") ;;
    refuse_if (rq_allow_path_substitution request && (1 <? sizeN (rq_path_candidates request)))
      (malformed "required path conflicts with path substitution being allowed")
  else Val tt.

Fixpoint check_expectation_generations (l : list Generation) : Expected unit :=
  match l with
  | [] => Val tt
  | generation :: l' =>
      refuse_if (gen_is_max generation)
        (malformed "authority expectation generation is malformed") ;;
      check_expectation_generations l'
  end.

Definition validate_request (request : AdmissionRequest) : Expected unit :=
  refuse_if (is_unknown (rq_request request)) (malformed "request id is unknown") ;;
  refuse_if (is_unknown (rq_demand request)) (malformed "demand id is unknown") ;;
  refuse_if (is_unknown (rq_attempt request)) (malformed "attempt id is unknown") ;;
  check_generation (rq_demand_generation request) "demand" ;;
  check_generation (rq_qos_generation request) "qos class" ;;
  check_generation (rq_priority_generation request) "priority class" ;;
  refuse_if (is_unknown (rq_qos request)) (malformed "qos class id is unknown") ;;
  refuse_if (is_unknown (rq_priority request)) (malformed "priority class id is unknown") ;;
  refuse_if (negb (is_coherent (rq_rate request)))
    (malformed "rate bounds are contradictory (require 0 < minimum <= desired <= maximum)") ;;
  refuse_if (max_resource_bindings <? sizeN (rq_resource_bindings request))
    (oversized "too many resource bindings") ;;
  check_bindings None (rq_resource_bindings request) ;;
  refuse_if (max_path_candidates <? sizeN (rq_path_candidates request))
    (oversized "too many path candidates") ;;
  seen_paths ← check_candidates [] (rq_path_candidates request);
  refuse_if (bool_decide (rq_resource_bindings request = [] /\ rq_path_candidates request = []))
    (malformed "request names neither resource bindings nor path candidates") ;;
  check_required_path request seen_paths ;;
  refuse_if (max_reservation_refs <? sizeN (rq_reservation_refs request))
    (oversized "too many reservation references") ;;
  check_refs None (rq_reservation_refs request) ;;
  refuse_if (is_known (prov_attempt (rq_provenance request)) &&
             negb (prov_attempt (rq_provenance request) =? rq_attempt request))
    (malformed "provenance attempt does not match the request attempt") ;;
  let expected := rq_expected request in
  check_expectation_generations
    [ex_capacity_generation expected; ex_reservation_generation expected;
     ex_path_authority_generation expected; ex_policy_generation expected;
     ex_qos_catalog_generation expected; ex_priority_catalog_generation expected].

(** ** The content fingerprint *)

(** One update of the [Fingerprint] object. *)
Inductive FpOp := OpU64 (v : N) | OpU8 (v : N) | OpBool (v : bool) | OpSep (tag : N).

Definition fp_apply (f : N) (op : FpOp) : N :=
  match op with
  | OpU64 v => fp_u64 v f
  | OpU8 v => fp_u8 v f
  | OpBool v => fp_boolean v f
  | OpSep tag => fp_separator tag f
  end.

Definition binding_ops (l : list ResourceBinding) : list FpOp :=
  OpU64 (sizeN l) :: (l ≫= fun b => [OpU64 (rb_resource b); OpU64 (rb_generation b)]).
Definition candidate_ops (l : list PathCandidate) : list FpOp :=
  OpU64 (sizeN l) ::
  (l ≫= fun c => [OpU64 (pcd_path c); OpU64 (pcd_path_authority_generation c)]).
Definition ref_ops (l : list ReservationRef) : list FpOp :=
  OpU64 (sizeN l) :: (l ≫= fun r => [OpU64 (rr_reservation r); OpU64 (rr_generation r)]).

Definition request_ops (r : AdmissionRequest) : list FpOp :=
  [OpSep 0x11; OpU64 (rq_request r); OpU64 (rq_demand r); OpU64 (rq_demand_generation r);
   OpU64 (rq_attempt r);
   OpSep 0x12; OpU64 (minimum (rq_rate r)); OpU64 (desired (rq_rate r));
   OpU64 (maximum (rq_rate r));
   OpSep 0x13; OpU64 (rq_qos r); OpU64 (rq_qos_generation r); OpU64 (rq_priority r);
   OpU64 (rq_priority_generation r); OpU64 (rq_maximum_latency r);
   OpSep 0x14] ++ binding_ops (rq_resource_bindings r) ++
  [OpSep 0x15] ++ candidate_ops (rq_path_candidates r) ++
  [OpSep 0x16; OpU64 (rq_required_path r)] ++ ref_ops (rq_reservation_refs r) ++
  [OpSep 0x17; OpU64 (rq_fairness_group r); OpU64 (rq_tenant r); OpBool (rq_preemptible r);
   OpBool (rq_requests_obligation_preemption r); OpBool (rq_allow_path_substitution r);
   OpU8 (ContentionPreference_to_N (rq_contention r));
   OpU8 (DegradePreference_to_N (rq_degradation r));
   OpSep 0x18; OpU64 (rq_deadline_ticks r); OpU64 (rq_effective_tick r);
   OpU64 (rq_effective_interval r);
   OpSep 0x1A; OpU64 (ex_capacity_snapshot (rq_expected r));
   OpU64 (ex_capacity_generation (rq_expected r));
   OpU64 (ex_reservation_snapshot (rq_expected r));
   OpU64 (ex_reservation_generation (rq_expected r));
   OpU64 (ex_path_authority_generation (rq_expected r));
   OpU64 (ex_policy_generation (rq_expected r));
   OpU64 (ex_qos_catalog_generation (rq_expected r));
   OpU64 (ex_priority_catalog_generation (rq_expected r));
   OpSep 0x19; OpU64 (prov_publisher (rq_provenance r))].

Definition fingerprint (request : AdmissionRequest) : N :=
  foldl fp_apply fnv_offset_basis (request_ops request).

(** ** Well-formed requests *)

Definition refs_ok {A} (key gen : A -> N) (l : list A) (bound : N) : Prop :=
  sizeN l <= bound /\ Forall (fun x => key x <> 0 /\ gen_ok (gen x)) l /\ increasing (key <$> l).

Record request_wf (r : AdmissionRequest) : Prop := {
  rqwf_request : rq_request r <> 0;
  rqwf_demand : rq_demand r <> 0;
  rqwf_attempt : rq_attempt r <> 0;
  rqwf_demand_generation : gen_ok (rq_demand_generation r);
  rqwf_qos_generation : gen_ok (rq_qos_generation r);
  rqwf_priority_generation : gen_ok (rq_priority_generation r);
  rqwf_qos : rq_qos r <> 0;
  rqwf_priority : rq_priority r <> 0;
  rqwf_rate : maximum (rq_rate r) <> 0 /\
              minimum (rq_rate r) <= desired (rq_rate r) <= maximum (rq_rate r);
  rqwf_bindings : refs_ok rb_resource rb_generation (rq_resource_bindings r) 1024;
  rqwf_paths_size : sizeN (rq_path_candidates r) <= 256;
  rqwf_paths : Forall (fun c => pcd_path c <> 0 /\ gen_ok (pcd_path_authority_generation c))
                      (rq_path_candidates r);
  rqwf_paths_distinct : NoDup (pcd_path <$> rq_path_candidates r);
  rqwf_target : rq_resource_bindings r <> [] \/ rq_path_candidates r <> [];
  rqwf_required : rq_required_path r <> 0 ->
    rq_required_path r ∈ pcd_path <$> rq_path_candidates r /\
    (rq_allow_path_substitution r = true -> (length (rq_path_candidates r) <= 1)%nat);
  rqwf_refs : refs_ok rr_reservation rr_generation (rq_reservation_refs r) 64;
  rqwf_provenance : prov_attempt (rq_provenance r) <> 0 ->
    prov_attempt (rq_provenance r) = rq_attempt r;
  rqwf_expected : Forall (fun g => g <> u64_max)
    [ex_capacity_generation (rq_expected r); ex_reservation_generation (rq_expected r);
     ex_path_authority_generation (rq_expected r); ex_policy_generation (rq_expected r);
     ex_qos_catalog_generation (rq_expected r); ex_priority_catalog_generation (rq_expected r)];
}.

Lemma check_bindings_spec (l : list ResourceBinding) (previous : option N) :
  check_bindings previous l = Val tt <->
  Forall (fun x => rb_resource x <> 0 /\ gen_ok (rb_generation x)) l /\
  sorted_from previous (rb_resource <$> l).
Proof.
  revert previous. induction l as [|b l IH]; intros previous; cbn [check_bindings fmap list_fmap].
  - rewrite sorted_from_nil, Forall_nil. naive_solver.
  - guards. rewrite IH, Forall_cons, sorted_from_cons. naive_solver.
Qed.

Lemma check_refs_spec (l : list ReservationRef) (previous : option N) :
  check_refs previous l = Val tt <->
  Forall (fun x => rr_reservation x <> 0 /\ gen_ok (rr_generation x)) l /\
  sorted_from previous (rr_reservation <$> l).
Proof.
  revert previous. induction l as [|b l IH]; intros previous; cbn [check_refs fmap list_fmap].
  - rewrite sorted_from_nil, Forall_nil. naive_solver.
  - guards. rewrite IH, Forall_cons, sorted_from_cons. naive_solver.
Qed.

Lemma existsb_eqb (x : N) (l : list N) : existsb (fun y => y =? x) l = bool_decide (x ∈ l).
Proof.
  apply eq_true_iff_eq. rewrite bool_decide_eq_true, existsb_exists. setoid_rewrite N.eqb_eq.
  setoid_rewrite <- list_elem_of_In. naive_solver.
Qed.

Lemma check_candidates_spec (l : list PathCandidate) (seen out : list N) :
  NoDup seen ->
  check_candidates seen l = Val out <->
  out = seen ++ (pcd_path <$> l) /\
  Forall (fun c => pcd_path c <> 0 /\ gen_ok (pcd_path_authority_generation c)) l /\
  NoDup (seen ++ (pcd_path <$> l)).
Proof.
  revert seen. induction l as [|c l IH]; intros seen Hs; cbn [check_candidates].
  - cbn [fmap list_fmap]. rewrite app_nil_r. split; [intros [= <-]; done|]. by intros [-> _].
  - guards. rewrite existsb_eqb, bool_decide_eq_false, Forall_cons.
    rewrite fmap_cons, (cons_middle _ seen (pcd_path <$> l)), app_assoc. split.
    + intros (?&?&?&Hc). apply IH in Hc as (?&?&?); [by split_and!|].
      apply NoDup_app; split_and!; [done|set_solver|apply NoDup_singleton].
    + intros (->&((?&?)&?)&Hnd). apply NoDup_app in Hnd as Hnd'. destruct Hnd' as (Hnd1 & _ & _).
      split_and!; [done| |done|by apply IH].
      apply NoDup_app in Hnd1 as (_ & Hd & _). intros Hin. apply (Hd _ Hin). set_solver.
Qed.

Lemma check_required_path_spec (r : AdmissionRequest) (seen : list N) :
  check_required_path r seen = Val tt <->
  (rq_required_path r <> 0 ->
   rq_required_path r ∈ seen /\
   (rq_allow_path_substitution r = true -> (length (rq_path_candidates r) <= 1)%nat)).
Proof.
  unfold check_required_path, is_known. destruct (N.eqb_spec (rq_required_path r) 0); cbn [negb].
  - naive_solver.
  - guards. rewrite existsb_eqb, negb_false_iff, bool_decide_eq_true.
    unfold refuse_if, sizeN. destruct (rq_allow_path_substitution r); cbn [andb].
    + destruct (N.ltb_spec 1 (N.of_nat (length (rq_path_candidates r)))).
      * split; [naive_solver|]. intros Hr. destruct (Hr n) as [_ Hl]. specialize (Hl eq_refl). lia.
      * split; intros Hr; [|naive_solver]. split; [naive_solver|lia].
    + naive_solver.
Qed.

Lemma check_expectation_spec (l : list N) :
  check_expectation_generations l = Val tt <-> Forall (fun g => g <> u64_max) l.
Proof.
  induction l as [|g l IH]; cbn [check_expectation_generations]; [by rewrite Forall_nil|].
  guards. unfold gen_is_max, max_generation. rewrite N.eqb_neq, IH, Forall_cons. done.
Qed.

Lemma validate_request_spec (r : AdmissionRequest) :
  validate_request r = Val tt <-> request_wf r.
Proof.
  unfold validate_request. guards. rewrite bind_unit_val, check_bindings_spec. guards.
  rewrite expected_bind_val. setoid_rewrite check_candidates_spec; [|apply NoDup_nil_2].
  setoid_rewrite refuse_seq. setoid_rewrite bind_unit_val.
  setoid_rewrite check_required_path_spec. setoid_rewrite refuse_seq.
  setoid_rewrite bind_unit_val. setoid_rewrite check_refs_spec. setoid_rewrite refuse_seq.
  setoid_rewrite check_expectation_spec.
  unfold max_resource_bindings, max_path_candidates, max_reservation_refs.
  rewrite negb_false_iff, is_coherent_spec. unfold is_known. split.
  - intros (?&?&?&?&?&?&?&?&?&?&[? ?]&?&seen&(->&?&?)&Ht&Hr&Hs&(?&?)&Hp&?).
    rewrite bool_decide_eq_false in Ht. rewrite N.ltb_ge in Hs.
    rewrite andb_false_iff, !negb_false_iff, !N.eqb_eq in Hp.
    constructor; try done; try (split_and!; done).
    + destruct (decide (rq_resource_bindings r = [])); [right|by left]. intros ?. by apply Ht.
    + intros Hne. by destruct Hp.
  - intros [???????? (?&?&?) (?&?&?) ??? Ht ? (?&?&?) Hp ?]. split_and!; try done.
    exists ([] ++ (pcd_path <$> rq_path_candidates r)). split_and!; try done.
    + rewrite bool_decide_eq_false. intros [? ?]. by destruct Ht.
    + by rewrite N.ltb_ge.
    + rewrite andb_false_iff, !negb_false_iff, !N.eqb_eq.
      destruct (decide (prov_attempt (rq_provenance r) = 0)); [by left|right; auto].
Qed.


(** ** What the fingerprint depends on *)

Definition op_bytes (op : FpOp) : list N :=
  match op with
  | OpU64 v => le_bytes 8 v
  | OpU8 v => [v]
  | OpBool v => [if v then 1 else 0]
  | OpSep tag => [tag; 0x5A]
  end.

Definition stream (ops : list FpOp) : list N := ops ≫= op_bytes.

Definition op_word (op : FpOp) : Prop := match op with OpU64 v => u64 v | _ => True end.
(** Every 64-bit value the request hashes is a 64-bit word. *)
Definition request_words (r : AdmissionRequest) : Prop := Forall op_word (request_ops r).

Lemma fp_apply_bytes (f : N) (op : FpOp) : fp_apply f op = fp_bytes (op_bytes op) f.
Proof. by destruct op. Qed.

Lemma fp_stream (ops : list FpOp) (f : N) : foldl fp_apply f ops = fp_bytes (stream ops) f.
Proof.
  revert f. induction ops as [|op ops IH]; intros f; [done|].
  change (stream (op :: ops)) with (op_bytes op ++ stream ops). cbn [foldl].
  by rewrite fp_bytes_app, IH, fp_apply_bytes.
Qed.

(** Two update sequences over words that hash the same bytes. *)
Definition agree (o o' : list FpOp) : Prop :=
  Forall op_word o /\ Forall op_word o' /\ stream o = stream o'.

Lemma peel_u64 (v w : N) (o o' : list FpOp) :
  agree (OpU64 v :: o) (OpU64 w :: o') -> v = w /\ agree o o'.
Proof.
  intros ([Hv Ho]%Forall_cons & [Hw Ho']%Forall_cons & E).
  change (le_bytes 8 v ++ stream o = le_bytes 8 w ++ stream o') in E.
  apply app_inj_1 in E as [E1 E2]; [|by rewrite !le_bytes_length].
  split; [by apply le8_inj|done].
Qed.

Lemma peel_u8 (v w : N) (o o' : list FpOp) :
  agree (OpU8 v :: o) (OpU8 w :: o') -> v = w /\ agree o o'.
Proof. by intros ([_ Ho]%Forall_cons & [_ Ho']%Forall_cons & [= -> E]). Qed.

Lemma peel_bool (v w : bool) (o o' : list FpOp) :
  agree (OpBool v :: o) (OpBool w :: o') -> v = w /\ agree o o'.
Proof.
  intros ([_ Ho]%Forall_cons & [_ Ho']%Forall_cons & [= Ev E]). by destruct v, w.
Qed.

Lemma peel_sep (t : N) (o o' : list FpOp) : agree (OpSep t :: o) (OpSep t :: o') -> agree o o'.
Proof. by intros ([_ Ho]%Forall_cons & [_ Ho']%Forall_cons & [= E]). Qed.

Section pairs.
Context {A : Type} (f g : A -> N).
Hypothesis fg_inj : forall x y, f x = f y -> g x = g y -> x = y.

Lemma peel_pairs (l l' : list A) (o o' : list FpOp) :
  length l = length l' ->
  agree ((l ≫= fun x => [OpU64 (f x); OpU64 (g x)]) ++ o)
        ((l' ≫= fun x => [OpU64 (f x); OpU64 (g x)]) ++ o') ->
  l = l' /\ agree o o'.
Proof.
  revert l'. induction l as [|x l IH]; intros [|y l'] Hlen; try done.
  cbn. intros [Ef [Eg H]%peel_u64]%peel_u64. cbn in Hlen.
  destruct (IH l' ltac:(lia) H) as [-> ?]. split; [f_equal; auto|done].
Qed.

End pairs.

Ltac peel H :=
  repeat first
    [ apply peel_sep in H
    | let E := fresh "E" in apply peel_u64 in H as [E H]
    | let E := fresh "E" in apply peel_u8 in H as [E H]
    | let E := fresh "E" in apply peel_bool in H as [E H] ].

(** C37: the content fingerprint hashes an unambiguous byte stream.  [fingerprint]
    is FNV-1a over the stream of a request, and two requests with the same stream
    agree on every decision-relevant field, the publisher included; the only
    fields that may differ are the remaining provenance fields, which the source
    excludes so that a retry still matches its original attempt. *)
Theorem fingerprint_stream_injective (r1 r2 : AdmissionRequest)
    (H1 : request_words r1) (H2 : request_words r2)
    (E : stream (request_ops r1) = stream (request_ops r2)) :
  r1 <| rq_provenance := rq_provenance r2 |> = r2 /\
  prov_publisher (rq_provenance r1) = prov_publisher (rq_provenance r2) /\
  fingerprint r1 = fp_bytes (stream (request_ops r1)) fnv_offset_basis.
Proof.
  assert (H : agree (request_ops r1) (request_ops r2)) by done. clear H1 H2 E.
  unfold request_ops, binding_ops, candidate_ops, ref_ops in H.
  cbn [app] in H. peel H.
  apply (peel_pairs rb_resource rb_generation) in H as [Eb H];
    [|by intros [] [] ? ?; cbn in *; subst|unfold sizeN in *; lia].
  cbn [app] in H. peel H.
  apply (peel_pairs pcd_path pcd_path_authority_generation) in H as [Ec H];
    [|by intros [] [] ? ?; cbn in *; subst|unfold sizeN in *; lia].
  cbn [app] in H. peel H.
  apply (peel_pairs rr_reservation rr_generation) in H as [Er H];
    [|by intros [] [] ? ?; cbn in *; subst|unfold sizeN in *; lia].
  cbn [app] in H. peel H. split_and!; [|done|by apply fp_stream].
  assert (rq_contention r1 = rq_contention r2) by (by destruct (rq_contention r1), (rq_contention r2)).
  assert (rq_degradation r1 = rq_degradation r2)
    by (by destruct (rq_degradation r1), (rq_degradation r2)).
  destruct r1 as [? ? ? ? [? ? ?] ? ? ? ? ? ? ? ? ? ? ? ? ? ? ? ? ? ? ? [? ? ? ? ? ? ? ?] ?],
    r2 as [? ? ? ? [? ? ?] ? ? ? ? ? ? ? ? ? ? ? ? ? ? ? ? ? ? ? [? ? ? ? ? ? ? ?] ?].
  cbn in *. by subst.
Qed.

(** A small request on one resource and one path, used in the witnesses. *)
Definition sample_expectation : AuthorityExpectation := mkAuthorityExpectation 1 1 1 1 1 1 1 1.
Definition sample_provenance (publisher boot : N) : Provenance :=
  mkProvenance publisher boot 0 0 0 0 0 InProcess.
Definition sample_request (attempt boot : N) : AdmissionRequest :=
  mkAdmissionRequest 1 1 1 attempt (mkRateBounds 10 40 50) 1 1 1 1 1000
    [mkResourceBinding 1 1] [] 0 [] 0 0 false false true
    ContentionInheritPolicy DegradeInheritPolicy 0 0 0 sample_expectation (sample_provenance 7 boot).

Lemma fingerprint_stream_injective_witness :
  fingerprint (sample_request 1 3) = fp_bytes (stream (request_ops (sample_request 1 4))) fnv_offset_basis.
Proof.
  destruct (fingerprint_stream_injective (sample_request 1 3) (sample_request 1 4)) as (_ & _ & E);
    [by repeat constructor|by repeat constructor|reflexivity|exact E].
Defined.
