(* ===== verification/Authority.v ===== *)
(** * Authority vectors
    (src/include/naf/authority/authority.hpp, src/src/authority/authority.cpp)

    The bounded, duplicate-free set of authority revisions a decision carries. *)

From S2P Require Import Prelude Checked Identity Hash.
Local Open Scope N_scope.
Local Open Scope naf_scope.

Inductive AuthorityKind :=
  | AK_FabricEpoch | AK_CoordinatorIncarnation | AK_CapacitySnapshot | AK_ReservationSnapshot
  | AK_PathAuthority | AK_Policy | AK_QoSClassCatalog | AK_PriorityClassCatalog
  | AK_ResourceCapacity | AK_Path | AK_Reservation | AK_QoSClass | AK_PriorityClass.
#[export] Instance AuthorityKind_eq_dec : EqDecision AuthorityKind.
Proof. solve_decision. Defined.

Definition AuthorityKind_to_N (k : AuthorityKind) : N :=
  match k with
  | AK_FabricEpoch => 0 | AK_CoordinatorIncarnation => 1 | AK_CapacitySnapshot => 2
  | AK_ReservationSnapshot => 3 | AK_PathAuthority => 4 | AK_Policy => 5
  | AK_QoSClassCatalog => 6 | AK_PriorityClassCatalog => 7 | AK_ResourceCapacity => 8
  | AK_Path => 9 | AK_Reservation => 10 | AK_QoSClass => 11 | AK_PriorityClass => 12
  end.

Record AuthorityRef := mkAuthorityRef {
  ar_kind : AuthorityKind;
  ar_subject : N;
  ar_generation : Generation;
  ar_epoch : FabricEpoch;
}.
#[export] Instance AuthorityRef_eq_dec : EqDecision AuthorityRef.
Proof. solve_decision. Defined.

Record AuthorityVector := mkAuthorityVector { av_refs : list AuthorityRef; av_truncated : bool }.

Definition AuthorityVector_empty : AuthorityVector := mkAuthorityVector [] false.

Definition ar_key (r : AuthorityRef) : AuthorityKind * N := (ar_kind r, ar_subject r).
Definition same_subject (a b : AuthorityRef) : bool := bool_decide (ar_key a = ar_key b).

(** Keep the strongest generation, take the new epoch. *)
Definition merge_ref (existing new : AuthorityRef) : AuthorityRef :=
  mkAuthorityRef (ar_kind existing) (ar_subject existing)
    (if ar_generation existing <? ar_generation new then ar_generation new
     else ar_generation existing)
    (ar_epoch new).

(** The linear scan: the first entry for the subject is merged in place. *)
Fixpoint merge_first (new : AuthorityRef) (l : list AuthorityRef) : option (list AuthorityRef) :=
  match l with
  | [] => None
  | existing :: l' =>
      if same_subject existing new then Some (merge_ref existing new :: l')
      else option_map (cons existing) (merge_first new l')
  end.

(** The result is the returned flag and the new vector. *)
Definition AuthorityVector_add (kind : AuthorityKind) (subject : N) (generation : Generation)
    (epoch : FabricEpoch) (v : AuthorityVector) : bool * AuthorityVector :=
  let new := mkAuthorityRef kind subject generation epoch in
  let slow :=
    match merge_first new (av_refs v) with
    | Some refs => (true, mkAuthorityVector refs (av_truncated v))
    | None =>
        if max_authority_refs <=? sizeN (av_refs v)
        then (false, mkAuthorityVector (av_refs v) true)
        else (true, mkAuthorityVector (av_refs v ++ [new]) (av_truncated v))
    end in
  match last (av_refs v) with
  | Some back =>
      if same_subject back new
      then (true, mkAuthorityVector (removelast (av_refs v) ++ [merge_ref back new])
                                    (av_truncated v))
      else slow
  | None => slow
  end.

(** [vector.add(...)] as a statement. *)
Definition av_add (kind : AuthorityKind) (subject generation epoch : N) (v : AuthorityVector)
    : AuthorityVector := (AuthorityVector_add kind subject generation epoch v).2.

(** The comparison of [digest]'s sort: kind first, then subject. *)
Definition ref_le (a b : AuthorityRef) : Prop :=
  AuthorityKind_to_N (ar_kind a) < AuthorityKind_to_N (ar_kind b) \/
  (ar_kind a = ar_kind b /\ ar_subject a <= ar_subject b).

#[export] Instance ref_le_dec : RelDecision ref_le.
Proof. intros a b. unfold ref_le. apply _. Defined.

Definition ref_ops (r : AuthorityRef) (f : N) : N :=
  fp_u64 (ar_epoch r) (fp_u64 (ar_generation r)
    (fp_u64 (ar_subject r) (fp_u16 (AuthorityKind_to_N (ar_kind r)) f))).

Definition AuthorityVector_digest (v : AuthorityVector) : N :=
  let sorted := merge_sort ref_le (av_refs v) in
  fp_boolean (av_truncated v)
    (foldl (fun f r => ref_ops r f) (fp_separator 0xA1 fnv_offset_basis) sorted).

Definition AuthorityVector_find (kind : AuthorityKind) (subject : N) (v : AuthorityVector)
    : option AuthorityRef :=
  snd <$> list_find (fun r => ar_key r = (kind, subject)) (av_refs v).

(** ** Invariant *)

Record authority_wf (v : AuthorityVector) : Prop := {
  avwf_unique : NoDup (ar_key <$> av_refs v);
  avwf_bounded : sizeN (av_refs v) <= max_authority_refs;
}.

Lemma same_subject_spec (a b : AuthorityRef) : same_subject a b = true <-> ar_key a = ar_key b.
Proof. apply bool_decide_eq_true. Qed.

Lemma merge_ref_key (a b : AuthorityRef) : ar_key (merge_ref a b) = ar_key a.
Proof. done. Qed.

Lemma merge_first_None (new : AuthorityRef) (l : list AuthorityRef) :
  merge_first new l = None <-> ar_key new ∉ ar_key <$> l.
Proof.
  induction l as [|r l IH].
  - cbn. split; [intros _; apply not_elem_of_nil|done].
  - rewrite fmap_cons, not_elem_of_cons. cbn. destruct (same_subject r new) eqn:E.
    + apply same_subject_spec in E. split; [done|]. by intros [[] _].
    + assert (ar_key new <> ar_key r) by (intros Hk; by rewrite (proj2 (same_subject_spec r new)) in E).
      destruct (merge_first new l); cbn; naive_solver.
Qed.

Lemma merge_first_Some (new : AuthorityRef) (l l' : list AuthorityRef) :
  merge_first new l = Some l' ->
  exists pre r post, l = pre ++ r :: post /\ l' = pre ++ merge_ref r new :: post /\
                     ar_key r = ar_key new.
Proof.
  revert l'. induction l as [|r l IH]; intros l'; cbn; [done|].
  destruct (same_subject r new) eqn:E.
  - intros [= <-]. apply same_subject_spec in E. by exists [], r, l.
  - destruct (merge_first new l) as [l0|]; cbn; [|done]. intros [= <-].
    destruct (IH l0 eq_refl) as (pre & r' & post & -> & -> & ?).
    by exists (r :: pre), r', post.
Qed.

(** The fast path is the linear scan when subjects are unique. *)
Lemma fast_path_scan (new back : AuthorityRef) (l : list AuthorityRef) :
  NoDup (ar_key <$> (l ++ [back])) -> ar_key back = ar_key new ->
  merge_first new (l ++ [back]) = Some (l ++ [merge_ref back new]).
Proof.
  induction l as [|r l IH]; cbn; intros Hnd E.
  - by rewrite (proj2 (same_subject_spec _ _) E).
  - apply NoDup_cons in Hnd as [Hr Hnd].
    destruct (same_subject r new) eqn:Es.
    + apply same_subject_spec in Es. destruct Hr. rewrite Es, <- E, fmap_app.
      apply elem_of_app. right. apply list_elem_of_singleton. done.
    + by rewrite IH.
Qed.

Lemma last_split {A} (l : list A) (x : A) : last l = Some x -> l = removelast l ++ [x].
Proof.
  intros H. apply last_Some in H as [l' ->]. by rewrite removelast_last.
Qed.

Lemma add_scan (kind : AuthorityKind) (subject g e : N) (v : AuthorityVector) :
  authority_wf v ->
  AuthorityVector_add kind subject g e v =
  (let new := mkAuthorityRef kind subject g e in
   match merge_first new (av_refs v) with
   | Some refs => (true, mkAuthorityVector refs (av_truncated v))
   | None =>
       if max_authority_refs <=? sizeN (av_refs v)
       then (false, mkAuthorityVector (av_refs v) true)
       else (true, mkAuthorityVector (av_refs v ++ [new]) (av_truncated v))
   end).
Proof.
  intros [Hnd _]. unfold AuthorityVector_add. cbn zeta.
  destruct (last (av_refs v)) as [back|] eqn:El; [|done].
  destruct (same_subject back _) eqn:Es; [|done].
  apply same_subject_spec in Es. apply last_split in El.
  pose proof (fast_path_scan (mkAuthorityRef kind subject g e) back (removelast (av_refs v))) as Hf.
  rewrite <- El in Hf. by rewrite (Hf Hnd Es).
Qed.

Lemma authority_wf_empty : authority_wf AuthorityVector_empty.
Proof. constructor; [apply NoDup_nil_2|done]. Qed.

Lemma av_add_wf (kind : AuthorityKind) (subject g e : N) (v : AuthorityVector) :
  authority_wf v -> authority_wf (av_add kind subject g e v).
Proof.
  intros Hwf. unfold av_add. rewrite add_scan by done. destruct Hwf as [Hnd Hb]. cbn zeta.
  destruct (merge_first _ _) as [refs|] eqn:E; cbn.
  - apply merge_first_Some in E as (pre & r & post & Hl & -> & Hk). rewrite Hl in *.
    constructor; cbn.
    + by rewrite fmap_app, fmap_cons, merge_ref_key, <- fmap_cons, <- fmap_app.
    + unfold sizeN in *. by rewrite length_app in *.
  - apply merge_first_None in E.
    destruct (N.leb_spec max_authority_refs (sizeN (av_refs v))); cbn; [by constructor|].
    constructor; cbn.
    + rewrite fmap_app. apply NoDup_app. split_and!; [done| |apply NoDup_singleton].
      intros k Hk ->%list_elem_of_singleton. by apply E.
    + unfold sizeN in *. rewrite length_app. cbn. lia.
Qed.
#[export] Hint Resolve authority_wf_empty av_add_wf : naf.

(** ** Lookup *)

Lemma find_key_spec (key : AuthorityKind * N) (l : list AuthorityRef) (r : AuthorityRef) :
  NoDup (ar_key <$> l) ->
  snd <$> list_find (fun r => ar_key r = key) l = Some r <-> r ∈ l /\ ar_key r = key.
Proof.
  intros Hnd. split.
  - destruct (list_find _ l) as [[i x]|] eqn:E; [|done]. intros [= <-].
    apply list_find_Some in E as (Hi & Hk & _). split; [by eapply list_elem_of_lookup_2|done].
  - intros [Hin Hk]. destruct (list_find_elem_of (fun r => ar_key r = key) l r Hin Hk) as [[i x] E].
    rewrite E. cbn. f_equal. apply list_find_Some in E as (Hi & Hx & _).
    apply list_elem_of_lookup in Hin as [j Hj].
    assert (i = j) as ->; [|congruence].
    eapply (proj1 (NoDup_alt _) Hnd i j key); rewrite list_lookup_fmap;
      [rewrite Hi|rewrite Hj]; cbn; congruence.
Qed.

Lemma ref_le_total (a b : AuthorityRef) : ref_le a b \/ ref_le b a.
Proof.
  unfold ref_le. destruct (N.lt_trichotomy (AuthorityKind_to_N (ar_kind a))
    (AuthorityKind_to_N (ar_kind b))) as [?|[E|?]]; [by left; left| |by right; left].
  assert (ar_kind a = ar_kind b) as Ek by (by destruct (ar_kind a), (ar_kind b)).
  destruct (N.le_ge_cases (ar_subject a) (ar_subject b)); [left|right]; right; done.
Qed.

#[export] Instance ref_le_Total : Total ref_le.
Proof. intros a b. apply ref_le_total. Qed.

#[export] Instance ref_le_Transitive : Transitive ref_le.
Proof.
  intros a b c. unfold ref_le. intros [?|[E ?]] [?|[E' ?]].
  - left. lia.
  - left. by rewrite <- E'.
  - left. by rewrite E.
  - right. split; [congruence|lia].
Qed.

Lemma ref_le_antisymm (a b : AuthorityRef) : ref_le a b -> ref_le b a -> ar_key a = ar_key b.
Proof.
  unfold ref_le, ar_key. intros [?|[E ?]] [?|[E' ?]]; try lia.
  - rewrite E' in *. lia.
  - rewrite E in *. lia.
  - f_equal; [done|lia].
Qed.

Lemma key_inj_in (l : list AuthorityRef) (a b : AuthorityRef) :
  NoDup (ar_key <$> l) -> a ∈ l -> b ∈ l -> ar_key a = ar_key b -> a = b.
Proof.
  intros Hnd Ha Hb E.
  assert (H1 := proj2 (find_key_spec (ar_key b) l a Hnd) (conj Ha E)).
  assert (H2 := proj2 (find_key_spec (ar_key b) l b Hnd) (conj Hb eq_refl)). congruence.
Qed.

Lemma sorted_refs_unique (l k : list AuthorityRef) :
  NoDup (ar_key <$> l) -> l ≡ₚ k -> merge_sort ref_le l = merge_sort ref_le k.
Proof.
  intros Hnd Hp.
  apply (StronglySorted_unique_strong ref_le).
  - intros x y Hx Hy H1 H2. rewrite merge_sort_Permutation in Hx, Hy. rewrite <- Hp in Hy.
    apply (key_inj_in l); [done..|]. by apply ref_le_antisymm.
  - apply Sorted_StronglySorted; [apply _|apply Sorted_merge_sort; apply _].
  - apply Sorted_StronglySorted; [apply _|apply Sorted_merge_sort; apply _].
  - by rewrite !merge_sort_Permutation.
Qed.

(** ** Properties *)

(** An authority vector stays a bounded set whatever is added to it: subjects
    are unique and at most 320; an addition is refused (and the truncation flag
    raised) only when the vector is full and the subject is new; otherwise the
    subject is found afterwards with the new epoch and a generation that never
    regresses, and every other subject is unchanged. *)
Theorem authority_add_correct (kind : AuthorityKind) (subject g e : N) (v : AuthorityVector)
    (Hwf : authority_wf v) :
  let r := AuthorityVector_add kind subject g e v in
  authority_wf r.2 /\
  (r.1 = false <-> AuthorityVector_find kind subject v = None /\
                   sizeN (av_refs v) = max_authority_refs) /\
  (r.1 = false -> av_truncated r.2 = true /\ av_refs r.2 = av_refs v) /\
  (r.1 = true -> av_truncated r.2 = av_truncated v /\
     exists x, AuthorityVector_find kind subject r.2 = Some x /\ ar_epoch x = e /\
       ar_generation x = N.max g (from_option ar_generation 0 (AuthorityVector_find kind subject v))) /\
  (forall k s, (k, s) <> (kind, subject) ->
     AuthorityVector_find k s r.2 = AuthorityVector_find k s v).
Proof.
  pose proof (av_add_wf kind subject g e v Hwf) as Hwf'. unfold av_add in Hwf'. cbn zeta.
  split; [done|]. revert Hwf'. rewrite add_scan by done. cbn zeta.
  set (new := mkAuthorityRef kind subject g e). destruct Hwf as [Hnd Hb].
  destruct (merge_first new (av_refs v)) as [refs|] eqn:E; cbn.
  - apply merge_first_Some in E as (pre & r & post & Hl & -> & Hk). intros [Hnd' _]. cbn in Hnd'.
    unfold AuthorityVector_find. rewrite Hl in *. cbn.
    assert (Hr : snd <$> list_find (fun r => ar_key r = (kind, subject)) (pre ++ r :: post) = Some r)
      by (apply find_key_spec; [done|split; [apply elem_mid|done]]).
    rewrite Hr. split_and!.
    + naive_solver.
    + done.
    + intros _. split; [done|]. exists (merge_ref r new). split_and!; [|done|].
      * apply find_key_spec; [done|split; [apply elem_mid|done]].
      * cbn. destruct (N.ltb_spec (ar_generation r) g); lia.
    + intros k s Hne. apply option_eq. intros x.
      rewrite !find_key_spec by done. rewrite !elem_of_app, !elem_of_cons.
      assert (Hkr : ar_key r = (kind, subject)) by done.
      assert (Hkm : ar_key (merge_ref r new) = (kind, subject)) by done. naive_solver.
  - apply merge_first_None in E.
    assert (Hnone : AuthorityVector_find kind subject v = None).
    { unfold AuthorityVector_find. destruct (_ <$> list_find _ _) as [x|] eqn:Ef; [|done].
      apply find_key_spec in Ef as [Hin Hx]; [|done]. exfalso. apply E.
      apply list_elem_of_fmap. by exists x. }
    rewrite Hnone. destruct (N.leb_spec max_authority_refs (sizeN (av_refs v))) as [Hf|Hf]; cbn.
    + intros _. split_and!; try done. split; [|done]. split; [done|lia].
    + intros [Hnd' _]. cbn in Hnd'. split_and!; try done.
      * split; [done|]. intros [_ ?]. lia.
      * intros _. split; [done|]. exists new. split_and!; [|done|cbn; lia].
        apply find_key_spec; [done|split; [apply elem_mid|done]].
      * intros k s Hne. unfold AuthorityVector_find. cbn. apply option_eq. intros x.
        rewrite !find_key_spec by done. rewrite elem_of_app, list_elem_of_singleton.
        assert (Hkn : ar_key new = (kind, subject)) by done. naive_solver.
Qed.

Definition sample_vector : AuthorityVector :=
  av_add AK_Path 9 4 1 (av_add AK_Policy 3 7 1 AuthorityVector_empty).

Lemma authority_add_correct_witness :
  authority_wf sample_vector /\
  exists x, AuthorityVector_find AK_Policy 3 (av_add AK_Policy 3 5 2 sample_vector) = Some x /\
            ar_generation x = 7.
Proof.
  assert (H : authority_wf sample_vector) by (unfold sample_vector; auto with naf). split; [exact H|].
  destruct (authority_add_correct AK_Policy 3 5 2 sample_vector H) as (_ & _ & _ & Ht & _).
  destruct (Ht eq_refl) as (_ & x & Hx & _ & Hg). exists x. split; [exact Hx|exact Hg].
Defined.

(** The digest of an authority vector does not depend on insertion order: two
    well-formed vectors that hold the same references in any order, with the same
    truncation flag, have the same digest. *)
Theorem authority_digest_order_insensitive (v w : AuthorityVector) (Hwf : authority_wf v)
    (Hp : av_refs v ≡ₚ av_refs w) (Ht : av_truncated v = av_truncated w) :
  AuthorityVector_digest v = AuthorityVector_digest w.
Proof.
  unfold AuthorityVector_digest. rewrite Ht. by rewrite (sorted_refs_unique _ _ (avwf_unique v Hwf) Hp).
Qed.

Lemma authority_digest_order_insensitive_witness :
  AuthorityVector_digest sample_vector =
  AuthorityVector_digest (av_add AK_Policy 3 7 1 (av_add AK_Path 9 4 1 AuthorityVector_empty)).
Proof.
  apply authority_digest_order_insensitive;
    [unfold sample_vector; auto with naf|by apply Permutation_swap|reflexivity].
Defined.
