(* ===== verification/Decision.v ===== *)
(** * Decisions and explanations
    (src/include/naf/engine/decision.hpp, src/src/engine/decision.cpp)

    The outcome space, the decision record returned to the claimant, and the
    bounded explanation surface. *)

From S2P Require Import Prelude Checked Identity Hash Authority.
Local Open Scope N_scope.
Local Open Scope naf_scope.

Inductive AdmissionOutcome :=
  | Admit | AdmitDegraded | Defer | RejectCapacity | RejectPolicy | RejectObligation | RejectPath
  | RejectQoS | StaleInput | ConflictingInput | FencedClaimant.
#[export] Instance AdmissionOutcome_eq_dec : EqDecision AdmissionOutcome.
Proof. solve_decision. Defined.

Definition AdmissionOutcome_to_N (o : AdmissionOutcome) : N :=
  match o with
  | Admit => 0 | AdmitDegraded => 1 | Defer => 2 | RejectCapacity => 3 | RejectPolicy => 4
  | RejectObligation => 5 | RejectPath => 6 | RejectQoS => 7 | StaleInput => 8
  | ConflictingInput => 9 | FencedClaimant => 10
  end.

Definition outcome_to_string (o : AdmissionOutcome) : string :=
  match o with
  | Admit => "ADMIT" | AdmitDegraded => "ADMIT_DEGRADED" | Defer => "DEFER"
  | RejectCapacity => "REJECT_CAPACITY" | RejectPolicy => "REJECT_POLICY"
  | RejectObligation => "REJECT_OBLIGATION" | RejectPath => "REJECT_PATH"
  | RejectQoS => "REJECT_QOS" | StaleInput => "STALE_INPUT"
  | ConflictingInput => "CONFLICTING_INPUT" | FencedClaimant => "FENCED_CLAIMANT"
  end.

Definition is_admitting (o : AdmissionOutcome) : bool :=
  bool_decide (o = Admit) || bool_decide (o = AdmitDegraded).

Inductive BindingConstraintKind :=
  | BC_None | BC_RequestContract | BC_Fence | BC_IdentityConflict | BC_UnknownEvidence
  | BC_StaleGeneration | BC_Policy | BC_QoSClass | BC_PriorityClass | BC_Path | BC_Capacity
  | BC_Headroom | BC_Obligation | BC_AdmittedLoad | BC_Degradation | BC_Durability.
#[export] Instance BindingConstraintKind_eq_dec : EqDecision BindingConstraintKind.
Proof. solve_decision. Defined.

Definition BindingConstraintKind_to_N (k : BindingConstraintKind) : N :=
  match k with
  | BC_None => 0 | BC_RequestContract => 1 | BC_Fence => 2 | BC_IdentityConflict => 3
  | BC_UnknownEvidence => 4 | BC_StaleGeneration => 5 | BC_Policy => 6 | BC_QoSClass => 7
  | BC_PriorityClass => 8 | BC_Path => 9 | BC_Capacity => 10 | BC_Headroom => 11
  | BC_Obligation => 12 | BC_AdmittedLoad => 13 | BC_Degradation => 14 | BC_Durability => 15
  end.

Definition constraint_kind_to_string (k : BindingConstraintKind) : string :=
  match k with
  | BC_None => "none" | BC_RequestContract => "request_contract" | BC_Fence => "fence"
  | BC_IdentityConflict => "identity_conflict" | BC_UnknownEvidence => "unknown_evidence"
  | BC_StaleGeneration => "stale_generation" | BC_Policy => "policy" | BC_QoSClass => "qos_class"
  | BC_PriorityClass => "priority_class" | BC_Path => "path" | BC_Capacity => "capacity"
  | BC_Headroom => "headroom" | BC_Obligation => "obligation"
  | BC_AdmittedLoad => "admitted_load" | BC_Degradation => "degradation"
  | BC_Durability => "durability"
  end.

Record BindingConstraint := mkBindingConstraint {
  bc_kind : BindingConstraintKind;
  bc_subject : string;
  bc_subject_id : N;
  bc_required : Rate;
  bc_available : Rate;
  bc_observed : Generation;
  bc_authoritative : Generation;
  bc_detail : string;
}.

Record EffectiveResource := mkEffectiveResource {
  er_resource : ResourceId;
  er_generation : Generation;
  er_usable : Rate;
  er_headroom : Rate;
  er_obligations : Rate;
  er_admitted : Rate;
  er_available_for_new : Rate;
}.

Inductive RevocationReason :=
  | NotRevoked | OperatorRequest | GenerationAdvance | CapacityReduction | PathRevoked
  | PolicyChange | ClaimantDeath | CoordinatorRestart | ObligationChange | ReasonExpired.
#[export] Instance RevocationReason_eq_dec : EqDecision RevocationReason.
Proof. solve_decision. Defined.

Definition RevocationReason_to_N (r : RevocationReason) : N :=
  match r with
  | NotRevoked => 0 | OperatorRequest => 1 | GenerationAdvance => 2 | CapacityReduction => 3
  | PathRevoked => 4 | PolicyChange => 5 | ClaimantDeath => 6 | CoordinatorRestart => 7
  | ObligationChange => 8 | ReasonExpired => 9
  end.

Definition reason_to_string (r : RevocationReason) : string :=
  match r with
  | NotRevoked => "not_revoked" | OperatorRequest => "operator_request"
  | GenerationAdvance => "generation_advance" | CapacityReduction => "capacity_reduction"
  | PathRevoked => "path_revoked" | PolicyChange => "policy_change"
  | ClaimantDeath => "claimant_death" | CoordinatorRestart => "coordinator_restart"
  | ObligationChange => "obligation_change" | ReasonExpired => "expired"
  end.

Inductive RevalidationState :=
  | RS_Fresh | RS_Valid | RS_Invalidated | RS_Revoked | RS_Expired | RS_Ambiguous | RS_Unknown.
#[export] Instance RevalidationState_eq_dec : EqDecision RevalidationState.
Proof. solve_decision. Defined.

Definition RevalidationState_to_N (r : RevalidationState) : N :=
  match r with
  | RS_Fresh => 0 | RS_Valid => 1 | RS_Invalidated => 2 | RS_Revoked => 3 | RS_Expired => 4
  | RS_Ambiguous => 5 | RS_Unknown => 6
  end.

Definition revalidation_state_to_string (s : RevalidationState) : string :=
  match s with
  | RS_Fresh => "fresh" | RS_Valid => "valid" | RS_Invalidated => "invalidated"
  | RS_Revoked => "revoked" | RS_Expired => "expired" | RS_Ambiguous => "ambiguous"
  | RS_Unknown => "unknown"
  end.

(** ** Explanation *)

Record Explanation := mkExplanation {
  x_constraints : list BindingConstraint;
  x_max_constraints : N;
  x_max_bytes : N;
  x_bytes : N;
  x_omitted : N;
  x_truncated : bool;
}.
#[export] Instance eta_Explanation : Eta Explanation := fun x =>
  mkExplanation (x_constraints x) (x_max_constraints x) (x_max_bytes x) (x_bytes x) (x_omitted x)
    (x_truncated x).

Definition Explanation_new : Explanation :=
  mkExplanation [] max_explanation_constraints_limit max_explanation_bytes_limit 0 0 false.

Definition string_size (s : string) : N := N.of_nat (String.length s).

Definition bounded (value : string) (limit : N) : string :=
  if string_size value <=? limit then value else String.substring 0 (N.to_nat limit) value.

Definition Explanation_configure (max_constraints max_bytes : N) (x : Explanation) : Explanation :=
  let max_constraints := if max_constraints =? 0 then 1 else max_constraints in
  let max_constraints := if max_explanation_constraints_limit <? max_constraints
                         then max_explanation_constraints_limit else max_constraints in
  let max_bytes := if max_bytes <? 64 then 64 else max_bytes in
  let max_bytes := if max_explanation_bytes_limit <? max_bytes
                   then max_explanation_bytes_limit else max_bytes in
  x <| x_max_constraints := max_constraints |> <| x_max_bytes := max_bytes |>.

Definition bounded_constraint (c : BindingConstraint) : BindingConstraint :=
  mkBindingConstraint (bc_kind c) (bounded (bc_subject c) max_string_bytes) (bc_subject_id c)
    (bc_required c) (bc_available c) (bc_observed c) (bc_authoritative c)
    (bounded (bc_detail c) max_detail_bytes).

Definition constraint_cost (c : BindingConstraint) : N :=
  string_size (bc_subject c) + string_size (bc_detail c) + 96.

Definition Explanation_add (constraint : BindingConstraint) (x : Explanation)
    : bool * Explanation :=
  let constraint := bounded_constraint constraint in
  let cost := constraint_cost constraint in
  if (x_max_constraints x <=? sizeN (x_constraints x)) || (x_max_bytes x <? x_bytes x +w cost)
  then (false, x <| x_truncated := true |>
                 <| x_omitted := if x_omitted x =? u32_max then x_omitted x else x_omitted x + 1 |>)
  else (true, x <| x_bytes := x_bytes x +w cost |>
                <| x_constraints := x_constraints x ++ [constraint] |>).

(** [explanation.add(...)] as a statement. *)
Definition x_add (c : BindingConstraint) (x : Explanation) : Explanation :=
  (Explanation_add c x).2.

Definition x_primary (x : Explanation) : option BindingConstraint := head (x_constraints x).

(** One constraint's line of [render]. *)
Definition render_constraint (c : BindingConstraint) : string :=
  constraint_kind_to_string (bc_kind c) +:+
  (if bool_decide (bc_subject c = "") then "" else " subject=" +:+ bc_subject c) +:+
  (if bc_subject_id c =? 0 then "" else append_u64 " id=" (bc_subject_id c)) +:+
  (if negb (bc_required c =? 0) || negb (bc_available c =? 0)
   then append_u64 (append_u64 " required=" (bc_required c) +:+ " available=") (bc_available c)
   else "") +:+
  (if negb (gen_is_unknown (bc_observed c)) || negb (gen_is_unknown (bc_authoritative c))
   then append_u64 (append_u64 " observed=" (bc_observed c) +:+ " authoritative=")
          (bc_authoritative c)
   else "") +:+
  (if bool_decide (bc_detail c = "") then "" else " detail=" +:+ bc_detail c).

Definition newline : string := String (ascii_of_nat 10) "".

Fixpoint render_lines (first : bool) (l : list BindingConstraint) : string :=
  match l with
  | [] => ""
  | c :: l' => (if first then "" else newline) +:+ render_constraint c +:+ render_lines false l'
  end.

Definition render (x : Explanation) : string :=
  let out := render_lines true (x_constraints x) in
  let out := if x_truncated x
             then append_u64 (out +:+ newline +:+ "(truncated; omitted=") (x_omitted x) +:+ ")"
             else out in
  if x_max_bytes x + 64 <? string_size out
  then String.substring 0 (N.to_nat (x_max_bytes x + 64)) out else out.

(** ** Decisions *)

Record AdmissionDecision := mkAdmissionDecision {
  ad_decision : AdmissionDecisionId;
  ad_audit : AuditSequence;
  ad_outcome : AdmissionOutcome;
  ad_request : AdmissionRequestId;
  ad_demand : DemandId;
  ad_demand_generation : Generation;
  ad_attempt : AttemptId;
  ad_trace : TraceId;
  ad_epoch : FabricEpoch;
  ad_incarnation : CoordinatorIncarnation;
  ad_decided_tick : N;
  ad_selected_path : PathId;
  ad_selected_path_generation : Generation;
  ad_granted : Rate;
  ad_minimum_guaranteed : Rate;
  ad_desired : Rate;
  ad_maximum : Rate;
  ad_holding_interval : Duration;
  ad_bound_capacity_generation : Generation;
  ad_revalidation_required : bool;
  ad_authority : AuthorityVector;
  ad_effective : list EffectiveResource;
  ad_effective_truncated : bool;
  ad_explanation : Explanation;
  ad_idempotent_replay : bool;
  ad_request_fingerprint : N;
}.
#[export] Instance eta_AdmissionDecision : Eta AdmissionDecision := fun d =>
  mkAdmissionDecision (ad_decision d) (ad_audit d) (ad_outcome d) (ad_request d) (ad_demand d)
    (ad_demand_generation d) (ad_attempt d) (ad_trace d) (ad_epoch d) (ad_incarnation d)
    (ad_decided_tick d) (ad_selected_path d) (ad_selected_path_generation d) (ad_granted d)
    (ad_minimum_guaranteed d) (ad_desired d) (ad_maximum d) (ad_holding_interval d)
    (ad_bound_capacity_generation d) (ad_revalidation_required d) (ad_authority d)
    (ad_effective d) (ad_effective_truncated d) (ad_explanation d) (ad_idempotent_replay d)
    (ad_request_fingerprint d).

Definition AdmissionDecision_new : AdmissionDecision :=
  mkAdmissionDecision 0 0 RejectPolicy 0 0 0 0 0 0 0 0 0 0 0 0 0 0 0 0 false AuthorityVector_empty
    [] false Explanation_new false 0.

Record RevalidationResult := mkRevalidationResult {
  rv_decision : AdmissionDecisionId;
  rv_original_outcome : AdmissionOutcome;
  rv_state : RevalidationState;
  rv_reason : RevocationReason;
  rv_granted : Rate;
  rv_tick : N;
  rv_ledger_released : bool;
  rv_authority : AuthorityVector;
  rv_explanation : Explanation;
}.
#[export] Instance eta_RevalidationResult : Eta RevalidationResult := fun r =>
  mkRevalidationResult (rv_decision r) (rv_original_outcome r) (rv_state r) (rv_reason r)
    (rv_granted r) (rv_tick r) (rv_ledger_released r) (rv_authority r) (rv_explanation r).

Definition RevalidationResult_new : RevalidationResult :=
  mkRevalidationResult 0 RejectPolicy RS_Unknown NotRevoked 0 0 false AuthorityVector_empty
    Explanation_new.

(** ** The bounds of an explanation *)

Record explanation_wf (x : Explanation) : Prop := {
  xwf_count : sizeN (x_constraints x) <= x_max_constraints x;
  xwf_count_limit : x_max_constraints x <= 48;
  xwf_bytes : x_bytes x = sumN (constraint_cost <$> x_constraints x);
  xwf_bytes_bound : x_bytes x <= x_max_bytes x;
  xwf_bytes_limit : x_max_bytes x <= 8192;
  xwf_omitted : x_omitted x <= u32_max;
  xwf_truncated : x_truncated x = true <-> x_omitted x <> 0;
  xwf_strings : Forall (fun c => string_size (bc_subject c) <= 96 /\ string_size (bc_detail c) <= 192)
                       (x_constraints x);
}.

Lemma substring_length (s : string) (n m : nat) :
  (String.length (String.substring n m s) <= m)%nat.
Proof.
  revert n m. induction s as [|c s IH]; intros [|n] [|m]; cbn; try lia.
  - specialize (IH 0%nat m). lia.
  - apply (IH n 0%nat).
  - apply (IH n (S m)).
Qed.

Lemma bounded_size (s : string) (limit : N) : string_size (bounded s limit) <= limit.
Proof.
  unfold bounded. destruct (N.leb_spec (string_size s) limit); [done|].
  unfold string_size. pose proof (substring_length s 0 (N.to_nat limit)). lia.
Qed.

Lemma bounded_id (s : string) (limit : N) : string_size s <= limit -> bounded s limit = s.
Proof. intros H. unfold bounded. by apply N.leb_le in H as ->. Qed.

Lemma explanation_wf_new : explanation_wf Explanation_new.
Proof. by constructor. Qed.

Lemma explanation_wf_configure (c b : N) (x : Explanation) :
  explanation_wf x -> x_constraints x = [] -> explanation_wf (Explanation_configure c b x).
Proof.
  intros [] E. unfold Explanation_configure. constructor; cbn; rewrite ?E in *; try done.
  - apply N.le_0_l.
  - unfold max_explanation_constraints_limit. ncases; lia.
  - cbn in *. lia.
  - unfold max_explanation_bytes_limit. ncases; lia.
Qed.

Lemma cost_bound (c : BindingConstraint) : constraint_cost (bounded_constraint c) <= 384.
Proof.
  unfold constraint_cost. cbn.
  pose proof (bounded_size (bc_subject c) max_string_bytes).
  pose proof (bounded_size (bc_detail c) max_detail_bytes).
  unfold max_string_bytes, max_detail_bytes in *. lia.
Qed.

Lemma bytes_add_exact (c : BindingConstraint) (x : Explanation) :
  explanation_wf x ->
  x_bytes x +w constraint_cost (bounded_constraint c) =
  x_bytes x + constraint_cost (bounded_constraint c).
Proof.
  intros []. pose proof (cost_bound c). apply w_add_exact. unfold two64. lia.
Qed.

Lemma x_add_wf (c : BindingConstraint) (x : Explanation) :
  explanation_wf x -> explanation_wf (x_add c x).
Proof.
  intros Hwf. unfold x_add, Explanation_add. rewrite (bytes_add_exact c x Hwf).
  pose proof (cost_bound c) as Hc. destruct Hwf.
  destruct ((_ <=? _) || _) eqn:E; constructor; cbn; try done.
  - unfold u32_max in *; ncases; lia.
  - split; [|done]. intros _. unfold u32_max in *; ncases; lia.
  - apply orb_false_iff in E as [E _]. apply N.leb_gt in E. unfold sizeN in *.
    rewrite length_app. cbn. lia.
  - rewrite fmap_app, sumN_app. cbn. unfold sumN in *. lia.
  - apply orb_false_iff in E as [_ E]. apply N.ltb_ge in E. lia.
  - apply Forall_app_2; [done|]. apply Forall_singleton. split; apply bounded_size.
Qed.
#[export] Hint Resolve explanation_wf_new x_add_wf : naf.

(** An explanation is bounded and never loses a constraint silently.  Adding
    to an explanation within its bounds (48 constraints, 8192 bytes) stays within
    them; the constraint is kept, with its strings cut to 96 and 192 bytes, when
    [add] returns true, and otherwise the explanation is unchanged but for the
    truncation flag and the count of omissions, which does not wrap. *)
Theorem explanation_add_bounded (c : BindingConstraint) (x : Explanation)
    (Hwf : explanation_wf x) :
  let r := Explanation_add c x in
  explanation_wf r.2 /\
  (r.1 = true -> x_constraints r.2 = x_constraints x ++ [bounded_constraint c] /\
                 x_omitted r.2 = x_omitted x /\ x_truncated r.2 = x_truncated x) /\
  (r.1 = false -> x_constraints r.2 = x_constraints x /\ x_truncated r.2 = true /\
                  x_omitted r.2 = N.min (x_omitted x + 1) u32_max) /\
  (r.1 = false <-> sizeN (x_constraints x) = x_max_constraints x \/
                   x_max_bytes x < x_bytes x + constraint_cost (bounded_constraint c)).
Proof.
  cbn zeta. split; [by apply x_add_wf|]. unfold Explanation_add.
  rewrite (bytes_add_exact c x Hwf). pose proof (cost_bound c) as Hc. destruct Hwf.
  destruct ((_ <=? _) || _) eqn:E; cbn; split_and!; try done.
  - intros _. split_and!; try done. unfold u32_max in *; ncases; lia.
  - split; [intros _|done]. apply orb_true_iff in E as [E|E]; [left|right].
    + apply N.leb_le in E. lia.
    + by apply N.ltb_lt in E.
  - split; [done|]. apply orb_false_iff in E as [E1 E2]. rewrite N.leb_gt in E1.
    rewrite N.ltb_ge in E2. lia.
Qed.

Definition sample_constraint : BindingConstraint :=
  mkBindingConstraint BC_Capacity "resource" 7 100 40 0 0 "insufficient capacity".

Lemma explanation_add_bounded_witness :
  x_constraints (Explanation_add sample_constraint Explanation_new).2 = [sample_constraint] /\
  (Explanation_add sample_constraint
     (Explanation_configure 1 64 Explanation_new)).1 = false.
Proof.
  destruct (explanation_add_bounded sample_constraint Explanation_new explanation_wf_new)
    as (_ & H & _). destruct (H eq_refl) as [E _]. split; [exact E|reflexivity].
Defined.
