(* ===== verification/Ledger.v ===== *)
(** * The admitted-load ledger
    (src/include/naf/engine/ledger.hpp, src/src/engine/ledger.cpp)

    Per-resource totals of admitted load with the per-decision entries they are
    made of.  The mutating methods run in the state and error monad: a totals map
    changed before an early return stays changed. *)

From S2P Require Import Prelude Checked Identity.
Local Open Scope N_scope.
Local Open Scope naf_scope.

Record LedgerEntry := mkLedgerEntry {
  le_decision : AdmissionDecisionId;
  le_demand : DemandId;
  le_resource : ResourceId;
  le_amount : Rate;
  le_path : PathId;
  le_epoch : FabricEpoch;
  le_bound_capacity_generation : Generation;
  le_requires_revalidation : bool;
}.
#[export] Instance eta_LedgerEntry : Eta LedgerEntry := fun e =>
  mkLedgerEntry (le_decision e) (le_demand e) (le_resource e) (le_amount e) (le_path e)
    (le_epoch e) (le_bound_capacity_generation e) (le_requires_revalidation e).
#[export] Instance LedgerEntry_eq_dec : EqDecision LedgerEntry.
Proof. solve_decision. Defined.

Record AdmittedLoadLedger := mkLedger {
  lg_totals : gmap N Rate;
  lg_path_totals : gmap N Rate;
  lg_by_decision : gmap N (list LedgerEntry);
  lg_entry_count : N;
}.
#[export] Instance eta_Ledger : Eta AdmittedLoadLedger := fun l =>
  mkLedger (lg_totals l) (lg_path_totals l) (lg_by_decision l) (lg_entry_count l).

Definition Ledger_new : AdmittedLoadLedger := mkLedger ∅ ∅ ∅ 0.

(** [it == end() ? 0 : it->second.value()]. *)
Definition total_of (totals : gmap N Rate) (key : N) : N := default 0 (totals !! key).

Fixpoint check_additions (totals : gmap N Rate) (amounts : list (ResourceId * Rate))
    : Expected unit :=
  match amounts with
  | [] => Val tt
  | (resource, amount) :: amounts' =>
      refuse_if (is_unknown resource)
        (error InvalidArgument "reservation names an unknown resource") ;;
      (match add_u64 (total_of totals resource) amount with
       | Some _ => Val tt
       | None => error ArithmeticOverflow
                   ("admitted load would overflow for resource " +:+ std_to_string resource)
       end) ;;
      check_additions totals amounts'
  end.

Definition add_totals (totals : gmap N Rate) (amounts : list (ResourceId * Rate)) : gmap N Rate :=
  foldl (fun t '(resource, amount) => <[resource := total_of t resource +w amount]> t)
    totals amounts.

(** [total->second = value], or [erase(total)] when the value is zero. *)
Definition store_or_erase (key value : N) (t : gmap N Rate) : gmap N Rate :=
  if value =? 0 then delete key t else <[key := value]> t.

(** The subtraction loops of the rollback and of [remove]. *)
Definition sub_totals (totals : gmap N Rate) (amounts : list (ResourceId * Rate)) : gmap N Rate :=
  foldl (fun t '(resource, amount) =>
    store_or_erase resource (total_of t resource -w amount) t) totals amounts.

Section reserve.
Variables (decision : AdmissionDecisionId) (demand : DemandId) (epoch : FabricEpoch)
  (bound_capacity_generation : Generation) (path : PathId)
  (amounts : list (ResourceId * Rate)).

Definition make_entry (a : ResourceId * Rate) : LedgerEntry :=
  mkLedgerEntry decision demand a.1 a.2 path epoch bound_capacity_generation false.

(** The path block: the path total grows by the first amount. *)
Definition reserve_path : M AdmittedLoadLedger unit :=
  if is_known path then
    current ← gets (fun l => total_of (lg_path_totals l) path);
    match add_u64 current (from_option snd 0 (head amounts)) with
    | None =>
        modify (fun l => l <| lg_totals := sub_totals (lg_totals l) amounts |>) ;;
        fail ArithmeticOverflow "admitted load on the path would overflow"
    | Some updated =>
        modify (fun l => l <| lg_path_totals := <[path := updated]> (lg_path_totals l) |>)
    end
  else mret tt.

Definition reserve_guards (l : AdmittedLoadLedger) : Expected unit :=
  refuse_if (is_unknown decision)
    (error InvalidArgument "cannot reserve load for an unknown decision id") ;;
  refuse_if (bool_decide (is_Some (lg_by_decision l !! decision)))
    (error AlreadyExists "decision already holds admitted load") ;;
  refuse_if (bool_decide (amounts = []))
    (error InvalidArgument "refusing to reserve an empty resource set") ;;
  refuse_if (max_ledger_entries <? lg_entry_count l +w sizeN amounts)
    (error OversizedInput "admitted load ledger is full") ;;
  check_additions (lg_totals l) amounts.

Definition reserve : M AdmittedLoadLedger unit :=
  l ← get;
  lift (reserve_guards l) ;;
  modify (fun l => l <| lg_totals := add_totals (lg_totals l) amounts |>) ;;
  reserve_path ;;
  modify (fun l => l <| lg_entry_count := lg_entry_count l +w sizeN amounts |>
                     <| lg_by_decision := <[decision := make_entry <$> amounts]> (lg_by_decision l) |>).
End reserve.

Fixpoint check_removals (totals : gmap N Rate) (entries : list LedgerEntry) : Expected unit :=
  match entries with
  | [] => Val tt
  | entry :: entries' =>
      refuse_if (match totals !! le_resource entry with
                 | None => true
                 | Some total => total <? le_amount entry
                 end)
        (error ArithmeticUnderflow
           ("admitted load accounting would go negative for resource " +:+
            std_to_string (le_resource entry))) ;;
      check_removals totals entries'
  end.

Definition entry_amount (e : LedgerEntry) : ResourceId * Rate := (le_resource e, le_amount e).

(** The path block of [remove]: the path total shrinks by the sum of the entries,
    an unchecked 64-bit subtraction. *)
Definition release_path (entries : list LedgerEntry) (path_totals : gmap N Rate) : gmap N Rate :=
  match entries with
  | front :: _ =>
      if is_known (le_path front) then
        let path_total := SumLatch_of (le_amount <$> entries) in
        match path_totals !! le_path front with
        | Some total =>
            store_or_erase (le_path front) (total -w saturated_total path_total) path_totals
        | None => path_totals
        end
      else path_totals
  | [] => path_totals
  end.

(** The result is the [released] out-parameter. *)
Definition remove (decision : AdmissionDecisionId) : M AdmittedLoadLedger (list LedgerEntry) :=
  l ← get;
  match lg_by_decision l !! decision with
  | None => fail NotFound "decision holds no admitted load"
  | Some entries =>
      lift (check_removals (lg_totals l) entries) ;;
      modify (fun l => l <| lg_totals := sub_totals (lg_totals l) (entry_amount <$> entries) |>
                         <| lg_path_totals := release_path entries (lg_path_totals l) |>
                         <| lg_entry_count := lg_entry_count l -w sizeN entries |>
                         <| lg_by_decision := delete decision (lg_by_decision l) |>) ;;
      mret entries
  end.

Definition release (decision : AdmissionDecisionId) : M AdmittedLoadLedger (list LedgerEntry) :=
  lift (refuse_if (is_unknown decision)
          (error InvalidArgument "cannot release an unknown decision id")) ;;
  remove decision.

Definition holds (l : AdmittedLoadLedger) (decision : AdmissionDecisionId) : bool :=
  bool_decide (is_Some (lg_by_decision l !! decision)).
Definition admitted (l : AdmittedLoadLedger) (resource : ResourceId) : Rate :=
  total_of (lg_totals l) resource.
Definition admitted_on_path (l : AdmittedLoadLedger) (path : PathId) : Rate :=
  if is_unknown path then 0 else total_of (lg_path_totals l) path.
Definition resources (l : AdmittedLoadLedger) : list ResourceId := keys (lg_totals l).
Definition live_decision_keys (l : AdmittedLoadLedger) : list N := keys (lg_by_decision l).
Definition live_decisions (l : AdmittedLoadLedger) : N := N.of_nat (size (lg_by_decision l)).

(** The order of [entries()]: by resource, then by decision. *)
Definition entry_le (a b : LedgerEntry) : Prop :=
  le_resource a < le_resource b \/
  (le_resource a = le_resource b /\ le_decision a <= le_decision b).
#[export] Instance entry_le_dec : RelDecision entry_le.
Proof. intros a b. unfold entry_le. apply _. Defined.

Definition entries (l : AdmittedLoadLedger) : list LedgerEntry :=
  merge_sort entry_le (items (lg_by_decision l) ≫= snd).

Definition set_flag (b : bool) (es : list LedgerEntry) : list LedgerEntry :=
  map (fun e => e <| le_requires_revalidation := b |>) es.
Definition set_flags (b : bool) (l : AdmittedLoadLedger) : AdmittedLoadLedger :=
  l <| lg_by_decision := fmap (M := gmap N) (set_flag b) (lg_by_decision l) |>.
Definition mark_all_requiring_revalidation : AdmittedLoadLedger -> AdmittedLoadLedger :=
  set_flags true.
Definition clear_revalidation_flags : AdmittedLoadLedger -> AdmittedLoadLedger := set_flags false.
Definition Ledger_clear (l : AdmittedLoadLedger) : AdmittedLoadLedger := Ledger_new.

(** ** Totals *)

(** The part of an amount list on one resource. *)
Definition amount_of (r : ResourceId) (amounts : list (ResourceId * Rate)) : N :=
  sumN (filter (fun a => a.1 = r) amounts).*2.

Lemma amount_of_cons (r r' : ResourceId) (a : Rate) (l : list (ResourceId * Rate)) :
  amount_of r ((r', a) :: l) = (if decide (r' = r) then a else 0) + amount_of r l.
Proof. unfold amount_of. rewrite filter_cons. cbn. by destruct (decide (r' = r)). Qed.

Lemma amount_of_notin (r : ResourceId) (l : list (ResourceId * Rate)) :
  r ∉ l.*1 -> amount_of r l = 0.
Proof.
  induction l as [|[r' a] l IH]; [done|]. rewrite fmap_cons, not_elem_of_cons. intros [Hne Hr].
  rewrite amount_of_cons, IH by done. cbn in Hne. by rewrite decide_False.
Qed.

Lemma amount_of_in (r : ResourceId) (a : Rate) (l : list (ResourceId * Rate)) :
  NoDup l.*1 -> (r, a) ∈ l -> amount_of r l = a.
Proof.
  induction l as [|[r' a'] l IH]; [by intros _ ?%not_elem_of_nil|].
  rewrite fmap_cons, NoDup_cons, elem_of_cons, amount_of_cons. cbn. intros [Hr Hnd] [[= <- <-]|Hin].
  - rewrite decide_True, amount_of_notin by done. lia.
  - rewrite decide_False, IH; [done..|]. intros ->. apply Hr. apply list_elem_of_fmap.
    by exists (r, a).
Qed.

Lemma total_of_insert (t : gmap N Rate) (k v r : N) :
  total_of (<[k := v]> t) r = if decide (k = r) then v else total_of t r.
Proof.
  unfold total_of. destruct (decide (k = r)) as [->|?];
    [by rewrite lookup_insert_eq|by rewrite lookup_insert_ne].
Qed.

Lemma total_of_store (t : gmap N Rate) (k v r : N) :
  total_of (store_or_erase k v t) r = if decide (k = r) then v else total_of t r.
Proof.
  unfold store_or_erase. destruct (N.eqb_spec v 0) as [->|?]; [|apply total_of_insert].
  unfold total_of. destruct (decide (k = r)) as [->|?];
    [by rewrite lookup_delete_eq|by rewrite lookup_delete_ne].
Qed.

(** Adding a list of amounts adds, to each total, its part of the list. *)
Lemma add_totals_spec (amounts : list (ResourceId * Rate)) (t : gmap N Rate) (r : ResourceId) :
  (forall r, total_of t r + amount_of r amounts < two64) ->
  total_of (add_totals t amounts) r = total_of t r + amount_of r amounts.
Proof.
  unfold add_totals. revert t. induction amounts as [|[r' a] l IH]; intros t Ht; cbn [foldl].
  - unfold amount_of. cbn. lia.
  - pose proof (Ht r') as Hr'. rewrite amount_of_cons, decide_True in Hr' by done.
    assert (Ht' : forall x, total_of (<[r' := total_of t r' +w a]> t) x =
                            (if decide (r' = x) then a else 0) + total_of t x).
    { intros x. rewrite total_of_insert, w_add_exact by lia.
      destruct (decide (r' = x)) as [->|]; lia. }
    rewrite IH.
    + rewrite Ht', amount_of_cons. lia.
    + intros x. specialize (Ht x). rewrite amount_of_cons in Ht. rewrite Ht'. lia.
Qed.

(** Subtracting a list of amounts the totals cover takes each part off. *)
Lemma sub_totals_spec (amounts : list (ResourceId * Rate)) (t : gmap N Rate) (r : ResourceId) :
  (forall r, amount_of r amounts <= total_of t r < two64) ->
  total_of (sub_totals t amounts) r = total_of t r - amount_of r amounts.
Proof.
  unfold sub_totals. revert t. induction amounts as [|[r' a] l IH]; intros t Ht; cbn [foldl].
  - unfold amount_of. cbn. lia.
  - pose proof (Ht r') as Hr'. rewrite amount_of_cons, decide_True in Hr' by done.
    assert (Ht' : forall x, total_of (store_or_erase r' (total_of t r' -w a) t) x =
                            total_of t x - (if decide (r' = x) then a else 0)).
    { intros x. rewrite total_of_store, w_sub_exact by (unfold u64; lia).
      destruct (decide (r' = x)) as [->|]; lia. }
    rewrite IH.
    + rewrite Ht', amount_of_cons. lia.
    + intros x. specialize (Ht x). rewrite amount_of_cons in Ht. rewrite Ht'. lia.
Qed.

(** ** The invariant *)

(** Every entry of the ledger, in no particular order. *)
Definition all_entries (m : gmap N (list LedgerEntry)) : list LedgerEntry :=
  mjoin (map_to_list m).*2.
(** The load a list of entries puts on a resource. *)
Definition load (r : ResourceId) (es : list LedgerEntry) : N := amount_of r (entry_amount <$> es).

Record decision_ok (d : AdmissionDecisionId) (es : list LedgerEntry) : Prop := {
  dok_known : d <> 0;
  dok_nonempty : es <> [];
  dok_entries : Forall (fun e => le_decision e = d /\ le_resource e <> 0) es;
  dok_distinct : NoDup (le_resource <$> es);
}.

Record ledger_wf (l : AdmittedLoadLedger) : Prop := {
  lwf_totals : forall r, admitted l r = load r (all_entries (lg_by_decision l));
  lwf_words : forall r, admitted l r < two64;
  lwf_count : lg_entry_count l = sizeN (all_entries (lg_by_decision l));
  lwf_bounded : lg_entry_count l <= max_ledger_entries;
  lwf_decisions : map_Forall decision_ok (lg_by_decision l);
}.

Lemma amount_of_app (r : ResourceId) (l k : list (ResourceId * Rate)) :
  amount_of r (l ++ k) = amount_of r l + amount_of r k.
Proof. unfold amount_of. by rewrite filter_app, fmap_app, sumN_app. Qed.

Lemma load_app (r : ResourceId) (l k : list LedgerEntry) : load r (l ++ k) = load r l + load r k.
Proof. unfold load. by rewrite fmap_app, amount_of_app. Qed.

#[export] Instance amount_of_perm (r : ResourceId) : Proper ((≡ₚ) ==> eq) (amount_of r).
Proof. intros l k E. unfold amount_of. by rewrite E. Qed.
#[export] Instance load_perm (r : ResourceId) : Proper ((≡ₚ) ==> eq) (load r).
Proof. intros l k E. unfold load, amount_of. by rewrite E. Qed.

#[export] Instance sizeN_perm {A} : Proper ((≡ₚ) ==> eq) (@sizeN A).
Proof. intros l k E. unfold sizeN. by rewrite E. Qed.

#[export] Instance mjoin_perm {A} : Proper ((≡ₚ) ==> (≡ₚ)) (mjoin (M:=list) (A:=A)).
Proof. intros l k E. induction E; cbn; [done|by f_equiv|by rewrite !app_assoc, (Permutation_app_comm x)|by etrans]. Qed.

Lemma all_entries_sum (f : list LedgerEntry -> N) (m : gmap N (list LedgerEntry)) :
  f [] = 0 -> (forall l l', f (l ++ l') = f l + f l') -> f (all_entries m) = map_sum (fun _ es => f es) m.
Proof.
  intros H0 Happ. unfold all_entries, map_sum. induction (map_to_list m) as [|[d es] l IH]; [done|].
  change (f (es ++ mjoin l.*2) = f es + sumN ((fun p => f p.2) <$> l)). by rewrite Happ, IH.
Qed.

Lemma all_entries_insert (m : gmap N (list LedgerEntry)) (d : N) (es : list LedgerEntry) :
  m !! d = None -> all_entries (<[d := es]> m) ≡ₚ es ++ all_entries m.
Proof. intros H. unfold all_entries. by rewrite map_to_list_insert. Qed.

Lemma all_entries_delete (m : gmap N (list LedgerEntry)) (d : N) (es : list LedgerEntry) :
  m !! d = Some es -> all_entries m ≡ₚ es ++ all_entries (delete d m).
Proof.
  intros H. rewrite <- (insert_delete_id m d es) at 1 by done.
  apply all_entries_insert, lookup_delete_eq.
Qed.

Lemma entries_amounts (d : N) (demand e g p : N) (amounts : list (ResourceId * Rate)) :
  entry_amount <$> (make_entry d demand e g p <$> amounts) = amounts.
Proof.
  induction amounts as [|[r a] l IH]; [done|]. rewrite !fmap_cons. by f_equal.
Qed.

Lemma load_notin (r : ResourceId) (es : list LedgerEntry) :
  r ∉ le_resource <$> es -> load r es = 0.
Proof.
  intros H. apply amount_of_notin. by rewrite <- list_fmap_compose.
Qed.

Lemma load_in (e : LedgerEntry) (es : list LedgerEntry) :
  NoDup (le_resource <$> es) -> e ∈ es -> load (le_resource e) es = le_amount e.
Proof.
  intros Hnd Hin. apply amount_of_in; [by rewrite <- list_fmap_compose|].
  apply list_elem_of_fmap. by exists e.
Qed.

Lemma ledger_new_wf : ledger_wf Ledger_new.
Proof. constructor; try done. Qed.

(** A held decision's load is part of the totals. *)
Lemma held_load (l : AdmittedLoadLedger) (d : N) (es : list LedgerEntry) (r : ResourceId) :
  ledger_wf l -> lg_by_decision l !! d = Some es ->
  admitted l r = load r es + load r (all_entries (delete d (lg_by_decision l))).
Proof.
  intros [Ht _ _ _ _] Hd. rewrite Ht, <- load_app. by apply load_perm, all_entries_delete.
Qed.

Lemma check_additions_val (t : gmap N Rate) (amounts : list (ResourceId * Rate)) :
  (forall r, u64 (total_of t r)) -> Forall (fun a => u64 a.2) amounts ->
  check_additions t amounts = Val tt <->
  Forall (fun a => a.1 <> 0 /\ total_of t a.1 + a.2 < two64) amounts.
Proof.
  intros Ht. induction 1 as [|[r a] l Ha Hl IH]; cbn [check_additions]; [by rewrite Forall_nil|].
  unfold error. rewrite refuse_seq, is_unknown_false, bind_unit_val, IH, Forall_cons. cbn.
  rewrite add_u64_spec by done. destruct (N.ltb_spec (total_of t r + a) two64).
  - naive_solver.
  - split; [by intros (_ & [=] & _)|]. intros [[_ ?] _]. lia.
Qed.

Lemma check_removals_val (t : gmap N Rate) (es : list LedgerEntry) :
  check_removals t es = Val tt <->
  Forall (fun e => exists total, t !! le_resource e = Some total /\ le_amount e <= total) es.
Proof.
  induction es as [|e es IH]; cbn [check_removals]; [by rewrite Forall_nil|].
  unfold error. rewrite refuse_seq, IH, Forall_cons.
  destruct (t !! le_resource e) as [total|]; [rewrite N.ltb_ge|]; naive_solver.
Qed.

Lemma additions_cover (t : gmap N Rate) (amounts : list (ResourceId * Rate)) (r : ResourceId) :
  (forall r, u64 (total_of t r)) -> NoDup amounts.*1 ->
  Forall (fun a => a.1 <> 0 /\ total_of t a.1 + a.2 < two64) amounts ->
  total_of t r + amount_of r amounts < two64.
Proof.
  intros Ht Hnd Hall. destruct (decide (r ∈ amounts.*1)) as [Hin|Hout].
  - apply list_elem_of_fmap in Hin as ([r' a] & -> & Hin). cbn.
    rewrite (amount_of_in r' a) by done. rewrite Forall_forall in Hall. by destruct (Hall _ Hin).
  - rewrite amount_of_notin by done. specialize (Ht r). unfold u64 in Ht. lia.
Qed.

(** ** Reservation *)

Section reserve_spec.
Context (d : AdmissionDecisionId) (demand e g p : N) (amounts : list (ResourceId * Rate)).
Hypothesis (Hnd : NoDup amounts.*1) (Hu : Forall (fun a => u64 a.2) amounts)
  (Hlen : sizeN amounts <= ptrdiff_max).

(** What a reservation leaves behind when it succeeds and when it fails. *)
Definition reserved (l l' : AdmittedLoadLedger) : Prop :=
  (forall r, admitted l' r = admitted l r + amount_of r amounts) /\
  (forall r, admitted l' r < two64) /\
  lg_by_decision l' = <[d := make_entry d demand e g p <$> amounts]> (lg_by_decision l) /\
  lg_entry_count l' = lg_entry_count l + sizeN amounts.

Definition same_load (l l' : AdmittedLoadLedger) : Prop :=
  (forall r, admitted l' r = admitted l r) /\
  lg_path_totals l' = lg_path_totals l /\
  lg_by_decision l' = lg_by_decision l /\ lg_entry_count l' = lg_entry_count l.

Lemma same_load_refl (l : AdmittedLoadLedger) : same_load l l.
Proof. unfold same_load. by split_and!. Qed.

Lemma reserve_guards_val (l : AdmittedLoadLedger) :
  ledger_wf l ->
  reserve_guards d amounts l = Val tt <->
  d <> 0 /\ lg_by_decision l !! d = None /\ amounts <> [] /\
  lg_entry_count l +w sizeN amounts <= max_ledger_entries /\
  Forall (fun a => a.1 <> 0 /\ admitted l a.1 + a.2 < two64) amounts.
Proof.
  intros [_ Hw _ _ _]. unfold reserve_guards, error. rewrite !refuse_seq.
  rewrite check_additions_val by done.
  rewrite is_unknown_false, !bool_decide_eq_false, N.ltb_ge, <- eq_None_not_Some. done.
Qed.

Lemma reserve_covers (l : AdmittedLoadLedger) (r : ResourceId) :
  ledger_wf l -> reserve_guards d amounts l = Val tt ->
  total_of (lg_totals l) r + amount_of r amounts < two64.
Proof.
  intros Hwf (_ & _ & _ & _ & H)%reserve_guards_val; [|done].
  apply additions_cover; [apply Hwf|done|done].
Qed.

Lemma rollback_totals (l : AdmittedLoadLedger) (r : ResourceId) :
  ledger_wf l -> reserve_guards d amounts l = Val tt ->
  total_of (sub_totals (add_totals (lg_totals l) amounts) amounts) r = total_of (lg_totals l) r.
Proof.
  intros Hwf Hg.
  assert (Ha : forall r, total_of (add_totals (lg_totals l) amounts) r =
                         total_of (lg_totals l) r + amount_of r amounts)
    by (intros x; apply add_totals_spec; intros y; by apply reserve_covers).
  rewrite sub_totals_spec; [rewrite Ha; lia|].
  intros x. rewrite Ha. pose proof (reserve_covers l x Hwf Hg). lia.
Qed.

Lemma reserve_outcome (l : AdmittedLoadLedger) :
  ledger_wf l ->
  wp (reserve d demand e g p amounts)
    (fun res l' => match res with
                   | Val _ => reserve_guards d amounts l = Val tt /\ reserved l l'
                   | Err _ => same_load l l'
                   end) l.
Proof.
  intros Hwf. unfold reserve. apply wp_bind, wp_get, wp_bind, wp_lift.
  destruct (reserve_guards d amounts l) as [[]|s] eqn:Hg; [|apply same_load_refl].
  apply wp_bind, wp_modify, wp_bind.
  assert (Hok : forall l1, lg_totals l1 = add_totals (lg_totals l) amounts ->
            lg_by_decision l1 = lg_by_decision l -> lg_entry_count l1 = lg_entry_count l ->
            reserved l (l1 <| lg_entry_count := lg_entry_count l1 +w sizeN amounts |>
                           <| lg_by_decision := <[d := make_entry d demand e g p <$> amounts]>
                                                  (lg_by_decision l1) |>)).
  { intros l1 Ht Hb Hc. unfold reserved, admitted. cbn. rewrite Ht, Hb, Hc. split_and!.
    - intros r. apply add_totals_spec. intros y. by apply reserve_covers.
    - intros r. rewrite add_totals_spec by (intros y; by apply reserve_covers).
      by apply reserve_covers.
    - done.
    - apply reserve_guards_val in Hg as (_ & _ & _ & Hg & _); [|done].
      pose proof (lwf_bounded l Hwf). unfold max_ledger_entries, ptrdiff_max in *.
      apply w_add_exact. unfold two64. lia. }
  unfold reserve_path. destruct (is_known p).
  - apply wp_bind, wp_gets. destruct (add_u64 _ _) as [u|].
    + apply wp_modify, wp_modify. split; [done|]. by apply Hok.
    + apply wp_bind, wp_modify, wp_lift. unfold same_load. split_and!; [|done..]. intros r.
      by apply rollback_totals.
  - apply wp_ret, wp_modify. split; [done|]. by apply Hok.
Qed.

(** The amount a reservation adds to the total of its path: the first one. *)
Definition path_amount : Rate := from_option snd 0 (head amounts).
Definition path_room (l : AdmittedLoadLedger) : Prop :=
  p = 0 \/ total_of (lg_path_totals l) p + path_amount < two64.

Definition reservable (l : AdmittedLoadLedger) : Prop :=
  d <> 0 /\ lg_by_decision l !! d = None /\ amounts <> [] /\
  lg_entry_count l + sizeN amounts <= max_ledger_entries /\
  Forall (fun a => a.1 <> 0 /\ admitted l a.1 + a.2 < two64) amounts.

Lemma reserve_guards_reservable (l : AdmittedLoadLedger) :
  ledger_wf l -> reserve_guards d amounts l = Val tt <-> reservable l.
Proof.
  intros Hwf. rewrite reserve_guards_val by done. unfold reservable.
  pose proof (lwf_bounded l Hwf). unfold max_ledger_entries, ptrdiff_max in *.
  by rewrite w_add_exact by (unfold two64; lia).
Qed.

Lemma path_amount_word : u64 path_amount.
Proof. unfold path_amount. destruct amounts as [|[r a] l]; cbn; [done|]. by inversion Hu. Qed.

(** When a reservation succeeds, and what becomes of the path totals. *)
Lemma reserve_succeeds (l : AdmittedLoadLedger) :
  ledger_wf l -> u64 (total_of (lg_path_totals l) p) ->
  let '(res, l') := reserve d demand e g p amounts l in
  (res = Val tt <-> reservable l /\ path_room l) /\
  (res = Val tt -> forall q, total_of (lg_path_totals l') q =
    total_of (lg_path_totals l) q + (if decide (q = p /\ p <> 0) then path_amount else 0)).
Proof.
  intros Hwf Hp. unfold reserve, path_room, mbind, M_bind, get, lift, modify. cbv beta iota.
  pose proof (reserve_guards_reservable l Hwf) as Hg.
  destruct (reserve_guards d amounts l) as [[]|s]; cbv beta iota; [|by split; [naive_solver|]].
  destruct Hg as [Hg _]. specialize (Hg eq_refl).
  unfold reserve_path, mbind, M_bind, gets, fail, lift, modify. destruct (is_known p) eqn:Hk.
  - unfold is_known in Hk. apply negb_true_iff, N.eqb_neq in Hk. cbn [lg_path_totals set_field]. fold path_amount.
    rewrite add_u64_spec by (done || apply path_amount_word).
    destruct (N.ltb_spec (total_of (lg_path_totals l) p + path_amount) two64).
    + split; [naive_solver|]. intros _ q. cbn [lg_path_totals set_field]. rewrite total_of_insert.
      destruct (decide (p = q)) as [->|]; [by rewrite decide_True|]. rewrite decide_False by naive_solver. lia.
    + split; [|done]. split; [done|]. intros [_ [?|?]]; lia.
  - unfold is_known in Hk. apply negb_false_iff, N.eqb_eq in Hk. clear Hp. subst p.
    split; [naive_solver|]. intros _ q. rewrite decide_False by naive_solver. cbn. lia.
Qed.
End reserve_spec.

Lemma make_entry_ok (d demand e g p : N) (amounts : list (ResourceId * Rate)) :
  d <> 0 -> amounts <> [] -> NoDup amounts.*1 -> Forall (fun a => a.1 <> 0) amounts ->
  decision_ok d (make_entry d demand e g p <$> amounts).
Proof.
  intros Hd Hne Hnd Hk. constructor; [done| | |].
  - by destruct amounts.
  - apply Forall_fmap. by eapply Forall_impl.
  - by rewrite <- list_fmap_compose.
Qed.

Lemma same_load_wf (l l' : AdmittedLoadLedger) : ledger_wf l -> same_load l l' -> ledger_wf l'.
Proof.
  intros [Ht Hw Hc Hb Hd] (E1 & _ & E2 & E3).
  constructor; rewrite ?E2, ?E3; try done; intros r; rewrite E1; auto.
Qed.

Lemma reserved_wf (d demand e g p : N) (amounts : list (ResourceId * Rate))
    (l l' : AdmittedLoadLedger) :
  NoDup amounts.*1 -> Forall (fun a => u64 a.2) amounts -> sizeN amounts <= ptrdiff_max ->
  ledger_wf l -> reserve_guards d amounts l = Val tt -> reserved d demand e g p amounts l l' ->
  ledger_wf l'.
Proof.
  intros Hnd Hu Hlen Hwf Hg (E1 & E2 & E3 & E4).
  apply reserve_guards_val in Hg as (Hd & Hnone & Hne & Hfull & Hall); [|done..].
  pose proof (all_entries_insert (lg_by_decision l) d
                (make_entry d demand e g p <$> amounts) Hnone) as Hp.
  destruct Hwf as [Ht Hw Hc Hb Hok]. constructor.
  - intros r. rewrite E1, E3, (load_perm r _ _ Hp), load_app, <- Ht.
    unfold load at 1. rewrite entries_amounts. lia.
  - done.
  - rewrite E4, E3, (sizeN_perm _ _ Hp), Hc. unfold sizeN. rewrite length_app, length_fmap. lia.
  - rewrite E4. unfold max_ledger_entries, ptrdiff_max in *. rewrite w_add_exact in Hfull; [done|].
    unfold two64. lia.
  - rewrite E3. apply map_Forall_insert_2; [|done]. apply make_entry_ok; [done..|].
    eapply Forall_impl; [exact Hall|]. by intros ? [? _].
Qed.

(** ** Release *)

Lemma held_amount_le (l : AdmittedLoadLedger) (d : N) (es : list LedgerEntry) (e : LedgerEntry) :
  ledger_wf l -> lg_by_decision l !! d = Some es -> e ∈ es ->
  le_amount e <= admitted l (le_resource e).
Proof.
  intros Hwf Hd Hin. rewrite (held_load l d es (le_resource e) Hwf Hd).
  rewrite (load_in e es); [lia| |done]. by eapply (lwf_decisions l Hwf d es).
Qed.

(** A held decision whose amounts are all positive passes the release checks. *)
Lemma held_removable (l : AdmittedLoadLedger) (d : N) (es : list LedgerEntry) :
  ledger_wf l -> lg_by_decision l !! d = Some es -> Forall (fun e => le_amount e <> 0) es ->
  check_removals (lg_totals l) es = Val tt.
Proof.
  intros Hwf Hd Hpos. apply check_removals_val, Forall_forall. intros e Hin.
  pose proof (held_amount_le l d es e Hwf Hd Hin) as Hle.
  rewrite Forall_forall in Hpos. specialize (Hpos e Hin). unfold admitted, total_of in Hle.
  destruct (lg_totals l !! le_resource e) as [t|]; cbn in Hle; [by exists t|lia].
Qed.

(** What a release leaves behind. *)
Definition released (d : AdmissionDecisionId) (es : list LedgerEntry)
    (l l' : AdmittedLoadLedger) : Prop :=
  (forall r, admitted l' r + load r es = admitted l r) /\
  lg_by_decision l' = delete d (lg_by_decision l) /\
  lg_entry_count l' + sizeN es = lg_entry_count l.

Lemma remove_outcome (l : AdmittedLoadLedger) (d : AdmissionDecisionId) :
  ledger_wf l ->
  wp (remove d)
    (fun res l' => match res with
                   | Val es => lg_by_decision l !! d = Some es /\ released d es l l'
                   | Err s => l' = l /\
                       (lg_by_decision l !! d = None \/
                        exists es, lg_by_decision l !! d = Some es /\
                                   ~ Forall (fun e => le_amount e <> 0) es)
                   end) l.
Proof.
  intros Hwf. unfold remove. apply wp_bind, wp_get.
  destruct (lg_by_decision l !! d) as [es|] eqn:Hd; [|by split; [|left]].
  apply wp_bind, wp_lift. destruct (check_removals (lg_totals l) es) as [[]|s] eqn:Hc.
  - apply wp_bind, wp_modify, wp_ret. split; [done|]. unfold released, admitted. cbn. split_and!.
    + intros r. pose proof (held_load l d es) as Hh.
      assert (Hle : forall x, amount_of x (entry_amount <$> es) <= total_of (lg_totals l) x < two64).
      { intros x. pose proof (Hh x Hwf Hd). pose proof (lwf_words l Hwf x).
        unfold load, admitted in *. lia. }
      rewrite sub_totals_spec by done. unfold load. pose proof (Hle r). lia.
    + done.
    + pose proof (all_entries_delete _ _ _ Hd) as Hp. pose proof (lwf_count l Hwf) as Hcnt.
      rewrite (sizeN_perm _ _ Hp) in Hcnt. unfold sizeN in *. rewrite length_app in Hcnt.
      pose proof (lwf_bounded l Hwf). unfold max_ledger_entries in *.
      rewrite w_sub_exact; [lia|unfold u64, two64; lia|lia].
  - split; [done|]. right. exists es. split; [done|]. intros Hpos.
    by rewrite (held_removable l d es Hwf Hd Hpos) in Hc.
Qed.

Lemma released_wf (d : N) (es : list LedgerEntry) (l l' : AdmittedLoadLedger) :
  ledger_wf l -> lg_by_decision l !! d = Some es -> released d es l l' -> ledger_wf l'.
Proof.
  intros Hwf Hd (E1 & E2 & E3). pose proof (all_entries_delete _ _ _ Hd) as Hp.
  constructor.
  - intros r. rewrite E2. pose proof (held_load l d es r Hwf Hd). specialize (E1 r). lia.
  - intros r. specialize (E1 r). pose proof (lwf_words l Hwf r). lia.
  - rewrite E2. pose proof (lwf_count l Hwf) as Hc. rewrite (sizeN_perm _ _ Hp) in Hc.
    unfold sizeN in *. rewrite length_app in Hc. lia.
  - pose proof (lwf_bounded l Hwf). lia.
  - rewrite E2. apply map_Forall_delete, Hwf.
Qed.

Lemma release_run (d : N) (l : AdmittedLoadLedger) :
  release d l = if is_unknown d
                then (error InvalidArgument "cannot release an unknown decision id", l)
                else remove d l.
Proof. unfold release. by destruct (is_unknown d). Qed.

(** ** Rollback

    A reservation that succeeded can always be released again, also when it holds
    zero amounts: its resources have totals. *)

Lemma add_totals_key (amounts : list (ResourceId * Rate)) (t : gmap N Rate) (r : ResourceId) :
  r ∈ amounts.*1 \/ is_Some (t !! r) -> is_Some (add_totals t amounts !! r).
Proof.
  unfold add_totals. revert t. induction amounts as [|[r' a] l IH]; intros t; cbn [foldl].
  - by intros [?%not_elem_of_nil|].
  - intros H. apply IH. rewrite fmap_cons, elem_of_cons in H.
    destruct (decide (r' = r)) as [->|]; [right; by rewrite lookup_insert_eq|].
    rewrite lookup_insert_ne by done. naive_solver.
Qed.

Lemma reserve_totals (d demand e g p : N) (amounts : list (ResourceId * Rate))
    (l l' : AdmittedLoadLedger) :
  reserve d demand e g p amounts l = (Val tt, l') -> lg_totals l' = add_totals (lg_totals l) amounts.
Proof.
  unfold reserve, reserve_path, mbind, M_bind, get, lift. cbv beta iota.
  destruct (reserve_guards d amounts l) as [[]|]; [|done]. unfold modify, gets, fail, lift. cbv beta iota.
  destruct (is_known p); [destruct (add_u64 _ _)|]; by intros [= <-].
Qed.

(** Nothing is held, counted or admitted that was not before. *)
Definition same_amounts (l l' : AdmittedLoadLedger) : Prop :=
  (forall r, admitted l' r = admitted l r) /\ lg_by_decision l' = lg_by_decision l /\
  lg_entry_count l' = lg_entry_count l.

Lemma same_load_amounts (l l' : AdmittedLoadLedger) : same_load l l' -> same_amounts l l'.
Proof. intros (? & _ & ? & ?). done. Qed.

Lemma same_amounts_wf (l l' : AdmittedLoadLedger) : ledger_wf l -> same_amounts l l' -> ledger_wf l'.
Proof.
  intros [Ht Hw Hc Hb Hd] (E1 & E2 & E3).
  constructor; rewrite ?E2, ?E3; try done; intros r; rewrite E1; auto.
Qed.

Lemma remove_held (l : AdmittedLoadLedger) (d : N) (es : list LedgerEntry) :
  lg_by_decision l !! d = Some es -> check_removals (lg_totals l) es = Val tt ->
  exists l', remove d l = (Val es, l').
Proof.
  intros Hd Hc. unfold remove, mbind, M_bind, get, lift. cbv beta iota. rewrite Hd, Hc.
  cbv beta iota. by eexists.
Qed.

Lemma reserve_release (d demand e g p : N) (amounts : list (ResourceId * Rate))
    (l l1 : AdmittedLoadLedger) :
  NoDup amounts.*1 -> Forall (fun a => u64 a.2) amounts -> sizeN amounts <= ptrdiff_max ->
  ledger_wf l -> reserve d demand e g p amounts l = (Val tt, l1) ->
  same_amounts l (release d l1).2.
Proof.
  intros Hnd Hu Hlen Hwf Hres.
  pose proof (reserve_outcome d demand e g p amounts Hnd Hu Hlen l Hwf) as Ho.
  apply (wp_elim _ _ _ _ _ Ho) in Hres as Hr. destruct Hr as [Hg Hr].
  pose proof (reserved_wf d demand e g p amounts l l1 Hnd Hu Hlen Hwf Hg Hr) as Hwf1.
  destruct Hr as (E1 & _ & E3 & E4).
  apply reserve_guards_val in Hg as (Hd & Hnone & _); [|done..].
  rewrite release_run. apply is_unknown_false in Hd. rewrite Hd.
  assert (Hheld : lg_by_decision l1 !! d = Some (make_entry d demand e g p <$> amounts))
    by (rewrite E3; apply lookup_insert_eq).
  assert (Hc : check_removals (lg_totals l1) (make_entry d demand e g p <$> amounts) = Val tt).
  { apply check_removals_val, Forall_forall. intros x Hx.
    pose proof (held_amount_le l1 d _ x Hwf1 Hheld Hx) as Hle.
    rewrite (reserve_totals _ _ _ _ _ _ _ _ Hres) in *. unfold admitted, total_of in Hle.
    rewrite (reserve_totals _ _ _ _ _ _ _ _ Hres) in Hle.
    destruct (add_totals_key amounts (lg_totals l) (le_resource x)) as [total Htot].
    { left. apply list_elem_of_fmap in Hx as (a & -> & Ha). exact (list_elem_of_fmap_2 fst _ _ Ha). }
    rewrite Htot in Hle. by exists total. }
  destruct (remove_held l1 d _ Hheld Hc) as [l2 Hrem]. rewrite Hrem. cbn [snd].
  pose proof (wp_elim _ _ _ _ _ (remove_outcome l1 d Hwf1) Hrem) as (_ & R1 & R2 & R3).
  unfold same_amounts. split_and!.
  - intros r. specialize (R1 r). unfold load in R1. rewrite entries_amounts, E1 in R1. lia.
  - rewrite R2, E3. by rewrite delete_insert_id.
  - unfold sizeN in *. rewrite length_fmap in R3. lia.
Qed.

(** ** Flags *)

Lemma set_flag_amounts (b : bool) (es : list LedgerEntry) :
  entry_amount <$> set_flag b es = entry_amount <$> es.
Proof. induction es as [|e es IH]; [done|]. cbn. by f_equal. Qed.

(** What each decision holds: its amounts, without the entries' annotations. *)
Definition grants_of (l : AdmittedLoadLedger) : gmap N (list (ResourceId * Rate)) :=
  fmap (M := gmap N) (fmap (M := list) entry_amount) (lg_by_decision l).

Lemma grants_flags (b : bool) (l : AdmittedLoadLedger) : grants_of (set_flags b l) = grants_of l.
Proof.
  apply map_eq. intros d. unfold grants_of. cbn. rewrite !lookup_fmap.
  destruct (lg_by_decision l !! d) as [es|]; [|done]. cbn. by rewrite set_flag_amounts.
Qed.

Lemma grants_of_mono (l l' : AdmittedLoadLedger) :
  lg_by_decision l' ⊆ lg_by_decision l -> grants_of l' ⊆ grants_of l.
Proof. intros H. by apply map_fmap_mono. Qed.

Lemma set_flag_ok (b : bool) (d : N) (es : list LedgerEntry) :
  decision_ok d es -> decision_ok d (set_flag b es).
Proof.
  intros [Hk Hne He Hnd]. constructor; [done| | |].
  - by destruct es.
  - unfold set_flag. apply Forall_map. by eapply Forall_impl.
  - replace (le_resource <$> set_flag b es) with (le_resource <$> es); [done|].
    clear. induction es as [|e es IH]; cbn; by f_equal.
Qed.

Lemma set_flags_wf (b : bool) (l : AdmittedLoadLedger) : ledger_wf l -> ledger_wf (set_flags b l).
Proof.
  intros [Ht Hw Hc Hb Hd].
  assert (Hp : entry_amount <$> all_entries (lg_by_decision (set_flags b l)) =
               entry_amount <$> all_entries (lg_by_decision l)).
  { cbn. unfold all_entries. rewrite map_to_list_fmap.
    induction (map_to_list (lg_by_decision l)) as [|[d es] m IH]; [done|].
    cbn. rewrite !fmap_app. f_equal; [apply set_flag_amounts|exact IH]. }
  constructor; try done.
  - intros r. change (admitted (set_flags b l) r) with (admitted l r). rewrite Ht.
    unfold load. f_equal. symmetry. exact Hp.
  - change (lg_entry_count (set_flags b l)) with (lg_entry_count l). rewrite Hc. unfold sizeN.
    apply (f_equal length) in Hp. rewrite !length_fmap in Hp. by rewrite Hp.
  - intros d es Hes. cbn in Hes. rewrite lookup_fmap in Hes.
    destruct (lg_by_decision l !! d) as [es0|] eqn:E; [|done]. injection Hes as <-.
    by apply set_flag_ok, Hd.
Qed.
#[export] Hint Resolve ledger_new_wf set_flags_wf : naf.

(** ** The ledger as a transition system

    The calls its owner may make; a rejected call is a step as well. *)

Inductive ledger_step : AdmittedLoadLedger -> AdmittedLoadLedger -> Prop :=
  | step_reserve d demand e g p amounts l :
      NoDup amounts.*1 -> Forall (fun a => u64 a.2) amounts -> sizeN amounts <= ptrdiff_max ->
      ledger_step l (reserve d demand e g p amounts l).2
  | step_release d l : ledger_step l (release d l).2
  | step_mark l : ledger_step l (mark_all_requiring_revalidation l)
  | step_clear_flags l : ledger_step l (clear_revalidation_flags l)
  | step_clear l : ledger_step l (Ledger_clear l).

Lemma reserve_wf (d demand e g p : N) (amounts : list (ResourceId * Rate)) (l : AdmittedLoadLedger) :
  NoDup amounts.*1 -> Forall (fun a => u64 a.2) amounts -> sizeN amounts <= ptrdiff_max ->
  ledger_wf l -> ledger_wf (reserve d demand e g p amounts l).2.
Proof.
  intros Hnd Hu Hlen Hwf. pose proof (reserve_outcome d demand e g p amounts Hnd Hu Hlen l Hwf) as H.
  unfold wp in H. destruct (reserve d demand e g p amounts l) as [[[]|s] l']; cbn in *.
  - destruct H as [Hg Hr]. by eapply reserved_wf.
  - by eapply same_load_wf.
Qed.

Lemma remove_unheld (d : N) (l : AdmittedLoadLedger) :
  lg_by_decision l !! d = None ->
  remove d l = (error NotFound "decision holds no admitted load", l).
Proof. intros H. unfold remove, mbind, M_bind, get. cbv beta iota. by rewrite H. Qed.

Lemma release_wf (d : N) (l : AdmittedLoadLedger) : ledger_wf l -> ledger_wf (release d l).2.
Proof.
  intros Hwf. rewrite release_run. destruct (is_unknown d); [done|].
  pose proof (remove_outcome l d Hwf) as H. unfold wp in H.
  destruct (remove d l) as [[es|s] l']; cbn in *.
  - destruct H. by eapply released_wf.
  - by destruct H as [-> _].
Qed.
#[export] Hint Resolve reserve_wf release_wf : naf.

Lemma ledger_step_wf (l l' : AdmittedLoadLedger) : ledger_step l l' -> ledger_wf l -> ledger_wf l'.
Proof.
  destruct 1; intros Hwf; [by apply reserve_wf|by apply release_wf|by apply set_flags_wf..|].
  apply ledger_new_wf.
Qed.

(** ** Properties *)


Definition sample_ledger : AdmittedLoadLedger :=
  (reserve 1 9 1 1 0 [(3, 40); (4, 2)] Ledger_new).2.



Lemma sample_ledger_wf : ledger_wf sample_ledger.
Proof.
  apply reserve_wf; [|by repeat constructor|done|apply ledger_new_wf].
  apply NoDup_cons; split; [by intros ?%list_elem_of_singleton|apply NoDup_singleton].
Qed.


(** C31: a release gives back exactly what was reserved.  For a ledger whose
    accounting is closed and a decision whose amounts are positive, releasing it
    succeeds if and only if it is held; the entries handed back are the decision's,
    each resource's load drops by exactly their amount on it, no other decision is
    touched, and a second release finds nothing. *)
Theorem release_exact (d : AdmissionDecisionId) (l : AdmittedLoadLedger) (Hwf : ledger_wf l)
    (Hpos : forall es, lg_by_decision l !! d = Some es -> Forall (fun e => le_amount e <> 0) es) :
  let '(res, l') := release d l in
  match res with
  | Val es =>
      lg_by_decision l !! d = Some es /\
      (forall r, admitted l' r + load r es = admitted l r) /\
      lg_by_decision l' = delete d (lg_by_decision l) /\
      holds l' d = false /\ (release d l').1 = error NotFound "decision holds no admitted load"
  | Err _ => holds l d = false /\ l' = l
  end.
Proof.
  rewrite release_run. destruct (is_unknown d) eqn:Hd.
  - split; [|done]. unfold holds. rewrite bool_decide_eq_false, <- eq_None_not_Some.
    destruct (lg_by_decision l !! d) as [es|] eqn:E; [|done].
    apply (lwf_decisions l Hwf) in E as [Hk _ _ _]. apply is_unknown_false in Hk. by rewrite Hk in Hd.
  - pose proof (remove_outcome l d Hwf) as H. unfold wp in H.
    destruct (remove d l) as [[es|s] l'] eqn:Er; cbn in H.
    + destruct H as [He (E1 & E2 & E3)].
      assert (Hn : lg_by_decision l' !! d = None) by (rewrite E2; apply lookup_delete_eq).
      split_and!; try done.
      * unfold holds. rewrite Hn. by apply bool_decide_eq_false, eq_None_not_Some.
      * rewrite release_run, Hd. by rewrite remove_unheld.
    + destruct H as [-> [Hn|(es & He & Hz)]]; [|by destruct Hz; auto].
      split; [|done]. unfold holds. rewrite Hn. by apply bool_decide_eq_false, eq_None_not_Some.
Qed.

Lemma release_exact_witness :
  ledger_wf sample_ledger /\ holds sample_ledger 1 = true /\
  (release 1 (release 1 sample_ledger).2).1 = error NotFound "decision holds no admitted load".
Proof.
  split; [exact sample_ledger_wf|split; [reflexivity|]].
  pose proof (release_exact 1 sample_ledger sample_ledger_wf) as H.
  destruct (release 1 sample_ledger) as [[es|s] l'] eqn:E.
  - apply H. intros es' He. injection He as <-. by repeat constructor.
  - exfalso. destruct H as [H _]; [|discriminate H].
    intros es' He. injection He as <-. by repeat constructor.
Defined.

(** The path total and the resource totals of one decision are not kept alike.
    A reservation on a known path over two resources adds only the first amount
    to the path total, while the release subtracts the sum of all of them without
    a check: after reserving and releasing one decision the path total is
    2^64 - 10, not 0, and every later reservation on that path is refused. *)
Theorem path_total_wraps :
  let l1 := (reserve 1 9 1 1 5 [(3, 10); (4, 10)] Ledger_new).2 in
  let l2 := (release 1 l1).2 in
  admitted_on_path Ledger_new 5 = 0 /\ admitted_on_path l1 5 = 10 /\
  lg_by_decision l2 = ∅ /\ admitted l2 3 = 0 /\ admitted l2 4 = 0 /\
  admitted_on_path l2 5 = two64 - 10 /\
  (reserve 2 9 1 1 5 [(3, 10)] l2).1 =
    error ArithmeticOverflow "admitted load on the path would overflow".
Proof. split_and!; reflexivity. Qed.

(** Zero amounts break the release of other holders.  Two decisions that
    hold a zero amount on the same resource are both recorded, releasing the first
    erases the resource's total, and releasing the second is then refused with
    an arithmetic underflow although nothing would go negative. *)
Theorem zero_amount_release_stuck :
  let l1 := (reserve 1 9 1 1 0 [(3, 0)] Ledger_new).2 in
  let l2 := (reserve 2 9 1 1 0 [(3, 0)] l1).2 in
  let l3 := (release 1 l2).2 in
  holds l3 2 = true /\ has_value (release 2 l3).1 = false /\ holds (release 2 l3).2 2 = true.
Proof. split_and!; reflexivity. Qed.
