(* ===== verification/History.v ===== *)
(** * Decision history and attempt registry
    (src/include/naf/engine/history.hpp, src/src/engine/history.cpp)

    The two bounded stores of the coordinator: decisions by id with an index in
    audit order, and the idempotency registry by (demand, attempt). *)

From S2P Require Import Prelude Checked Identity Hash Authority Decision Ledger.
Local Open Scope N_scope.
Local Open Scope naf_scope.

(** ** DecisionHistory *)

Record DecisionRecord := mkDecisionRecord {
  dr_decision : AdmissionDecisionId;
  dr_audit : AuditSequence;
  dr_outcome : AdmissionOutcome;
  dr_request : AdmissionRequestId;
  dr_demand : DemandId;
  dr_demand_generation : Generation;
  dr_attempt : AttemptId;
  dr_path : PathId;
  dr_granted : Rate;
  dr_epoch : FabricEpoch;
  dr_incarnation : CoordinatorIncarnation;
  dr_decided_tick : N;
  dr_fingerprint : N;
  dr_bound_capacity_generation : Generation;
  dr_bound_policy_generation : Generation;
  dr_bound_qos_generation : Generation;
  dr_bound_priority_generation : Generation;
  dr_bound_path_generation : Generation;
  dr_bound_reservation_generation : Generation;
  dr_state : RevalidationState;
  dr_reason : RevocationReason;
  dr_ledger_live : bool;
  dr_restored_from_disk : bool;
}.
#[export] Instance eta_DecisionRecord : Eta DecisionRecord := fun r =>
  mkDecisionRecord (dr_decision r) (dr_audit r) (dr_outcome r) (dr_request r) (dr_demand r)
    (dr_demand_generation r) (dr_attempt r) (dr_path r) (dr_granted r) (dr_epoch r)
    (dr_incarnation r) (dr_decided_tick r) (dr_fingerprint r) (dr_bound_capacity_generation r)
    (dr_bound_policy_generation r) (dr_bound_qos_generation r) (dr_bound_priority_generation r)
    (dr_bound_path_generation r) (dr_bound_reservation_generation r) (dr_state r) (dr_reason r)
    (dr_ledger_live r) (dr_restored_from_disk r).

Definition DecisionRecord_new : DecisionRecord :=
  mkDecisionRecord 0 0 RejectPolicy 0 0 0 0 0 0 0 0 0 0 0 0 0 0 0 0 RS_Fresh NotRevoked false false.

Record DecisionHistory := mkDecisionHistory {
  hi_capacity : N;
  hi_records : gmap N DecisionRecord;
  hi_audit_index : gmap N N;
  hi_cursor_audit : N;
  hi_retired : N;
}.
#[export] Instance eta_DecisionHistory : Eta DecisionHistory := fun h =>
  mkDecisionHistory (hi_capacity h) (hi_records h) (hi_audit_index h) (hi_cursor_audit h)
    (hi_retired h).

Definition DecisionHistory_new (capacity : N) : DecisionHistory := mkDecisionHistory capacity ∅ ∅ 0 0.

Definition mapN {A} (m : gmap N A) : N := N.of_nat (size m).
Definition history_size (h : DecisionHistory) : N := mapN (hi_records h).
Definition needs_trim (h : DecisionHistory) : bool := hi_capacity h <? history_size h.

Definition history_insert (record : DecisionRecord) (h : DecisionHistory) : DecisionHistory :=
  if is_unknown (dr_decision record) then h
  else
    let key := dr_decision record in
    match hi_records h !! key with
    | Some existing =>
        h <| hi_audit_index := <[dr_audit record := key]>
                                 (delete (dr_audit existing) (hi_audit_index h)) |>
          <| hi_records := <[key := record]> (hi_records h) |>
    | None =>
        h <| hi_audit_index := <[dr_audit record := key]> (hi_audit_index h) |>
          <| hi_records := <[key := record]> (hi_records h) |>
    end.

(** The retirement loop over the audit entries from the cursor on; the second
    component is the iterator where it stops. *)
Fixpoint trim_loop (ledger : AdmittedLoadLedger) (cursor : list (N * N)) (h : DecisionHistory)
    : DecisionHistory * list (N * N) :=
  match cursor with
  | [] => (h, [])
  | (audit, decision) :: cursor' =>
      if negb (needs_trim h) then (h, cursor)
      else if holds ledger decision then trim_loop ledger cursor' h
      else trim_loop ledger cursor'
             (h <| hi_records := delete decision (hi_records h) |>
                <| hi_audit_index := delete audit (hi_audit_index h) |>
                <| hi_retired := hi_retired h +w 1 |>)
  end.

(** The audit entries from [lower_bound(cursor_audit_)] on. *)
Definition from_cursor (h : DecisionHistory) : list (N * N) :=
  filter (fun p => hi_cursor_audit h <= p.1) (items (hi_audit_index h)).

Definition history_trim (ledger : AdmittedLoadLedger) (h : DecisionHistory) : DecisionHistory :=
  if history_size h <=? hi_capacity h then h <| hi_cursor_audit := 0 |>
  else
    let '(h', cursor) := trim_loop ledger (from_cursor h) h in
    h' <| hi_cursor_audit :=
            match cursor with
            | (audit, _) :: _ => audit
            | [] => match last (keys (hi_audit_index h')) with
                    | None => 0
                    | Some back => back +w 1
                    end
            end |>.

Definition note_release (h : DecisionHistory) : DecisionHistory := h <| hi_cursor_audit := 0 |>.

Definition history_find (decision : AdmissionDecisionId) (h : DecisionHistory)
    : option DecisionRecord := hi_records h !! decision.

Definition history_update (decision : AdmissionDecisionId) (record : DecisionRecord)
    (h : DecisionHistory) : bool * DecisionHistory :=
  match hi_records h !! decision with
  | None => (false, h)
  | Some it =>
      (true, h <| hi_records :=
                    <[decision := record <| dr_audit := dr_audit it |>]> (hi_records h) |>)
  end.

Definition in_audit_order (h : DecisionHistory) : list DecisionRecord :=
  items (hi_audit_index h) ≫= fun p =>
    match hi_records h !! p.2 with Some r => [r] | None => [] end.

(** ** AttemptRegistry *)

Inductive AttemptDisposition := AttemptNew | AttemptReplay | AttemptConflict.
#[export] Instance AttemptDisposition_eq_dec : EqDecision AttemptDisposition.
Proof. solve_decision. Defined.

Record AttemptRecord := mkAttemptRecord {
  at_request : AdmissionRequestId;
  at_demand : DemandId;
  at_demand_generation : Generation;
  at_attempt : AttemptId;
  at_fingerprint : N;
  at_decision : AdmissionDecisionId;
  at_outcome : AdmissionOutcome;
  at_recorded_tick : N;
}.
#[export] Instance eta_AttemptRecord : Eta AttemptRecord := fun a =>
  mkAttemptRecord (at_request a) (at_demand a) (at_demand_generation a) (at_attempt a)
    (at_fingerprint a) (at_decision a) (at_outcome a) (at_recorded_tick a).

Definition AttemptRecord_new : AttemptRecord := mkAttemptRecord 0 0 0 0 0 0 RejectPolicy 0.

Record AttemptRegistry := mkAttemptRegistry {
  ag_capacity : N;
  ag_attempts : gmap (N * N) AttemptRecord;
  ag_request_fingerprints : gmap N N;
  ag_retired : N;
}.
#[export] Instance eta_AttemptRegistry : Eta AttemptRegistry := fun g =>
  mkAttemptRegistry (ag_capacity g) (ag_attempts g) (ag_request_fingerprints g) (ag_retired g).

Definition AttemptRegistry_new (capacity : N) : AttemptRegistry := mkAttemptRegistry capacity ∅ ∅ 0.

Record Classification := mkClassification {
  cl_disposition : AttemptDisposition;
  cl_existing : AttemptRecord;
  cl_request_id_conflict : bool;
}.

Definition attempt_key (a : AttemptRecord) : N * N := (at_demand a, at_attempt a).

Definition classify (candidate : AttemptRecord) (g : AttemptRegistry) : Classification :=
  match ag_attempts g !! attempt_key candidate with
  | Some it =>
      if at_fingerprint it =? at_fingerprint candidate
      then mkClassification AttemptReplay it false
      else mkClassification AttemptConflict it false
  | None =>
      if is_known (at_request candidate) &&
         match ag_request_fingerprints g !! at_request candidate with
         | Some known => negb (known =? at_fingerprint candidate)
         | None => false
         end
      then mkClassification AttemptConflict AttemptRecord_new true
      else mkClassification AttemptNew AttemptRecord_new false
  end.

(** The order of the registry's map: [std::pair]'s lexicographic order. *)
Definition pair_le (a b : N * N) : Prop := a.1 < b.1 \/ (a.1 = b.1 /\ a.2 <= b.2).
#[export] Instance pair_le_dec : RelDecision pair_le.
Proof. intros a b. unfold pair_le. apply _. Defined.

(** The eviction loop; [fuel] bounds the number of records it can erase. *)
Fixpoint evict (fuel : nat) (g : AttemptRegistry) : AttemptRegistry :=
  match fuel with
  | O => g
  | S fuel' =>
      if (ag_capacity g <=? N.of_nat (size (ag_attempts g))) then
        match head (map_keys pair_le (ag_attempts g)) with
        | Some oldest =>
            evict fuel' (g <| ag_attempts := delete oldest (ag_attempts g) |>
                           <| ag_retired := ag_retired g +w 1 |>)
        | None => g
        end
      else g
  end.

Definition record_attempt (candidate : AttemptRecord) (g : AttemptRegistry) : AttemptRegistry :=
  let key := attempt_key candidate in
  let g := match ag_attempts g !! key with
           | None => evict (size (ag_attempts g)) g
           | Some _ => g
           end in
  let g := g <| ag_attempts := <[key := candidate]> (ag_attempts g) |> in
  if is_known (at_request candidate) then
    match ag_request_fingerprints g !! at_request candidate with
    | Some _ => g
    | None => g <| ag_request_fingerprints :=
                     <[at_request candidate := at_fingerprint candidate]>
                       (ag_request_fingerprints g) |>
    end
  else g.

Definition AttemptRegistry_clear (g : AttemptRegistry) : AttemptRegistry :=
  g <| ag_attempts := ∅ |> <| ag_request_fingerprints := ∅ |> <| ag_retired := 0 |>.

(** ** History: invariant *)

(** The records and the audit index name each other. *)
Record history_wf (h : DecisionHistory) : Prop := {
  hwf_index : forall audit key, hi_audit_index h !! audit = Some key ->
    exists r, hi_records h !! key = Some r /\ dr_audit r = audit;
  hwf_records : forall key r, hi_records h !! key = Some r ->
    hi_audit_index h !! dr_audit r = Some key /\ dr_decision r = key /\ key <> 0;
}.

Lemma history_new_wf (c : N) : history_wf (DecisionHistory_new c).
Proof. constructor; cbn; intros ??; by rewrite lookup_empty. Qed.

(** Two records never share an audit sequence. *)
Lemma audit_inj (h : DecisionHistory) (k1 k2 : N) (r1 r2 : DecisionRecord) :
  history_wf h -> hi_records h !! k1 = Some r1 -> hi_records h !! k2 = Some r2 ->
  dr_audit r1 = dr_audit r2 -> k1 = k2.
Proof.
  intros Hwf H1 H2 E. apply (hwf_records h Hwf) in H1 as [H1 _].
  apply (hwf_records h Hwf) in H2 as [H2 _]. rewrite E in H1. congruence.
Qed.

(** An audit sequence that no other decision's record carries. *)
Definition audit_free (h : DecisionHistory) (r : DecisionRecord) : Prop :=
  forall key, hi_audit_index h !! dr_audit r = Some key -> key = dr_decision r.

Lemma history_insert_wf (r : DecisionRecord) (h : DecisionHistory) :
  history_wf h -> audit_free h r -> history_wf (history_insert r h).
Proof.
  intros Hwf Hfree. unfold history_insert. destruct (is_unknown (dr_decision r)) eqn:Hk; [done|].
  apply is_unknown_false in Hk.
  assert (Hins : forall idx, (forall audit key, idx !! audit = Some key -> audit <> dr_audit r ->
                     hi_audit_index h !! audit = Some key /\ key <> dr_decision r) ->
            (forall key r', hi_records h !! key = Some r' -> key <> dr_decision r ->
                     idx !! dr_audit r' = Some key) ->
            history_wf (h <| hi_audit_index := <[dr_audit r := dr_decision r]> idx |>
                          <| hi_records := <[dr_decision r := r]> (hi_records h) |>)).
  { intros idx H1 H2. constructor; cbn.
    - intros audit key [[<- <-]|[Hne Ha]]%lookup_insert_Some.
      + exists r. by rewrite lookup_insert_eq.
      + apply H1 in Ha as [Ha Hkey]; [|done]. rewrite lookup_insert_ne by done.
        by apply (hwf_index h Hwf).
    - intros key r' [[<- <-]|[Hne Hr]]%lookup_insert_Some; [by rewrite lookup_insert_eq|].
      pose proof (hwf_records h Hwf _ _ Hr) as (Hi & ? & ?).
      rewrite lookup_insert_ne; [by rewrite (H2 _ _ Hr)|].
      intros E. rewrite <- E in Hi. by apply Hfree in Hi. }
  destruct (hi_records h !! dr_decision r) as [old|] eqn:Ho; apply Hins.
  - intros audit key [Hne Ha]%lookup_delete_Some Hna. split; [done|]. intros ->.
    apply (hwf_index h Hwf) in Ha as (r' & Hr' & ?). congruence.
  - intros key r' Hr Hne. apply lookup_delete_Some. split.
    + intros E. apply Hne. by apply (audit_inj h _ _ r' old).
    + by apply (hwf_records h Hwf).
  - intros audit key Ha Hna. split; [done|]. intros ->.
    apply (hwf_index h Hwf) in Ha as (r' & Hr' & _). congruence.
  - intros key r' Hr _. by apply (hwf_records h Hwf).
Qed.

Lemma history_update_wf (d : N) (r : DecisionRecord) (h : DecisionHistory) :
  history_wf h -> dr_decision r = d -> history_wf (history_update d r h).2.
Proof.
  intros Hwf Hd. unfold history_update.
  destruct (hi_records h !! d) as [old|] eqn:Ho; [|done]. constructor; cbn.
  - intros audit key Ha. apply (hwf_index h Hwf) in Ha as (r' & Hr' & Hra).
    destruct (decide (d = key)) as [<-|Hne].
    + rewrite lookup_insert_eq. eexists; split; [done|]. cbn. congruence.
    + rewrite lookup_insert_ne by done. by exists r'.
  - intros key r' [[<- <-]|[Hne Hr]]%lookup_insert_Some; [|by apply (hwf_records h Hwf)].
    cbn. split_and!; [by apply (hwf_records h Hwf)|done|by eapply (hwf_records h Hwf)].
Qed.

(** Removing one record with its audit entry. *)
Lemma history_drop_wf (h : DecisionHistory) (audit key c : N) :
  history_wf h -> hi_audit_index h !! audit = Some key ->
  history_wf (h <| hi_records := delete key (hi_records h) |>
                <| hi_audit_index := delete audit (hi_audit_index h) |> <| hi_retired := c |>).
Proof.
  intros Hwf Ha. constructor; cbn.
  - intros a k [Hne Hk]%lookup_delete_Some.
    pose proof (hwf_index h Hwf _ _ Hk) as (r & Hr & Hra). exists r. split; [|done].
    apply lookup_delete_Some. split; [|done]. intros ->.
    apply (hwf_index h Hwf) in Ha as (r' & Hr' & ?). congruence.
  - intros k r [Hne Hr]%lookup_delete_Some. pose proof (hwf_records h Hwf _ _ Hr) as (Hi & ? & ?).
    split_and!; try done. apply lookup_delete_Some. split; [|done]. intros ->. congruence.
Qed.

(** ** Retirement *)

(** Every record before the cursor is protected by the ledger. *)
Definition cursor_ok (ledger : AdmittedLoadLedger) (h : DecisionHistory) : Prop :=
  forall k r, hi_records h !! k = Some r -> dr_audit r < hi_cursor_audit h -> holds ledger k = true.

(** What a retirement may do to the history. *)
Record retires (ledger : AdmittedLoadLedger) (h h' : DecisionHistory) : Prop := {
  ret_wf : history_wf h';
  ret_sub : hi_records h' ⊆ hi_records h;
  ret_held : forall k r, hi_records h !! k = Some r -> holds ledger k = true ->
    hi_records h' !! k = Some r;
  ret_count : exists n, history_size h = history_size h' + n /\
    hi_retired h' = wrap64 (hi_retired h + n) /\ (n <> 0 -> hi_capacity h <= history_size h');
  ret_capacity : hi_capacity h' = hi_capacity h;
}.

Lemma retires_refl (ledger : AdmittedLoadLedger) (h : DecisionHistory) :
  history_wf h -> u64 (hi_retired h) -> retires ledger h h.
Proof.
  intros Hwf Hr. constructor; try done. exists 0. rewrite !N.add_0_r. split_and!; try done.
  symmetry. by apply N.mod_small.
Qed.

Lemma trim_loop_retires (ledger : AdmittedLoadLedger) (l : list (N * N)) (h : DecisionHistory) :
  history_wf h -> u64 (hi_retired h) -> NoDup l.*1 ->
  (forall a k, (a, k) ∈ l -> hi_audit_index h !! a = Some k) ->
  let '(h', rest) := trim_loop ledger l h in
  retires ledger h h' /\ hi_cursor_audit h' = hi_cursor_audit h /\
  (rest <> [] -> history_size h' <= hi_capacity h') /\
  exists examined, l = examined ++ rest /\
    forall a k r, (a, k) ∈ examined -> hi_records h' !! k = Some r -> holds ledger k = true.
Proof.
  revert h. induction l as [|[a k] l IH]; intros h Hwf Hr Hnd Hl; cbn [trim_loop].
  - split_and!; [by apply retires_refl|done..|].
    exists []. split; [done|]. by intros ??? ?%not_elem_of_nil.
  - rewrite fmap_cons in Hnd. cbn in Hnd. apply NoDup_cons in Hnd as [Ha Hnd].
    assert (Hk : hi_audit_index h !! a = Some k) by (apply Hl; left).
    destruct (needs_trim h) eqn:Et; cbn [negb].
    2:{ split_and!; [by apply retires_refl|done| |].
        - intros _. unfold needs_trim in Et. by apply N.ltb_ge in Et.
        - exists []. split; [done|]. by intros ??? ?%not_elem_of_nil. }
    destruct (holds ledger k) eqn:Eh.
    + specialize (IH h Hwf Hr Hnd). destruct (trim_loop ledger l h) as [h' rest].
      destruct IH as (H1 & H2 & H3 & ex & -> & H4); [by intros; apply Hl; right|].
      split_and!; try done. exists ((a, k) :: ex). split; [done|].
      intros a' k' r [[= -> ->]|Hin]%elem_of_cons; [done|by eapply H4].
    + pose proof (hwf_index h Hwf a k Hk) as (r0 & Hr0 & Hra).
      set (h1 := h <| hi_records := delete k (hi_records h) |>
                   <| hi_audit_index := delete a (hi_audit_index h) |>
                   <| hi_retired := hi_retired h +w 1 |>).
      assert (Hwf1 : history_wf h1) by (by apply history_drop_wf).
      assert (Hs1 : history_size h = history_size h1 + 1).
      { unfold history_size, mapN. cbn. rewrite map_size_delete_Some by done.
        enough (size (hi_records h) <> 0%nat) by lia.
        intros E%map_size_empty_inv. by rewrite E, lookup_empty in Hr0. }
      specialize (IH h1 Hwf1 ltac:(apply wrap64_u64) Hnd).
      destruct (trim_loop ledger l h1) as [h' rest].
      destruct IH as ([? Hsub Hheld (n & Hn & Hret & Hcap) Hc] & H2 & H3 & ex & -> & H4).
      { intros a' k' Hin. cbn. apply lookup_delete_Some. split; [|by apply Hl; right].
        intros <-. apply Ha. apply list_elem_of_fmap. by exists (a, k'). }
      split_and!; try done.
      * constructor; try done.
        -- etrans; [exact Hsub|]. apply delete_subseteq.
        -- intros k' r' Hk' Hh. apply Hheld; [|done]. cbn. apply lookup_delete_Some.
           split; [congruence|done].
        -- exists (n + 1). split_and!; [lia| |].
           ++ rewrite Hret. cbn. unfold w_add, wrap64. rewrite N.Div0.add_mod_idemp_l. f_equal. lia.
           ++ intros _. unfold needs_trim in Et. apply N.ltb_lt in Et.
              destruct (N.eq_dec n 0) as [->|?]; [lia|by apply Hcap].
      * exists ((a, k) :: ex). split; [done|].
        intros a' k' r' [[= -> ->]|Hin]%elem_of_cons Hrec; [|by eapply H4].
        exfalso. eapply lookup_weaken in Hrec; [|exact Hsub]. cbn in Hrec.
        by rewrite lookup_delete_eq in Hrec.
Qed.

Lemma from_cursor_spec (h : DecisionHistory) (a k : N) :
  (a, k) ∈ from_cursor h <-> hi_audit_index h !! a = Some k /\ hi_cursor_audit h <= a.
Proof. unfold from_cursor. rewrite list_elem_of_filter, elem_of_map_items. naive_solver. Qed.

Lemma from_cursor_ascending (h : DecisionHistory) :
  StronglySorted (fun p q => p.1 < q.1) (from_cursor h).
Proof. apply StronglySorted_filter, items_ascending. Qed.

Lemma ascending_NoDup (l : list (N * N)) :
  StronglySorted (fun p q => p.1 < q.1) l -> NoDup l.*1.
Proof.
  induction 1 as [|p l Hl IH Hp]; cbn; [apply NoDup_nil_2|]. apply NoDup_cons. split; [|done].
  intros (q & Hq & Hin)%list_elem_of_fmap. rewrite Forall_forall in Hp. specialize (Hp q Hin). lia.
Qed.

(** A record surviving the loop is protected, or sits at or after the stop. *)
Lemma survivor_held (ledger : AdmittedLoadLedger) (h h' : DecisionHistory)
    (examined rest : list (N * N)) (k : N) (r : DecisionRecord) :
  history_wf h -> cursor_ok ledger h -> from_cursor h = examined ++ rest ->
  hi_records h' ⊆ hi_records h ->
  (forall a k r, (a, k) ∈ examined -> hi_records h' !! k = Some r -> holds ledger k = true) ->
  hi_records h' !! k = Some r ->
  holds ledger k = true \/ (dr_audit r, k) ∈ rest.
Proof.
  intros Hwf Hc Hf Hsub Hex Hr. pose proof (lookup_weaken _ _ _ _ Hr Hsub) as Hr0.
  destruct (N.lt_ge_cases (dr_audit r) (hi_cursor_audit h)) as [Hlt|Hge]; [left; by eapply Hc|].
  assert (Hin : (dr_audit r, k) ∈ from_cursor h)
    by (apply from_cursor_spec; split; [by apply (hwf_records h Hwf)|done]).
  rewrite Hf in Hin. apply elem_of_app in Hin as [Hin|Hin]; [left; by eapply Hex|by right].
Qed.

Lemma history_trim_wf (ledger : AdmittedLoadLedger) (h : DecisionHistory) :
  history_wf h -> history_wf (history_trim ledger h).
Proof.
  intros Hwf. unfold history_trim. destruct (_ <=? _); [by destruct Hwf; constructor|].
  assert (Hl : forall l h, history_wf h -> NoDup l.*1 ->
    (forall a k, (a, k) ∈ l -> hi_audit_index h !! a = Some k) -> history_wf (trim_loop ledger l h).1).
  { clear. induction l as [|[a k] l IH]; intros h Hwf Hnd Hl; cbn [trim_loop]; [done|].
    rewrite fmap_cons in Hnd. apply NoDup_cons in Hnd as [Ha Hnd].
    destruct (negb _); [done|]. destruct (holds ledger k).
    - apply IH; [done..|]. intros; apply Hl; by right.
    - apply IH; [|done|].
      + apply history_drop_wf; [done|]. apply Hl. left.
      + intros a' k' Hin. cbn. apply lookup_delete_Some. split; [|by apply Hl; right].
        intros <-. apply Ha. apply list_elem_of_fmap. by exists (a, k'). }
  specialize (Hl (from_cursor h) h Hwf (ascending_NoDup _ (from_cursor_ascending h))).
  destruct (trim_loop ledger (from_cursor h) h) as [h' rest]. cbn in Hl.
  destruct Hl; [by intros ? ? []%from_cursor_spec|by constructor].
Qed.

Lemma history_trim_retires (ledger : AdmittedLoadLedger) (h : DecisionHistory) :
  history_wf h -> u64 (hi_retired h) -> retires ledger h (history_trim ledger h).
Proof.
  intros Hwf Hr. pose proof (history_trim_wf ledger h Hwf) as Hwf'. unfold history_trim in *.
  destruct (_ <=? _); [by destruct (retires_refl ledger h Hwf Hr); constructor|].
  pose proof (trim_loop_retires ledger (from_cursor h) h Hwf Hr
    (ascending_NoDup _ (from_cursor_ascending h)) ltac:(by intros ? ? []%from_cursor_spec)) as H.
  destruct (trim_loop ledger (from_cursor h) h) as [h' rest]. by destruct H as ([] & _); constructor.
Qed.

(** The trim the engine makes after every insertion. *)
Definition trimmed (ledger : AdmittedLoadLedger) (h : DecisionHistory) : DecisionHistory :=
  if needs_trim h then history_trim ledger h else h.

Lemma trimmed_retires (ledger : AdmittedLoadLedger) (h : DecisionHistory) :
  history_wf h -> u64 (hi_retired h) -> retires ledger h (trimmed ledger h).
Proof.
  intros. unfold trimmed. destruct (needs_trim h); auto using history_trim_retires, retires_refl.
Qed.

Lemma retired_word (ledger : AdmittedLoadLedger) (h h' : DecisionHistory) :
  retires ledger h h' -> u64 (hi_retired h').
Proof. intros [_ _ _ (n & _ & -> & _) _]. apply wrap64_u64. Qed.

Lemma insert_find (r : DecisionRecord) (h : DecisionHistory) (d : N) :
  dr_decision r <> 0 ->
  history_find d (history_insert r h) =
  if decide (d = dr_decision r) then Some r else history_find d h.
Proof.
  intros Hr. unfold history_insert, history_find. apply is_unknown_false in Hr. rewrite Hr.
  destruct (hi_records h !! dr_decision r); cbn; (case_decide as E; [subst; apply lookup_insert_eq|
    by apply lookup_insert_ne]).
Qed.

Lemma insert_retired (r : DecisionRecord) (h : DecisionHistory) :
  hi_retired (history_insert r h) = hi_retired h.
Proof.
  unfold history_insert. destruct (is_unknown _); [done|]. by destruct (hi_records h !! dr_decision r).
Qed.

(** C32: retirement never loses a live grant.  Trimming the history keeps every
    record whose decision holds load, unchanged; it invents nothing, counts every
    record it retires, and stops early only when the history is back within its
    capacity: otherwise every record left is protected.  The resumption cursor is
    sound: everything before it is protected, so that later trims miss nothing. *)
Theorem history_trim_safe (ledger : AdmittedLoadLedger) (h : DecisionHistory)
    (Hwf : history_wf h) (Hr : u64 (hi_retired h)) (Hc : cursor_ok ledger h) :
  let h' := history_trim ledger h in
  history_wf h' /\ cursor_ok ledger h' /\ hi_records h' ⊆ hi_records h /\
  (forall k r, hi_records h !! k = Some r -> holds ledger k = true -> hi_records h' !! k = Some r) /\
  (exists n, history_size h = history_size h' + n /\ hi_retired h' = wrap64 (hi_retired h + n) /\
     (n <> 0 -> hi_capacity h <= history_size h')) /\
  (history_size h' <= hi_capacity h \/
   forall k r, hi_records h' !! k = Some r -> holds ledger k = true).
Proof.
  pose proof (history_trim_wf ledger h Hwf) as Hwf'. cbn zeta. split; [done|]. clear Hwf'.
  unfold history_trim.
  destruct (N.leb_spec (history_size h) (hi_capacity h)) as [Hle|Hgt].
  { destruct (retires_refl ledger h Hwf Hr). split_and!; try done; [|by left].
    intros k r _ ?. cbn in *. lia. }
  pose proof (trim_loop_retires ledger (from_cursor h) h Hwf Hr
    (ascending_NoDup _ (from_cursor_ascending h)) ltac:(by intros ? ? []%from_cursor_spec)) as H.
  destruct (trim_loop ledger (from_cursor h) h) as [h' rest].
  destruct H as ([_ Hsub Hheld Hcount Hcap] & _ & Hstop & ex & Hex & Hin).
  pose proof (fun k r => survivor_held ledger h h' ex rest k r Hwf Hc Hex Hsub Hin) as Hs.
  split_and!; try done.
  - intros k r Hk Ha. cbn in Hk, Ha. destruct (Hs k r Hk) as [?|Hrest]; [done|].
    destruct rest as [|[a k'] rest]; [by apply not_elem_of_nil in Hrest|].
    pose proof (from_cursor_ascending h) as Hsort. rewrite Hex in Hsort.
    apply StronglySorted_app_1_r, StronglySorted_cons in Hsort as [Hall _].
    apply elem_of_cons in Hrest as [[= E _]|Hrest]; [lia|].
    rewrite Forall_forall in Hall. specialize (Hall _ Hrest). cbn in Hall. lia.
  - destruct rest as [|p rest]; [right|left; rewrite <- Hcap; by apply Hstop].
    intros k r Hk. destruct (Hs k r Hk) as [?|Hrest]; [done|by apply not_elem_of_nil in Hrest].
Qed.

Definition sample_record (decision audit : N) : DecisionRecord :=
  DecisionRecord_new <| dr_decision := decision |> <| dr_audit := audit |>.
Definition sample_history : DecisionHistory :=
  history_insert (sample_record 3 12)
    (history_insert (sample_record 2 11)
      (history_insert (sample_record 1 10) (DecisionHistory_new 1))).

Lemma sample_history_wf : history_wf sample_history.
Proof.
  unfold sample_history. repeat apply history_insert_wf; [apply history_new_wf|..];
    intros k Hk; vm_compute in Hk; congruence.
Qed.

Lemma history_trim_safe_witness :
  history_wf sample_history /\
  history_find 1 (history_trim sample_ledger sample_history) = Some (sample_record 1 10) /\
  history_size (history_trim sample_ledger sample_history) = 1.
Proof.
  split; [exact sample_history_wf|]. split; [|reflexivity].
  apply (history_trim_safe sample_ledger sample_history sample_history_wf);
    [done|intros k r _ H; by apply N.nlt_0_r in H|reflexivity|reflexivity].
Defined.

(** The audit listing lists the records. *)
Lemma audit_order_elem (h : DecisionHistory) (Hwf : history_wf h) (r : DecisionRecord) :
  r ∈ in_audit_order h <-> hi_records h !! dr_decision r = Some r.
Proof.
  unfold in_audit_order. rewrite list_elem_of_bind. split.
  + intros ([a k] & Hin & Hp). cbn in Hin.
    destruct (hi_records h !! k) as [r'|] eqn:Hk; [|by apply not_elem_of_nil in Hin].
    apply list_elem_of_singleton in Hin as ->.
    by rewrite (proj1 (proj2 (hwf_records h Hwf _ _ Hk))).
  + intros Hr. exists (dr_audit r, dr_decision r). cbn. rewrite Hr. split; [left|].
    apply elem_of_map_items. by apply (hwf_records h Hwf).
Qed.

(** The audit listing is complete.  For a history whose audit index is
    consistent, [in_audit_order] lists every record exactly once, and in strictly
    ascending audit order. *)
Theorem in_audit_order_complete (h : DecisionHistory) (Hwf : history_wf h) :
  (forall r, r ∈ in_audit_order h <-> hi_records h !! dr_decision r = Some r) /\
  StronglySorted (fun a b => dr_audit a < dr_audit b) (in_audit_order h).
Proof.
  split.
  - by apply audit_order_elem.
  - unfold in_audit_order. pose proof (items_ascending (hi_audit_index h)) as Hs.
    assert (Hin : forall a k, (a, k) ∈ items (hi_audit_index h) -> hi_audit_index h !! a = Some k)
      by (intros a k; by rewrite elem_of_map_items).
    revert Hs Hin. induction 1 as [|[a k] l Hl IH Hall]; intros Hin; cbn; [constructor|].
    apply StronglySorted_app_2.
    + intros r1 r2 H1 ([a' k'] & H2 & Hp)%list_elem_of_bind. cbn in H2.
      rewrite Forall_forall in Hall. specialize (Hall _ Hp). cbn in Hall.
      pose proof (hwf_index h Hwf a k (Hin _ _ (list_elem_of_here _ _))) as (x & Hx & Ea).
      pose proof (hwf_index h Hwf a' k' (Hin _ _ (list_elem_of_further _ _ _ Hp))) as (y & Hy & Eb).
      rewrite Hx in H1. rewrite Hy in H2. apply list_elem_of_singleton in H1 as ->.
      apply list_elem_of_singleton in H2 as ->. lia.
    + destruct (hi_records h !! k); repeat constructor.
    + apply IH. intros a' k' Hp. apply Hin. by right.
Qed.

Lemma in_audit_order_complete_witness :
  history_wf sample_history /\ sample_record 2 11 ∈ in_audit_order sample_history.
Proof.
  split; [exact sample_history_wf|].
  by apply (in_audit_order_complete sample_history sample_history_wf).
Defined.

(** An audit sequence used twice hides a record.  When a decision is inserted
    with the audit sequence of another live record, the earlier record is still
    found by id but is no longer listed in audit order, which is what enforcement
    and compaction walk. *)
Theorem audit_collision_hides_record (r1 r2 : DecisionRecord) (h : DecisionHistory)
    (H1 : hi_records h !! dr_decision r1 = Some r1) (Hwf : history_wf h)
    (H2 : hi_records h !! dr_decision r2 = None) (Hk : dr_decision r2 <> 0)
    (E : dr_audit r1 = dr_audit r2) :
  let h' := history_insert r2 h in
  history_find (dr_decision r1) h' = Some r1 /\ (r1 ∉ in_audit_order h') /\ r2 ∈ in_audit_order h'.
Proof.
  assert (Hne : dr_decision r1 <> dr_decision r2) by (intros Hd; rewrite Hd in H1; congruence).
  cbn zeta. unfold history_insert. apply is_unknown_false in Hk as ->. rewrite H2.
  unfold history_find, in_audit_order. cbn. split_and!.
  - by rewrite lookup_insert_ne.
  - intros ([a k] & Hin & Hp%elem_of_map_items)%list_elem_of_bind. cbn in Hin.
    assert (Hr : (<[dr_decision r2 := r2]> (hi_records h)) !! k = Some r1).
    { destruct (_ !! k); [|by apply not_elem_of_nil in Hin].
      by apply list_elem_of_singleton in Hin as ->. }
    apply lookup_insert_Some in Hr as [[<- <-]|[Hkn Hr]]; [done|].
    pose proof (hwf_records h Hwf _ _ Hr) as (Hi & Hd & _).
    apply lookup_insert_Some in Hp as [[_ Hp]|[Ha Hp]]; [congruence|].
    apply (hwf_index h Hwf) in Hp as (r' & Hr' & Hra). congruence.
  - apply list_elem_of_bind. exists (dr_audit r2, dr_decision r2). cbn. rewrite lookup_insert_eq.
    split; [left|]. apply elem_of_map_items, lookup_insert_eq.
Qed.

Lemma audit_collision_hides_record_witness :
  sample_record 3 12 ∉ in_audit_order (history_insert (sample_record 4 12) sample_history).
Proof.
  apply (audit_collision_hides_record (sample_record 3 12) (sample_record 4 12) sample_history);
    [reflexivity|exact sample_history_wf|reflexivity|done|reflexivity].
Defined.

(** ** The attempt registry *)

#[export] Instance pair_le_total : Total pair_le.
Proof. intros [a b] [c d]. unfold pair_le. cbn. lia. Qed.
#[export] Instance pair_le_trans : Transitive pair_le.
Proof. intros [a b] [c d] [e f]. unfold pair_le. cbn. lia. Qed.

Definition attempts_size (g : AttemptRegistry) : N := N.of_nat (size (ag_attempts g)).

(** Eviction only deletes, and leaves room for one more (or nothing at all). *)
Lemma evict_spec (fuel : nat) (g : AttemptRegistry) :
  (size (ag_attempts g) <= fuel)%nat ->
  let g' := evict fuel g in
  ag_attempts g' ⊆ ag_attempts g /\ ag_capacity g' = ag_capacity g /\
  ag_request_fingerprints g' = ag_request_fingerprints g /\
  (attempts_size g' < ag_capacity g \/ ag_attempts g' = ∅).
Proof.
  revert g. induction fuel as [|fuel IH]; intros g Hf; cbn [evict].
  - assert (ag_attempts g = ∅) by (apply map_size_empty_inv; lia). split_and!; auto.
  - destruct (N.leb_spec (ag_capacity g) (N.of_nat (size (ag_attempts g)))); [|by split_and!; auto].
    destruct (map_keys pair_le (ag_attempts g)) as [|k l] eqn:Ek; cbn [head].
    + split_and!; try done. right. apply map_size_empty_inv.
      by rewrite <- (map_keys_length pair_le), Ek.
    + assert (Hk : is_Some (ag_attempts g !! k))
        by (apply (elem_of_map_keys pair_le); rewrite Ek; left).
      assert (Hs : size (ag_attempts g) <> 0%nat)
        by (by rewrite <- (map_keys_length pair_le), Ek).
      set (g1 := g <| ag_attempts := delete k (ag_attempts g) |>
                   <| ag_retired := ag_retired g +w 1 |>).
      destruct (IH g1) as (Hsub & Hc & Hr & He).
      { cbn. rewrite map_size_delete_Some by done. lia. }
      split_and!; try done. etrans; [exact Hsub|]. apply delete_subseteq.
Qed.

(** A registry within its bound. *)
Definition attempts_bounded (g : AttemptRegistry) : Prop :=
  attempts_size g <= N.max 1 (ag_capacity g).

Lemma record_attempt_lookup (c : AttemptRecord) (g : AttemptRegistry) :
  ag_attempts (record_attempt c g) !! attempt_key c = Some c.
Proof.
  unfold record_attempt. destruct (is_known _); cbn; [|apply lookup_insert_eq].
  destruct (ag_request_fingerprints _ !! _); cbn; apply lookup_insert_eq.
Qed.

Lemma record_attempt_fingerprints (c : AttemptRecord) (g : AttemptRegistry) (req : N) :
  ag_request_fingerprints (record_attempt c g) !! req =
  match ag_request_fingerprints g !! req with
  | Some f => Some f
  | None => if (req =? at_request c) && is_known req then Some (at_fingerprint c) else None
  end.
Proof.
  unfold record_attempt.
  set (g1 := match ag_attempts g !! attempt_key c with Some _ => g | None => _ end).
  assert (E : ag_request_fingerprints g1 = ag_request_fingerprints g).
  { unfold g1. destruct (ag_attempts g !! attempt_key c); [done|]. by apply evict_spec. }
  destruct (is_known (at_request c)) eqn:Hk; cbn.
  - rewrite E. destruct (ag_request_fingerprints g !! at_request c) as [f|] eqn:Hf; cbn.
    + destruct (N.eqb_spec req (at_request c)) as [->|Hne]; cbn; rewrite E; [by rewrite Hf|].
      by destruct (ag_request_fingerprints g !! req).
    + destruct (N.eqb_spec req (at_request c)) as [->|Hne]; cbn.
      * by rewrite lookup_insert_eq, Hf, Hk.
      * rewrite lookup_insert_ne by done. by destruct (ag_request_fingerprints g !! req).
  - rewrite E. destruct (ag_request_fingerprints g !! req); [done|].
    destruct (N.eqb_spec req (at_request c)) as [->|Hne]; cbn; [by rewrite Hk|done].
Qed.

Lemma record_attempt_bounded (c : AttemptRecord) (g : AttemptRegistry) :
  attempts_bounded g -> attempts_bounded (record_attempt c g).
Proof.
  intros Hb. unfold record_attempt.
  set (g1 := match ag_attempts g !! attempt_key c with Some _ => g | None => _ end).
  assert (H : attempts_bounded (g1 <| ag_attempts := <[attempt_key c := c]> (ag_attempts g1) |>)).
  { unfold attempts_bounded, attempts_size, g1 in *. cbn.
    destruct (ag_attempts g !! attempt_key c) eqn:Ek.
    - by rewrite map_size_insert_Some.
    - destruct (evict_spec (size (ag_attempts g)) g ltac:(done)) as (Hsub & -> & _ & He).
      assert (Hn : ag_attempts (evict (size (ag_attempts g)) g) !! attempt_key c = None).
      { apply eq_None_not_Some. intros [y Hy]. pose proof (lookup_weaken _ _ _ _ Hy Hsub).
        congruence. }
      rewrite map_size_insert_None by done. unfold attempts_size in He.
      destruct He as [He|He]; [lia|]. rewrite He, map_size_empty. lia. }
  destruct (is_known (at_request c)); [|exact H]. by destruct (ag_request_fingerprints _ !! _).
Qed.


Definition sample_attempt (request demand attempt fp : N) : AttemptRecord :=
  AttemptRecord_new <| at_request := request |> <| at_demand := demand |>
    <| at_attempt := attempt |> <| at_fingerprint := fp |>.


(** The registry does not retire its oldest record.  With room for two
    attempts, recording demand 9 first, then demand 1, then demand 5 evicts demand
    1, the smallest key, although demand 9 is older; and the request fingerprints,
    which the capacity does not cover, have grown to three. *)
Theorem registry_evicts_smallest_key :
  let g := record_attempt (sample_attempt 13 5 1 3)
             (record_attempt (sample_attempt 12 1 1 2)
               (record_attempt (sample_attempt 11 9 1 1) (AttemptRegistry_new 2))) in
  is_Some (ag_attempts g !! (9, 1)) /\ ag_attempts g !! (1, 1) = None /\ ag_retired g = 1 /\
  size (ag_request_fingerprints g) = 3%nat.
Proof. split_and!; [by eexists|reflexivity..]. Qed.
