(* ===== verification/Bytes.v ===== *)
(** * The byte codec (src/include/naf/core/bytes.hpp)

    Writers append to a byte list; a reader is the list of bytes it has not
    consumed yet.  A read that fails returns [None]: every caller in the source
    returns at once, so the offset after a failed read is never observed.

    The codecs of the journal and of the wire are built from these reads and
    writes, and their round trips from the class [Decodes]. *)

From S2P Require Import Prelude Checked Identity Hash.
Local Open Scope N_scope.
Local Open Scope naf_scope.

(** ** ByteWriter *)

Definition w_u8 (v : N) : list N := [v mod 256].
Definition w_u16 (v : N) : list N := le_bytes 2 v.
Definition w_u32 (v : N) : list N := le_bytes 4 v.
Definition w_u64 (v : N) : list N := le_bytes 8 v.
Definition w_boolean (v : bool) : list N := [if v then 1 else 0].

Definition chars_of (s : string) : list N := N_of_ascii <$> String.list_ascii_of_string s.
Definition string_of (bs : list N) : string := String.string_of_list_ascii (ascii_of_N <$> bs).

(** [text]: refuses more than 96 bytes and then writes nothing. *)
Definition writable_text (s : string) : bool := N.of_nat (String.length s) <=? max_string_bytes.
Definition w_text (s : string) : list N :=
  if writable_text s then w_u16 (N.of_nat (String.length s)) ++ chars_of s else [].

Definition w_blob (v : list N) (max_bytes : N) : option (list N) :=
  if max_bytes <? sizeN v then None else Some (w_u32 (sizeN v) ++ v).

(** [static_cast<std::uint8_t>(e)] of an enumerator. *)
Definition w_enum {A} (to_N : A -> N) (a : A) : list N := w_u8 (to_N a).
(** The [u32] element count of a container followed by its elements. *)
Definition w_list {A} (w : A -> list N) (l : list A) : list N := w_u32 (sizeN l) ++ (l ≫= w).

(** ** ByteReader *)

Definition ByteReader : Type := list N.

Definition exhausted (r : ByteReader) : bool := match r with [] => true | _ => false end.

Definition r_bytes (n : nat) (r : ByteReader) : option (list N * ByteReader) :=
  if sizeN r <? N.of_nat n then None else Some (take n r, drop n r).

Definition r_word (n : nat) (r : ByteReader) : option (N * ByteReader) :=
  '(bs, r') ← r_bytes n r; Some (le_value bs, r').

Definition r_u8 : ByteReader -> option (N * ByteReader) := r_word 1.
Definition r_u16 : ByteReader -> option (N * ByteReader) := r_word 2.
Definition r_u32 : ByteReader -> option (N * ByteReader) := r_word 4.
Definition r_u64 : ByteReader -> option (N * ByteReader) := r_word 8.

Definition r_boolean (r : ByteReader) : option (bool * ByteReader) :=
  '(v, r') ← r_u8 r; if 1 <? v then None else Some (v =? 1, r').

Definition r_text (r : ByteReader) : option (string * ByteReader) :=
  '(len, r1) ← r_u16 r;
  if max_string_bytes <? len then None
  else '(bs, r2) ← r_bytes (N.to_nat len) r1; Some (string_of bs, r2).

Definition r_blob (max_bytes : N) (r : ByteReader) : option (list N * ByteReader) :=
  '(len, r1) ← r_u32 r;
  if max_bytes <? len then None else r_bytes (N.to_nat len) r1.

(** ** Decoders: reads in the error monad *)

(** [if (!r.read(out)) return status;] *)
Definition need {A} (read : ByteReader -> option (A * ByteReader)) (status : Status)
    : M ByteReader A := fun r =>
  match read r with
  | Some (a, r') => (Val a, r')
  | None => (Err status, r)
  end.

Definition malformed_s (m : string) : Status := status_error MalformedInput m.
Definition oversized_s (m : string) : Status := status_error OversizedInput m.

(** An enumerator: its byte must be in range. *)
Definition need_enum {A} (of_N : N -> option A) (truncated invalid : Status) : M ByteReader A :=
  v ← need r_u8 truncated;
  match of_N v with
  | Some a => mret a
  | None => lift (Err invalid)
  end.

Fixpoint need_n {A} (n : nat) (elem : M ByteReader A) : M ByteReader (list A) :=
  match n with
  | O => mret []
  | S n' => a ← elem; l ← need_n n' elem; mret (a :: l)
  end.

(** A counted list: the count is bounded before anything is reserved. *)
Definition need_list {A} (bound : N) (elem : M ByteReader A) (truncated too_many : Status)
    : M ByteReader (list A) :=
  count ← need r_u32 truncated;
  if bound <? count then lift (Err too_many) else need_n (N.to_nat count) elem.

Definition finish (trailing : Status) : M ByteReader unit := fun r =>
  if exhausted r then (Val tt, r) else (Err trailing, r).

(** Running a decoder on a complete buffer. *)
Definition run_decoder {A} (m : M ByteReader A) (bytes : list N) : Expected A := (m bytes).1.

(** ** What a decoder decodes *)

(** [Decodes m w P]: [m] reads back exactly what [w] writes for the values that
    satisfy [P], and accepts nothing else. *)
Class Decodes {A} (m : M ByteReader A) (w : A -> list N) (P : A -> Prop) := {
  decodes_complete : forall a rest, P a -> m (w a ++ rest) = (Val a, rest);
  decodes_sound : forall bs a rest, Forall is_byte bs -> m bs = (Val a, rest) ->
    bs = w a ++ rest /\ P a /\ Forall is_byte rest;
}.
#[global] Hint Mode Decodes ! ! - - : typeclass_instances.

Lemma bind_complete {A B} (m : M ByteReader A) (w : A -> list N) (P : A -> Prop)
    (k : A -> M ByteReader B) (a : A) (rest : list N) (out : Expected B * ByteReader)
    `{!Decodes m w P} :
  P a -> k a rest = out -> (m ≫= k) (w a ++ rest) = out.
Proof. intros Ha <-. unfold mbind, M_bind. by rewrite decodes_complete. Qed.

Lemma bind_sound {A B} (m : M ByteReader A) (w : A -> list N) (P : A -> Prop)
    (k : A -> M ByteReader B) (bs : list N) (b : B) (rest : list N) `{!Decodes m w P} :
  Forall is_byte bs -> (m ≫= k) bs = (Val b, rest) ->
  exists a mid, bs = w a ++ mid /\ P a /\ Forall is_byte mid /\ k a mid = (Val b, rest).
Proof.
  unfold mbind, M_bind. intros Hb H. destruct (m bs) as [[a|s] mid] eqn:E; [|done].
  apply decodes_sound in E as (-> & Ha & Hm); [|done]. by exists a, mid.
Qed.

Lemma r_bytes_app (n : nat) (bs rest : list N) : length bs = n -> r_bytes n (bs ++ rest) = Some (bs, rest).
Proof.
  intros <-. unfold r_bytes, sizeN. rewrite length_app.
  destruct (N.ltb_spec (N.of_nat (length bs + length rest)) (N.of_nat (length bs))); [lia|].
  by rewrite take_app_length, drop_app_length.
Qed.

Lemma r_bytes_Some (n : nat) (bs got rest : list N) :
  r_bytes n bs = Some (got, rest) -> bs = got ++ rest /\ length got = n.
Proof.
  unfold r_bytes, sizeN. destruct (N.ltb_spec (N.of_nat (length bs)) (N.of_nat n)); [done|].
  intros [= <- <-]. rewrite take_drop, length_take. split; [done|lia].
Qed.

(** Words of [n] bytes. *)
Lemma word_decodes (n : nat) (s : Status) :
  Decodes (need (r_word n) s) (le_bytes n) (fun v => v < 256 ^ N.of_nat n).
Proof.
  constructor.
  - intros v rest Hv. unfold need, r_word. rewrite r_bytes_app by apply le_bytes_length. cbn.
    by rewrite le_value_bytes.
  - intros bs v rest Hb. unfold need, r_word.
    destruct (r_bytes n bs) as [[got r']|] eqn:E; cbn; [|done]. intros [= <- <-].
    apply r_bytes_Some in E as [-> <-]. apply Forall_app in Hb as [Hg Hr].
    rewrite le_bytes_value by done. split_and!; [done|by apply le_value_lt|done].
Qed.

#[export] Instance u8_decodes s : Decodes (need r_u8 s) w_u8 (fun v => v < 256).
Proof.
  destruct (word_decodes 1 s) as [H1 H2]. constructor.
  - intros v rest Hv. rewrite <- (H1 v rest Hv). cbn. by rewrite byte_mask.
  - intros bs v rest Hb E. destruct (H2 bs v rest Hb E) as (-> & Hv & Hr).
    split_and!; [|done..]. cbn. by rewrite byte_mask.
Qed.
#[export] Instance u16_decodes s : Decodes (need r_u16 s) w_u16 (fun v => v < two16).
Proof. exact (word_decodes 2 s). Qed.
#[export] Instance u32_decodes s : Decodes (need r_u32 s) w_u32 (fun v => v < two32).
Proof. exact (word_decodes 4 s). Qed.
#[export] Instance u64_decodes s : Decodes (need r_u64 s) w_u64 u64.
Proof. exact (word_decodes 8 s). Qed.

#[export] Instance boolean_decodes s : Decodes (need r_boolean s) w_boolean (fun _ => True).
Proof.
  constructor.
  - intros v rest _. unfold need, r_boolean.
    pose proof (decodes_complete (m := need r_u8 s) (if v then 1 else 0) rest) as H.
    unfold need in H. change (w_boolean v) with [if v then 1 else 0].
    replace [if v then 1 else 0] with (w_u8 (if v then 1 else 0)) by (by destruct v).
    destruct (r_u8 _) as [[x r]|]; [|by destruct v; specialize (H ltac:(done))].
    destruct v; specialize (H ltac:(done)); by injection H as -> ->.
  - intros bs v rest Hb. unfold need, r_boolean.
    destruct (u8_decodes s) as [_ H2]. specialize (H2 bs). unfold need in H2.
    destruct (r_u8 bs) as [[x r']|]; cbn; [|done].
    destruct (H2 x r' Hb eq_refl) as (-> & Hx & Hr).
    destruct (N.ltb_spec 1 x); [done|]. intros [= <- <-]. split_and!; [|done|done].
    assert (x = 0 \/ x = 1) as [->| ->] by lia; done.
Qed.

(** The text round trip: the length prefix counts the characters. *)
Lemma chars_length (s : string) : length (chars_of s) = String.length s.
Proof. unfold chars_of. rewrite length_fmap. induction s; cbn; congruence. Qed.

Lemma chars_byte (s : string) : Forall is_byte (chars_of s).
Proof.
  unfold chars_of. induction (String.list_ascii_of_string s); constructor; [|done].
  apply N_ascii_bounded.
Qed.

Lemma string_of_chars (s : string) : string_of (chars_of s) = s.
Proof.
  unfold string_of, chars_of. induction s as [|c s IH]; [done|]. cbn in *.
  by rewrite ascii_N_embedding, IH.
Qed.

Lemma chars_of_string (bs : list N) : Forall is_byte bs -> chars_of (string_of bs) = bs.
Proof.
  unfold string_of, chars_of. induction 1 as [|b bs Hb _ IH]; [done|]. cbn in *.
  by rewrite N_ascii_embedding, IH.
Qed.

#[export] Instance text_decodes s :
  Decodes (need r_text s) w_text (fun t => N.of_nat (String.length t) <= 96).
Proof.
  constructor.
  - intros t rest Ht. unfold need, r_text, w_text, writable_text, max_string_bytes.
    apply N.leb_le in Ht as Hw. rewrite Hw, <- app_assoc.
    pose proof (decodes_complete (m := need r_u16 s) (N.of_nat (String.length t)) (chars_of t ++ rest)) as H.
    unfold need in H. destruct (r_u16 _) as [[x r]|]; [|by specialize (H ltac:(unfold two16; lia))].
    injection (H ltac:(unfold two16; lia)) as -> ->. cbn.
    destruct (N.ltb_spec 96 (N.of_nat (String.length t))); [lia|]. rewrite Nat2N.id.
    rewrite r_bytes_app by apply chars_length. cbn. by rewrite string_of_chars.
  - intros bs t rest Hb. unfold need, r_text, max_string_bytes.
    destruct (u16_decodes s) as [_ H2]. specialize (H2 bs). unfold need in H2.
    destruct (r_u16 bs) as [[len r1]|]; cbn; [|done].
    destruct (H2 len r1 Hb eq_refl) as (-> & Hlen & Hr1).
    destruct (N.ltb_spec 96 len); [done|].
    destruct (r_bytes (N.to_nat len) r1) as [[got r2]|] eqn:E; cbn; [|done]. intros [= <- <-].
    apply r_bytes_Some in E as [-> Hgot]. apply Forall_app in Hr1 as [Hg Hr2].
    assert (Hl : N.of_nat (String.length (string_of got)) = len)
      by (rewrite <- chars_length, chars_of_string by done; lia).
    unfold w_text, writable_text, max_string_bytes. rewrite Hl.
    apply N.leb_le in H as Hw. rewrite Hw, chars_of_string, <- app_assoc by done. by split_and!.
Qed.

(** An enumeration with its numbering. *)
Class Enum {A} (to_N : A -> N) (of_N : N -> option A) := {
  enum_of_to : forall a, of_N (to_N a) = Some a;
  enum_to_of : forall n a, of_N n = Some a -> to_N a = n;
  enum_small : forall a, to_N a < 256;
}.

#[export] Instance enum_decodes {A} (to_N : A -> N) (of_N : N -> option A) `{!Enum to_N of_N} s s' :
  Decodes (need_enum of_N s s') (w_enum to_N) (fun _ => True).
Proof.
  constructor.
  - intros a rest _. unfold need_enum, w_enum. eapply bind_complete; [apply _|apply enum_small|].
    by rewrite enum_of_to.
  - intros bs a rest Hb H. unfold need_enum in H.
    apply (bind_sound _ _ _ _ _ _ _ Hb) in H as (v & mid & -> & Hv & Hm & H).
    destruct (of_N v) as [a'|] eqn:E; [|done]. injection H as <- <-.
    unfold w_enum. rewrite (enum_to_of (to_N := to_N) v a' E). by split_and!.
Qed.

Lemma need_n_decodes {A} (n : nat) (elem : M ByteReader A) (w : A -> list N) (P : A -> Prop)
    `{!Decodes elem w P} :
  Decodes (need_n n elem) (fun l => l ≫= w) (fun l => length l = n /\ Forall P l).
Proof.
  induction n as [|n IH]; constructor.
  - intros [|a l] rest [Hl _]; done.
  - intros bs l rest Hb [= <- <-]. by split_and!.
  - intros [|a l] rest [Hl Hp]; [done|]. apply Forall_cons in Hp as [Ha Hp]. cbn.
    rewrite <- app_assoc. eapply bind_complete; [apply _|done|].
    eapply (bind_complete _ (fun l => l ≫= w)); [exact IH| |done]. by injection Hl.
  - intros bs l rest Hb H. cbn [need_n] in H.
    apply (bind_sound _ _ _ _ _ _ _ Hb) in H as (a & mid & -> & Ha & Hm & H).
    apply (bind_sound _ _ _ _ _ _ _ Hm) in H as (l' & mid' & -> & [Hl Hp] & Hm' & H).
    injection H as <- <-. cbn. rewrite app_assoc. split_and!; auto.
Qed.

#[export] Instance list_decodes {A} (bound : N) (elem : M ByteReader A) (w : A -> list N)
    (P : A -> Prop) `{!Decodes elem w P} s s' :
  TCEq (bound <? two32) true ->
  Decodes (need_list bound elem s s') (w_list w) (fun l => sizeN l <= bound /\ Forall P l).
Proof.
  intros Hbound. apply TCEq_eq, N.ltb_lt in Hbound. constructor.
  - intros l rest [Hl Hp]. unfold need_list, w_list. rewrite <- app_assoc.
    eapply bind_complete; [apply _|unfold two32 in *; lia|]. destruct (N.ltb_spec bound (sizeN l)); [lia|].
    unfold sizeN. rewrite Nat2N.id.
    by apply (decodes_complete (Decodes := need_n_decodes (length l) elem w P)).
  - intros bs l rest Hb H. unfold need_list in H.
    apply (bind_sound _ _ _ _ _ _ _ Hb) in H as (count & mid & -> & Hc & Hm & H).
    destruct (N.ltb_spec bound count); [done|].
    apply (decodes_sound (Decodes := need_n_decodes (N.to_nat count) elem w P)) in H as (-> & [Hl Hp] & Hr); [|done].
    assert (sizeN l = count) as E by (unfold sizeN; lia).
    unfold w_list. rewrite E, <- app_assoc. by split_and!.
Qed.

Lemma finish_complete (s : Status) : finish s [] = (Val tt, []).
Proof. done. Qed.

(** ** Codecs

    [Codec encode decode P]: decoding inverts encoding for every value that
    satisfies [P], and every accepted buffer is the encoding of the value read. *)
Class Codec {A} (encode : A -> list N) (decode : list N -> Expected A) (P : A -> Prop) := {
  codec_roundtrip : forall a, P a -> decode (encode a) = Val a;
  codec_canonical : forall bs a, Forall is_byte bs -> decode bs = Val a -> encode a = bs /\ P a;
}.

Lemma finish_sound {B} (s : Status) (k : M ByteReader B) (bs : list N) (b : B) (rest : list N) :
  (finish s ;; k) bs = (Val b, rest) -> bs = [] /\ k [] = (Val b, rest).
Proof. by destruct bs. Qed.

(** Reads back one written field after another. *)
Ltac read_fields :=
  repeat (eapply bind_complete; [apply _|solve [cbn; intuition]|]); try reflexivity.

(** Recovers the fields a successful decoder has read from [H : decoder bs = ...],
    where [Hb] says that [bs] are bytes. *)
Ltac recover_fields H Hb :=
  repeat
    (let x := fresh "x" in let mid := fresh "mid" in let Hx := fresh "Hx" in
     let Hm := fresh "Hb" in
     lazymatch type of H with
     | @mbind _ _ _ _ ?k ?m ?bs = _ =>
         let D := constr:(_ : Decodes m _ _) in
         apply (@bind_sound _ _ _ _ _ _ _ _ _ D Hb) in H as (x & mid & -> & Hx & Hm & H)
     end;
     clear Hb; rename Hm into Hb).

(** Fields that are read together come as a pair. *)
Ltac split_pairs := repeat match goal with x : (_ * _)%type |- _ => destruct x end.

(** The two directions for a record with a trailing [finish]. *)
Ltac solve_codec enc dec rd wf :=
  constructor;
    [ let a := fresh "a" in let Ha := fresh "Ha" in
      intros a Ha; unfold dec, run_decoder, rd; unfold wf in Ha; cbn zeta;
      rewrite <- (app_nil_r (enc a)); unfold enc; rewrite <- ?app_assoc;
      match goal with |- (?m ?bs).1 = ?v => enough (m bs = (v, [])) as -> by reflexivity end;
      read_fields; destruct a; reflexivity
    | let bs := fresh "bs" in let a := fresh "a" in let Hb := fresh "Hb" in let H := fresh "H" in
      intros bs a Hb; unfold dec, run_decoder;
      destruct (rd bs) as [r rest] eqn:H; cbn [fst]; intros ->;
      unfold rd in H; cbn zeta in H; recover_fields H Hb;
      apply finish_sound in H as [-> H]; injection H as <- <-;
      unfold enc, wf; split_pairs; rewrite ?app_nil_r; split; [reflexivity|cbn; intuition] ].

(** The two directions for an element of a list. *)
Ltac solve_decodes enc rd wf :=
  constructor;
    [ let a := fresh "a" in let rest := fresh "rest" in let Ha := fresh "Ha" in
      intros a rest Ha; unfold rd, enc; unfold wf in Ha; cbn zeta; rewrite <- ?app_assoc;
      read_fields; destruct a; reflexivity
    | let bs := fresh "bs" in let a := fresh "a" in let rest := fresh "rest" in
      let Hb := fresh "Hb" in let H := fresh "H" in
      intros bs a rest Hb H; unfold rd in H; cbn zeta in H; recover_fields H Hb;
      injection H as <- <-; unfold enc, wf; split_pairs; rewrite <- ?app_assoc;
      split_and!; [reflexivity|cbn; intuition..] ].
