(* ===== verification/Records.v ===== *)
(** * Durable records (src/include/naf/durable/records.hpp, src/src/durable/records.cpp)

    The seven payload codecs of the journal.  Each decoder reads the fields in the
    order the encoder writes them, refuses out-of-range enumerators and oversized
    lists, and refuses trailing bytes. *)

From S2P Require Import Prelude Checked Identity Hash State Policy Authority Decision.
From S2P Require Import Ledger History Bytes.
Local Open Scope N_scope.
Local Open Scope naf_scope.

Definition format_revision : N := 1.
Definition product_name : string := "network-admission-fabric".

(** ** Records *)

Record BootRecord := mkBootRecord {
  br_epoch : FabricEpoch;
  br_format_revision : N;
  br_product : string;
  br_boot_nonce : N;
  br_incarnation : CoordinatorIncarnation;
}.

Record PrepareRecord := mkPrepareRecord {
  pr_decision : AdmissionDecisionId;
  pr_demand : DemandId;
  pr_attempt : AttemptId;
  pr_fingerprint : N;
  pr_epoch : FabricEpoch;
  pr_bound_capacity_generation : Generation;
  pr_path : PathId;
  pr_amounts : list (ResourceId * Rate);
}.

Record ReleaseRecord := mkReleaseRecord {
  rl_decision : AdmissionDecisionId;
  rl_epoch : FabricEpoch;
  rl_reason : RevocationReason;
  rl_released : list LedgerEntry;
}.

Record RevocationRecord := mkRevocationRecord {
  rvr_decision : AdmissionDecisionId;
  rvr_epoch : FabricEpoch;
  rvr_audit : AuditSequence;
  rvr_reason : RevocationReason;
  rvr_state : RevalidationState;
}.

Record AuditMarkRecord := mkAuditMarkRecord {
  am_sequence : AuditSequence;
  am_epoch : FabricEpoch;
  am_frames : N;
}.

(** ** Enumerators read from a byte *)

Definition ContentionAction_to_N (a : ContentionAction) : N :=
  match a with ActionDefer => 0 | ActionReject => 1 end.
Definition ContentionAction_of_N (n : N) : option ContentionAction :=
  [ActionDefer; ActionReject] !! N.to_nat n.
Definition AdmissionOutcome_of_N (n : N) : option AdmissionOutcome :=
  [Admit; AdmitDegraded; Defer; RejectCapacity; RejectPolicy; RejectObligation; RejectPath;
   RejectQoS; StaleInput; ConflictingInput; FencedClaimant] !! N.to_nat n.
Definition RevalidationState_of_N (n : N) : option RevalidationState :=
  [RS_Fresh; RS_Valid; RS_Invalidated; RS_Revoked; RS_Expired; RS_Ambiguous; RS_Unknown] !! N.to_nat n.
Definition RevocationReason_of_N (n : N) : option RevocationReason :=
  [NotRevoked; OperatorRequest; GenerationAdvance; CapacityReduction; PathRevoked; PolicyChange;
   ClaimantDeath; CoordinatorRestart; ObligationChange; ReasonExpired] !! N.to_nat n.

Ltac solve_enum of_N :=
  constructor;
    [ intros []; reflexivity
    | intros n a H; unfold of_N in H; rewrite <- (N2Nat.id n); destruct (N.to_nat n) as [|i]; [by injection H as <-|];
      repeat (destruct i as [|i]; [by injection H as <-|]); discriminate H
    | intros []; reflexivity ].

#[export] Instance ContentionAction_enum : Enum ContentionAction_to_N ContentionAction_of_N.
Proof. solve_enum ContentionAction_of_N. Qed.
#[export] Instance AdmissionOutcome_enum : Enum AdmissionOutcome_to_N AdmissionOutcome_of_N.
Proof. solve_enum AdmissionOutcome_of_N. Qed.
#[export] Instance RevalidationState_enum : Enum RevalidationState_to_N RevalidationState_of_N.
Proof. solve_enum RevalidationState_of_N. Qed.
#[export] Instance RevocationReason_enum : Enum RevocationReason_to_N RevocationReason_of_N.
Proof. solve_enum RevocationReason_of_N. Qed.

(** [finish(r)]. *)
Definition finish_record : M ByteReader unit :=
  finish (malformed_s "durable record has trailing bytes").

(** ** Boot *)

Definition encode_boot (r : BootRecord) : list N :=
  w_u16 (br_format_revision r) ++ w_text (br_product r) ++ w_u64 (br_epoch r) ++
  w_u64 (br_boot_nonce r) ++ w_u64 (br_incarnation r).

Definition read_boot : M ByteReader BootRecord :=
  format_revision ← need r_u16 (malformed_s "boot record is truncated");
  product ← need r_text (malformed_s "boot record product is invalid");
  epoch ← need r_u64 (malformed_s "boot record is truncated");
  boot_nonce ← need r_u64 (malformed_s "boot record is truncated");
  incarnation ← need r_u64 (malformed_s "boot record is truncated");
  finish_record ;;
  mret (mkBootRecord epoch format_revision product boot_nonce incarnation).

Definition decode_boot (bytes : list N) : Expected BootRecord := run_decoder read_boot bytes.

(** ** Policy *)

Definition encode_policy (p : AdmissionPolicy) : list N :=
  w_u64 (pol_id p) ++ w_u64 (pol_generation p) ++ w_u64 (pol_epoch p) ++
  w_u64 (pol_observed_tick p) ++ w_u32 (pol_headroom_permille p) ++
  w_u64 (pol_headroom_floor p) ++ w_boolean (pol_allow_degraded p) ++
  w_boolean (pol_allow_preemptible_admission p) ++ w_boolean (pol_require_path_binding p) ++
  w_boolean (pol_require_reservation_reference p) ++ w_boolean (pol_allow_path_substitution p) ++
  w_enum ContentionAction_to_N (pol_on_contention p) ++
  w_list w_u64 (pol_allowed_qos p) ++ w_list w_u64 (pol_allowed_priorities p) ++
  w_u32 (pol_max_explanation_constraints p) ++ w_u32 (pol_max_explanation_bytes p) ++
  w_u32 (pol_max_effective_resources p) ++ w_u64 (pol_defer_horizon_ticks p).

Definition read_policy : M ByteReader AdmissionPolicy :=
  let truncated := malformed_s "policy record is truncated" in
  id ← need r_u64 truncated;
  generation ← need r_u64 truncated;
  epoch ← need r_u64 truncated;
  observed_tick ← need r_u64 truncated;
  headroom_permille ← need r_u32 truncated;
  headroom_floor ← need r_u64 truncated;
  allow_degraded ← need r_boolean truncated;
  allow_preemptible_admission ← need r_boolean truncated;
  require_path_binding ← need r_boolean truncated;
  require_reservation_reference ← need r_boolean truncated;
  allow_path_substitution ← need r_boolean truncated;
  on_contention ← need_enum ContentionAction_of_N truncated
    (malformed_s "policy contention action is not recognised");
  allowed_qos ← need_list max_allowed_classes (need r_u64 truncated) truncated
    (oversized_s "policy allowed qos list is too large");
  allowed_priorities ← need_list max_allowed_classes (need r_u64 truncated) truncated
    (oversized_s "policy allowed priority list is too large");
  max_explanation_constraints ← need r_u32 truncated;
  max_explanation_bytes ← need r_u32 truncated;
  max_effective_resources ← need r_u32 truncated;
  defer_horizon_ticks ← need r_u64 truncated;
  finish_record ;;
  mret (mkAdmissionPolicy id generation epoch observed_tick headroom_permille headroom_floor
    allow_degraded allow_preemptible_admission require_path_binding require_reservation_reference
    allow_path_substitution on_contention allowed_qos allowed_priorities
    max_explanation_constraints max_explanation_bytes max_effective_resources defer_horizon_ticks).

Definition decode_policy (bytes : list N) : Expected AdmissionPolicy := run_decoder read_policy bytes.

(** ** Prepare *)

Definition w_amount (a : ResourceId * Rate) : list N := w_u64 a.1 ++ w_u64 a.2.

Definition read_amount : M ByteReader (ResourceId * Rate) :=
  resource ← need r_u64 (malformed_s "prepare record is truncated");
  amount ← need r_u64 (malformed_s "prepare record is truncated");
  mret (resource, amount).

Definition encode_prepare (r : PrepareRecord) : list N :=
  w_u64 (pr_decision r) ++ w_u64 (pr_demand r) ++ w_u64 (pr_attempt r) ++
  w_u64 (pr_fingerprint r) ++ w_u64 (pr_epoch r) ++ w_u64 (pr_bound_capacity_generation r) ++
  w_u64 (pr_path r) ++ w_list w_amount (pr_amounts r).

Definition read_prepare : M ByteReader PrepareRecord :=
  let truncated := malformed_s "prepare record is truncated" in
  decision ← need r_u64 truncated;
  demand ← need r_u64 truncated;
  attempt ← need r_u64 truncated;
  fingerprint ← need r_u64 truncated;
  epoch ← need r_u64 truncated;
  bound_capacity_generation ← need r_u64 truncated;
  path ← need r_u64 truncated;
  amounts ← need_list max_resource_bindings read_amount truncated
    (oversized_s "prepare record has too many amounts");
  finish_record ;;
  mret (mkPrepareRecord decision demand attempt fingerprint epoch bound_capacity_generation path
    amounts).

Definition decode_prepare (bytes : list N) : Expected PrepareRecord := run_decoder read_prepare bytes.

(** ** Decision record *)

Definition encode_decision_record (r : DecisionRecord) : list N :=
  w_u64 (dr_decision r) ++ w_u64 (dr_audit r) ++ w_enum AdmissionOutcome_to_N (dr_outcome r) ++
  w_u64 (dr_request r) ++ w_u64 (dr_demand r) ++ w_u64 (dr_demand_generation r) ++
  w_u64 (dr_attempt r) ++ w_u64 (dr_path r) ++ w_u64 (dr_granted r) ++ w_u64 (dr_epoch r) ++
  w_u64 (dr_incarnation r) ++ w_u64 (dr_decided_tick r) ++ w_u64 (dr_fingerprint r) ++
  w_u64 (dr_bound_capacity_generation r) ++ w_u64 (dr_bound_policy_generation r) ++
  w_u64 (dr_bound_qos_generation r) ++ w_u64 (dr_bound_priority_generation r) ++
  w_u64 (dr_bound_path_generation r) ++ w_u64 (dr_bound_reservation_generation r) ++
  w_enum RevalidationState_to_N (dr_state r) ++ w_enum RevocationReason_to_N (dr_reason r) ++
  w_boolean (dr_ledger_live r) ++ w_boolean (dr_restored_from_disk r).

Definition read_decision_record : M ByteReader DecisionRecord :=
  let truncated := malformed_s "decision record is truncated" in
  decision ← need r_u64 truncated;
  audit ← need r_u64 truncated;
  outcome ← need_enum AdmissionOutcome_of_N truncated
    (malformed_s "decision record outcome is not recognised");
  request ← need r_u64 truncated;
  demand ← need r_u64 truncated;
  demand_generation ← need r_u64 truncated;
  attempt ← need r_u64 truncated;
  path ← need r_u64 truncated;
  granted ← need r_u64 truncated;
  epoch ← need r_u64 truncated;
  incarnation ← need r_u64 truncated;
  decided_tick ← need r_u64 truncated;
  fingerprint ← need r_u64 truncated;
  bound_capacity_generation ← need r_u64 truncated;
  bound_policy_generation ← need r_u64 truncated;
  bound_qos_generation ← need r_u64 truncated;
  bound_priority_generation ← need r_u64 truncated;
  bound_path_generation ← need r_u64 truncated;
  bound_reservation_generation ← need r_u64 truncated;
  state ← need_enum RevalidationState_of_N truncated
    (malformed_s "decision record revalidation state is not recognised");
  reason ← need_enum RevocationReason_of_N truncated
    (malformed_s "decision record revocation reason is not recognised");
  ledger_live ← need r_boolean truncated;
  restored_from_disk ← need r_boolean truncated;
  finish_record ;;
  mret (mkDecisionRecord decision audit outcome request demand demand_generation attempt path
    granted epoch incarnation decided_tick fingerprint bound_capacity_generation
    bound_policy_generation bound_qos_generation bound_priority_generation bound_path_generation
    bound_reservation_generation state reason ledger_live restored_from_disk).

Definition decode_decision_record (bytes : list N) : Expected DecisionRecord :=
  run_decoder read_decision_record bytes.

(** ** Release *)

Definition w_ledger_entry (e : LedgerEntry) : list N :=
  w_u64 (le_decision e) ++ w_u64 (le_demand e) ++ w_u64 (le_resource e) ++ w_u64 (le_amount e) ++
  w_u64 (le_path e) ++ w_u64 (le_epoch e) ++ w_u64 (le_bound_capacity_generation e) ++
  w_boolean (le_requires_revalidation e).

Definition read_ledger_entry : M ByteReader LedgerEntry :=
  let truncated := malformed_s "release record is truncated" in
  decision ← need r_u64 truncated;
  demand ← need r_u64 truncated;
  resource ← need r_u64 truncated;
  amount ← need r_u64 truncated;
  path ← need r_u64 truncated;
  epoch ← need r_u64 truncated;
  bound_capacity_generation ← need r_u64 truncated;
  requires_revalidation ← need r_boolean truncated;
  mret (mkLedgerEntry decision demand resource amount path epoch bound_capacity_generation
    requires_revalidation).

Definition encode_release (r : ReleaseRecord) : list N :=
  w_u64 (rl_decision r) ++ w_u64 (rl_epoch r) ++ w_enum RevocationReason_to_N (rl_reason r) ++
  w_list w_ledger_entry (rl_released r).

Definition read_release : M ByteReader ReleaseRecord :=
  let truncated := malformed_s "release record is truncated" in
  decision ← need r_u64 truncated;
  epoch ← need r_u64 truncated;
  reason ← need_enum RevocationReason_of_N truncated
    (malformed_s "release record reason is not recognised");
  released ← need_list max_resource_bindings read_ledger_entry truncated
    (oversized_s "release record has too many entries");
  finish_record ;;
  mret (mkReleaseRecord decision epoch reason released).

Definition decode_release (bytes : list N) : Expected ReleaseRecord := run_decoder read_release bytes.

(** ** Revocation *)

Definition encode_revocation (r : RevocationRecord) : list N :=
  w_u64 (rvr_decision r) ++ w_u64 (rvr_epoch r) ++ w_u64 (rvr_audit r) ++
  w_enum RevocationReason_to_N (rvr_reason r) ++ w_enum RevalidationState_to_N (rvr_state r).

Definition read_revocation : M ByteReader RevocationRecord :=
  let truncated := malformed_s "revocation record is truncated" in
  decision ← need r_u64 truncated;
  epoch ← need r_u64 truncated;
  audit ← need r_u64 truncated;
  reason ← need_enum RevocationReason_of_N truncated
    (malformed_s "revocation record reason is not recognised");
  state ← need_enum RevalidationState_of_N truncated
    (malformed_s "revocation record state is not recognised");
  finish_record ;;
  mret (mkRevocationRecord decision epoch audit reason state).

Definition decode_revocation (bytes : list N) : Expected RevocationRecord :=
  run_decoder read_revocation bytes.

(** ** Audit mark *)

Definition encode_audit_mark (r : AuditMarkRecord) : list N :=
  w_u64 (am_sequence r) ++ w_u64 (am_epoch r) ++ w_u64 (am_frames r).

Definition read_audit_mark : M ByteReader AuditMarkRecord :=
  let truncated := malformed_s "audit mark is truncated" in
  sequence ← need r_u64 truncated;
  epoch ← need r_u64 truncated;
  frames ← need r_u64 truncated;
  finish_record ;;
  mret (mkAuditMarkRecord sequence epoch frames).

Definition decode_audit_mark (bytes : list N) : Expected AuditMarkRecord :=
  run_decoder read_audit_mark bytes.

(** ** Storable records

    The values whose fields fit their encoded widths and whose lists are within the
    decoder's bounds. *)

Definition boot_storable (r : BootRecord) : Prop :=
  br_format_revision r < two16 /\ N.of_nat (String.length (br_product r)) <= 96 /\
  u64 (br_epoch r) /\ u64 (br_boot_nonce r) /\ u64 (br_incarnation r).

Definition policy_storable (p : AdmissionPolicy) : Prop :=
  u64 (pol_id p) /\ u64 (pol_generation p) /\ u64 (pol_epoch p) /\ u64 (pol_observed_tick p) /\
  pol_headroom_permille p < two32 /\ u64 (pol_headroom_floor p) /\
  (sizeN (pol_allowed_qos p) <= max_allowed_classes /\ Forall u64 (pol_allowed_qos p)) /\
  (sizeN (pol_allowed_priorities p) <= max_allowed_classes /\
   Forall u64 (pol_allowed_priorities p)) /\
  pol_max_explanation_constraints p < two32 /\ pol_max_explanation_bytes p < two32 /\
  pol_max_effective_resources p < two32 /\ u64 (pol_defer_horizon_ticks p).

Definition amount_storable (a : ResourceId * Rate) : Prop := u64 a.1 /\ u64 a.2.

Definition prepare_storable (r : PrepareRecord) : Prop :=
  u64 (pr_decision r) /\ u64 (pr_demand r) /\ u64 (pr_attempt r) /\ u64 (pr_fingerprint r) /\
  u64 (pr_epoch r) /\ u64 (pr_bound_capacity_generation r) /\ u64 (pr_path r) /\
  (sizeN (pr_amounts r) <= max_resource_bindings /\ Forall amount_storable (pr_amounts r)).

Definition decision_storable (r : DecisionRecord) : Prop :=
  u64 (dr_decision r) /\ u64 (dr_audit r) /\ u64 (dr_request r) /\ u64 (dr_demand r) /\
  u64 (dr_demand_generation r) /\ u64 (dr_attempt r) /\ u64 (dr_path r) /\ u64 (dr_granted r) /\
  u64 (dr_epoch r) /\ u64 (dr_incarnation r) /\ u64 (dr_decided_tick r) /\
  u64 (dr_fingerprint r) /\ u64 (dr_bound_capacity_generation r) /\
  u64 (dr_bound_policy_generation r) /\ u64 (dr_bound_qos_generation r) /\
  u64 (dr_bound_priority_generation r) /\ u64 (dr_bound_path_generation r) /\
  u64 (dr_bound_reservation_generation r).

Definition entry_storable (e : LedgerEntry) : Prop :=
  u64 (le_decision e) /\ u64 (le_demand e) /\ u64 (le_resource e) /\ u64 (le_amount e) /\
  u64 (le_path e) /\ u64 (le_epoch e) /\ u64 (le_bound_capacity_generation e).

Definition release_storable (r : ReleaseRecord) : Prop :=
  u64 (rl_decision r) /\ u64 (rl_epoch r) /\
  (sizeN (rl_released r) <= max_resource_bindings /\ Forall entry_storable (rl_released r)).

Definition revocation_storable (r : RevocationRecord) : Prop :=
  u64 (rvr_decision r) /\ u64 (rvr_epoch r) /\ u64 (rvr_audit r).

Definition audit_mark_storable (r : AuditMarkRecord) : Prop :=
  u64 (am_sequence r) /\ u64 (am_epoch r) /\ u64 (am_frames r).

#[export] Instance amount_decodes : Decodes read_amount w_amount amount_storable.
Proof. solve_decodes w_amount read_amount amount_storable. Qed.
#[export] Instance ledger_entry_decodes : Decodes read_ledger_entry w_ledger_entry entry_storable.
Proof. solve_decodes w_ledger_entry read_ledger_entry entry_storable. Qed.

#[export] Instance boot_codec : Codec encode_boot decode_boot boot_storable.
Proof. solve_codec encode_boot decode_boot read_boot boot_storable. Qed.
#[export] Instance policy_codec : Codec encode_policy decode_policy policy_storable.
Proof. solve_codec encode_policy decode_policy read_policy policy_storable. Qed.
#[export] Instance prepare_codec : Codec encode_prepare decode_prepare prepare_storable.
Proof. solve_codec encode_prepare decode_prepare read_prepare prepare_storable. Qed.
#[export] Instance decision_codec :
  Codec encode_decision_record decode_decision_record decision_storable.
Proof.
  solve_codec encode_decision_record decode_decision_record read_decision_record decision_storable.
Qed.
#[export] Instance release_codec : Codec encode_release decode_release release_storable.
Proof. solve_codec encode_release decode_release read_release release_storable. Qed.
#[export] Instance revocation_codec :
  Codec encode_revocation decode_revocation revocation_storable.
Proof. solve_codec encode_revocation decode_revocation read_revocation revocation_storable. Qed.
#[export] Instance audit_mark_codec :
  Codec encode_audit_mark decode_audit_mark audit_mark_storable.
Proof. solve_codec encode_audit_mark decode_audit_mark read_audit_mark audit_mark_storable. Qed.

(** ** Properties *)

(** C23: every durable record survives a restart.  For each of the seven record
    kinds, decoding the encoded bytes of a record whose fields fit their widths
    and whose lists fit the decoder's bounds gives the record back. *)
Theorem durable_records_roundtrip (b : BootRecord) (p : AdmissionPolicy) (pr : PrepareRecord)
    (d : DecisionRecord) (rl : ReleaseRecord) (rv : RevocationRecord) (am : AuditMarkRecord)
    (Hb : boot_storable b) (Hp : policy_storable p) (Hpr : prepare_storable pr)
    (Hd : decision_storable d) (Hrl : release_storable rl) (Hrv : revocation_storable rv)
    (Ham : audit_mark_storable am) :
  decode_boot (encode_boot b) = Val b /\ decode_policy (encode_policy p) = Val p /\
  decode_prepare (encode_prepare pr) = Val pr /\
  decode_decision_record (encode_decision_record d) = Val d /\
  decode_release (encode_release rl) = Val rl /\
  decode_revocation (encode_revocation rv) = Val rv /\
  decode_audit_mark (encode_audit_mark am) = Val am.
Proof. split_and!; by apply codec_roundtrip. Qed.

Definition sample_boot : BootRecord := mkBootRecord 4 1 product_name 77 77.
Definition sample_policy : AdmissionPolicy :=
  mkAdmissionPolicy 3 1 1 0 50 0 true true false false true ActionReject [1; 2] [1] 16 4096 16 10.
Definition sample_prepare : PrepareRecord := mkPrepareRecord 5 1 1 99 1 1 0 [(3, 40); (4, 40)].
Definition sample_release : ReleaseRecord :=
  mkReleaseRecord 5 1 PathRevoked [mkLedgerEntry 5 1 3 40 0 1 1 true].

Ltac storable :=
  unfold boot_storable, policy_storable, prepare_storable, decision_storable, release_storable,
    revocation_storable, audit_mark_storable;
  repeat match goal with
  | |- _ /\ _ => split
  | |- Forall _ _ => constructor
  | |- amount_storable _ => split
  | |- entry_storable _ => unfold entry_storable
  | |- _ => reflexivity || (intro; discriminate) || exact I
  end.

Lemma durable_records_roundtrip_witness :
  decode_boot (encode_boot sample_boot) = Val sample_boot /\
  decode_prepare (encode_prepare sample_prepare) = Val sample_prepare.
Proof.
  destruct (durable_records_roundtrip sample_boot sample_policy sample_prepare
    (sample_record 5 12) sample_release (mkRevocationRecord 5 1 13 PathRevoked RS_Revoked)
    (mkAuditMarkRecord 13 1 8)) as (H1 & _ & H3 & _); [storable..|]. split; [exact H1|exact H3].
Defined.

(** C35: the durable decoders are canonical.  A buffer of bytes that a decoder
    accepts is exactly the encoding of the record it returns, and that record
    fits every width and bound: nothing is dropped, defaulted or reinterpreted,
    and no two buffers decode to the same record. *)
Theorem durable_decoders_canonical (bs : list N) (Hbs : Forall is_byte bs) :
  (forall b, decode_boot bs = Val b -> encode_boot b = bs /\ boot_storable b) /\
  (forall p, decode_policy bs = Val p -> encode_policy p = bs /\ policy_storable p) /\
  (forall r, decode_prepare bs = Val r -> encode_prepare r = bs /\ prepare_storable r) /\
  (forall r, decode_decision_record bs = Val r ->
     encode_decision_record r = bs /\ decision_storable r) /\
  (forall r, decode_release bs = Val r -> encode_release r = bs /\ release_storable r) /\
  (forall r, decode_revocation bs = Val r -> encode_revocation r = bs /\ revocation_storable r) /\
  (forall r, decode_audit_mark bs = Val r -> encode_audit_mark r = bs /\ audit_mark_storable r).
Proof. split_and!; intros r; by apply codec_canonical. Qed.

Lemma durable_decoders_canonical_witness :
  encode_audit_mark (mkAuditMarkRecord 1 2 3) =
  [1;0;0;0;0;0;0;0; 2;0;0;0;0;0;0;0; 3;0;0;0;0;0;0;0].
Proof.
  apply (durable_decoders_canonical
    [1;0;0;0;0;0;0;0; 2;0;0;0;0;0;0;0; 3;0;0;0;0;0;0;0]); [|reflexivity].
  repeat constructor.
Defined.

(** A prepare record over more than 1024 resources is written but cannot be
    read back.  The encoder bounds nothing, so a grant over the bindings of a
    request and the resources of its path (up to 1536 of them) is made durable as
    a record that recovery refuses as oversized. *)
Theorem oversized_prepare_unreadable (r : PrepareRecord)
    (Hw : Forall u64 [pr_decision r; pr_demand r; pr_attempt r; pr_fingerprint r; pr_epoch r;
                      pr_bound_capacity_generation r; pr_path r])
    (Hlen : 1024 < sizeN (pr_amounts r) < two32) :
  decode_prepare (encode_prepare r) =
  Err (oversized_s "prepare record has too many amounts").
Proof.
  repeat (apply Forall_cons in Hw as [? Hw]). unfold decode_prepare, run_decoder.
  match goal with |- (?m ?bs).1 = ?v => enough (exists rest, m bs = (v, rest)) as [? ->] by done end.
  eexists. unfold read_prepare, encode_prepare. cbn zeta.
  do 7 (eapply bind_complete; [apply _|done|]). unfold w_list, mbind, M_bind.
  assert (E : need_list max_resource_bindings read_amount
                (malformed_s "prepare record is truncated")
                (oversized_s "prepare record has too many amounts")
                (w_u32 (sizeN (pr_amounts r)) ++ (pr_amounts r ≫= w_amount)) =
              (Err (oversized_s "prepare record has too many amounts"), pr_amounts r ≫= w_amount)).
  { unfold need_list. eapply bind_complete; [apply _|apply Hlen|].
    unfold max_resource_bindings.
    destruct (N.ltb_spec 1024 (sizeN (pr_amounts r))); [done|]. lia. }
  unfold mbind in E. by rewrite E.
Qed.

Lemma oversized_prepare_unreadable_witness :
  let r := mkPrepareRecord 5 1 1 99 1 1 0 (replicate 1025 (3, 40)) in
  has_value (decode_prepare (encode_prepare r)) = false.
Proof.
  cbn zeta. rewrite (oversized_prepare_unreadable
    (mkPrepareRecord 5 1 1 99 1 1 0 (replicate 1025 (3, 40)))); [reflexivity|repeat constructor|].
  split; reflexivity.
Defined.
