(* ===== verification/Journal.v ===== *)
(** * The journal (src/include/naf/durable/journal.hpp, src/src/durable/journal.cpp,
    and the file primitives of src/src/core/file.cpp it calls)

    The file is the list of its bytes.  Every operating-system call takes its
    outcome from a script: success, or failure with an [errno] and, for a write,
    the number of bytes that still reached the file. *)

From S2P Require Import Prelude Checked Identity Hash Bytes.
Local Open Scope N_scope.
Local Open Scope naf_scope.

(** ** Frames *)

(** [JK_Unlisted] is a 16-bit value outside the enumerators: [decode_frame] casts
    without a range check. *)
Inductive JournalRecordKind :=
  | JK_Reserved | JK_BootEpoch | JK_PolicyConfig | JK_AdmissionPrepare | JK_AdmissionCommit
  | JK_AdmissionRefused | JK_LedgerRelease | JK_Revocation | JK_AuditMark | JK_CompactionMarker
  | JK_CoordinatorConfig | JK_Unlisted (value : N).

Definition kind_to_N (k : JournalRecordKind) : N :=
  match k with
  | JK_Reserved => 0 | JK_BootEpoch => 1 | JK_PolicyConfig => 2 | JK_AdmissionPrepare => 3
  | JK_AdmissionCommit => 4 | JK_AdmissionRefused => 5 | JK_LedgerRelease => 6
  | JK_Revocation => 7 | JK_AuditMark => 8 | JK_CompactionMarker => 9 | JK_CoordinatorConfig => 10
  | JK_Unlisted v => v
  end.

Definition kind_of_N (n : N) : JournalRecordKind :=
  default (JK_Unlisted n)
    ([JK_Reserved; JK_BootEpoch; JK_PolicyConfig; JK_AdmissionPrepare; JK_AdmissionCommit;
      JK_AdmissionRefused; JK_LedgerRelease; JK_Revocation; JK_AuditMark; JK_CompactionMarker;
      JK_CoordinatorConfig] !! N.to_nat n).

(** A kind the writers use. *)
Definition listed_kind (k : JournalRecordKind) : Prop := kind_of_N (kind_to_N k) = k /\ kind_to_N k < two16.

Definition journal_magic : N := 0x4A46414E.
Definition journal_format_revision : N := 1.
Definition journal_header_bytes : N := 24.
Definition journal_trailer_bytes : N := 4.
Definition journal_overhead_bytes : N := journal_header_bytes + journal_trailer_bytes.

Record JournalFrame := mkJournalFrame {
  jf_kind : JournalRecordKind;
  jf_sequence : N;
  jf_payload : list N;
}.

(** [subspan(offset, count)]. *)
Definition span (offset count : N) (bytes : list N) : list N :=
  take (N.to_nat count) (drop (N.to_nat offset) bytes).
Definition get_u16 (bytes : list N) (offset : N) : N := le_value (span offset 2 bytes).
Definition get_u32 (bytes : list N) (offset : N) : N := le_value (span offset 4 bytes).
Definition get_u64 (bytes : list N) (offset : N) : N := le_value (span offset 8 bytes).

Definition encode_frame (kind : JournalRecordKind) (sequence : N) (payload : list N) : list N :=
  let header := w_u32 journal_magic ++ w_u16 journal_format_revision ++ w_u16 (kind_to_N kind) ++
                w_u64 sequence ++ w_u32 (sizeN payload) in
  header ++ w_u32 (crc32c header) ++ payload ++ w_u32 (crc32c payload).

Definition decode_frame (buffer : list N) (max_payload : N) : option JournalFrame :=
  if sizeN buffer <? journal_overhead_bytes then None
  else if negb (get_u32 buffer 0 =? journal_magic) then None
  else if negb (get_u16 buffer 4 =? journal_format_revision) then None
  else
    let kind := get_u16 buffer 6 in
    let sequence := get_u64 buffer 8 in
    let payload_len := get_u32 buffer 16 in
    if max_payload <? payload_len then None
    else if negb (sizeN buffer =? journal_overhead_bytes + payload_len) then None
    else if negb (get_u32 buffer 20 =? crc32c (span 0 (journal_header_bytes - 4) buffer)) then None
    else
      let payload := span journal_header_bytes payload_len buffer in
      if negb (get_u32 buffer (journal_header_bytes + payload_len) =? crc32c payload) then None
      else Some (mkJournalFrame (kind_of_N kind) sequence payload).

(** ** The opening scan *)

Inductive ScanStop :=
  | ScanEnd                      (* every byte belongs to a good frame *)
  | ScanTorn (remaining : N)     (* an incomplete or damaged last frame *)
  | ScanCorrupt (status : Status).

Record ScanState := mkScanState {
  ss_frames : N;
  ss_last_sequence : N;
  ss_good_bytes : N;
  ss_stop : ScanStop;
}.

Definition corrupt_journal (m : string) : Status := status_error CorruptJournal m.

(** [bytes] is what is left from [offset] on.  Each turn consumes at least 28
    bytes, so the length of the file is enough fuel. *)
Fixpoint scan_loop (fuel : nat) (max_payload offset : N) (bytes : list N) (frames last : N)
    : ScanState :=
  let stop := mkScanState frames last offset in
  match fuel with
  | O => stop ScanEnd
  | S fuel' =>
      let remaining := sizeN bytes in
      if remaining =? 0 then stop ScanEnd
      else if remaining <? journal_header_bytes then stop (ScanTorn remaining)
      else if negb (get_u32 bytes 0 =? journal_magic) then
        stop (ScanCorrupt (corrupt_journal
          ("journal frame magic is invalid at offset " +:+ std_to_string offset)))
      else
      let version := get_u16 bytes 4 in
      if negb (version =? journal_format_revision) then
        stop (ScanCorrupt (corrupt_journal
          ("journal frame version " +:+ std_to_string version +:+ " is not supported")))
      else
      let payload_len := get_u32 bytes 16 in
      if max_payload <? payload_len then
        stop (ScanCorrupt (corrupt_journal "journal frame payload exceeds the bound"))
      else
      let frame_bytes := journal_overhead_bytes + payload_len in
      if remaining <? frame_bytes then stop (ScanTorn remaining)
      else
      let frame := span 0 frame_bytes bytes in
      if negb (get_u32 frame 20 =? crc32c (span 0 (journal_header_bytes - 4) frame)) then
        if remaining =? frame_bytes then stop (ScanTorn remaining)
        else stop (ScanCorrupt (corrupt_journal
               ("journal header checksum mismatch at offset " +:+ std_to_string offset)))
      else
      let payload := span journal_header_bytes payload_len frame in
      if negb (get_u32 frame (journal_header_bytes + payload_len) =? crc32c payload) then
        if remaining =? frame_bytes then stop (ScanTorn remaining)
        else stop (ScanCorrupt (corrupt_journal
               ("journal payload checksum mismatch at offset " +:+ std_to_string offset)))
      else
      scan_loop fuel' max_payload (offset + frame_bytes) (drop (N.to_nat frame_bytes) bytes)
        (frames + 1) (get_u64 bytes 8)
  end.

Definition scan_file (max_payload : N) (bytes : list N) : ScanState :=
  scan_loop (length bytes) max_payload 0 bytes 0 0.

(** ** Replay *)

Fixpoint replay_loop (fuel : nat) (max_payload max_frames max_bytes : N) (bytes : list N)
    (accumulated : N) (out : list JournalFrame) : Expected (list JournalFrame) :=
  match fuel with
  | O => Val out
  | S fuel' =>
      if sizeN bytes <? journal_header_bytes then Val out
      else
      let payload_len := get_u32 bytes 16 in
      if max_payload <? payload_len then
        Err (corrupt_journal "journal frame payload exceeds the bound")
      else
      let frame_bytes := journal_overhead_bytes + payload_len in
      if sizeN bytes <? frame_bytes then Val out
      else match decode_frame (span 0 frame_bytes bytes) max_payload with
      | None => Err (corrupt_journal "journal frame failed to decode during replay")
      | Some frame =>
          if max_frames <=? sizeN out then
            error OversizedInput "journal has more frames than the replay bound"
          else if max_bytes <? accumulated + frame_bytes then
            error OversizedInput "journal replay exceeds the byte bound"
          else
            replay_loop fuel' max_payload max_frames max_bytes (drop (N.to_nat frame_bytes) bytes)
              (accumulated + frame_bytes) (out ++ [frame])
      end
  end.

(** ** The file *)

Inductive IoOutcome :=
  | IoOk
  | IoFail (errno : N) (partial : N).

(** What meets a call: its outcome, or the end of the file system for this process.  The
    call during which it ends fails, a write having reached the file in part or in full,
    and so does every later one, without any effect: the file is as it is when a process
    dies during that call. *)
Inductive IoEvent :=
  | IoDo (outcome : IoOutcome)
  | IoGone (partial : N).
Coercion IoDo : IoOutcome >-> IoEvent.

Record JournalOptions := mkJournalOptions {
  jo_max_payload : N;
  jo_sync_on_append : bool;
  jo_compact_at_records : N;
  jo_max_file_bytes : N;
}.
Definition JournalOptions_new : JournalOptions :=
  mkJournalOptions max_journal_payload true journal_compact_at_records 4294967296.

Record JournalScanResult := mkJournalScanResult {
  sc_opened : bool;
  sc_created : bool;
  sc_frames : N;
  sc_bytes : N;
  sc_truncated_tail_bytes : N;
  sc_repaired_bytes : N;
  sc_corrupt : bool;
  sc_last_sequence : N;
}.
#[export] Instance eta_JournalScanResult : Eta JournalScanResult := fun s =>
  mkJournalScanResult (sc_opened s) (sc_created s) (sc_frames s) (sc_bytes s)
    (sc_truncated_tail_bytes s) (sc_repaired_bytes s) (sc_corrupt s) (sc_last_sequence s).

(** The object, the file behind it and the outcomes of the calls still to come. *)
Record Journal := mkJournal {
  jn_path : string;
  jn_options : JournalOptions;
  jn_scan : JournalScanResult;
  jn_file_open : bool;
  jn_next_sequence : N;
  jn_frame_count : N;
  jn_exists : bool;
  jn_data : list N;
  jn_script : list IoEvent;
}.
#[export] Instance eta_Journal : Eta Journal := fun j =>
  mkJournal (jn_path j) (jn_options j) (jn_scan j) (jn_file_open j) (jn_next_sequence j)
    (jn_frame_count j) (jn_exists j) (jn_data j) (jn_script j).

Definition Journal_new (path : string) (options : JournalOptions) : Journal :=
  mkJournal path options (mkJournalScanResult false false 0 0 0 0 false 0) false 1 0 false [] [].

(** The next outcome; an exhausted script means that nothing fails any more. *)
Definition next_io : M Journal IoOutcome := fun j =>
  match jn_script j with
  | [] => (Val IoOk, j)
  | IoDo o :: s => (Val o, j <| jn_script := s |>)
  | IoGone partial :: _ => (Val (IoFail 5 partial), j <| jn_script := [IoGone 0] |>)
  end.

Definition last_error_status (path what : string) (errno : N) : Status :=
  status_error DurableFailure (what +:+ " failed for " +:+ path +:+ ": errno=" +:+ std_to_string errno).

(** A call that either succeeds or fails.  Only the text of the message differs
    from the source for [create_directories]; the code is the same. *)
Definition call_at (path what : string) : M Journal unit :=
  o ← next_io;
  match o with
  | IoOk => mret tt
  | IoFail errno _ => lift (Err (last_error_status path what errno))
  end.
Definition call (what : string) : M Journal unit := path ← gets jn_path; call_at path what.

Definition require_open : M Journal unit :=
  is_open ← gets jn_file_open;
  lift (refuse_if (negb is_open) (error InvalidArgument "file is not open")).

Definition fh_write_all (data : list N) : M Journal unit :=
  require_open ;;
  if bool_decide (data = []) then mret tt
  else
    o ← next_io;
    match o with
    | IoOk => modify (fun j => j <| jn_data := jn_data j ++ data |>)
    | IoFail errno partial =>
        modify (fun j => j <| jn_data := jn_data j ++ take (N.to_nat partial) data |>) ;;
        path ← gets jn_path;
        lift (Err (last_error_status path "fwrite" errno))
    end.

Definition fh_flush : M Journal unit := require_open ;; call "fflush".
Definition fh_sync : M Journal unit := require_open ;; call "fflush" ;; call "fsync".
Definition fh_seek (offset : N) : M Journal unit := require_open ;; call "fseeko".
Definition fh_truncate (size : N) : M Journal unit :=
  require_open ;; call "fflush" ;; call "ftruncate" ;;
  modify (fun j => j <| jn_data := take (N.to_nat size) (jn_data j) |>) ;;
  fh_seek size.
Definition fh_close : M Journal unit :=
  is_open ← gets jn_file_open;
  if negb is_open then mret tt
  else modify (fun j => j <| jn_file_open := false |>) ;; call "fclose".

(** The bounded read of the whole file that [open] and [replay] share. *)
Definition read_file : M Journal (list N) :=
  data ← gets jn_data;
  options ← gets jn_options;
  lift (refuse_if (jo_max_file_bytes options <? sizeN data)
          (error OversizedInput "journal exceeds the configured size bound")) ;;
  fh_seek 0 ;; call "fread" ;; mret data.

(** ** Journal operations *)

Definition set_scan (f : JournalScanResult -> JournalScanResult) : M Journal unit :=
  modify (fun j => j <| jn_scan := f (jn_scan j) |>).

(** The end of [open]: the counters, and the repair of a torn tail. *)
Definition finish_open (e : ScanState) (size truncated : N) : M Journal unit :=
  set_scan (fun s => s <| sc_truncated_tail_bytes := truncated |> <| sc_bytes := size |>
                       <| sc_last_sequence := ss_last_sequence e |>) ;;
  modify (fun j => j <| jn_next_sequence := ss_last_sequence e +w 1 |>
                     <| jn_frame_count := ss_frames e |>) ;;
  if negb (truncated =? 0) then
    fh_truncate (ss_good_bytes e) ;; fh_sync ;;
    set_scan (fun s => s <| sc_repaired_bytes := truncated |> <| sc_bytes := ss_good_bytes e |>)
  else mret tt.

(** [path_.has_parent_path()] with a non-empty parent: the path holds a separator. *)
Definition has_parent_path (path : string) : bool :=
  existsb (fun c => (c =? "/")%char) (String.list_ascii_of_string path).

Definition journal_open : M Journal unit :=
  path ← gets jn_path;
  (if has_parent_path path then call "create_directories" else mret tt) ;;
  existed ← gets jn_exists;
  call "fopen" ;;
  modify (fun j => j <| jn_file_open := true |> <| jn_exists := true |>
                     <| jn_scan := mkJournalScanResult true (negb existed) 0 0 0 0 false 0 |>) ;;
  data ← read_file;
  options ← gets jn_options;
  let e := scan_file (jo_max_payload options) data in
  set_scan (fun s => s <| sc_frames := ss_frames e |>) ;;
  match ss_stop e with
  | ScanCorrupt status => set_scan (fun s => s <| sc_corrupt := true |>) ;; lift (Err status)
  | ScanTorn remaining => finish_open e (sizeN data) remaining
  | ScanEnd => finish_open e (sizeN data) 0
  end.

Definition require_journal_open : M Journal unit :=
  is_open ← gets jn_file_open;
  lift (refuse_if (negb is_open) (error InvalidArgument "journal is not open")).

Definition journal_append (kind : JournalRecordKind) (payload : list N) : M Journal unit :=
  require_journal_open ;;
  options ← gets jn_options;
  lift (refuse_if (jo_max_payload options <? sizeN payload)
          (error OversizedInput "journal payload exceeds the configured bound")) ;;
  sequence ← gets jn_next_sequence;
  fh_write_all (encode_frame kind sequence payload) ;;
  (if jo_sync_on_append options then fh_sync else mret tt) ;;
  modify (fun j => j <| jn_next_sequence := jn_next_sequence j +w 1 |>
                     <| jn_frame_count := jn_frame_count j +w 1 |>).

Definition journal_replay (max_frames max_bytes : N) : M Journal (list JournalFrame) :=
  require_journal_open ;;
  data ← read_file;
  options ← gets jn_options;
  lift (replay_loop (length data) (jo_max_payload options) max_frames max_bytes data 0 []).

(** The frames of a compacted file, renumbered from 1. *)
Fixpoint encode_frames (sequence : N) (live : list JournalFrame) : list N :=
  match live with
  | [] => []
  | frame :: live' =>
      encode_frame (jf_kind frame) sequence (jf_payload frame) ++ encode_frames (sequence + 1) live'
  end.

(** The temporary file is written frame by frame; the journal itself is untouched
    until the rename. *)
Fixpoint write_temp (temp : string) (live : list JournalFrame) : M Journal unit :=
  match live with
  | [] => mret tt
  | _ :: live' => call_at temp "fwrite" ;; write_temp temp live'
  end.

Fixpoint drop_while {A} (f : A -> bool) (l : list A) : list A :=
  match l with
  | [] => []
  | a :: l' => if f a then drop_while f l' else l
  end.

(** [path.parent_path()]: what precedes the last separators, or the root. *)
Definition parent_path (path : string) : string :=
  let separator (c : ascii) := (c =? "/")%char in
  match drop_while (fun c => negb (separator c)) (rev (String.list_ascii_of_string path)) with
  | [] => ""
  | above =>
      match drop_while separator above with
      | [] => "/"
      | parent => String.string_of_list_ascii (rev parent)
      end
  end.

Definition sync_parent_directory (path : string) : M Journal unit :=
  let parent := if bool_decide (parent_path path = "") then "." else parent_path path in
  call_at parent "open" ;; call_at parent "fsync".

Definition atomic_replace_file (destination : string) (contents : list N) : M Journal unit :=
  call_at destination "rename" ;;
  modify (fun j => j <| jn_data := contents |> <| jn_exists := true |>) ;;
  sync_parent_directory destination.

Definition journal_compact (live : list JournalFrame) : M Journal unit :=
  require_journal_open ;;
  path ← gets jn_path;
  let temp := path +:+ ".compact" in
  call_at temp "fopen" ;; write_temp temp live ;;
  call_at temp "fflush" ;; call_at temp "fsync" ;; call_at temp "fclose" ;;
  fh_close ;;
  atomic_replace_file path (encode_frames 1 live) ;;
  journal_open.

Definition journal_close : M Journal unit :=
  is_open ← gets jn_file_open;
  if negb is_open then mret tt
  else
    synced ← attempt fh_sync;
    closed ← attempt fh_close;
    lift (synced ;; closed).

(** ** The layout of a frame *)

Lemma span_app (pre mid post : list N) (o c : N) :
  o = sizeN pre -> c = sizeN mid -> span o c (pre ++ mid ++ post) = mid.
Proof.
  intros -> ->. unfold span, sizeN. rewrite !Nat2N.id, drop_app_length. apply take_app_length.
Qed.

Lemma span_prefix (mid post : list N) (c : N) : c = sizeN mid -> span 0 c (mid ++ post) = mid.
Proof. intros Hc. by apply (span_app []). Qed.

Section frame.
Context (kind : JournalRecordKind) (sequence : N) (payload : list N).

(** The first twenty bytes. *)
Definition frame_header : list N :=
  w_u32 journal_magic ++ w_u16 journal_format_revision ++ w_u16 (kind_to_N kind) ++
  w_u64 sequence ++ w_u32 (sizeN payload).

Lemma encode_frame_eq :
  encode_frame kind sequence payload =
  frame_header ++ w_u32 (crc32c frame_header) ++ payload ++ w_u32 (crc32c payload).
Proof. done. Qed.

Lemma encode_frame_size :
  sizeN (encode_frame kind sequence payload) = journal_overhead_bytes + sizeN payload.
Proof.
  rewrite encode_frame_eq. unfold sizeN, frame_header, w_u16, w_u32, w_u64.
  rewrite !length_app, !le_bytes_length.
  unfold journal_overhead_bytes, journal_header_bytes, journal_trailer_bytes. lia.
Qed.

Context (rest : list N).
Let bytes := encode_frame kind sequence payload ++ rest.

Hypothesis (Hseq : u64 sequence) (Hlen : sizeN payload < two32).

Lemma frame_magic : get_u32 bytes 0 = journal_magic.
Proof. exact (le_value_bytes 4 journal_magic eq_refl). Qed.

Lemma frame_version : get_u16 bytes 4 = journal_format_revision.
Proof. exact (le_value_bytes 2 journal_format_revision eq_refl). Qed.

Lemma frame_kind : kind_to_N kind < two16 -> get_u16 bytes 6 = kind_to_N kind.
Proof. exact (le_value_bytes 2 (kind_to_N kind)). Qed.

Lemma frame_sequence : get_u64 bytes 8 = sequence.
Proof. exact (le_value_bytes 8 sequence Hseq). Qed.

Lemma frame_payload_len : get_u32 bytes 16 = sizeN payload.
Proof. exact (le_value_bytes 4 (sizeN payload) Hlen). Qed.

Lemma frame_span : span 0 (journal_overhead_bytes + sizeN payload) bytes =
                   encode_frame kind sequence payload.
Proof. apply span_prefix. by rewrite encode_frame_size. Qed.

Lemma frame_header_crc :
  (get_u32 bytes 20 =? crc32c (span 0 (journal_header_bytes - 4) bytes)) = true.
Proof.
  apply N.eqb_eq. change (span 0 (journal_header_bytes - 4) bytes) with frame_header.
  exact (le_value_bytes 4 _ (crc32c_u32 frame_header)).
Qed.

Lemma frame_payload : span journal_header_bytes (sizeN payload) bytes = payload.
Proof.
  unfold bytes. rewrite encode_frame_eq, <- !app_assoc, app_assoc. by apply span_app.
Qed.

Lemma frame_payload_crc :
  (get_u32 bytes (journal_header_bytes + sizeN payload) =? crc32c payload) = true.
Proof.
  clear Hseq Hlen. apply N.eqb_eq. unfold get_u32, bytes. rewrite encode_frame_eq.
  replace ((frame_header ++ w_u32 (crc32c frame_header) ++ payload ++ w_u32 (crc32c payload)) ++ rest)
    with ((frame_header ++ w_u32 (crc32c frame_header) ++ payload) ++ w_u32 (crc32c payload) ++ rest)
    by (by rewrite <- !app_assoc).
  rewrite span_app; [exact (le_value_bytes 4 _ (crc32c_u32 payload))| |done].
  unfold sizeN, frame_header, w_u16, w_u32, w_u64. rewrite !length_app, !le_bytes_length.
  unfold journal_header_bytes. lia.
Qed.

Lemma frame_drop : drop (N.to_nat (journal_overhead_bytes + sizeN payload)) bytes = rest.
Proof.
  unfold bytes. rewrite <- encode_frame_size. unfold sizeN. by rewrite Nat2N.id, drop_app_length.
Qed.
End frame.

(** One turn of the scan over a good frame. *)
Lemma scan_good_frame (fuel : nat) (max_payload offset frames last : N) (kind : JournalRecordKind)
    (sequence : N) (payload rest : list N) :
  u64 sequence -> sizeN payload <= max_payload -> max_payload < two32 ->
  scan_loop (S fuel) max_payload offset (encode_frame kind sequence payload ++ rest) frames last =
  scan_loop fuel max_payload (offset + (journal_overhead_bytes + sizeN payload)) rest (frames + 1)
    sequence.
Proof.
  intros Hs Hp Hm. assert (Hl : sizeN payload < two32) by lia. cbn [scan_loop].
  pose proof (encode_frame_size kind sequence payload) as Hsize.
  assert (Htot : sizeN (encode_frame kind sequence payload ++ rest) =
                 journal_overhead_bytes + sizeN payload + sizeN rest)
    by (unfold sizeN in *; rewrite length_app; lia).
  rewrite Htot, frame_magic, frame_version, frame_payload_len by done.
  unfold journal_overhead_bytes, journal_header_bytes, journal_trailer_bytes in *.
  destruct (N.eqb_spec (24 + 4 + sizeN payload + sizeN rest) 0); [lia|].
  destruct (N.ltb_spec (24 + 4 + sizeN payload + sizeN rest) 24); [lia|]. cbn [negb N.eqb].
  destruct (N.ltb_spec max_payload (sizeN payload)); [lia|].
  destruct (N.ltb_spec (24 + 4 + sizeN payload + sizeN rest) (24 + 4 + sizeN payload)); [lia|].
  pose proof (frame_span kind sequence payload rest) as Hspan.
  pose proof (frame_header_crc kind sequence payload []) as Hh.
  pose proof (frame_payload kind sequence payload []) as Hpay.
  pose proof (frame_payload_crc kind sequence payload []) as Hc.
  pose proof (frame_drop kind sequence payload rest) as Hd.
  rewrite app_nil_r in Hh, Hpay, Hc.
  unfold journal_overhead_bytes, journal_header_bytes, journal_trailer_bytes in *.
  rewrite Hspan, Hh, Hpay, Hc, Hd, frame_sequence by done. done.
Qed.

(** ** Whole files *)

Definition frame_bytes (f : JournalFrame) : list N :=
  encode_frame (jf_kind f) (jf_sequence f) (jf_payload f).
(** The bytes of a journal that holds the frames [fs]. *)
Definition encode_all (fs : list JournalFrame) : list N := fs ≫= frame_bytes.

(** A frame the journal can write and read back under a payload bound. *)
Record frame_ok (max_payload : N) (f : JournalFrame) : Prop := {
  fok_kind : listed_kind (jf_kind f);
  fok_sequence : u64 (jf_sequence f);
  fok_payload : sizeN (jf_payload f) <= max_payload;
}.

Definition last_sequence (last : N) (fs : list JournalFrame) : N :=
  foldl (fun _ f => jf_sequence f) last fs.

Lemma frame_bytes_size (f : JournalFrame) :
  sizeN (frame_bytes f) = journal_overhead_bytes + sizeN (jf_payload f).
Proof. apply encode_frame_size. Qed.

Lemma sizeN_app {A} (l k : list A) : sizeN (l ++ k) = sizeN l + sizeN k.
Proof. unfold sizeN. rewrite length_app. lia. Qed.

Section whole.
Context (max_payload : N) (Hmax : max_payload < two32).

Lemma scan_good_frames (fs : list JournalFrame) (fuel : nat) (offset frames last : N)
    (rest : list N) :
  Forall (frame_ok max_payload) fs ->
  scan_loop (length fs + fuel) max_payload offset (encode_all fs ++ rest) frames last =
  scan_loop fuel max_payload (offset + sizeN (encode_all fs)) rest (frames + sizeN fs)
    (last_sequence last fs).
Proof.
  intros Hfs. revert offset frames last.
  induction Hfs as [|f fs [_ Hs Hp] Hfs IH]; intros offset frames last.
  - cbn. by rewrite !N.add_0_r.
  - change (encode_all (f :: fs)) with (frame_bytes f ++ encode_all fs).
    rewrite <- app_assoc. cbn [length Nat.add].
    unfold frame_bytes at 1. rewrite scan_good_frame by done. rewrite IH.
    rewrite sizeN_app, frame_bytes_size. unfold last_sequence. cbn [foldl].
    f_equal; [lia|]. unfold sizeN. cbn [length]. lia.
Qed.

Lemma span_take (o c : N) (k : nat) (l : list N) :
  o + c <= N.of_nat k -> span o c (take k l) = span o c l.
Proof.
  clear Hmax. intros H. unfold span. rewrite skipn_firstn_comm, take_take. f_equal. lia.
Qed.

(** A proper prefix of a good frame is recognised as a torn tail. *)
Lemma scan_torn_tail (f : JournalFrame) (k fuel : nat) (offset frames last : N) :
  frame_ok max_payload f -> (k < length (frame_bytes f))%nat -> (k <= fuel)%nat ->
  scan_loop fuel max_payload offset (take k (frame_bytes f)) frames last =
  mkScanState frames last offset (if (k =? 0)%nat then ScanEnd else ScanTorn (N.of_nat k)).
Proof.
  intros [_ Hs Hp] Hk Hfuel. destruct (Nat.eqb_spec k 0) as [->|Hk0]; [by destruct fuel|].
  destruct fuel as [|fuel]; [lia|]. cbn [scan_loop].
  assert (Hsz : sizeN (take k (frame_bytes f)) = N.of_nat k)
    by (unfold sizeN; rewrite length_take; lia).
  pose proof (frame_bytes_size f) as Hfb. unfold sizeN in Hfb at 1. rewrite Hsz.
  unfold journal_overhead_bytes, journal_header_bytes, journal_trailer_bytes in *.
  destruct (N.eqb_spec (N.of_nat k) 0); [lia|].
  destruct (N.ltb_spec (N.of_nat k) 24); [done|].
  unfold get_u32, get_u16. rewrite !span_take by lia.
  pose proof (frame_magic (jf_kind f) (jf_sequence f) (jf_payload f) []) as H1.
  pose proof (frame_version (jf_kind f) (jf_sequence f) (jf_payload f) []) as H2.
  pose proof (frame_payload_len (jf_kind f) (jf_sequence f) (jf_payload f) [] ltac:(lia)) as H3.
  rewrite app_nil_r in H1, H2, H3. unfold get_u32, get_u16 in H1, H2, H3. unfold frame_bytes.
  rewrite H1, H2, H3. cbn [negb N.eqb].
  change (journal_magic =? journal_magic) with true. cbn [negb].
  change (journal_format_revision =? journal_format_revision) with true. cbn [negb].
  destruct (N.ltb_spec max_payload (sizeN (jf_payload f))); [lia|].
  destruct (N.ltb_spec (N.of_nat k) (24 + 4 + sizeN (jf_payload f))); [done|]. lia.
Qed.

Lemma encode_all_length (fs : list JournalFrame) : (length fs <= length (encode_all fs))%nat.
Proof.
  clear Hmax. induction fs as [|f fs IH]; [done|].
  change (encode_all (f :: fs)) with (frame_bytes f ++ encode_all fs).
  rewrite length_app. pose proof (frame_bytes_size f) as H. unfold sizeN in H.
  unfold journal_overhead_bytes, journal_header_bytes, journal_trailer_bytes in H. cbn [length]. lia.
Qed.

(** The scan of an intact journal followed by a torn frame. *)
Lemma scan_file_torn (fs : list JournalFrame) (f : JournalFrame) (k : nat) :
  Forall (frame_ok max_payload) fs -> frame_ok max_payload f ->
  (k < length (frame_bytes f))%nat ->
  scan_file max_payload (encode_all fs ++ take k (frame_bytes f)) =
  mkScanState (sizeN fs) (last_sequence 0 fs) (sizeN (encode_all fs))
    (if (k =? 0)%nat then ScanEnd else ScanTorn (N.of_nat k)).
Proof.
  intros Hfs Hf Hk. unfold scan_file. rewrite length_app, length_take.
  pose proof (encode_all_length fs) as Hl.
  replace (length (encode_all fs) + k `min` length (frame_bytes f))%nat
    with (length fs + (length (encode_all fs) - length fs + k))%nat by lia.
  rewrite scan_good_frames by done. rewrite scan_torn_tail by (done || lia).
  by rewrite !N.add_0_l.
Qed.

Lemma scan_whole (fs : list JournalFrame) :
  Forall (frame_ok max_payload) fs ->
  scan_file max_payload (encode_all fs) = mkScanState (sizeN fs) (last_sequence 0 fs) (sizeN (encode_all fs)) ScanEnd.
Proof.
  intros Hfs. rewrite <- (app_nil_r (encode_all fs)) at 1.
  apply (scan_file_torn fs (mkJournalFrame JK_AuditMark 0 []) 0); [done| |apply Nat.ltb_lt; reflexivity].
  constructor; [by split|done|apply N.le_0_l].
Qed.

Lemma decode_good_frame (f : JournalFrame) :
  frame_ok max_payload f -> decode_frame (frame_bytes f) max_payload = Some f.
Proof.
  intros [[Hk Hk16] Hs Hp]. unfold decode_frame. rewrite frame_bytes_size.
  assert (Hl : sizeN (jf_payload f) < two32) by lia. unfold frame_bytes.
  pose proof (frame_magic (jf_kind f) (jf_sequence f) (jf_payload f) []) as H1.
  pose proof (frame_version (jf_kind f) (jf_sequence f) (jf_payload f) []) as H2.
  pose proof (frame_kind (jf_kind f) (jf_sequence f) (jf_payload f) [] Hk16) as H3.
  pose proof (frame_sequence (jf_kind f) (jf_sequence f) (jf_payload f) [] Hs) as H4.
  pose proof (frame_payload_len (jf_kind f) (jf_sequence f) (jf_payload f) [] Hl) as H5.
  pose proof (frame_header_crc (jf_kind f) (jf_sequence f) (jf_payload f) []) as H6.
  pose proof (frame_payload (jf_kind f) (jf_sequence f) (jf_payload f) []) as H7.
  pose proof (frame_payload_crc (jf_kind f) (jf_sequence f) (jf_payload f) []) as H8.
  rewrite app_nil_r in *. rewrite H1, H2, H3, H4, H5, H6, H7, H8, Hk.
  rewrite !N.eqb_refl. cbn [negb].
  destruct (N.ltb_spec (journal_overhead_bytes + sizeN (jf_payload f)) journal_overhead_bytes); [lia|].
  destruct (N.ltb_spec max_payload (sizeN (jf_payload f))); [lia|]. by destruct f.
Qed.

Lemma replay_good_frames (fs : list JournalFrame) (fuel : nat) (max_frames max_bytes acc : N)
    (out : list JournalFrame) :
  Forall (frame_ok max_payload) fs -> sizeN out + sizeN fs <= max_frames ->
  acc + sizeN (encode_all fs) <= max_bytes -> (length fs <= fuel)%nat ->
  replay_loop fuel max_payload max_frames max_bytes (encode_all fs) acc out = Val (out ++ fs).
Proof.
  intros Hfs. revert fuel acc out.
  induction Hfs as [|f fs Hf Hfs IH]; intros fuel acc out Hn Hb Hfuel.
  - rewrite app_nil_r. by destruct fuel.
  - destruct fuel as [|fuel]; [cbn in Hfuel; lia|].
    change (encode_all (f :: fs)) with (frame_bytes f ++ encode_all fs) in *.
    rewrite sizeN_app, frame_bytes_size in Hb. cbn [replay_loop].
    destruct Hf as [Hk Hs Hp]. assert (Hl : sizeN (jf_payload f) < two32) by lia.
    rewrite sizeN_app, frame_bytes_size. unfold frame_bytes.
    rewrite frame_payload_len, frame_span, frame_drop by done. fold (frame_bytes f).
    rewrite decode_good_frame by done.
    unfold journal_overhead_bytes, journal_header_bytes, journal_trailer_bytes in *.
    unfold sizeN in Hn. cbn [length] in Hn.
    destruct (N.ltb_spec (24 + 4 + sizeN (jf_payload f) + sizeN (encode_all fs)) 24); [lia|].
    destruct (N.ltb_spec max_payload (sizeN (jf_payload f))); [lia|].
    destruct (N.ltb_spec (24 + 4 + sizeN (jf_payload f) + sizeN (encode_all fs))
                         (24 + 4 + sizeN (jf_payload f))); [lia|].
    destruct (N.leb_spec max_frames (sizeN out)); [unfold sizeN in *; lia|].
    destruct (N.ltb_spec max_bytes (acc + (24 + 4 + sizeN (jf_payload f)))); [lia|].
    rewrite IH; [by rewrite <- app_assoc| |lia|cbn in Hfuel; lia].
    rewrite sizeN_app. unfold sizeN. cbn [length]. lia.
Qed.
End whole.

(** ** Running the operations when no call fails *)

Lemma wp_call_at (path what : string) Q (j : Journal) :
  jn_script j = [] -> Q (Val tt) j -> wp (call_at path what) Q j.
Proof.
  intros Hs HQ. unfold call_at. apply wp_bind. unfold wp, next_io. rewrite Hs. done.
Qed.

Lemma wp_call (what : string) Q (j : Journal) :
  jn_script j = [] -> Q (Val tt) j -> wp (call what) Q j.
Proof. intros Hs HQ. unfold call. by apply wp_bind, wp_gets, wp_call_at. Qed.

Lemma wp_require_open Q (j : Journal) :
  jn_file_open j = true -> Q (Val tt) j -> wp require_open Q j.
Proof. intros Ho HQ. unfold require_open. apply wp_bind, wp_gets, wp_lift. by rewrite Ho. Qed.

Lemma wp_require_journal_open Q (j : Journal) :
  jn_file_open j = true -> Q (Val tt) j -> wp require_journal_open Q j.
Proof. intros Ho HQ. unfold require_journal_open. apply wp_bind, wp_gets, wp_lift. by rewrite Ho. Qed.

(** Runs straight-line code over a journal whose script is empty. *)
Ltac io_run :=
  repeat lazymatch goal with
    | |- wp require_open _ _ => apply wp_require_open; [done|]
    | |- wp require_journal_open _ _ => apply wp_require_journal_open; [done|]
    | |- wp (call _) _ _ => apply wp_call; [done|]
    | _ => wp_step
    end.

(** Reduces the fields of an updated journal. *)
Ltac jsimpl :=
  cbn [set_field jn_path jn_options jn_scan jn_file_open jn_next_sequence jn_frame_count jn_exists
       jn_data jn_script sc_opened sc_created sc_frames sc_bytes sc_truncated_tail_bytes
       sc_repaired_bytes sc_corrupt sc_last_sequence].

Lemma wp_read_file Q (j : Journal) :
  jn_script j = [] -> jn_file_open j = true ->
  sizeN (jn_data j) <= jo_max_file_bytes (jn_options j) ->
  Q (Val (jn_data j)) j -> wp read_file Q j.
Proof.
  intros Hs Ho Hsz HQ. unfold read_file, fh_seek. io_run. apply wp_lift.
  apply N.ltb_ge in Hsz. rewrite Hsz. cbn. by io_run.
Qed.

Lemma wp_sync Q (j : Journal) :
  jn_script j = [] -> jn_file_open j = true -> Q (Val tt) j -> wp fh_sync Q j.
Proof. intros. unfold fh_sync. by io_run. Qed.

(** Opening a file that holds good frames and, after them, part of one frame. *)
Definition opened (fs : list JournalFrame) (k : N) (j j' : Journal) : Prop :=
  jn_data j' = encode_all fs /\ jn_file_open j' = true /\ jn_script j' = [] /\
  jn_options j' = jn_options j /\ jn_frame_count j' = sizeN fs /\
  jn_next_sequence j' = last_sequence 0 fs +w 1 /\ sc_truncated_tail_bytes (jn_scan j') = k.

Lemma open_outcome (j : Journal) (fs : list JournalFrame) (f : JournalFrame) (k : nat) :
  jn_script j = [] -> jo_max_payload (jn_options j) < two32 ->
  Forall (frame_ok (jo_max_payload (jn_options j))) fs ->
  frame_ok (jo_max_payload (jn_options j)) f -> (k < length (frame_bytes f))%nat ->
  jn_data j = encode_all fs ++ take k (frame_bytes f) ->
  sizeN (jn_data j) <= jo_max_file_bytes (jn_options j) ->
  wp journal_open (fun r j' => r = Val tt /\ opened fs (N.of_nat k) j j') j.
Proof.
  intros Hs Hm Hfs Hf Hk Hd Hsz. unfold journal_open. io_run.
  assert (Hcreate : forall Q, Q (Val tt) j ->
    wp (if has_parent_path (jn_path j) then call "create_directories" else mret tt) Q j)
    by (intros Q HQ; destruct (has_parent_path _); by io_run).
  apply Hcreate. io_run. apply wp_read_file; [done..|]. io_run. jsimpl.
  unfold set_scan, finish_open.
  rewrite Hd, (scan_file_torn _ Hm fs f k) by done. io_run. cbn [ss_stop].
  assert (Htot : sizeN (take k (frame_bytes f)) = N.of_nat k) by (unfold sizeN; rewrite length_take; lia).
  destruct (Nat.eqb_spec k 0) as [->|Hk0].
  - unfold set_scan. io_run. cbn. io_run. split; [done|]. unfold opened. cbn.
    rewrite Hd. cbn. rewrite app_nil_r. by split_and!.
  - unfold set_scan. io_run. destruct (N.eqb_spec (N.of_nat k) 0); [lia|]. cbn [negb].
    unfold fh_truncate, fh_seek. io_run. apply wp_sync; [done..|]. io_run.
    split; [done|]. unfold opened. cbn. rewrite Hd. split_and!; try done.
    unfold sizeN. by rewrite Nat2N.id, take_app_length.
Qed.

Lemma replay_outcome (j : Journal) (fs : list JournalFrame) (max_frames : N) :
  jn_script j = [] -> jn_file_open j = true -> jo_max_payload (jn_options j) < two32 ->
  Forall (frame_ok (jo_max_payload (jn_options j))) fs -> jn_data j = encode_all fs ->
  sizeN (jn_data j) <= jo_max_file_bytes (jn_options j) -> sizeN fs <= max_frames ->
  journal_replay max_frames (jo_max_file_bytes (jn_options j)) j = (Val fs, j).
Proof.
  intros Hs Ho Hm Hfs Hd Hsz Hn.
  assert (H : wp (journal_replay max_frames (jo_max_file_bytes (jn_options j)))
                (fun r j' => r = Val fs /\ j' = j) j).
  { unfold journal_replay. io_run. apply wp_read_file; [done..|]. io_run. apply wp_lift.
    rewrite Hd in *. split; [|done]. apply (replay_good_frames _ Hm fs); [done| |lia|].
    - unfold sizeN at 1. cbn. lia.
    - apply encode_all_length. }
  apply wp_runs in H as (r & j' & -> & -> & ->). done.
Qed.

Lemma encode_all_snoc (fs : list JournalFrame) (f : JournalFrame) :
  encode_all (fs ++ [f]) = encode_all fs ++ frame_bytes f.
Proof. unfold encode_all. rewrite bind_app. cbn. by rewrite app_nil_r. Qed.

(** An acknowledged append. *)
Lemma append_outcome (j : Journal) (kind : JournalRecordKind) (payload : list N) :
  jn_script j = [] -> jn_file_open j = true ->
  sizeN payload <= jo_max_payload (jn_options j) ->
  wp (journal_append kind payload) (fun r j' => r = Val tt /\
    jn_data j' = jn_data j ++ frame_bytes (mkJournalFrame kind (jn_next_sequence j) payload) /\
    jn_script j' = [] /\ jn_file_open j' = true /\ jn_options j' = jn_options j /\
    jn_next_sequence j' = jn_next_sequence j +w 1 /\
    jn_frame_count j' = jn_frame_count j +w 1) j.
Proof.
  intros Hs Ho Hp. unfold journal_append. io_run. apply wp_lift. apply N.ltb_ge in Hp. rewrite Hp. cbn.
  io_run. unfold fh_write_all. io_run.
  assert (Hne : encode_frame kind (jn_next_sequence j) payload <> []) by done.
  rewrite bool_decide_false by done. io_run. unfold wp at 1, next_io. rewrite Hs. cbn. io_run.
  destruct (jo_sync_on_append (jn_options j)).
  - apply wp_sync; [done..|]. by io_run.
  - by io_run.
Qed.

(** ** Damage *)

(** A frame whose stored payload is [body] and stored payload checksum is [c],
    under a header written for [payload]. *)
Definition raw_frame (f : JournalFrame) (body : list N) (c : N) : list N :=
  let header := frame_header (jf_kind f) (jf_sequence f) (jf_payload f) in
  header ++ w_u32 (crc32c header) ++ body ++ w_u32 c.

Lemma scan_bad_payload (f : JournalFrame) (body rest : list N) (c max_payload : N) (fuel : nat)
    (offset frames last : N) :
  sizeN body = sizeN (jf_payload f) -> sizeN (jf_payload f) <= max_payload ->
  max_payload < two32 -> c < two32 -> crc32c body <> c ->
  scan_loop (S fuel) max_payload offset (raw_frame f body c ++ rest) frames last =
  mkScanState frames last offset
    (if bool_decide (rest = [])
     then ScanTorn (journal_overhead_bytes + sizeN body)
     else ScanCorrupt (corrupt_journal
            ("journal payload checksum mismatch at offset " +:+ std_to_string offset))).
Proof.
  intros Hb Hp Hm Hc Hne. cbn [scan_loop].
  set (header := frame_header (jf_kind f) (jf_sequence f) (jf_payload f)).
  assert (Hh : length header = 20%nat) by done.
  assert (Hraw : sizeN (raw_frame f body c) = journal_overhead_bytes + sizeN body).
  { unfold sizeN, raw_frame, w_u32. fold header. cbn zeta. rewrite !length_app, !le_bytes_length, Hh.
    unfold journal_overhead_bytes, journal_header_bytes, journal_trailer_bytes. lia. }
  set (bytes := raw_frame f body c ++ rest).
  assert (Hsz : sizeN bytes = journal_overhead_bytes + sizeN body + sizeN rest)
    by (unfold bytes; by rewrite sizeN_app, Hraw).
  assert (Hl : sizeN (jf_payload f) < two32) by lia.
  assert (E1 : get_u32 bytes 0 = journal_magic) by exact (le_value_bytes 4 journal_magic eq_refl).
  assert (E2 : get_u16 bytes 4 = 1) by exact (le_value_bytes 2 1 eq_refl).
  assert (E3 : get_u32 bytes 16 = sizeN body) by (rewrite Hb; exact (le_value_bytes 4 _ Hl)).
  assert (E4 : span 0 (journal_overhead_bytes + sizeN body) bytes = raw_frame f body c)
    by (by apply span_prefix).
  assert (E5 : get_u32 (raw_frame f body c) 20 = crc32c header)
    by exact (le_value_bytes 4 _ (crc32c_u32 header)).
  assert (E6 : span 0 (journal_header_bytes - 4) (raw_frame f body c) = header) by done.
  assert (E7 : span journal_header_bytes (sizeN body) (raw_frame f body c) = body).
  { unfold raw_frame. rewrite app_assoc. by apply span_app. }
  assert (E8 : get_u32 (raw_frame f body c) (journal_header_bytes + sizeN body) = c).
  { unfold get_u32, raw_frame. rewrite app_assoc, app_assoc, <- (app_nil_r (w_u32 c)).
    rewrite span_app; [by apply (le_value_bytes 4)| |done].
    unfold sizeN, w_u32. rewrite !length_app, le_bytes_length. fold header. rewrite Hh.
    unfold journal_header_bytes. lia. }
  rewrite Hsz, E1, E2, E3, E4, E5, E6, E7, E8, !N.eqb_refl. rewrite <- Hb in Hp.
  unfold journal_format_revision. cbn [negb N.eqb Pos.eqb].
  apply N.ltb_ge in Hp as ->. assert ((c =? crc32c body) = false) as -> by (by apply N.eqb_neq).
  cbn [negb]. unfold journal_overhead_bytes, journal_header_bytes, journal_trailer_bytes in *.
  destruct (N.eqb_spec (24 + 4 + sizeN body + sizeN rest) 0); [lia|].
  destruct (N.ltb_spec (24 + 4 + sizeN body + sizeN rest) 24); [lia|].
  destruct (N.ltb_spec (24 + 4 + sizeN body + sizeN rest) (24 + 4 + sizeN body)); [lia|].
  destruct (N.eqb_spec (24 + 4 + sizeN body + sizeN rest) (24 + 4 + sizeN body)) as [E|E];
    destruct rest as [|b rest]; cbn [bool_decide] in *.
  - rewrite bool_decide_true by done. by rewrite E.
  - unfold sizeN in E. cbn [length] in E. lia.
  - unfold sizeN in E. cbn [length] in E. lia.
  - by rewrite bool_decide_false by done.
Qed.

(** ** Properties *)

(** The frames that appending [l] from sequence [n] on produces. *)
Fixpoint numbered (n : N) (l : list (JournalRecordKind * list N)) : list JournalFrame :=
  match l with
  | [] => []
  | (kind, payload) :: l' => mkJournalFrame kind n payload :: numbered (n + 1) l'
  end.

Definition append_all (l : list (JournalRecordKind * list N)) : M Journal unit :=
  foldr (fun r k => journal_append r.1 r.2 ;; k) (mret tt) l.

Lemma append_all_outcome (l : list (JournalRecordKind * list N)) (j : Journal)
    (fs : list JournalFrame) :
  jn_script j = [] -> jn_file_open j = true -> jn_data j = encode_all fs ->
  Forall (fun r => sizeN r.2 <= jo_max_payload (jn_options j)) l ->
  jn_next_sequence j + sizeN l < two64 ->
  wp (append_all l) (fun r j' => r = Val tt /\
    jn_data j' = encode_all (fs ++ numbered (jn_next_sequence j) l) /\ jn_script j' = [] /\
    jn_options j' = jn_options j) j.
Proof.
  intros Hs Ho Hd Hl Hn. revert j fs Hs Ho Hd Hl Hn.
  induction l as [|[kind payload] l IH]; intros j fs Hs Ho Hd Hl Hn.
  - apply wp_ret. cbn. by rewrite app_nil_r.
  - apply Forall_cons in Hl as [Hp Hl]. cbn [append_all foldr fst snd]. apply wp_bind.
    eapply wp_mono; [by apply append_outcome|].
    intros r j1 (-> & Hd1 & Hs1 & Ho1 & Hopt & Hn1 & _).
    unfold sizeN in Hn. cbn [length] in Hn.
    rewrite w_add_exact in Hn1 by lia. eapply wp_mono.
    + apply (IH j1 (fs ++ [mkJournalFrame kind (jn_next_sequence j) payload])); try done.
      * by rewrite encode_all_snoc, Hd1, Hd.
      * by rewrite Hopt.
      * rewrite Hn1. unfold sizeN. lia.
    + intros r j2 (-> & Hd2 & Hs2 & Hopt2). split_and!; [done| |done|congruence].
      by rewrite Hd2, Hn1, <- app_assoc.
Qed.


Definition sample_open_journal : Journal :=
  (journal_open (Journal_new "naf/journal" JournalOptions_new)).2.


(** C34: damaged history is refused, not reinterpreted.  If one payload byte of a
    frame that is not the last one is changed, opening the journal fails with
    [CorruptJournal], leaves the file as it is and marks the scan corrupt; the
    same damage in the last frame is cut off as an interrupted append. *)
Theorem interior_damage_refused (j : Journal) (pre : list JournalFrame) (f : JournalFrame)
    (p1 p2 rest : list N) (b1 b2 : N)
    (Hs : jn_script j = []) (Hm : jo_max_payload (jn_options j) < two32)
    (Hpre : Forall (frame_ok (jo_max_payload (jn_options j))) pre)
    (Hf : frame_ok (jo_max_payload (jn_options j)) f)
    (Hp : jf_payload f = p1 ++ b1 :: p2) (Hb1 : is_byte b1) (Hb2 : is_byte b2) (Hne : b2 <> b1)
    (Hd : jn_data j = encode_all pre ++ raw_frame f (p1 ++ b2 :: p2) (crc32c (jf_payload f)) ++ rest)
    (Hsz : sizeN (jn_data j) <= jo_max_file_bytes (jn_options j)) :
  let '(r, j') := journal_open j in
  if bool_decide (rest = [])
  then r = Val tt /\ jn_data j' = encode_all pre
  else (exists m, r = Err (corrupt_journal m)) /\ jn_data j' = jn_data j /\
       sc_corrupt (jn_scan j') = true.
Proof.
  assert (Hbody : sizeN (p1 ++ b2 :: p2) = sizeN (jf_payload f))
    by (rewrite Hp; unfold sizeN; by rewrite !length_app).
  assert (Hcrc : crc32c (p1 ++ b2 :: p2) <> crc32c (jf_payload f))
    by (rewrite Hp; by apply crc32c_byte_change).
  assert (Hscan : scan_file (jo_max_payload (jn_options j)) (jn_data j) =
    mkScanState (sizeN pre) (last_sequence 0 pre) (sizeN (encode_all pre))
    (if bool_decide (rest = [])
     then ScanTorn (journal_overhead_bytes + sizeN (p1 ++ b2 :: p2))
     else ScanCorrupt (corrupt_journal ("journal payload checksum mismatch at offset " +:+
            std_to_string (sizeN (encode_all pre)))))).
  { unfold scan_file. rewrite Hd, length_app.
    pose proof (encode_all_length pre) as Hl.
    set (raw := raw_frame f (p1 ++ b2 :: p2) (crc32c (jf_payload f))).
    assert (Hr : (0 < length (raw ++ rest))%nat) by (cbn; lia).
    replace (length (encode_all pre) + length (raw ++ rest))%nat
      with (length pre + S (length (encode_all pre) - length pre + (length (raw ++ rest) - 1)))%nat
      by lia.
    rewrite scan_good_frames by done. unfold raw. rewrite scan_bad_payload; try done.
    - apply Hf.
    - apply crc32c_u32. }
  enough (H : wp journal_open (fun r j' =>
      if bool_decide (rest = [])
      then r = Val tt /\ jn_data j' = encode_all pre
      else (exists m, r = Err (corrupt_journal m)) /\ jn_data j' = jn_data j /\
           sc_corrupt (jn_scan j') = true) j)
    by (apply wp_runs in H as (r & j' & -> & H); exact H).
  unfold journal_open. io_run.
  assert (Hcreate : forall Q, Q (Val tt) j ->
    wp (if has_parent_path (jn_path j) then call "create_directories" else mret tt) Q j)
    by (intros Q HQ; destruct (has_parent_path _); by io_run).
  apply Hcreate. io_run. apply wp_read_file; [done..|]. io_run. jsimpl. unfold set_scan, finish_open.
  rewrite Hscan. io_run. cbn [ss_stop]. destruct (bool_decide (rest = [])).
  - unfold set_scan. io_run.
    assert ((journal_overhead_bytes + sizeN (p1 ++ b2 :: p2) =? 0) = false) as ->
      by (apply N.eqb_neq; unfold journal_overhead_bytes, journal_header_bytes; lia).
    cbn [negb]. unfold fh_truncate, fh_seek. io_run. apply wp_sync; [done..|]. io_run.
    split; [done|]. jsimpl. rewrite Hd. unfold sizeN. cbn [ss_good_bytes].
    by rewrite Nat2N.id, take_app_length.
  - io_run. apply wp_lift. split_and!; [by eexists|done|done].
Qed.

Lemma interior_damage_refused_witness :
  let f := mkJournalFrame JK_BootEpoch 1 [7; 7] in
  let j := sample_open_journal <| jn_data :=
             raw_frame f [7; 6] (crc32c [7; 7]) ++ frame_bytes (mkJournalFrame JK_AuditMark 2 [9]) |> in
  has_value (journal_open j).1 = false.
Proof.
  cbn zeta. set (j := set_field _ _).
  pose proof (interior_damage_refused j [] (mkJournalFrame JK_BootEpoch 1 [7; 7]) [7] []
    (frame_bytes (mkJournalFrame JK_AuditMark 2 [9])) 7 6) as H.
  destruct (journal_open j) as [r j'].
  destruct H as [[m ->] _];
    [reflexivity|reflexivity|constructor|repeat constructor; discriminate|reflexivity|reflexivity
    |reflexivity|discriminate|reflexivity|discriminate|reflexivity].
Defined.

(** ** Compaction *)

(** No call fails, unless the file system is gone from there on. *)
Inductive steady : list IoEvent -> Prop :=
  | steady_end : steady []
  | steady_ok s : steady s -> steady (IoDo IoOk :: s)
  | steady_gone partial s : steady (IoGone partial :: s).

(** A call of the operating system: it only uses up an outcome, and fails only if the
    script says so. *)
Definition quiet_io {A} (m : M Journal A) : Prop :=
  forall j, exists r s, m j = (r, j <| jn_script := s |>) /\ (jn_script j = [] -> has_value r = true /\ s = []) /\
    (steady (jn_script j) -> if has_value r then steady s else s = [IoGone 0]).

Lemma quiet_call_at (path what : string) : quiet_io (call_at path what).
Proof.
  intros j. unfold call_at, mbind, M_bind, next_io. destruct j as [p o c f n m x d [|[[|errno partial]|partial] s]].
  - exists (Val tt), []. split_and!; [done|done|by constructor].
  - exists (Val tt), s. split_and!; [done|done|by inversion 1].
  - eexists _, s. split_and!; [done|done|by inversion 1].
  - eexists _, [IoGone 0]. by split_and!.
Qed.
Lemma quiet_call (what : string) : quiet_io (call what).
Proof. intros j. exact (quiet_call_at (jn_path j) what j). Qed.

Lemma quiet_ret {A} (a : A) : quiet_io (mret a).
Proof. intros j. exists (Val a), (jn_script j). split_and!; [by destruct j|done|done]. Qed.

Lemma quiet_bind {A B} (m : M Journal A) (f : A -> M Journal B) :
  quiet_io m -> (forall a, quiet_io (f a)) -> quiet_io (mbind f m).
Proof.
  intros Hm Hf j. destruct (Hm j) as (r & s & E & H & Hsd). unfold mbind, M_bind. rewrite E.
  destruct r as [a|e].
  - destruct (Hf a (j <| jn_script := s |>)) as (r' & s' & E' & H' & Hsd'). rewrite E'.
    exists r', s'. split_and!; [done|intros Hs; apply H'; by apply H in Hs as [_ ->]|intros Hs; exact (Hsd' (Hsd Hs))].
  - exists (Err e), s. split_and!; [done|intros Hs; by apply H in Hs as [? _]|done].
Qed.

Lemma quiet_write_temp (temp : string) (live : list JournalFrame) : quiet_io (write_temp temp live).
Proof.
  induction live as [|f live IH]; [apply quiet_ret|]. cbn [write_temp].
  apply quiet_bind; [apply quiet_call_at|done].
Qed.

(** What is to be shown of a call, and of a sequence that starts with one. *)
Lemma wp_quiet {A} (m : M Journal A) (j : Journal) Q :
  quiet_io m ->
  (forall e s, jn_script j <> [] -> (steady (jn_script j) -> s = [IoGone 0]) -> Q (Err e) (j <| jn_script := s |>)) ->
  (forall a s, (jn_script j = [] -> s = []) /\ (steady (jn_script j) -> steady s) -> Q (Val a) (j <| jn_script := s |>)) ->
  wp m Q j.
Proof.
  intros Hm He Hv. destruct (Hm j) as (r & s & E & H & Hsd). unfold wp. rewrite E.
  destruct r as [a|e]; [apply Hv; split; [intros Hs; by apply H in Hs as [_ ?]|done]|].
  apply He; [|done]. intros Hs. by apply H in Hs as [? _].
Qed.

Lemma wp_quiet_bind {A B} (m : M Journal A) (f : A -> M Journal B) (j : Journal) Q :
  quiet_io m ->
  (forall e s, jn_script j <> [] -> (steady (jn_script j) -> s = [IoGone 0]) -> Q (Err e) (j <| jn_script := s |>)) ->
  (forall a s, (jn_script j = [] -> s = []) /\ (steady (jn_script j) -> steady s) -> wp (f a) Q (j <| jn_script := s |>)) ->
  wp (mbind f m) Q j.
Proof. intros Hm He Hv. by apply wp_bind, wp_quiet. Qed.

Lemma numbered_last (l : list (JournalRecordKind * list N)) (n last : N) :
  last_sequence last (numbered n l) = if bool_decide (l = []) then last else n + sizeN l - 1.
Proof.
  revert n last. induction l as [|[kind payload] l IH]; intros n last; [done|]. cbn [numbered].
  unfold last_sequence in *. cbn [foldl]. rewrite IH. unfold sizeN. cbn [length].
  rewrite (bool_decide_false (_ :: _ = [])) by done. case_bool_decide; subst; cbn; lia.
Qed.

Lemma numbered_length (l : list (JournalRecordKind * list N)) (n : N) : sizeN (numbered n l) = sizeN l.
Proof. revert n. induction l as [|[kind payload] l IH]; intros n; [done|]. unfold sizeN in *. cbn. specialize (IH (n + 1)). lia. Qed.

Definition body (f : JournalFrame) : JournalRecordKind * list N := (jf_kind f, jf_payload f).

Lemma encode_frames_numbered (live : list JournalFrame) (n : N) :
  encode_frames n live = encode_all (numbered n (body <$> live)).
Proof.
  revert n. induction live as [|f live IH]; intros n; [done|]. cbn [encode_frames]. by rewrite IH.
Qed.

(** Opening a file of whole frames, whatever the outcomes of the calls: the file is as
    it was, and only a failed call makes opening fail. *)
Lemma open_whole (j : Journal) (fs : list JournalFrame) :
  jo_max_payload (jn_options j) < two32 -> Forall (frame_ok (jo_max_payload (jn_options j))) fs ->
  jn_data j = encode_all fs -> sizeN (jn_data j) <= jo_max_file_bytes (jn_options j) ->
  wp journal_open (fun r j' => jn_data j' = encode_all fs /\ jn_options j' = jn_options j /\
    (jn_script j = [] -> r = Val tt /\ jn_script j' = []) /\
    (steady (jn_script j) -> if has_value r then steady (jn_script j') else jn_script j' = [IoGone 0]) /\
    (r = Val tt -> jn_file_open j' = true /\ jn_frame_count j' = sizeN fs /\
       jn_next_sequence j' = last_sequence 0 fs +w 1)) j.
Proof.
  intros Hm Hfs Hd Hsz. unfold journal_open. apply wp_bind, wp_gets.
  apply wp_quiet_bind; [destruct (has_parent_path _); [apply quiet_call|apply quiet_ret]|jsimpl; naive_solver|].
  intros _ s1 H1. apply wp_bind, wp_gets. apply wp_quiet_bind; [apply quiet_call|jsimpl; naive_solver|].
  intros _ s2 H2. unfold read_file. io_run. apply wp_lift. jsimpl.
  apply N.ltb_ge in Hsz. rewrite Hsz. cbn [refuse_if]. apply wp_bind.
  unfold fh_seek. apply wp_bind, wp_require_open; [done|].
  apply wp_quiet; [apply quiet_call|jsimpl; naive_solver|]. intros _ s3 H3.
  apply wp_quiet_bind; [apply quiet_call|jsimpl; naive_solver|]. intros _ s4 H4.
  unfold set_scan. io_run. jsimpl. rewrite Hd, (scan_whole _ Hm fs Hfs). cbn [ss_stop].
  unfold finish_open, set_scan. cbn [ss_last_sequence ss_frames]. io_run. cbn. io_run. cbn in *.
  split_and!; [done|done|naive_solver|naive_solver|done].
Qed.

Lemma numbered_ok (max_payload : N) (l : list (JournalRecordKind * list N)) (n : N) :
  Forall (fun r => listed_kind r.1 /\ sizeN r.2 <= max_payload) l -> n + sizeN l <= two64 ->
  Forall (frame_ok max_payload) (numbered n l).
Proof.
  intros Hl. revert n. induction Hl as [|[kind payload] l [Hk Hp] _ IH]; intros n Hn; [constructor|].
  unfold sizeN in Hn. cbn in Hn. constructor; [|apply IH; unfold sizeN; lia].
  constructor; [done| |done]. unfold u64. cbn. lia.
Qed.

Lemma quiet_sync (j : Journal) Q :
  jn_file_open j = true ->
  (forall r s, (steady (jn_script j) -> if has_value r then steady s else s = [IoGone 0]) -> Q r (j <| jn_script := s |>)) ->
  wp fh_sync Q j.
Proof.
  intros Ho HQ. unfold fh_sync. apply wp_bind, wp_require_open; [done|].
  destruct (quiet_bind (call "fflush") (fun _ => call "fsync") (quiet_call _) (fun _ => quiet_call _) j) as (r & s & E & _ & Hs).
  unfold wp. rewrite E. by apply HQ.
Qed.

(** An append while the file system stays or goes: either it is acknowledged, or nothing
    reaches the file any more, and part of the frame or all of it is there. *)
Lemma append_steady (j : Journal) (kind : JournalRecordKind) (payload : list N) :
  steady (jn_script j) -> jn_file_open j = true -> sizeN payload <= jo_max_payload (jn_options j) ->
  let frame := frame_bytes (mkJournalFrame kind (jn_next_sequence j) payload) in
  wp (journal_append kind payload) (fun r j' => jn_options j' = jn_options j /\
    if has_value r then
      jn_data j' = jn_data j ++ frame /\ steady (jn_script j') /\ jn_file_open j' = true /\
      jn_next_sequence j' = jn_next_sequence j +w 1 /\ jn_frame_count j' = jn_frame_count j +w 1
    else jn_script j' = [IoGone 0] /\ exists n, jn_data j' = jn_data j ++ take n frame) j.
Proof.
  intros Hs Ho Hp frame. unfold journal_append. apply wp_bind, wp_require_journal_open; [done|]. io_run.
  apply wp_lift. apply N.ltb_ge in Hp. rewrite Hp. cbn [refuse_if]. io_run.
  unfold fh_write_all. apply wp_bind, wp_require_open; [done|].
  assert (Hne : encode_frame kind (jn_next_sequence j) payload <> []) by done.
  rewrite bool_decide_false by done. change (encode_frame kind (jn_next_sequence j) payload) with frame in *.
  apply wp_bind. unfold wp at 1, next_io.
  assert (Hsync : forall s, steady s -> wp ((if jo_sync_on_append (jn_options j) then fh_sync else mret tt) ;;
      modify (fun j => j <| jn_next_sequence := jn_next_sequence j +w 1 |> <| jn_frame_count := jn_frame_count j +w 1 |>))
    (fun r j' => jn_options j' = jn_options j /\
      if has_value r then
        jn_data j' = jn_data j ++ frame /\ steady (jn_script j') /\ jn_file_open j' = true /\
        jn_next_sequence j' = jn_next_sequence j +w 1 /\ jn_frame_count j' = jn_frame_count j +w 1
      else jn_script j' = [IoGone 0] /\ exists n, jn_data j' = jn_data j ++ take n frame)
    (j <| jn_script := s |> <| jn_data := jn_data j ++ frame |>)).
  { intros s Hst. apply wp_bind. destruct (jo_sync_on_append (jn_options j)); [|by apply wp_ret, wp_modify].
    apply quiet_sync; [done|]. intros [[]|e] s' Hs'; specialize (Hs' Hst); [by apply wp_modify|].
    split; [done|]. cbn in Hs' |- *. split; [done|]. exists (length frame). by rewrite take_ge. }
  destruct (jn_script j) as [|[[|errno partial]|partial] s] eqn:Es; cbn [fst snd]; [| |by inversion Hs|].
  - apply wp_modify. specialize (Hsync [] steady_end).
    replace (j <| jn_script := [] |>) with j in Hsync by (destruct j; cbn in *; by subst). exact Hsync.
  - apply wp_modify. apply Hsync. by inversion Hs.
  - io_run. apply wp_lift. split; [done|]. cbn. split; [done|]. by eexists.
Qed.

(** Reading back a file of whole frames. *)
Lemma replay_whole (j : Journal) (fs : list JournalFrame) (max_frames : N) :
  jn_file_open j = true -> jo_max_payload (jn_options j) < two32 ->
  Forall (frame_ok (jo_max_payload (jn_options j))) fs -> jn_data j = encode_all fs ->
  sizeN (jn_data j) <= jo_max_file_bytes (jn_options j) -> sizeN fs <= max_frames ->
  wp (journal_replay max_frames (jo_max_file_bytes (jn_options j))) (fun r j' =>
    exists s, j' = j <| jn_script := s |> /\ (has_value r = true -> r = Val fs) /\
    (steady (jn_script j) -> if has_value r then steady s else s = [IoGone 0])) j.
Proof.
  intros Ho Hm Hfs Hd Hsz Hn. unfold journal_replay, read_file, fh_seek.
  apply wp_bind, wp_require_journal_open; [done|]. io_run. apply wp_lift.
  apply N.ltb_ge in Hsz as Hlt. rewrite Hlt. cbn [refuse_if]. apply wp_bind, wp_bind, wp_require_open; [done|].
  apply wp_quiet; [apply quiet_call|intros e s _ He; by exists s|]. intros _ s1 [_ H1].
  apply wp_quiet_bind; [apply quiet_call|intros e s _ He; exists s; cbn in He |- *; split_and!; [by destruct j|done|auto]|].
  intros _ s2 [_ H2]. io_run. apply wp_lift. exists s2. cbn in H2 |- *. rewrite Hd in *.
  rewrite (replay_good_frames _ Hm fs) by (done || lia || apply encode_all_length || (unfold sizeN; cbn; lia)).
  split_and!; [by destruct j|done|intros Hs; exact (H2 (H1 Hs))].
Qed.

(** What compaction can leave behind. *)
Lemma compact_outcome (j : Journal) (live : list JournalFrame) :
  let frames := numbered 1 (body <$> live) in
  jn_file_open j = true -> jo_max_payload (jn_options j) < two32 ->
  Forall (frame_ok (jo_max_payload (jn_options j))) frames ->
  sizeN (encode_all frames) <= jo_max_file_bytes (jn_options j) ->
  wp (journal_compact live) (fun r j' => jn_options j' = jn_options j /\
    (jn_data j' = jn_data j \/ jn_data j' = encode_all frames) /\
    (jn_script j = [] -> r = Val tt /\ jn_script j' = []) /\
    (steady (jn_script j) -> if has_value r then steady (jn_script j') else jn_script j' = [IoGone 0]) /\
    (r = Val tt -> jn_data j' = encode_all frames /\ jn_file_open j' = true /\
       jn_frame_count j' = sizeN frames /\ jn_next_sequence j' = last_sequence 0 frames +w 1)) j.
Proof.
  intros frames Ho Hm Hok Hsz. unfold journal_compact. rewrite encode_frames_numbered. fold frames.
  apply wp_bind, wp_require_journal_open; [done|]. apply wp_bind, wp_gets.
  apply wp_quiet_bind; [apply quiet_call_at|jsimpl; naive_solver|]. intros _ s1 H1.
  apply wp_quiet_bind; [apply quiet_write_temp|jsimpl; naive_solver|]. intros _ s2 H2.
  do 3 (apply wp_quiet_bind; [apply quiet_call_at|jsimpl; naive_solver|]; intros _ ? ?).
  unfold fh_close. apply wp_bind, wp_bind, wp_gets. jsimpl. rewrite Ho. cbn [negb]. apply wp_bind, wp_modify.
  apply wp_quiet; [apply quiet_call|jsimpl; naive_solver|]. intros _ s6 H6.
  unfold atomic_replace_file. apply wp_bind. apply wp_quiet_bind; [apply quiet_call_at|jsimpl; naive_solver|].
  intros _ s7 H7. apply wp_bind, wp_modify. unfold sync_parent_directory.
  apply wp_quiet_bind; [apply quiet_call_at|jsimpl; naive_solver|]. intros _ s8 H8.
  apply wp_quiet; [apply quiet_call_at|jsimpl; naive_solver|]. intros _ s9 H9.
  eapply wp_mono; [apply (open_whole _ frames); by jsimpl|]. cbn in *.
  intros r j' (Hd & Hopt & Hs & Hv). naive_solver.
Qed.



(** A compaction whose rename fails leaves the file as it was, but the journal closed:
    [compact] has closed its handle by then and nothing opens it again, so that every
    later append fails. *)
Theorem failed_compaction_closes_journal :
  let j0 := sample_open_journal <| jn_script := IoDo <$> [IoOk; IoOk; IoOk; IoOk; IoOk; IoFail 5 0] |> in
  let '(compacted, j1) := journal_compact [] j0 in
  let '(appended, _) := journal_append JK_AuditMark [1] j1 in
  compacted = Err (last_error_status (jn_path j0) "rename" 5) /\ jn_data j1 = jn_data j0 /\
  jn_script j1 = [] /\ appended = error InvalidArgument "journal is not open".
Proof. vm_compute. by split_and!. Qed.

(** A failed append is not undone.  When a write fails after some bytes have
    reached the file, the journal keeps the partial frame; a later append that
    succeeds lands behind it, and the next opening refuses the whole file as
    corrupt although the second record was acknowledged. *)
Theorem failed_append_poisons_journal :
  let j0 := sample_open_journal <| jn_script := [IoDo (IoFail 28 10)] |> in
  let '(first, j1) := journal_append JK_AuditMark [1] j0 in
  let '(second, j2) := journal_append JK_AuditMark [2] j1 in
  let '(reopened, _) := journal_open (j2 <| jn_file_open := false |>) in
  has_value first = false /\ second = Val tt /\
  reopened = Err (corrupt_journal "journal frame payload exceeds the bound").
Proof. cbn zeta. split_and!; reflexivity. Qed.
