(* ===== verification/File.v ===== *)
(** * Whole files (src/include/naf/core/file.hpp, src/src/core/file.cpp)

    The handle over C stdio and the two operations on whole files, over a file system
    that is a map from paths to contents.  As in [Journal], every call takes its outcome
    from a script. *)

From S2P Require Import Prelude.
From S2P Require Import Checked.
From S2P Require Import Identity.
From S2P Require Import Hash.
From S2P Require Import Bytes.
From S2P Require Import Journal.
Local Open Scope N_scope.
Local Open Scope naf_scope.

Record Disk := mkDisk { dk_files : gmap string (list N); dk_script : list IoOutcome }.
#[export] Instance eta_Disk : Eta Disk := fun d => mkDisk (dk_files d) (dk_script d).

(** A handle: the mode it was opened in and where it stands. *)
Record FileHandle := mkFileHandle {
  fh_path : string;
  fh_mode : string;
  fh_position : N;
  fh_opened : bool;
}.
#[export] Instance eta_FileHandle : Eta FileHandle := fun h =>
  mkFileHandle (fh_path h) (fh_mode h) (fh_position h) (fh_opened h).

(** A call that succeeds or fails with an [errno]. *)
Definition disk_call (path what : string) : M Disk unit := fun d =>
  match dk_script d with
  | [] => (Val tt, d)
  | IoOk :: s => (Val tt, d <| dk_script := s |>)
  | IoFail errno _ :: s => (Err (last_error_status path what errno), d <| dk_script := s |>)
  end.

(** ** The handle *)

Definition open_mode (read write append create : bool) : string :=
  let mode :=
    if append && write then (if read then "a+b" else "ab")
    else if read && write then (if create then "w+b" else "r+b")
    else if write then "wb"
    else "rb" in
  if append && create && negb read then "ab" else mode.

(** What [fopen] does to the file: modes with a [w] empty it, the modes of appending
    create it, the others need it. *)
Definition fopen_effect (mode path : string) (files : gmap string (list N)) : option (gmap string (list N)) :=
  match String.get 0 mode with
  | Some "w"%char => Some (<[path := []]> files)
  | Some "a"%char => Some (<[path := default [] (files !! path)]> files)
  | _ => match files !! path with Some _ => Some files | None => None end
  end.
Definition enoent : N := 2.

Definition FileHandle_open (path : string) (read write append create : bool) : M Disk FileHandle :=
  let mode := open_mode read write append create in
  disk_call path "fopen" ;;
  d ← get;
  match fopen_effect mode path (dk_files d) with
  | None => lift (Err (last_error_status path "fopen" enoent))
  | Some files => modify (fun d => d <| dk_files := files |>) ;; mret (mkFileHandle path mode 0 true)
  end.

Definition contents (path : string) (d : Disk) : list N := default [] (dk_files d !! path).

Definition require_handle (h : FileHandle) : M Disk unit :=
  lift (refuse_if (negb (fh_opened h)) (error InvalidArgument "file is not open")).

(** A size that cannot be determined is zero. *)
Definition file_size (h : FileHandle) : M Disk N :=
  if negb (fh_opened h) then mret 0
  else
    sought ← attempt (disk_call (fh_path h) "fseeko");
    match sought with
    | Err _ => mret 0
    | Val _ => gets (fun d => sizeN (contents (fh_path h) d))
    end.

(** Modes of appending write at the end, the others where the handle stands. *)
Definition appends (h : FileHandle) : bool :=
  match String.get 0 (fh_mode h) with Some "a"%char => true | _ => false end.
Definition written_at (h : FileHandle) (old data : list N) : list N :=
  if appends h then old ++ data
  else take (N.to_nat (fh_position h)) old ++ data ++ drop (N.to_nat (fh_position h) + length data) old.

(** A failed write may have written a part. *)
Definition file_write (h : FileHandle) (data : list N) : M Disk FileHandle :=
  require_handle h ;;
  if exhausted data then mret h
  else fun d =>
    let put (l : list N) := <[fh_path h := written_at h (contents (fh_path h) d) l]> (dk_files d) in
    match dk_script d with
    | IoFail errno partial :: s =>
        (Err (last_error_status (fh_path h) "fwrite" errno),
         d <| dk_files := put (take (N.to_nat partial) data) |> <| dk_script := s |>)
    | script =>
        (Val (h <| fh_position := fh_position h + sizeN data |>),
         d <| dk_files := put data |> <| dk_script := tail script |>)
    end.

Definition file_read (h : FileHandle) (n : N) : M Disk (list N * FileHandle) :=
  require_handle h ;;
  if n =? 0 then mret ([], h)
  else
    disk_call (fh_path h) "fread" ;;
    d ← get;
    let got := take (N.to_nat n) (drop (N.to_nat (fh_position h)) (contents (fh_path h) d)) in
    mret (got, h <| fh_position := fh_position h + sizeN got |>).

Definition file_sync (h : FileHandle) : M Disk unit :=
  require_handle h ;; disk_call (fh_path h) "fflush" ;; disk_call (fh_path h) "fsync".

Definition file_close_handle (h : FileHandle) : M Disk unit :=
  if negb (fh_opened h) then mret tt else disk_call (fh_path h) "fclose".

(** ** Whole files *)

(** The message for a directory that cannot be created is the platform's; its code is
    [DurableFailure].  [exists_] tells whether the path is a directory all the same. *)
Definition ensure_directory (path : string) (exists_ : bool) : M Disk unit :=
  created ← attempt (disk_call path "create_directories");
  match created with
  | Err status => if exists_ then mret tt else lift (Err status)
  | Val _ => mret tt
  end.

Fixpoint read_loop (fuel : nat) (size : N) (out : list N) (h : FileHandle) : M Disk (list N) :=
  if size <=? sizeN out then mret out
  else
    match fuel with
    | O => mret out
    | S fuel' =>
        r ← file_read h (size - sizeN out);
        if exhausted r.1 then mret out else read_loop fuel' size (out ++ r.1) r.2
    end.

Definition read_file_bounded (path : string) (max_bytes : N) : M Disk (list N) :=
  h ← FileHandle_open path true false false false;
  total ← file_size h;
  if max_bytes <? total then fail OversizedInput ("file " +:+ path +:+ " is larger than the bound")
  else if total =? 0 then mret []
  else read_loop (N.to_nat total) total [] h.

Definition disk_sync_parent (path : string) : M Disk unit :=
  let parent := if bool_decide (parent_path path = "") then "." else parent_path path in
  disk_call parent "open" ;; disk_call parent "fsync".

Definition rename (source destination : string) (files : gmap string (list N)) : gmap string (list N) :=
  match files !! source with
  | Some l => <[destination := l]> (delete source files)
  | None => files
  end.

Definition disk_atomic_replace (source destination : string) : M Disk unit :=
  disk_call destination "rename" ;;
  modify (fun d => d <| dk_files := rename source destination (dk_files d) |>) ;;
  disk_sync_parent destination.

Definition temp_path (path : string) : string := path +:+ ".tmp".

Definition write_file_atomic (path : string) (text : list N) : M Disk unit :=
  let temp := temp_path path in
  h ← FileHandle_open temp false true false true;
  h ← file_write h text;
  file_sync h ;;
  file_close_handle h ;;
  disk_atomic_replace temp path.

(** ** Properties *)

Lemma wp_disk_call (path what : string) (d : Disk) Q :
  (forall e s, dk_script d <> [] -> Q (Err e) (d <| dk_script := s |>)) ->
  (forall s, (dk_script d = [] -> s = []) -> Q (Val tt) (d <| dk_script := s |>)) ->
  wp (disk_call path what) Q d.
Proof.
  intros He Hv. unfold wp, disk_call. destruct d as [files [|[|errno partial] s]]; cbn.
  - by apply (Hv []).
  - by apply (Hv s).
  - by apply (He _ s).
Qed.

Lemma temp_path_other (path : string) : temp_path path <> path.
Proof.
  unfold temp_path. intros E. induction path as [|c path IH]; [discriminate E|]. injection E as E. by apply IH.
Qed.

(** Writing into a file just emptied. *)
Lemma file_write_fresh (path : string) (text : list N) (d : Disk) (files : gmap string (list N)) :
  dk_files d = <[path := []]> files ->
  wp (file_write (mkFileHandle path "wb" 0 true) text) (fun r d' =>
    match r with
    | Val h => fh_path h = path /\ fh_opened h = true /\ dk_files d' = <[path := text]> files /\
        (dk_script d = [] -> dk_script d' = [])
    | Err _ => (exists l, dk_files d' = <[path := l]> files) /\ dk_script d <> []
    end) d.
Proof.
  intros Hd. unfold file_write, require_handle. apply wp_bind, wp_lift. cbn [fh_opened negb refuse_if].
  destruct text as [|b text]; cbn [exhausted]; [by apply wp_ret|]. unfold wp.
  assert (Hput : forall l, <[path := written_at (mkFileHandle path "wb" 0 true) (contents path d) l]> (dk_files d) =
                           <[path := l]> files).
  { intros l. unfold contents. rewrite Hd, insert_insert_eq, lookup_insert_eq. unfold written_at. cbn.
    by rewrite drop_nil, app_nil_r. }
  destruct (dk_script d) as [|[|errno partial] s]; cbn [fst snd].
  - split_and!; [done|done|apply Hput|done].
  - split_and!; [done|done|apply Hput|done].
  - split; [|done]. eexists. apply Hput.
Qed.

(** Replacing a file is atomic: whatever calls fail, the path holds what it held or the
    new text; nothing else changes but the temporary file, which is left behind by a
    failure and gone on success. *)
Lemma write_file_outcome (path : string) (text : list N) (d : Disk) :
  wp (write_file_atomic path text) (fun r d' =>
    (dk_files d' !! path = dk_files d !! path \/ dk_files d' !! path = Some text) /\
    (forall q, q <> path -> q <> temp_path path -> dk_files d' !! q = dk_files d !! q) /\
    (r = Val tt -> dk_files d' !! path = Some text /\ dk_files d' !! temp_path path = None) /\
    (dk_script d = [] -> r = Val tt)) d.
Proof.
  pose proof (temp_path_other path) as Hne. set (temp := temp_path path) in *.
  set (Q := fun (r : Expected unit) d' => _).
  assert (Hearly : forall e d' l, dk_files d' = <[temp := l]> (dk_files d) -> dk_script d <> [] -> Q (Err e) d').
  { intros e d' l E Hs. unfold Q. rewrite E. rewrite lookup_insert_ne by done. split_and!; [by left| |done|done].
    intros q _ Hq. by rewrite lookup_insert_ne. }
  unfold write_file_atomic. fold temp. unfold FileHandle_open. apply wp_bind, wp_bind.
  change (open_mode false true false true) with "wb".
  apply wp_disk_call; [intros e s Hs; unfold Q; split_and!; by auto|]. intros s1 H1.
  unfold fopen_effect. cbn [String.get]. wp_run.
  eapply wp_mono; [by apply (file_write_fresh temp text _ (dk_files d))|].
  intros [h|e] d1; cbn [dk_script set_field].
  2: { intros [[l E] Hs]. apply (Hearly e d1 l E). intros Hn. apply Hs. cbn. auto. }
  intros (Hp & Ho & E1 & Hs1).
  assert (Hs : dk_script d = [] -> dk_script d1 = []) by (intros Hn; apply Hs1; cbn; auto).
  clear Hs1 H1 s1.
  unfold file_sync, require_handle. apply wp_bind, wp_bind, wp_lift. rewrite Ho. cbn [negb refuse_if].
  apply wp_bind, wp_disk_call; [intros e s Hn; by eapply (Hearly e _ text); [|auto]|]. intros s2 H2.
  apply wp_disk_call; [intros e s Hn; eapply (Hearly e _ text); [done|cbn in Hn; intros Hd; destruct Hn; auto 20]|]. intros s3 H3. cbn in H3.
  unfold file_close_handle. rewrite Ho. cbn [negb]. apply wp_bind, wp_disk_call; [intros e s Hn; eapply (Hearly e _ text); [done|cbn in Hn; intros Hd; destruct Hn; auto 20]|]. intros s4 H4. cbn in H4.
  unfold disk_atomic_replace. apply wp_bind, wp_disk_call; [intros e s Hn; eapply (Hearly e _ text); [done|cbn in Hn; intros Hd; destruct Hn; auto 20]|].
  intros s5 H5. cbn in H5. apply wp_bind, wp_modify. cbn [dk_files set_field].
  assert (Hlate : forall r d', dk_files d' = <[path := text]> (delete temp (<[temp := text]> (dk_files d))) ->
    (dk_script d = [] -> r = Val tt) -> Q r d').
  { intros r d' E Hr. unfold Q. rewrite E. rewrite lookup_insert_eq, lookup_insert_ne, lookup_delete_eq by done.
    split_and!; [by right| |done|done]. intros q Hq Ht. rewrite lookup_insert_ne by done.
    rewrite lookup_delete_ne by done. by rewrite lookup_insert_ne. }
  assert (Eren : rename temp path (dk_files d1) = <[path := text]> (delete temp (<[temp := text]> (dk_files d)))).
  { unfold rename. rewrite E1, lookup_insert_eq. done. }
  unfold disk_sync_parent. apply wp_bind, wp_disk_call; [intros e s Hn; apply Hlate; [exact Eren|cbn in Hn; intros Hd; destruct Hn; auto 20]|].
  intros s6 H6. cbn in H6. apply wp_disk_call; [intros e s Hn; apply Hlate; [exact Eren|cbn in Hn; intros Hd; destruct Hn; auto 20]|].
  intros s7 H7. by apply Hlate.
Qed.

(** Reading a whole file when no call fails. *)
Section read.
Context (path : string) (text : list N) (d : Disk).
Hypothesis (Hf : dk_files d !! path = Some text) (Hs : dk_script d = []).

Lemma disk_call_run (what : string) : disk_call path what d = (Val tt, d).
Proof. unfold disk_call. by rewrite Hs. Qed.

Lemma open_run : FileHandle_open path true false false false d = (Val (mkFileHandle path "rb" 0 true), d).
Proof.
  unfold FileHandle_open. rewrite (bind_run _ _ _ _ _ (disk_call_run "fopen")). unfold mbind, M_bind, get.
  change (open_mode true false false false) with "rb". unfold fopen_effect. cbn [String.get]. rewrite Hf. by destruct d.
Qed.

Lemma size_run (h : FileHandle) : fh_path h = path -> fh_opened h = true -> file_size h d = (Val (sizeN text), d).
Proof.
  intros Hp Ho. unfold file_size, attempt, mbind, M_bind. rewrite Ho, Hp. cbn [negb]. rewrite disk_call_run.
  unfold gets, contents. by rewrite Hf.
Qed.

Lemma read_run (h : FileHandle) : fh_path h = path -> fh_opened h = true -> fh_position h = 0 -> text <> [] ->
  file_read h (sizeN text) d = (Val (text, h <| fh_position := sizeN text |>), d).
Proof.
  intros Hp Ho Hq Hne. unfold file_read, require_handle, lift. rewrite Ho. cbn [negb refuse_if].
  unfold mbind, M_bind at 1. rewrite (proj2 (N.eqb_neq _ _)) by (by destruct text).
  rewrite Hp. unfold M_bind. rewrite disk_call_run. unfold get, mret, M_ret, contents. rewrite Hf, Hq. cbn [default].
  change (drop (N.to_nat 0) text) with text. rewrite (take_ge text) by (unfold sizeN; lia). done.
Qed.

Lemma read_whole (max : N) : sizeN text <= max -> read_file_bounded path max d = (Val text, d).
Proof.
  intros Hmax. unfold read_file_bounded. rewrite (bind_run _ _ _ _ _ open_run).
  rewrite (bind_run _ _ _ _ _ (size_run (mkFileHandle path "rb" 0 true) eq_refl eq_refl)).
  rewrite (proj2 (N.ltb_ge _ _)) by done. destruct (decide (text = [])) as [->|Hne]; [done|].
  assert (Hpos : 0 < sizeN text) by (destruct text; [done|]; unfold sizeN; cbn; lia).
  replace (sizeN text =? 0) with false by (symmetry; apply N.eqb_neq; lia).
  destruct (N.to_nat (sizeN text)) as [|n] eqn:En; [lia|]. cbn [read_loop]. change (sizeN (@nil N)) with 0.
  replace (sizeN text <=? 0) with false by (symmetry; by apply N.leb_gt). rewrite N.sub_0_r.
  rewrite (bind_run _ _ _ _ _ (read_run (mkFileHandle path "rb" 0 true) eq_refl eq_refl eq_refl Hne)). cbn [fst snd app].
  replace (exhausted text) with false by (by destruct text).
  destruct n; cbn [read_loop]; by rewrite N.leb_refl.
Qed.
End read.

(** Replacing a file is atomic: whatever calls fail, the path holds what it held or the
    new text, and nothing else changes but the temporary file.  On success the path
    holds the text and the temporary is gone; without a failing call it succeeds, and
    a bounded read gives the text back. *)
Theorem write_file_atomic_exact (path : string) (text : list N) (d : Disk) :
  let '(r, d') := write_file_atomic path text d in
  (dk_files d' !! path = dk_files d !! path \/ dk_files d' !! path = Some text) /\
  (forall q, q <> path -> q <> temp_path path -> dk_files d' !! q = dk_files d !! q) /\
  (r = Val tt -> dk_files d' !! path = Some text /\ dk_files d' !! temp_path path = None) /\
  (dk_script d = [] -> r = Val tt) /\
  (r = Val tt -> dk_script d' = [] -> forall max, sizeN text <= max ->
     read_file_bounded path max d' = (Val text, d')).
Proof.
  pose proof (write_file_outcome path text d) as H. unfold wp in H.
  destruct (write_file_atomic path text d) as [r d']. cbn [fst snd] in H. destruct H as (H1 & H2 & H3 & H4).
  split_and!; [done..|]. intros Hr Hs max Hmax. by apply read_whole; [apply H3|..].
Qed.

(** A failed replacement leaves the temporary file behind. *)
Theorem failed_write_leaves_temporary :
  let '(r, d) := write_file_atomic "config" [1; 2] (mkDisk ∅ [IoOk; IoFail 28 1]) in
  has_value r = false /\ dk_files d !! "config" = None /\ dk_files d !! "config.tmp" = Some [1].
Proof. vm_compute. by split_and!. Qed.
