(* ===== verification/Engine.v ===== *)
(** * The engine core (src/src/engine/engine_core.hpp, src/include/naf/engine/engine.hpp,
    the lookups, decision plumbing and durable writers of src/src/engine/engine.cpp)

    The state behind the single mutex and the steps that admission, publication,
    enforcement and recovery share.  A public call holds the mutex for its whole
    run, so an execution is a sequence of these operations. *)

From S2P Require Import Prelude Checked Identity Hash State Policy Request Authority.
From S2P Require Import Decision Ledger History Bytes Records Journal.
Local Open Scope N_scope.
Local Open Scope naf_scope.

(** ** State *)

Record EngineConfig := mkEngineConfig {
  ec_epoch : FabricEpoch;
  ec_incarnation : CoordinatorIncarnation;
  ec_initial_tick : N;
  ec_history_capacity : N;
  ec_attempt_capacity : N;
  ec_ledger_capacity : N;
  ec_session_capacity : N;
  ec_accept_in_process_claims : bool;
}.

Definition EngineConfig_new : EngineConfig :=
  mkEngineConfig first_epoch 0 0 max_decision_records max_attempt_records max_ledger_entries
    max_session_records true.

Record ClaimContext := mkClaimContext {
  cc_origin : OriginKind;
  cc_publisher : PublisherId;
  cc_boot : BootId;
  cc_session : SessionNonce;
  cc_incarnation : CoordinatorIncarnation;
  cc_epoch : FabricEpoch;
  cc_attempt : AttemptId;
  cc_trace : TraceId;
  cc_sequence : N;
}.
#[export] Instance eta_ClaimContext : Eta ClaimContext := fun c =>
  mkClaimContext (cc_origin c) (cc_publisher c) (cc_boot c) (cc_session c) (cc_incarnation c)
    (cc_epoch c) (cc_attempt c) (cc_trace c) (cc_sequence c).

Definition in_process : ClaimContext := mkClaimContext InProcess 0 0 0 0 0 0 0 0.

Record SessionGrant := mkSessionGrant {
  sg_session : SessionNonce;
  sg_incarnation : CoordinatorIncarnation;
  sg_epoch : FabricEpoch;
  sg_publisher : PublisherId;
  sg_boot : BootId;
}.

Record SessionRecord := mkSessionRecord {
  sr_nonce : SessionNonce;
  sr_publisher : PublisherId;
  sr_boot : BootId;
}.

Inductive EngineReadiness :=
  | AwaitingPolicy | AwaitingCapacity | AwaitingReservations | AwaitingCatalogs | AwaitingPaths
  | WaitingForReconciliation | Ready.
#[export] Instance EngineReadiness_eq_dec : EqDecision EngineReadiness.
Proof. solve_decision. Defined.

Record Counters := mkCounters {
  ct_decisions : N;
  ct_admissions : N;
  ct_refusals : N;
  ct_deferrals : N;
  ct_idempotent_replays : N;
  ct_conflicts : N;
  ct_fences : N;
  ct_stale_refusals : N;
}.
#[export] Instance eta_Counters : Eta Counters := fun c =>
  mkCounters (ct_decisions c) (ct_admissions c) (ct_refusals c) (ct_deferrals c)
    (ct_idempotent_replays c) (ct_conflicts c) (ct_fences c) (ct_stale_refusals c).

Record ResourceView := mkResourceView {
  vw_resource : ResourceId;
  vw_generation : Generation;
  vw_usable : Rate;
  vw_headroom : Rate;
  vw_obligations : Rate;
  vw_admitted : Rate;
  vw_available_after_obligations : Rate;
  vw_available_for_new : Rate;
}.

Inductive EnforcementTrigger :=
  | TriggerNone | CapacityPublication | ReservationPublication | PolicyPublication
  | RestartRecovery.

Record ReconciliationReport := mkReconciliationReport {
  rp_performed : bool;
  rp_trigger : EnforcementTrigger;
  rp_revoked : N;
  rp_retained : N;
  rp_released : Rate;
  rp_infeasible_resources : N;
  rp_revoked_decisions : list AdmissionDecisionId;
  rp_constraints : list BindingConstraint;
}.
#[export] Instance eta_ReconciliationReport : Eta ReconciliationReport := fun r =>
  mkReconciliationReport (rp_performed r) (rp_trigger r) (rp_revoked r) (rp_retained r)
    (rp_released r) (rp_infeasible_resources r) (rp_revoked_decisions r) (rp_constraints r).
Definition ReconciliationReport_new : ReconciliationReport :=
  mkReconciliationReport false TriggerNone 0 0 0 0 [] [].

Record FaultInjection := mkFaultInjection {
  ft_fail_next_journal_append : bool;
  ft_fail_next_commit : bool;
  ft_drop_prepare_record : bool;
  ft_drop_commit_record : bool;
  ft_corrupt_next_commit : bool;
  ft_fail_reconciliation : bool;
}.
#[export] Instance eta_FaultInjection : Eta FaultInjection := fun f =>
  mkFaultInjection (ft_fail_next_journal_append f) (ft_fail_next_commit f)
    (ft_drop_prepare_record f) (ft_drop_commit_record f) (ft_corrupt_next_commit f)
    (ft_fail_reconciliation f).
Definition FaultInjection_new : FaultInjection := mkFaultInjection false false false false false false.

Record EngineCore := mkEngineCore {
  ek_config : EngineConfig;
  ek_epoch : FabricEpoch;
  ek_incarnation : CoordinatorIncarnation;
  ek_tick : N;
  ek_policy : option AdmissionPolicy;
  ek_capacity : option CapacitySnapshot;
  ek_reservations : option ReservationSnapshot;
  ek_paths : option PathCatalog;
  ek_qos : option QoSClassCatalog;
  ek_priorities : option PriorityClassCatalog;
  ek_ledger : AdmittedLoadLedger;
  ek_history : DecisionHistory;
  ek_attempts : AttemptRegistry;
  ek_decision_cache : gmap N AdmissionDecision;
  ek_sessions : gmap N SessionRecord;
  ek_next_session_nonce : N;
  ek_next_decision_sequence : N;
  ek_audit : AuditSequence;
  ek_counters : Counters;
  ek_obligation_totals : gmap N Rate;
  ek_obligation_indices : gmap N (list nat);
  ek_journal : option Journal;
  ek_journal_ready : bool;
  ek_pending_reconciliation : bool;
  ek_faults : FaultInjection;
  ek_reconciliation : ReconciliationReport;
}.
#[export] Instance eta_EngineCore : Eta EngineCore := fun k =>
  mkEngineCore (ek_config k) (ek_epoch k) (ek_incarnation k) (ek_tick k) (ek_policy k)
    (ek_capacity k) (ek_reservations k) (ek_paths k) (ek_qos k) (ek_priorities k) (ek_ledger k)
    (ek_history k) (ek_attempts k) (ek_decision_cache k) (ek_sessions k) (ek_next_session_nonce k)
    (ek_next_decision_sequence k) (ek_audit k) (ek_counters k) (ek_obligation_totals k)
    (ek_obligation_indices k) (ek_journal k) (ek_journal_ready k) (ek_pending_reconciliation k)
    (ek_faults k) (ek_reconciliation k).

(** [AdmissionEngine::AdmissionEngine(config)]. *)
Definition AdmissionEngine_new (config : EngineConfig) : EngineCore :=
  mkEngineCore config (ec_epoch config) (ec_incarnation config) (ec_initial_tick config)
    None None None None None None Ledger_new (DecisionHistory_new (ec_history_capacity config))
    (AttemptRegistry_new (ec_attempt_capacity config)) ∅ ∅ 1 1 0 (mkCounters 0 0 0 0 0 0 0 0)
    ∅ ∅ None false false FaultInjection_new ReconciliationReport_new.

(** Computations of one member object run inside the core. *)
Definition on_ledger {A} (m : M AdmittedLoadLedger A) : M EngineCore A := fun k =>
  let '(r, l) := m (ek_ledger k) in (r, k <| ek_ledger := l |>).

(** ** Lookups *)

(** [std::lower_bound] by the projected key, then the equality test. *)
Definition find_by {T} (project : T -> N) (key : N) (items : list T) : option T :=
  '(_, it) ← list_find (fun item => ~ project item < key) items;
  if project it =? key then Some it else None.

Definition find_capacity (k : EngineCore) (resource : ResourceId) : option ResourceCapacity :=
  capacity ← ek_capacity k; find_by rc_resource resource (cs_resources capacity).
Definition find_path (k : EngineCore) (path : PathId) : option PathAdmissionFact :=
  paths ← ek_paths k; find_by pf_path path (pc_paths paths).
Definition find_qos (k : EngineCore) (id : QoSClassId) : option QoSClassFact :=
  qos ← ek_qos k; find_by qf_qos id (qc_classes qos).
Definition find_priority (k : EngineCore) (id : PriorityClassId) : option PriorityClassFact :=
  priorities ← ek_priorities k; find_by prf_priority id (prc_classes priorities).

(** One turn of the index loop. *)
Definition index_obligation (acc : gmap N Rate * gmap N (list nat))
    (io : nat * ProtectedObligation) : gmap N Rate * gmap N (list nat) :=
  let '(totals, indices) := acc in
  let '(i, obligation) := io in
  let r := po_resource obligation in
  (<[r := sat_add (total_of totals r) (po_reserved obligation)]> totals,
   <[r := default [] (indices !! r) ++ [i]]> indices).

Definition rebuild_obligation_index (k : EngineCore) : EngineCore :=
  let acc := match ek_reservations k with
             | None => (∅, ∅)
             | Some reservations => foldl index_obligation (∅, ∅) (imap pair (rs_obligations reservations))
             end in
  k <| ek_obligation_totals := acc.1 |> <| ek_obligation_indices := acc.2 |>.

Definition obligations_for (k : EngineCore) (resource : ResourceId) : Rate :=
  total_of (ek_obligation_totals k) resource.

Definition obligations_at (reservations : ReservationSnapshot) (bucket : list nat)
    : list ProtectedObligation :=
  bucket ≫= fun i => match rs_obligations reservations !! i with Some o => [o] | None => [] end.

Definition obligation_releases_within (k : EngineCore) (resource : ResourceId) (horizon : N) : bool :=
  match ek_reservations k, ek_obligation_indices k !! resource with
  | Some reservations, Some bucket =>
      existsb (fun o => negb (po_inviolable o) && negb (po_release_tick o <=? ek_tick k) &&
                        (po_release_tick o <=? horizon)) (obligations_at reservations bucket)
  | _, _ => false
  end.

Definition headroom_for (k : EngineCore) (entry : ResourceCapacity) : Rate :=
  let headroom := rc_mandatory_headroom entry in
  let headroom :=
    match ek_policy k with
    | Some policy =>
        let percent := permille (rc_usable entry) (pol_headroom_permille policy) in
        let headroom := if headroom <? percent then percent else headroom in
        if headroom <? pol_headroom_floor policy then pol_headroom_floor policy else headroom
    | None => headroom
    end in
  clamped_to headroom (rc_usable entry).

Definition readiness (k : EngineCore) : EngineReadiness :=
  match ek_policy k with
  | None => AwaitingPolicy
  | Some policy =>
      if bool_decide (ek_capacity k = None) then AwaitingCapacity
      else if bool_decide (ek_reservations k = None) then AwaitingReservations
      else if bool_decide (ek_qos k = None) || bool_decide (ek_priorities k = None)
           then AwaitingCatalogs
      else if pol_require_path_binding policy && bool_decide (ek_paths k = None)
           then AwaitingPaths
      else if ek_pending_reconciliation k then WaitingForReconciliation
      else Ready
  end.

(** [usable - headroom - obligations], saturating: what may be admitted on a
    resource in total. *)
Definition allowance_of (k : EngineCore) (resource : ResourceId) (entry : ResourceCapacity) : Rate :=
  saturating_sub (saturating_sub (rc_usable entry) (headroom_for k entry))
    (obligations_for k resource).

(** ** Decision plumbing *)

Definition fill_authority (k : EngineCore) (vector : AuthorityVector) : AuthorityVector :=
  let epoch := ek_epoch k in
  let v := av_add AK_FabricEpoch 0 gen_first epoch vector in
  let v := av_add AK_CoordinatorIncarnation (ek_incarnation k) gen_first epoch v in
  let v := match ek_policy k with
           | Some p => av_add AK_Policy (pol_id p) (pol_generation p) epoch v | None => v end in
  let v := match ek_capacity k with
           | Some c => av_add AK_CapacitySnapshot (cs_snapshot c) (cs_generation c) epoch v
           | None => v end in
  let v := match ek_reservations k with
           | Some r => av_add AK_ReservationSnapshot (rs_snapshot r) (rs_generation r) epoch v
           | None => v end in
  let v := match ek_paths k with
           | Some p => av_add AK_PathAuthority 0 (pc_path_authority_generation p) epoch v
           | None => v end in
  let v := match ek_qos k with
           | Some q => av_add AK_QoSClassCatalog 0 (qc_generation q) epoch v | None => v end in
  match ek_priorities k with
  | Some p => av_add AK_PriorityClassCatalog 0 (prc_generation p) epoch v | None => v end.

Definition fill_target_authority (k : EngineCore) (views : list ResourceView) (path : PathId)
    (path_generation : Generation) (vector : AuthorityVector) : AuthorityVector :=
  let epoch := ek_epoch k in
  let v := foldl (fun v view => av_add AK_ResourceCapacity (vw_resource view) (vw_generation view)
                                  epoch v) vector views in
  let v := if is_known path then av_add AK_Path path path_generation epoch v else v in
  match ek_reservations k with
  | None => v
  | Some reservations =>
      foldl (fun v view =>
        match ek_obligation_indices k !! vw_resource view with
        | None => v
        | Some bucket =>
            foldl (fun v o => av_add AK_Reservation (po_reservation o)
                                (po_reservation_generation o) epoch v)
              v (obligations_at reservations bucket)
        end) v views
  end.

Definition configure_explanation (k : EngineCore) (x : Explanation) : Explanation :=
  match ek_policy k with
  | Some p => Explanation_configure (pol_max_explanation_constraints p)
                (pol_max_explanation_bytes p) x
  | None => x
  end.

Definition new_decision (k : EngineCore) (request : AdmissionRequest) (claim : ClaimContext)
    (outcome : AdmissionOutcome) : AdmissionDecision :=
  AdmissionDecision_new
    <| ad_decision := ek_next_decision_sequence k |> <| ad_audit := ek_audit k |>
    <| ad_outcome := outcome |> <| ad_request := rq_request request |>
    <| ad_demand := rq_demand request |> <| ad_demand_generation := rq_demand_generation request |>
    <| ad_attempt := rq_attempt request |>
    <| ad_trace := if is_known (cc_trace claim) then cc_trace claim
                   else prov_trace (rq_provenance request) |>
    <| ad_epoch := ek_epoch k |> <| ad_incarnation := ek_incarnation k |>
    <| ad_decided_tick := ek_tick k |> <| ad_desired := desired (rq_rate request) |>
    <| ad_maximum := maximum (rq_rate request) |>
    <| ad_holding_interval := rq_effective_interval request |>
    <| ad_request_fingerprint := fingerprint request |>
    <| ad_explanation := configure_explanation k Explanation_new |>
    <| ad_authority := fill_authority k AuthorityVector_empty |>.

(** The identity and the audit sequence are consumed at once. *)
Definition begin_decision (request : AdmissionRequest) (claim : ClaimContext)
    (outcome : AdmissionOutcome) : M EngineCore AdmissionDecision :=
  decision ← gets (fun k => new_decision k request claim outcome);
  modify (fun k => k <| ek_next_decision_sequence := ek_next_decision_sequence k +w 1 |>
                     <| ek_audit := ek_audit k +w 1 |>) ;;
  mret decision.

Definition to_record (k : EngineCore) (d : AdmissionDecision) : DecisionRecord :=
  DecisionRecord_new
    <| dr_decision := ad_decision d |> <| dr_audit := ad_audit d |> <| dr_outcome := ad_outcome d |>
    <| dr_request := ad_request d |> <| dr_demand := ad_demand d |>
    <| dr_demand_generation := ad_demand_generation d |> <| dr_attempt := ad_attempt d |>
    <| dr_path := ad_selected_path d |> <| dr_granted := ad_granted d |>
    <| dr_epoch := ad_epoch d |> <| dr_incarnation := ad_incarnation d |>
    <| dr_decided_tick := ad_decided_tick d |> <| dr_fingerprint := ad_request_fingerprint d |>
    <| dr_bound_capacity_generation := ad_bound_capacity_generation d |>
    <| dr_bound_policy_generation := from_option pol_generation 0 (ek_policy k) |>
    <| dr_bound_qos_generation := from_option qc_generation 0 (ek_qos k) |>
    <| dr_bound_priority_generation := from_option prc_generation 0 (ek_priorities k) |>
    <| dr_bound_path_generation := from_option pc_path_authority_generation 0 (ek_paths k) |>
    <| dr_bound_reservation_generation := from_option rs_generation 0 (ek_reservations k) |>.

Definition remember (decision : AdmissionDecision) : M EngineCore unit :=
  modify (fun k =>
    let cache := ek_decision_cache k in
    let cache := if max_decision_records <=? mapN cache
                 then match head (keys cache) with Some first => delete first cache | None => cache end
                 else cache in
    k <| ek_decision_cache := <[ad_decision decision := decision]> cache |>).

Definition count_outcome (o : AdmissionOutcome) (c : Counters) : Counters :=
  let c := c <| ct_decisions := ct_decisions c +w 1 |> in
  match o with
  | Admit | AdmitDegraded => c <| ct_admissions := ct_admissions c +w 1 |>
  | Defer => c <| ct_deferrals := ct_deferrals c +w 1 |>
  | StaleInput => c <| ct_stale_refusals := ct_stale_refusals c +w 1 |>
                    <| ct_refusals := ct_refusals c +w 1 |>
  | ConflictingInput => c <| ct_conflicts := ct_conflicts c +w 1 |>
                          <| ct_refusals := ct_refusals c +w 1 |>
  | FencedClaimant => c <| ct_fences := ct_fences c +w 1 |>
                        <| ct_refusals := ct_refusals c +w 1 |>
  | _ => c <| ct_refusals := ct_refusals c +w 1 |>
  end.

Definition count (decision : AdmissionDecision) : M EngineCore unit :=
  modify (fun k => k <| ek_counters := count_outcome (ad_outcome decision) (ek_counters k) |>).

Definition effective_of (view : ResourceView) : EffectiveResource :=
  mkEffectiveResource (vw_resource view) (vw_generation view) (vw_usable view) (vw_headroom view)
    (vw_obligations view) (vw_admitted view) (vw_available_for_new view).

Fixpoint fill_effective_loop (bound : N) (views : list ResourceView) (d : AdmissionDecision)
    : AdmissionDecision :=
  match views with
  | [] => d
  | view :: views' =>
      if bound <=? sizeN (ad_effective d) then d <| ad_effective_truncated := true |>
      else fill_effective_loop bound views'
             (d <| ad_effective := ad_effective d ++ [effective_of view] |>)
  end.

Definition fill_effective (k : EngineCore) (views : list ResourceView) (d : AdmissionDecision)
    : AdmissionDecision :=
  fill_effective_loop (from_option pol_max_effective_resources max_effective_resources_limit
                         (ek_policy k)) views d.

Definition refusal (request : AdmissionRequest) (claim : ClaimContext) (outcome : AdmissionOutcome)
    (constraint : BindingConstraint) : M EngineCore AdmissionDecision :=
  decision ← begin_decision request claim outcome;
  mret (decision <| ad_explanation := x_add constraint (ad_explanation decision) |>).

Definition attempt_of (k : EngineCore) (request : AdmissionRequest) (d : AdmissionDecision)
    : AttemptRecord :=
  mkAttemptRecord (rq_request request) (rq_demand request) (rq_demand_generation request)
    (rq_attempt request) (ad_request_fingerprint d) (ad_decision d) (ad_outcome d) (ek_tick k).

Definition trim_history : M EngineCore unit :=
  modify (fun k => if needs_trim (ek_history k)
                   then k <| ek_history := history_trim (ek_ledger k) (ek_history k) |>
                   else k).

(** ** Durable writers *)

Definition has_journal (k : EngineCore) : bool :=
  bool_decide (is_Some (ek_journal k)) && ek_journal_ready k.

(** Runs a journal operation on the attached journal. *)
Definition on_journal {A} (m : M Journal A) : M EngineCore A := fun k =>
  match ek_journal k with
  | Some j => let '(r, j') := m j in (r, k <| ek_journal := Some j' |>)
  | None => (error Internal "no journal", k)
  end.

Definition write_record (kind : JournalRecordKind) (payload : list N) : M EngineCore unit :=
  ready ← gets has_journal;
  if negb ready then mret tt
  else
    faults ← gets ek_faults;
    if ft_fail_next_journal_append faults then
      modify (fun k => k <| ek_faults := faults <| ft_fail_next_journal_append := false |> |>) ;;
      fail DurableFailure "injected journal append failure"
    else on_journal (journal_append kind payload).

Definition make_boot_record (epoch : FabricEpoch) (incarnation : CoordinatorIncarnation) : BootRecord :=
  mkBootRecord epoch format_revision product_name incarnation incarnation.

Definition write_boot : M EngineCore unit :=
  boot ← gets (fun k => make_boot_record (ek_epoch k) (ek_incarnation k));
  write_record JK_BootEpoch (encode_boot boot).

Definition write_policy_record (value : AdmissionPolicy) : M EngineCore unit :=
  write_record JK_PolicyConfig (encode_policy value).

Definition write_prepare (record : PrepareRecord) : M EngineCore unit :=
  faults ← gets ek_faults;
  if ft_drop_prepare_record faults then
    modify (fun k => k <| ek_faults := faults <| ft_drop_prepare_record := false |> |>)
  else write_record JK_AdmissionPrepare (encode_prepare record).

(** The injected corruption: the middle byte of the payload is complemented. *)
Definition corrupt_payload (payload : list N) : list N :=
  alter (fun b => N.lxor b 255) (length payload / 2)%nat payload.

Definition write_commit (record : DecisionRecord) : M EngineCore unit :=
  faults ← gets ek_faults;
  if ft_drop_commit_record faults then
    modify (fun k => k <| ek_faults := faults <| ft_drop_commit_record := false |> |>)
  else if ft_fail_next_commit faults then
    modify (fun k => k <| ek_faults := faults <| ft_fail_next_commit := false |> |>) ;;
    fail DurableFailure "injected commit append failure"
  else
    let payload := encode_decision_record record in
    if ft_corrupt_next_commit faults then
      modify (fun k => k <| ek_faults := faults <| ft_corrupt_next_commit := false |> |>) ;;
      write_record JK_AdmissionCommit (corrupt_payload payload)
    else write_record JK_AdmissionCommit payload.

Definition write_refusal (record : DecisionRecord) : M EngineCore unit :=
  write_record JK_AdmissionRefused (encode_decision_record record).
Definition write_release (record : ReleaseRecord) : M EngineCore unit :=
  write_record JK_LedgerRelease (encode_release record).
Definition write_revocation (record : RevocationRecord) : M EngineCore unit :=
  write_record JK_Revocation (encode_revocation record).
Definition write_audit_mark : M EngineCore unit :=
  mark ← gets (fun k => mkAuditMarkRecord (ek_audit k) (ek_epoch k)
                          (from_option jn_frame_count 0 (ek_journal k)));
  write_record JK_AuditMark (encode_audit_mark mark).

(** ** Compaction *)

(** The ledger's entries grouped by decision, in the order of [entries()]. *)
Definition live_amounts (l : AdmittedLoadLedger) : gmap N (list (ResourceId * Rate)) :=
  foldl (fun m e => <[le_decision e := default [] (m !! le_decision e) ++ [entry_amount e]]> m)
    ∅ (entries l).

Definition compact_record_frames (live : gmap N (list (ResourceId * Rate))) (record : DecisionRecord)
    : list JournalFrame :=
  match live !! dr_decision record with
  | Some held =>
      if is_admitting (dr_outcome record) then
        [mkJournalFrame JK_AdmissionPrepare 0 (encode_prepare
           (mkPrepareRecord (dr_decision record) (dr_demand record) (dr_attempt record)
              (dr_fingerprint record) (dr_epoch record) (dr_bound_capacity_generation record)
              (dr_path record) held));
         mkJournalFrame JK_AdmissionCommit 0 (encode_decision_record record)]
      else [mkJournalFrame JK_AdmissionRefused 0 (encode_decision_record record)]
  | None => [mkJournalFrame JK_AdmissionRefused 0 (encode_decision_record record)]
  end.

Definition compact_frames (k : EngineCore) : list JournalFrame :=
  let frames :=
    [mkJournalFrame JK_BootEpoch 0 (encode_boot (make_boot_record (ek_epoch k) (ek_incarnation k)))] ++
    match ek_policy k with
    | Some p => [mkJournalFrame JK_PolicyConfig 0 (encode_policy p)]
    | None => []
    end ++
    (in_audit_order (ek_history k) ≫= compact_record_frames (live_amounts (ek_ledger k))) in
  frames ++ [mkJournalFrame JK_AuditMark 0
    (encode_audit_mark (mkAuditMarkRecord (ek_audit k) (ek_epoch k) (sizeN frames)))].

Definition compact_locked : M EngineCore unit :=
  ready ← gets has_journal;
  if negb ready then fail InvalidArgument "no journal attached"
  else
    frames ← gets compact_frames;
    on_journal (journal_compact frames).

Definition compaction_due (k : EngineCore) : bool :=
  match ek_journal k with
  | Some j => jo_compact_at_records (jn_options j) <=? jn_frame_count j
  | None => false
  end.

Definition compact_if_needed_locked : M EngineCore unit :=
  ready ← gets has_journal;
  if negb ready then mret tt
  else
    due ← gets compaction_due;
    if (due : bool) then compact_locked else mret tt.

(** ** Finishing a decision *)

Definition insert_history (record : DecisionRecord) : M EngineCore unit :=
  modify (fun k => k <| ek_history := history_insert record (ek_history k) |>).

Definition record_decision_attempt (request : AdmissionRequest) (decision : AdmissionDecision)
    : M EngineCore unit :=
  modify (fun k => k <| ek_attempts := record_attempt (attempt_of k request decision)
                                         (ek_attempts k) |>).

Definition finish_refusal (decision : AdmissionDecision) (request : AdmissionRequest)
    (record_it : bool) : M EngineCore unit :=
  record ← gets (fun k => to_record k decision);
  write_refusal record ;;
  insert_history (record <| dr_state := RS_Fresh |>) ;;
  trim_history ;;
  (if record_it then record_decision_attempt request decision else mret tt) ;;
  remember decision ;;
  count decision.

(** After the commit record: the in-memory half of an admission. *)
Definition install_admission (decision : AdmissionDecision) (request : AdmissionRequest)
    (record : DecisionRecord) : M EngineCore unit :=
  insert_history record ;;
  trim_history ;;
  record_decision_attempt request decision ;;
  remember decision ;;
  count decision ;;
  compact_if_needed_locked.

Definition finish_admission (decision : AdmissionDecision) (request : AdmissionRequest)
    (amounts : list (ResourceId * Rate)) : M EngineCore unit :=
  epoch ← gets ek_epoch;
  write_prepare (mkPrepareRecord (ad_decision decision) (ad_demand decision) (ad_attempt decision)
    (ad_request_fingerprint decision) epoch (ad_bound_capacity_generation decision)
    (ad_selected_path decision) amounts) ;;
  on_ledger (reserve (ad_decision decision) (ad_demand decision) epoch
    (ad_bound_capacity_generation decision) (ad_selected_path decision) amounts) ;;
  record ← gets (fun k => (to_record k decision) <| dr_ledger_live := true |>);
  committed ← attempt (write_commit record);
  match committed with
  | Err status =>
      attempt (on_ledger (release (ad_decision decision))) ;;
      lift (Err status)
  | Val _ => install_admission decision request record
  end.
