(* ===== verification/Log.v ===== *)
(** * The journal as a log

    What the frames of the journal say, and the durable writers of the engine as
    appends to that log.  [logged o k rs] holds when the journal attached to [k] is
    open under the options [o], no call of it will fail unless the file system goes
    for good, no fault is armed, and its file is whole frames that read as the records
    [rs].  [gone o k rs] holds once the file system has gone: nothing reaches the file
    any more, which reads as [rs] followed at most by part of one frame. *)

From S2P Require Import Prelude Checked Identity Hash State Policy Request Authority.
From S2P Require Import Decision Ledger History Bytes Records Journal Engine.
Local Open Scope N_scope.
Local Open Scope naf_scope.

(** ** Frames by what they say *)

Inductive LogRecord :=
  | LogBoot (boot : BootRecord)
  | LogPolicy (policy : AdmissionPolicy)
  | LogPrepare (sequence : N) (prepare : PrepareRecord)
  | LogCommit (record : DecisionRecord)
  | LogRefused (record : DecisionRecord)
  | LogRelease (release : ReleaseRecord)
  | LogRevocation (revocation : RevocationRecord)
  | LogMark (mark : AuditMarkRecord)
  | LogIgnored.

Definition read_log (frame : JournalFrame) : Expected LogRecord :=
  let payload := jf_payload frame in
  match jf_kind frame with
  | JK_BootEpoch => b ← decode_boot payload; mret (LogBoot b)
  | JK_PolicyConfig => p ← decode_policy payload; mret (LogPolicy p)
  | JK_AdmissionPrepare => p ← decode_prepare payload; mret (LogPrepare (jf_sequence frame) p)
  | JK_AdmissionCommit => r ← decode_decision_record payload; mret (LogCommit r)
  | JK_AdmissionRefused => r ← decode_decision_record payload; mret (LogRefused r)
  | JK_LedgerRelease => r ← decode_release payload; mret (LogRelease r)
  | JK_Revocation => r ← decode_revocation payload; mret (LogRevocation r)
  | JK_AuditMark => m ← decode_audit_mark payload; mret (LogMark m)
  | _ => mret LogIgnored
  end.

(** The records of a readable list of frames. *)
Definition read_all (frames : list JournalFrame) (rs : list LogRecord) : Prop :=
  Forall2 (fun f r => read_log f = Val r) frames rs.

Lemma read_all_det (frames : list JournalFrame) (rs rs' : list LogRecord) :
  read_all frames rs -> read_all frames rs' -> rs' = rs.
Proof.
  intros H. revert rs'. induction H as [|f r fs rs Hf _ IH]; intros rs' H'; inversion H'; subst; [done|].
  f_equal; [congruence|by apply IH].
Qed.

Lemma read_encoded {R} (kind : JournalRecordKind) (sequence : N) (e : R -> list N) d P `{!Codec e d P} (r : R)
    (wrap : R -> LogRecord) :
  P r -> (forall bs, read_log (mkJournalFrame kind sequence bs) = (x ← d bs; mret (wrap x))) ->
  read_log (mkJournalFrame kind sequence (e r)) = Val (wrap r).
Proof. intros Hr Hk. by rewrite Hk, (codec_roundtrip r Hr). Qed.

(** ** A healthy journal *)

Section log.
Context (o : JournalOptions).

(** The journal is open on whole frames, and none of its calls will fail while the file
    system is there. *)
Record holding (j : Journal) (fs : list JournalFrame) : Prop := {
  hd_options : jn_options j = o;
  hd_script : steady (jn_script j);
  hd_open : jn_file_open j = true;
  hd_frames : Forall (frame_ok (jo_max_payload o)) fs;
  hd_data : jn_data j = encode_all fs;
  hd_next : u64 (jn_next_sequence j);
  hd_count : jn_frame_count j = wrap64 (sizeN fs);
}.

(** The journal of the engine holds these frames, and no fault is armed. *)
Definition holding_frames (k : EngineCore) (fs : list JournalFrame) : Prop :=
  ek_journal_ready k = true /\ ek_faults k = FaultInjection_new /\
  exists j, ek_journal k = Some j /\ holding j fs.

Definition logged (k : EngineCore) (rs : list LogRecord) : Prop :=
  exists fs, holding_frames k fs /\ read_all fs rs.

(** Nothing reaches the file any more: it holds these frames and, after them, part of one. *)
Record torn_off (j : Journal) (fs : list JournalFrame) : Prop := {
  tf_options : jn_options j = o;
  tf_script : jn_script j = [IoGone 0];
  tf_frames : Forall (frame_ok (jo_max_payload o)) fs;
  tf_data : exists f n, frame_ok (jo_max_payload o) f /\ (n < length (frame_bytes f))%nat /\
    jn_data j = encode_all fs ++ take n (frame_bytes f);
}.

Definition gone_frames (k : EngineCore) (fs : list JournalFrame) : Prop :=
  exists j, ek_journal k = Some j /\ torn_off j fs.
Definition gone (k : EngineCore) (rs : list LogRecord) : Prop :=
  exists fs, gone_frames k fs /\ read_all fs rs.

(** The file system went while these records were being appended. *)
Definition cut (k : EngineCore) (rs new : list LogRecord) : Prop :=
  exists pre, pre `prefix_of` new /\ gone k (rs ++ pre).

Lemma whole_torn (j : Journal) (fs : list JournalFrame) :
  jn_options j = o -> jn_script j = [IoGone 0] -> Forall (frame_ok (jo_max_payload o)) fs ->
  jn_data j = encode_all fs -> torn_off j fs.
Proof.
  intros Ho Hs Hf Hd. constructor; [done..|]. exists (mkJournalFrame JK_BootEpoch 1 []), 0%nat.
  split_and!; [constructor; [done|done|apply N.le_0_l]|by vm_compute; lia|by rewrite Hd, app_nil_r].
Qed.

Lemma holding_append (j : Journal) (fs : list JournalFrame) (kind : JournalRecordKind) (payload : list N) :
  holding j fs -> listed_kind kind ->
  wp (journal_append kind payload) (fun r j' =>
    match r with
    | Val _ => exists s, holding j' (fs ++ [mkJournalFrame kind s payload])
    | Err _ => (jo_max_payload o < sizeN payload /\ j' = j) \/ torn_off j' fs \/ exists s, torn_off j' (fs ++ [mkJournalFrame kind s payload])
    end) j.
Proof.
  intros [Ho Hs Hop Hf Hd Hn Hc] Hk. destruct (N.leb_spec (sizeN payload) (jo_max_payload o)) as [Hp|Hp].
  - set (f := mkJournalFrame kind (jn_next_sequence j) payload).
    assert (Hok : frame_ok (jo_max_payload o) f) by (by constructor).
    eapply wp_mono; [apply append_steady; [done|done|by rewrite Ho]|].
    intros [[]|s] j' [Hopt H]; cbn [has_value] in H.
    + destruct H as (Hd' & Hs' & Ho' & Hn' & Hc'). exists (jn_next_sequence j).
      constructor; [congruence|done|done| | |rewrite Hn'; apply wrap64_u64|].
      * by apply Forall_app_2; [|constructor].
      * by rewrite encode_all_snoc, Hd', Hd.
      * rewrite Hc', Hc. unfold w_add, wrap64, sizeN. rewrite N.Div0.add_mod_idemp_l, length_app, Nat2N.inj_add. done.
    + destruct H as (Hs' & n & Hd'). right. fold f in Hd'. destruct (decide (n < length (frame_bytes f))%nat) as [Hlt|Hge].
      * left. constructor; [congruence|done|done|]. exists f, n. by rewrite Hd', Hd.
      * right. exists (jn_next_sequence j). apply whole_torn; [congruence|done|by apply Forall_app_2; [|constructor]|].
        rewrite encode_all_snoc, Hd', Hd, take_ge by lia. done.
  - unfold journal_append. apply wp_bind, wp_require_journal_open; [done|]. apply wp_bind, wp_gets, wp_bind, wp_lift.
    rewrite Ho. rewrite (proj2 (N.ltb_lt _ _) Hp). by left.
Qed.

(** A record the engine writes: the frame is appended, or nothing happens, or the file
    system is gone. *)
Lemma write_record_outcome (kind : JournalRecordKind) (payload : list N) (k : EngineCore)
    (fs : list JournalFrame) :
  holding_frames k fs -> listed_kind kind ->
  wp (write_record kind payload) (fun r k' =>
    match r with
    | Val _ => exists s, holding_frames k' (fs ++ [mkJournalFrame kind s payload])
    | Err _ => (jo_max_payload o < sizeN payload /\ holding_frames k' fs) \/ gone_frames k' fs \/ exists s, gone_frames k' (fs ++ [mkJournalFrame kind s payload])
    end) k.
Proof.
  intros (Hr & Hf & j & Hj & Hh) Hk. unfold write_record. apply wp_bind, wp_gets.
  unfold has_journal. rewrite Hr, bool_decide_true by (by exists j). cbn [andb negb].
  apply wp_bind, wp_gets. rewrite Hf. cbn [ft_fail_next_journal_append FaultInjection_new].
  pose proof (holding_append j fs kind payload Hh Hk) as Ha.
  unfold wp in *. unfold on_journal. rewrite Hj. destruct (journal_append kind payload j) as [r j']. cbn [fst snd] in *.
  destruct r as [u|s].
  - destruct Ha as [s Ha]. exists s. split_and!; [done|done|]. by exists j'.
  - destruct Ha as [[Hp ->]|[Ha|[s' Ha]]]; [left; split; [done|]; split_and!; [done|done|by exists j]|right; left; by exists j'|].
    right; right. exists s'. by exists j'.
Qed.

(** [m] writes one record, [e] of the sequence number it gets, provided [ok]. *)
Definition writes (m : M EngineCore unit) (ok : Prop) (e : N -> LogRecord) : Prop :=
  forall k rs, ok -> logged k rs ->
    match m k with
    | (Val _, k') => exists s, logged k' (rs ++ [e s])
    | (Err _, k') => logged k' rs \/ exists s, cut k' rs [e s]
    end.

Lemma record_writes {R} (kind : JournalRecordKind) (enc : R -> list N) d P `{!Codec enc d P} (r : R)
    (wrap : N -> R -> LogRecord) :
  listed_kind kind ->
  (forall s bs, read_log (mkJournalFrame kind s bs) = (x ← d bs; mret (wrap s x))) ->
  writes (write_record kind (enc r)) (P r) (fun s => wrap s r).
Proof.
  intros Hk Hread k rs Hr (fs & Hh & Hrs). pose proof (write_record_outcome kind (enc r) k fs Hh Hk) as H.
  assert (Hrd : forall s, read_all (fs ++ [mkJournalFrame kind s (enc r)]) (rs ++ [wrap s r])).
  { intros s. apply Forall2_app; [done|]. constructor; [|constructor]. by eapply (read_encoded kind s enc d P r (wrap s)). }
  unfold wp in H. destruct (write_record kind (enc r) k) as [[u|s] k']; cbn [fst snd] in H.
  - destruct H as [s H]. exists s, (fs ++ [mkJournalFrame kind s (enc r)]). by split.
  - destruct H as [[_ H]|[H|[s' H]]]; [left; by exists fs|right..].
    + exists 0, []. split; [apply prefix_nil|]. rewrite app_nil_r. by exists fs.
    + exists s', [wrap s' r]. split; [done|]. exists (fs ++ [mkJournalFrame kind s' (enc r)]). by split.
Qed.

Lemma prepare_writes (p : PrepareRecord) :
  writes (write_prepare p) (prepare_storable p) (fun s => LogPrepare s p).
Proof.
  intros k rs Hp Hl. pose proof Hl as (fs & (_ & Hf & _) & _). unfold write_prepare, mbind, M_bind, gets. rewrite Hf.
  by apply (record_writes JK_AdmissionPrepare _ _ _ p LogPrepare).
Qed.
Lemma commit_writes (r : DecisionRecord) :
  writes (write_commit r) (decision_storable r) (fun _ => LogCommit r).
Proof.
  intros k rs Hp Hl. pose proof Hl as (fs & (_ & Hf & _) & _). unfold write_commit, mbind, M_bind, gets. rewrite Hf.
  by apply (record_writes JK_AdmissionCommit _ _ _ r (fun _ => LogCommit)).
Qed.
Lemma refusal_writes (r : DecisionRecord) :
  writes (write_refusal r) (decision_storable r) (fun _ => LogRefused r).
Proof. by apply (record_writes JK_AdmissionRefused _ _ _ r (fun _ => LogRefused)). Qed.
Lemma release_writes (r : ReleaseRecord) :
  writes (write_release r) (release_storable r) (fun _ => LogRelease r).
Proof. by apply (record_writes JK_LedgerRelease _ _ _ r (fun _ => LogRelease)). Qed.
Lemma revocation_writes (r : RevocationRecord) :
  writes (write_revocation r) (revocation_storable r) (fun _ => LogRevocation r).
Proof. by apply (record_writes JK_Revocation _ _ _ r (fun _ => LogRevocation)). Qed.
Lemma policy_writes (p : AdmissionPolicy) :
  writes (write_policy_record p) (policy_storable p) (fun _ => LogPolicy p).
Proof. by apply (record_writes JK_PolicyConfig _ _ _ p (fun _ => LogPolicy)). Qed.

(** The mark counts the frames, which fit a word. *)
Lemma audit_mark_logs (k : EngineCore) (rs : list LogRecord) :
  logged k rs -> u64 (ek_audit k) -> u64 (ek_epoch k) ->
  match write_audit_mark k with
  | (Val _, k') => exists m, logged k' (rs ++ [LogMark m])
  | (Err _, k') => logged k' rs \/ exists m, cut k' rs [LogMark m]
  end.
Proof.
  intros Hl Ha He. unfold write_audit_mark, mbind, M_bind, gets. cbv beta iota.
  set (m := mkAuditMarkRecord _ _ _).
  assert (Hm : audit_mark_storable m).
  { pose proof Hl as (fs & (_ & _ & j & Hj & Hh) & _). unfold m. rewrite Hj. split_and!; [done|done|]. change (u64 (jn_frame_count j)). rewrite (hd_count j fs Hh). apply wrap64_u64. }
  pose proof (record_writes JK_AuditMark _ _ _ m (fun _ => LogMark) ltac:(done) ltac:(done) k rs Hm Hl) as H.
  destruct (write_record _ _ k) as [[u|s] k']; [destruct H as [_ H]; by exists m|].
  destruct H as [H|[_ H]]; [by left|right; by exists m].
Qed.

(** ** Compaction *)

(** The journal can hold what compaction writes for [k]. *)
Record compactable (k : EngineCore) : Prop := {
  cp_payload : 52 <= jo_max_payload o < two32;
  cp_payloads : Forall (fun f => sizeN (jf_payload f) <= jo_max_payload o) (compact_frames k);
  cp_records : sizeN (compact_frames k) <= max_journal_records;
  cp_bytes : sizeN (encode_all (numbered 1 (body <$> compact_frames k))) <= jo_max_file_bytes o;
}.

Lemma compact_kinds (k : EngineCore) : Forall (fun f => listed_kind (jf_kind f)) (compact_frames k).
Proof.
  unfold compact_frames. repeat apply Forall_app_2; try (by repeat constructor).
  - destruct (ek_policy k); by repeat constructor.
  - induction (in_audit_order (ek_history k)) as [|r l IH]; [constructor|]. cbn [mbind list_bind].
    apply Forall_app_2; [|done]. unfold compact_record_frames.
    destruct (_ !! _); [destruct (is_admitting _)|]; by repeat constructor.
Qed.

Lemma numbered_bodies (l : list (JournalRecordKind * list N)) (n : N) : body <$> numbered n l = l.
Proof. revert n. induction l as [|[kind payload] l IH]; intros n; [done|]. cbn. by rewrite IH. Qed.

Lemma compact_frames_ok (k : EngineCore) :
  compactable k -> Forall (frame_ok (jo_max_payload o)) (numbered 1 (body <$> compact_frames k)).
Proof.
  intros [_ Hp Hr _]. apply numbered_ok.
  - apply Forall_fmap. pose proof (compact_kinds k) as Hk. rewrite Forall_forall in *. intros f Hf. split; [by apply Hk|by apply Hp].
  - unfold max_journal_records, sizeN, two64 in *. rewrite length_fmap. lia.
Qed.

(** The journal holds what compaction writes for the engine, and nothing else. *)
Definition compacted (k : EngineCore) : Prop :=
  holding_frames k (numbered 1 (body <$> compact_frames k)).

(** Nothing reaches the file any more, which holds what compaction writes for the engine. *)
Definition gone_compacted (k : EngineCore) : Prop :=
  gone_frames k (numbered 1 (body <$> compact_frames k)).

(** Compaction takes place, or the file system went: before the file was replaced, or
    after. *)
Lemma compact_compacts (k : EngineCore) (rs : list LogRecord) :
  logged k rs -> compactable k ->
  wp compact_locked (fun r k' => if has_value r then compacted k' else gone k' rs \/ gone_compacted k') k.
Proof.
  intros (fs & (Hr & Hf & j & Hj & [Ho Hs Hop Hfs Hd _ _]) & Hrs) Hc. unfold compact_locked. apply wp_bind, wp_gets.
  unfold has_journal. rewrite Hr, bool_decide_true by (by exists j). cbn [andb negb]. apply wp_bind, wp_gets.
  pose proof (compact_frames_ok k Hc) as Hok. rewrite <- Ho in Hok. destruct Hc as [[_ Hm] _ Hn Hb].
  pose proof (compact_outcome j (compact_frames k) Hop ltac:(by rewrite Ho) Hok ltac:(by rewrite Ho)) as H.
  unfold wp in *. unfold on_journal. rewrite Hj. destruct (journal_compact _ j) as [r j']. cbn [fst snd] in *.
  destruct H as (Hopt & Hdd & _ & Hst & Hv). specialize (Hst Hs). rewrite Ho in *.
  destruct r as [[]|e]; cbn [has_value] in *.
  - destruct (Hv eq_refl) as (Hd' & Hop' & Hcnt & Hseq). split_and!; [done|done|]. exists j'. split; [done|].
    constructor; [congruence|done|done|done|exact Hd'|rewrite Hseq; apply wrap64_u64|].
    rewrite Hcnt. symmetry. apply N.mod_small. rewrite numbered_length.
    unfold max_journal_records, two64, sizeN in *. rewrite length_fmap. lia.
  - destruct Hdd as [E|E]; [left; exists fs; split; [|done]|right]; exists j'; (split; [done|]); apply whole_torn; done || congruence.
Qed.

(** Automatic compaction: nothing, or a compacted journal, or the file system is gone. *)
Lemma compact_if_needed_compacts (k : EngineCore) (rs : list LogRecord) :
  logged k rs -> compactable k ->
  wp compact_if_needed_locked (fun r k' =>
    if has_value r then logged k' rs \/ compacted k' else gone k' rs \/ gone_compacted k') k.
Proof.
  intros Hl Hc. unfold compact_if_needed_locked. apply wp_bind, wp_gets. destruct (has_journal k); [|by left].
  cbn [negb]. apply wp_bind, wp_gets. destruct (compaction_due k); [|by left].
  eapply wp_mono; [by eapply compact_compacts|]. intros [u|s] k' H; [by right|done].
Qed.
End log.
