(* ===== verification/Recovery.v ===== *)
(** * Opening the durable state (open_durable in src/src/engine/engine.cpp,
    src/include/naf/durable/recovery.hpp)

    The journal is opened and replayed frame by frame into history, registry and
    policy; intents without a commit are reported and not restored, committed and
    unreleased ones are reserved again and flagged; the epoch advances. *)

From S2P Require Import Prelude Checked Identity Hash State Policy Request Authority.
From S2P Require Import Decision.
From S2P Require Import Ledger History Bytes Records Journal Engine.
Local Open Scope N_scope.
Local Open Scope naf_scope.

Record AmbiguousAttempt := mkAmbiguousAttempt {
  am_prepare : PrepareRecord;
  am_prepare_sequence : N;
}.

Inductive RecoveryOutcome :=
  | FreshStart | Recovered | RecoveredWithAmbiguity | RepairedTornTail | RecoveryRefused.
#[export] Instance RecoveryOutcome_eq_dec : EqDecision RecoveryOutcome.
Proof. solve_decision. Defined.

(** The report; its [policy] field is never set. *)
Record RecoveryReport := mkRecoveryReport {
  rr_outcome : RecoveryOutcome;
  rr_status : Status;
  rr_journal_present : bool;
  rr_frames_scanned : N;
  rr_frames_replayed : N;
  rr_trailing_bytes_discarded : N;
  rr_corrupt : bool;
  rr_recovered_epoch : FabricEpoch;
  rr_epoch_advanced : bool;
  rr_audit_sequence : AuditSequence;
  rr_next_decision_sequence : N;
  rr_history : list DecisionRecord;
  rr_live_ledger : list LedgerEntry;
  rr_ambiguous : list AmbiguousAttempt;
  rr_awaiting_authority_republish : bool;
  rr_trigger : EnforcementTrigger;
}.
#[export] Instance eta_RecoveryReport : Eta RecoveryReport := fun r =>
  mkRecoveryReport (rr_outcome r) (rr_status r) (rr_journal_present r) (rr_frames_scanned r)
    (rr_frames_replayed r) (rr_trailing_bytes_discarded r) (rr_corrupt r) (rr_recovered_epoch r)
    (rr_epoch_advanced r) (rr_audit_sequence r) (rr_next_decision_sequence r) (rr_history r)
    (rr_live_ledger r) (rr_ambiguous r) (rr_awaiting_authority_republish r) (rr_trigger r).

Definition RecoveryReport_new : RecoveryReport :=
  mkRecoveryReport FreshStart status_ok false 0 0 0 false 0 false 0 1 [] [] [] false TriggerNone.

(** [report.status = status; report.outcome = Refused; report.corrupt = corrupt]. *)
Definition refuse_recovery (status : Status) (corrupt : bool) (report : RecoveryReport) : RecoveryReport :=
  report <| rr_status := status |> <| rr_outcome := RecoveryRefused |> <| rr_corrupt := corrupt |>.

(** ** Replay *)

(** The local variables of the replay loop, the count of replayed frames included. *)
Record Replay := mkReplay {
  rp_pending : gmap N (PrepareRecord * N);
  rp_committed : gmap N PrepareRecord;
  rp_released_ids : list AdmissionDecisionId;
  rp_epoch : FabricEpoch;
  rp_max_decision : N;
  rp_audit : AuditSequence;
  rp_replayed : N;
}.
#[export] Instance eta_Replay : Eta Replay := fun r =>
  mkReplay (rp_pending r) (rp_committed r) (rp_released_ids r) (rp_epoch r) (rp_max_decision r)
    (rp_audit r) (rp_replayed r).
Definition Replay_new : Replay := mkReplay ∅ ∅ [] 0 0 0 0.

(** What one frame does to the loop and the engine: go on, or refuse to recover. *)
Inductive FrameResult :=
  | FrameApplied (lc : Replay) (k : EngineCore)
  | FrameRefused (status : Status) (corrupt : bool).

(** [if (!decoded) { ...; report.corrupt = true; return report; }]. *)
Definition on_decoded {A} (decoded : Expected A) (f : A -> FrameResult) : FrameResult :=
  match decoded with Err status => FrameRefused status true | Val a => f a end.

Definition replay_boot (lc : Replay) (k : EngineCore) (boot : BootRecord) : FrameResult :=
  if negb (br_format_revision boot =? format_revision) then
    FrameRefused (status_error Unsupported "journal was written by an incompatible format revision") false
  else if negb (bool_decide (br_product boot = product_name)) then
    FrameRefused (status_error Unsupported "journal belongs to a different product") false
  else
    FrameApplied (lc <| rp_epoch := if rp_epoch lc <? br_epoch boot then br_epoch boot else rp_epoch lc |>) k.

Definition replay_policy (lc : Replay) (k : EngineCore) (policy : AdmissionPolicy) : FrameResult :=
  match validate_policy policy with
  | Err status => FrameRefused status false
  | Val _ => FrameApplied lc (k <| ek_policy := Some policy |>)
  end.

Definition replay_prepare (sequence : N) (lc : Replay) (k : EngineCore) (prepare : PrepareRecord)
    : FrameResult :=
  FrameApplied (lc <| rp_pending := <[pr_decision prepare := (prepare, sequence)]> (rp_pending lc) |>) k.

Definition attempt_of_record (r : DecisionRecord) : AttemptRecord :=
  mkAttemptRecord (dr_request r) (dr_demand r) (dr_demand_generation r) (dr_attempt r)
    (dr_fingerprint r) (dr_decision r) (dr_outcome r) (dr_decided_tick r).

(** The common end of the two decision cases: history, counters, registry. *)
Definition restore_record (lc : Replay) (k : EngineCore) (record : DecisionRecord) : FrameResult :=
  let attempts := if is_known (dr_attempt record) && negb (dr_fingerprint record =? 0)
                  then record_attempt (attempt_of_record record) (ek_attempts k)
                  else ek_attempts k in
  FrameApplied
    (lc <| rp_max_decision := if rp_max_decision lc <=? dr_decision record
                              then dr_decision record else rp_max_decision lc |>
        <| rp_audit := if rp_audit lc <? dr_audit record then dr_audit record else rp_audit lc |>)
    (k <| ek_history := history_insert record (ek_history k) |> <| ek_attempts := attempts |>).

Definition replay_commit (lc : Replay) (k : EngineCore) (record : DecisionRecord) : FrameResult :=
  let prepared := rp_pending lc !! dr_decision record in
  if is_admitting (dr_outcome record) && bool_decide (prepared = None) then
    FrameRefused (status_error CorruptJournal "commit without a matching prepare record") true
  else
    let lc := match prepared with
              | Some (prepare, _) =>
                  lc <| rp_committed := <[dr_decision record := prepare]> (rp_committed lc) |>
                     <| rp_pending := delete (dr_decision record) (rp_pending lc) |>
              | None => lc
              end in
    restore_record lc k
      (record <| dr_restored_from_disk := true |>
              <| dr_ledger_live := is_admitting (dr_outcome record) &&
                                   negb (bool_decide (dr_state record = RS_Revoked)) |>).

Definition replay_refused (lc : Replay) (k : EngineCore) (record : DecisionRecord) : FrameResult :=
  restore_record lc k (record <| dr_restored_from_disk := true |> <| dr_ledger_live := false |>).

Definition replay_release (lc : Replay) (k : EngineCore) (release : ReleaseRecord) : FrameResult :=
  FrameApplied (lc <| rp_released_ids := rp_released_ids lc ++ [rl_decision release] |>) k.

Definition replay_revocation (lc : Replay) (k : EngineCore) (revocation : RevocationRecord)
    : FrameResult :=
  let k := match history_find (rvr_decision revocation) (ek_history k) with
           | Some existing =>
               k <| ek_history := (history_update (rvr_decision revocation)
                      (existing <| dr_state := rvr_state revocation |>
                                <| dr_reason := rvr_reason revocation |>
                                <| dr_ledger_live := false |>) (ek_history k)).2 |>
           | None => k
           end in
  FrameApplied (lc <| rp_audit := if rp_audit lc <? rvr_audit revocation then rvr_audit revocation
                                  else rp_audit lc |>) k.

Definition replay_mark (lc : Replay) (k : EngineCore) (mark : AuditMarkRecord) : FrameResult :=
  FrameApplied (lc <| rp_audit := if rp_audit lc <? am_sequence mark then am_sequence mark
                                  else rp_audit lc |>) k.

Definition replay_frame (frame : JournalFrame) (lc : Replay) (k : EngineCore) : FrameResult :=
  let payload := jf_payload frame in
  match jf_kind frame with
  | JK_BootEpoch => on_decoded (decode_boot payload) (replay_boot lc k)
  | JK_PolicyConfig => on_decoded (decode_policy payload) (replay_policy lc k)
  | JK_AdmissionPrepare =>
      on_decoded (decode_prepare payload) (replay_prepare (jf_sequence frame) lc k)
  | JK_AdmissionCommit => on_decoded (decode_decision_record payload) (replay_commit lc k)
  | JK_AdmissionRefused => on_decoded (decode_decision_record payload) (replay_refused lc k)
  | JK_LedgerRelease => on_decoded (decode_release payload) (replay_release lc k)
  | JK_Revocation => on_decoded (decode_revocation payload) (replay_revocation lc k)
  | JK_AuditMark => on_decoded (decode_audit_mark payload) (replay_mark lc k)
  | JK_CoordinatorConfig | JK_CompactionMarker | JK_Reserved | JK_Unlisted _ => FrameApplied lc k
  end.

(** The loop stops at the first frame it refuses, keeping what it has applied. *)
Fixpoint replay_frames (frames : list JournalFrame) (lc : Replay) (k : EngineCore)
    : option (Status * bool) * (Replay * EngineCore) :=
  match frames with
  | [] => (None, (lc, k))
  | frame :: frames' =>
      match replay_frame frame lc k with
      | FrameRefused status corrupt => (Some (status, corrupt), (lc, k))
      | FrameApplied lc k => replay_frames frames' (lc <| rp_replayed := rp_replayed lc + 1 |>) k
      end
  end.

(** ** Restoring the live ledger *)

(** A committed intent whose grant still stands. *)
Definition still_live (k : EngineCore) (released : list AdmissionDecisionId) (prepare : PrepareRecord)
    : bool :=
  match history_find (pr_decision prepare) (ek_history k) with
  | None => false
  | Some record =>
      is_admitting (dr_outcome record) && negb (bool_decide (dr_state record = RS_Revoked)) &&
      negb (bool_decide (dr_state record = RS_Expired)) &&
      negb (existsb (N.eqb (pr_decision prepare)) released)
  end.

Definition reserve_prepared (p : PrepareRecord) : M AdmittedLoadLedger unit :=
  reserve (pr_decision p) (pr_demand p) (pr_epoch p) (pr_bound_capacity_generation p) (pr_path p)
    (pr_amounts p).

Fixpoint restore_ledger (released : list AdmissionDecisionId) (committed : list (N * PrepareRecord))
    : M EngineCore unit :=
  match committed with
  | [] => mret tt
  | (_, prepare) :: committed' =>
      k ← get;
      (if still_live k released prepare then on_ledger (reserve_prepared prepare) else mret tt) ;;
      restore_ledger released committed'
  end.

(** ** The epoch of the new incarnation *)

Definition next_epoch (recovered configured : FabricEpoch) : Expected FabricEpoch :=
  if negb (epoch_is_none recovered) && negb (epoch_is_none configured) && (configured <? recovered)
  then error EpochMismatch "journal epoch is ahead of the configured coordinator epoch"
  else if negb (epoch_is_none recovered) then
    let next := recovered +w 1 in
    if epoch_well_formed next then Val next
    else error ArithmeticOverflow "fabric epoch is exhausted"
  else if negb (epoch_is_none configured) then Val configured
  else Val first_epoch.

Definition classify_recovery (report : RecoveryReport) : RecoveryOutcome :=
  if bool_decide (rr_ambiguous report = []) && (rr_trailing_bytes_discarded report =? 0) &&
     rr_journal_present report then Recovered
  else if negb (bool_decide (rr_ambiguous report = [])) then RecoveredWithAmbiguity
  else if negb (rr_trailing_bytes_discarded report =? 0) then RepairedTornTail
  else FreshStart.

Definition ambiguous_attempts (pending : gmap N (PrepareRecord * N)) : list AmbiguousAttempt :=
  (fun e => mkAmbiguousAttempt e.2.1 e.2.2) <$> items pending.

(** The last part: fencing, sequences, the boot record, the classification. *)
Definition finish_recovery (lc : Replay) (report : RecoveryReport) (k : EngineCore)
    : RecoveryReport * EngineCore :=
  match next_epoch (rp_epoch lc) (ec_epoch (ek_config k)) with
  | Err status => (report <| rr_status := status |> <| rr_outcome := RecoveryRefused |>, k)
  | Val next =>
      let k := k <| ek_epoch := next |> <| ek_audit := rp_audit lc |>
                 <| ek_next_decision_sequence := rp_max_decision lc +w 1 |>
                 <| ek_sessions := ∅ |> <| ek_next_session_nonce := 1 |> in
      let report := report <| rr_recovered_epoch := next |>
                           <| rr_epoch_advanced := negb (epoch_is_none (rp_epoch lc)) |>
                           <| rr_next_decision_sequence := ek_next_decision_sequence k |> in
      match write_boot k with
      | (Err status, k) => (report <| rr_status := status |> <| rr_outcome := RecoveryRefused |>, k)
      | (Val _, k) =>
          let report := report <| rr_awaiting_authority_republish := true |>
                               <| rr_trigger := RestartRecovery |> in
          (report <| rr_outcome := classify_recovery report |> <| rr_status := status_ok |>,
           k <| ek_pending_reconciliation := negb (live_decisions (ek_ledger k) =? 0) |>)
      end
  end.

(** Everything after the frames have been read. *)
Definition recover_from (frames : list JournalFrame) (report : RecoveryReport) (k : EngineCore)
    : RecoveryReport * EngineCore :=
  let '(refusal, (lc, k)) := replay_frames frames Replay_new k in
  let report := report <| rr_frames_replayed := rp_replayed lc |> in
  match refusal with
  | Some (status, corrupt) => (refuse_recovery status corrupt report, k)
  | None =>
      let report := report <| rr_ambiguous := ambiguous_attempts (rp_pending lc) |> in
      match restore_ledger (rp_released_ids lc) (items (rp_committed lc)) k with
      | (Err status, k) => (report <| rr_status := status |> <| rr_outcome := RecoveryRefused |>, k)
      | (Val _, k) =>
          let k := k <| ek_ledger := mark_all_requiring_revalidation (ek_ledger k) |> in
          let k := (trim_history k).2 in
          finish_recovery lc
            (report <| rr_live_ledger := entries (ek_ledger k) |>
                    <| rr_history := in_audit_order (ek_history k) |>
                    <| rr_audit_sequence := rp_audit lc |>) k
      end
  end.

Definition open_durable (k : EngineCore) : RecoveryReport * EngineCore :=
  let report := RecoveryReport_new in
  match ek_journal k with
  | None => (refuse_recovery (status_error InvalidArgument "no journal attached") false report, k)
  | Some _ =>
      match on_journal journal_open k with
      | (Err status, k) =>
          (refuse_recovery status (bool_decide (code status = CorruptJournal)) report, k)
      | (Val _, k) =>
          let k := k <| ek_journal_ready := true |> in
          let scan := from_option jn_scan (mkJournalScanResult false false 0 0 0 0 false 0) (ek_journal k) in
          let max_bytes := from_option (fun j => jo_max_file_bytes (jn_options j)) 0 (ek_journal k) in
          let report := report <| rr_journal_present := negb (sc_created scan) |>
                               <| rr_frames_scanned := sc_frames scan |>
                               <| rr_trailing_bytes_discarded := sc_truncated_tail_bytes scan |> in
          match on_journal (journal_replay max_journal_records max_bytes) k with
          | (Err status, k) => (refuse_recovery status true report, k)
          | (Val frames, k) => recover_from frames report k
          end
      end
  end.
