(* ===== verification/Admission.v ===== *)
(** * Admission (src/src/engine/admission.cpp)

    The evaluation of one request: fencing, idempotency, readiness, authority
    binding, policy, path selection, capacity arithmetic, verdict and commit; and
    revalidation, revocation and accounting enforcement.

    A check of the source returns [true] or fills in an outcome and a constraint;
    here it returns [None] or [Some] of the two. *)

From S2P Require Import Prelude Checked Identity Hash State Policy Request Authority.
From S2P Require Import Decision Ledger History Bytes Records Journal Engine.
Local Open Scope N_scope.
Local Open Scope naf_scope.

Definition constraint_of (kind : BindingConstraintKind) (subject : string) (id : N)
    (detail : string) : BindingConstraint :=
  mkBindingConstraint kind subject id 0 0 0 0 detail.

Definition with_generations (observed authoritative : Generation) (c : BindingConstraint)
    : BindingConstraint :=
  mkBindingConstraint (bc_kind c) (bc_subject c) (bc_subject_id c) (bc_required c) (bc_available c)
    observed authoritative (bc_detail c).

Definition with_rates (required available : Rate) (c : BindingConstraint) : BindingConstraint :=
  mkBindingConstraint (bc_kind c) (bc_subject c) (bc_subject_id c) required available
    (bc_observed c) (bc_authoritative c) (bc_detail c).

Definition Verdict : Type := option (AdmissionOutcome * BindingConstraint).

(** [if (!a) return false; b]. *)
Definition and_then (a b : Verdict) : Verdict := match a with Some r => Some r | None => b end.
Notation "a 'then_check' b" := (and_then a b) (at level 60, right associativity) : naf_scope.
(** [if (b) return refuse;]. *)
Definition refuse_when (b : bool) (refuse : Verdict) : Verdict := if b then refuse else None.

(** ** Step 1: fencing *)

Definition fence (k : EngineCore) (claim : ClaimContext) (detail : string) : Verdict :=
  Some (FencedClaimant,
        with_generations (cc_epoch claim) (ek_epoch k)
          (constraint_of BC_Fence "claim" (cc_session claim) detail)).

Definition check_fence (k : EngineCore) (claim : ClaimContext) : Verdict :=
  if bool_decide (cc_origin claim = InProcess) && ec_accept_in_process_claims (ek_config k) then
    refuse_when (negb (epoch_is_none (cc_epoch claim)) && negb (cc_epoch claim =? ek_epoch k))
      (fence k claim "in-process claim epoch does not match the fabric epoch") then_check
    refuse_when (negb (is_unknown (cc_incarnation claim)) &&
                 negb (cc_incarnation claim =? ek_incarnation k))
      (fence k claim "in-process claim incarnation does not match the coordinator incarnation")
  else
    refuse_when (epoch_is_none (cc_epoch claim))
      (fence k claim "claim carries no fabric epoch") then_check
    refuse_when (cc_epoch claim <? ek_epoch k)
      (fence k claim "claim epoch is older than the current fabric epoch") then_check
    refuse_when (ek_epoch k <? cc_epoch claim)
      (Some (ConflictingInput,
             with_generations (cc_epoch claim) (ek_epoch k)
               (constraint_of BC_IdentityConflict "claim_epoch" (cc_epoch claim)
                  "claim epoch is ahead of the current fabric epoch"))) then_check
    refuse_when (negb (cc_incarnation claim =? ek_incarnation k))
      (fence k claim "claim targets a previous coordinator incarnation") then_check
    refuse_when (is_unknown (cc_session claim))
      (fence k claim "claim carries no session nonce") then_check
    match ek_sessions k !! cc_session claim with
    | None => fence k claim "claim session is not live in this incarnation"
    | Some s =>
        refuse_when (negb (sr_publisher s =? cc_publisher claim) || negb (sr_boot s =? cc_boot claim))
          (fence k claim "claim identity does not match the registered session")
    end.

(** ** Step 2: readiness *)

Definition check_readiness (k : EngineCore) : Verdict :=
  match readiness k with
  | AwaitingPolicy =>
      Some (RejectPolicy, constraint_of BC_Policy "policy" 0 "no admission policy has been published")
  | AwaitingCapacity =>
      Some (StaleInput, constraint_of BC_UnknownEvidence "capacity_snapshot" 0
        "capacity authority has published nothing; UNKNOWN capacity cannot authorize")
  | AwaitingReservations =>
      Some (StaleInput, constraint_of BC_UnknownEvidence "reservation_snapshot" 0
        "protected obligations are UNKNOWN and cannot be proven preserved")
  | AwaitingCatalogs =>
      Some (StaleInput, constraint_of BC_UnknownEvidence "catalogs" 0
        "qos or priority catalog is UNKNOWN")
  | AwaitingPaths =>
      Some (RejectPath, constraint_of BC_Path "path_catalog" 0
        "policy requires an authorized path binding but no path catalog is published")
  | WaitingForReconciliation =>
      Some (StaleInput, constraint_of BC_UnknownEvidence "reconciliation" 0
        "recovered admitted load has not been reconciled against republished capacity")
  | Ready => None
  end.

(** ** Step 3: authority binding *)

Definition stale (subject : string) (id : N) (observed authoritative : Generation)
    (detail : string) : Verdict :=
  Some (StaleInput, with_generations observed authoritative
                      (constraint_of BC_StaleGeneration subject id detail)).

Definition unknown (subject : string) (id : N) (detail : string) : Verdict :=
  Some (StaleInput, constraint_of BC_UnknownEvidence subject id detail).

Definition require_generation (observed authoritative : Generation) (subject : string) : Verdict :=
  refuse_when (gen_is_unknown observed)
    (unknown subject 0 ("claimant did not state the " +:+ subject +:+ " it observed")) then_check
  refuse_when (negb (observed =? authoritative))
    (stale subject 0 observed authoritative
       ("claimant relied on a " +:+ subject +:+ " that is no longer current")).

Definition expect_capacity (k : EngineCore) (expected : AuthorityExpectation) : Verdict :=
  match ek_capacity k with
  | Some capacity =>
      refuse_when (gen_is_unknown (ex_capacity_generation expected))
        (unknown "capacity_generation" 0 "claimant did not state the capacity generation") then_check
      refuse_when (is_unknown (ex_capacity_snapshot expected))
        (unknown "capacity_snapshot" 0
           "claimant did not state the capacity snapshot identity") then_check
      refuse_when (negb (ex_capacity_snapshot expected =? cs_snapshot capacity))
        (stale "capacity_snapshot" (ex_capacity_snapshot expected) (ex_capacity_snapshot expected)
           (cs_snapshot capacity)
           "claimant relied on a superseded capacity snapshot identity") then_check
      require_generation (ex_capacity_generation expected) (cs_generation capacity)
        "capacity_generation"
  | None => unknown "capacity_snapshot" 0 "capacity authority has published nothing"
  end.

Definition expect_reservations (k : EngineCore) (expected : AuthorityExpectation) : Verdict :=
  match ek_reservations k with
  | Some reservations =>
      refuse_when (gen_is_unknown (ex_reservation_generation expected))
        (unknown "reservation_generation" 0
           "claimant did not state the reservation generation") then_check
      refuse_when (is_unknown (ex_reservation_snapshot expected))
        (unknown "reservation_snapshot" 0
           "claimant did not state the reservation snapshot identity") then_check
      refuse_when (negb (ex_reservation_snapshot expected =? rs_snapshot reservations))
        (stale "reservation_snapshot" (ex_reservation_snapshot expected)
           (ex_reservation_snapshot expected) (rs_snapshot reservations)
           "claimant relied on a superseded reservation snapshot identity") then_check
      require_generation (ex_reservation_generation expected) (rs_generation reservations)
        "reservation_generation"
  | None => unknown "reservation_snapshot" 0 "protected obligations are UNKNOWN"
  end.

Definition path_required (k : EngineCore) : bool :=
  match ek_policy k with Some p => pol_require_path_binding p | None => false end.

Definition expect_catalogs (k : EngineCore) (request : AdmissionRequest) : Verdict :=
  let expected := rq_expected request in
  require_generation (ex_policy_generation expected)
    (from_option pol_generation gen_unknown (ek_policy k)) "policy_generation" then_check
  require_generation (ex_qos_catalog_generation expected)
    (from_option qc_generation gen_unknown (ek_qos k)) "qos_catalog_generation" then_check
  require_generation (ex_priority_catalog_generation expected)
    (from_option prc_generation gen_unknown (ek_priorities k))
    "priority_catalog_generation" then_check
  refuse_when (path_required k || negb (bool_decide (rq_path_candidates request = [])))
    (match ek_paths k with
     | None => unknown "path_authority" 0 "no path catalog has been published"
     | Some paths =>
         require_generation (ex_path_authority_generation expected)
           (pc_path_authority_generation paths) "path_authority_generation"
     end).

Fixpoint expect_bindings (k : EngineCore) (l : list ResourceBinding) : Verdict :=
  match l with
  | [] => None
  | binding :: l' =>
      match find_capacity k (rb_resource binding) with
      | None => unknown "resource" (rb_resource binding)
                  "claimant named a resource the capacity authority has not published"
      | Some entry =>
          refuse_when (negb (bool_decide (rc_evidence entry = EvidenceKnown)))
            (unknown "resource" (rb_resource binding)
               "capacity for this resource is UNKNOWN and cannot authorize admission") then_check
          refuse_when (negb (rb_generation binding =? rc_generation entry))
            (stale "resource" (rb_resource binding) (rb_generation binding) (rc_generation entry)
               "claimant relied on a superseded resource capacity generation") then_check
          expect_bindings k l'
      end
  end.

Fixpoint expect_candidates (k : EngineCore) (l : list PathCandidate) : Verdict :=
  match l with
  | [] => None
  | candidate :: l' =>
      match find_path k (pcd_path candidate) with
      | None => unknown "path" (pcd_path candidate)
                  "claimant named a path the path authority has not published"
      | Some fact =>
          refuse_when (negb (pcd_path_authority_generation candidate =?
                             pf_path_authority_generation fact))
            (stale "path" (pcd_path candidate) (pcd_path_authority_generation candidate)
               (pf_path_authority_generation fact)
               "claimant relied on a superseded path authority generation") then_check
          expect_candidates k l'
      end
  end.

Definition expect_classes (k : EngineCore) (request : AdmissionRequest) : Verdict :=
  match find_qos k (rq_qos request) with
  | None => unknown "qos_class" (rq_qos request) "qos class is not published by the catalog"
  | Some qos_fact =>
      refuse_when (negb (rq_qos_generation request =? qf_generation qos_fact))
        (stale "qos_class" (rq_qos request) (rq_qos_generation request) (qf_generation qos_fact)
           "claimant relied on a superseded qos class generation") then_check
      match find_priority k (rq_priority request) with
      | None => unknown "priority_class" (rq_priority request)
                  "priority class is not published by the catalog"
      | Some priority_fact =>
          refuse_when (negb (rq_priority_generation request =? prf_generation priority_fact))
            (stale "priority_class" (rq_priority request) (rq_priority_generation request)
               (prf_generation priority_fact)
               "claimant relied on a superseded priority class generation")
      end
  end.

(** The first obligation of the reservation decides. *)
Fixpoint expect_refs (obligations : list ProtectedObligation) (l : list ReservationRef) : Verdict :=
  match l with
  | [] => None
  | ref :: l' =>
      match list_find (fun o => po_reservation o = rr_reservation ref) obligations with
      | None => unknown "reservation" (rr_reservation ref)
                  "claimant referenced a reservation the reservation authority has not published"
      | Some (_, obligation) =>
          refuse_when (negb (po_reservation_generation obligation =? rr_generation ref))
            (stale "reservation" (rr_reservation ref) (rr_generation ref)
               (po_reservation_generation obligation)
               "claimant relied on a superseded reservation generation") then_check
          expect_refs obligations l'
      end
  end.

Definition check_expectations (k : EngineCore) (request : AdmissionRequest) : Verdict :=
  expect_capacity k (rq_expected request) then_check
  expect_reservations k (rq_expected request) then_check
  expect_catalogs k request then_check
  expect_bindings k (rq_resource_bindings request) then_check
  expect_candidates k (rq_path_candidates request) then_check
  expect_classes k request then_check
  expect_refs (from_option rs_obligations [] (ek_reservations k)) (rq_reservation_refs request).

(** ** Step 4: policy, qos and priority *)

Definition reject (outcome : AdmissionOutcome) (c : BindingConstraint) : Verdict := Some (outcome, c).

Definition mem (x : N) (l : list N) : bool := existsb (N.eqb x) l.

Definition check_qos_fact (request : AdmissionRequest) (qos_fact : QoSClassFact) : Verdict :=
  refuse_when (minimum (rq_rate request) <? qf_minimum_rate qos_fact)
    (reject RejectQoS (with_rates (qf_minimum_rate qos_fact) (minimum (rq_rate request))
       (constraint_of BC_QoSClass "qos_minimum" (rq_qos request)
          "demand minimum is below the floor of the requested qos class"))) then_check
  refuse_when (qf_maximum_rate qos_fact <? maximum (rq_rate request))
    (reject RejectQoS (with_rates (maximum (rq_rate request)) (qf_maximum_rate qos_fact)
       (constraint_of BC_QoSClass "qos_maximum" (rq_qos request)
          "demand maximum exceeds the ceiling of the requested qos class"))) then_check
  refuse_when (qf_maximum_latency qos_fact <? rq_maximum_latency request)
    (reject RejectQoS (with_rates (rq_maximum_latency request) (qf_maximum_latency qos_fact)
       (constraint_of BC_QoSClass "qos_latency" (rq_qos request)
          "demand latency budget exceeds what the qos class guarantees"))).

Definition check_policy (k : EngineCore) (request : AdmissionRequest) : Verdict :=
  match ek_policy k with
  | None => reject RejectPolicy (constraint_of BC_Policy "policy" 0 "no policy is published")
  | Some p =>
      refuse_when (negb (bool_decide (pol_allowed_qos p = [])) &&
                   negb (mem (rq_qos request) (pol_allowed_qos p)))
        (reject RejectQoS (constraint_of BC_QoSClass "qos_class" (rq_qos request)
           "policy does not permit this qos class")) then_check
      refuse_when (negb (bool_decide (pol_allowed_priorities p = [])) &&
                   negb (mem (rq_priority request) (pol_allowed_priorities p)))
        (reject RejectPolicy (constraint_of BC_PriorityClass "priority_class" (rq_priority request)
           "policy does not permit this priority class")) then_check
      refuse_when (pol_require_reservation_reference p &&
                   bool_decide (rq_reservation_refs request = []))
        (reject RejectPolicy (constraint_of BC_Policy "reservation_reference" 0
           "policy requires the demand to reference an existing reservation")) then_check
      refuse_when (rq_preemptible request && negb (pol_allow_preemptible_admission p))
        (reject RejectPolicy (constraint_of BC_Policy "preemptible" 0
           "policy does not permit preemptible admission")) then_check
      refuse_when (rq_requests_obligation_preemption request)
        (reject RejectObligation (constraint_of BC_Obligation "obligation_preemption" 0
           "admission does not own reservation lifecycle and never preempts a protected obligation"))
        then_check
      match find_qos k (rq_qos request) with
      | None => reject RejectQoS (constraint_of BC_UnknownEvidence "qos_class" (rq_qos request)
                  "qos class is not published")
      | Some qos_fact => check_qos_fact request qos_fact
      end
  end.

(** ** Step 5: authorized path selection *)

Record PathSelection := mkPathSelection {
  ps_outcome : AdmissionOutcome;
  ps_selected : PathId;
  ps_selected_generation : Generation;
  ps_traversal : list ResourceId;
  ps_path_selected : bool;
  ps_capacity_blocked : bool;
  ps_constraint : BindingConstraint;
}.

Definition empty_constraint : BindingConstraint := constraint_of BC_None "" 0 "".

Definition substitution_allowed (k : EngineCore) (request : AdmissionRequest) : bool :=
  rq_allow_path_substitution request &&
  match ek_policy k with Some p => pol_allow_path_substitution p | None => true end.

(** The candidates to try, in order. *)
Definition path_order (k : EngineCore) (request : AdmissionRequest) : list PathCandidate :=
  if is_known (rq_required_path request) then
    match list_find (fun c => pcd_path c = rq_required_path request) (rq_path_candidates request) with
    | Some (_, c) => [c]
    | None => []
    end
  else if negb (substitution_allowed k request) then
    match rq_path_candidates request with c :: _ => [c] | [] => [] end
  else rq_path_candidates request.

(** What becomes of one candidate. *)
Inductive CandidateVerdict :=
  | CandidatePathFailure (c : BindingConstraint)
  | CandidateUnknown (c : BindingConstraint)
  | CandidateCapacityFailure (c : BindingConstraint) (traversal : list ResourceId)
  | CandidateUsable (traversal : list ResourceId).

Definition known_capacity (k : EngineCore) (resource : ResourceId) : bool :=
  match find_capacity k resource with
  | Some entry => bool_decide (rc_evidence entry = EvidenceKnown)
  | None => false
  end.

Definition path_free (k : EngineCore) (fact : PathAdmissionFact) (path : PathId) : N :=
  sat_sub (pf_path_usable_capacity fact) (admitted_on_path (ek_ledger k) path).

Definition resource_short (k : EngineCore) (request : AdmissionRequest) (resource : ResourceId) : bool :=
  match find_capacity k resource with
  | Some entry => allowance_of k resource entry <? minimum (rq_rate request)
  | None => true
  end.

Definition judge_candidate (k : EngineCore) (request : AdmissionRequest) (candidate : PathCandidate)
    : CandidateVerdict :=
  let path := pcd_path candidate in
  match find_path k path with
  | None => CandidatePathFailure (constraint_of BC_Path "path" path
              "path is not published by the path authority")
  | Some fact =>
      match pf_state fact with
      | PathUnknown =>
          CandidateUnknown (constraint_of BC_UnknownEvidence "path" path
            "path state is UNKNOWN and cannot authorize admission")
      | PathDown => CandidatePathFailure (constraint_of BC_Path "path" path "path is not up")
      | PathUp =>
          match list_find (fun r => known_capacity k r = false) (pf_resources fact) with
          | Some (_, resource) =>
              CandidateUnknown (constraint_of BC_UnknownEvidence "resource" resource
                "capacity on the traversed resource is UNKNOWN")
          | None =>
              if rq_maximum_latency request <? pf_path_latency fact then
                CandidatePathFailure
                  (with_rates (rq_maximum_latency request) (pf_path_latency fact)
                     (constraint_of BC_Path "path" path "path latency exceeds the demand budget"))
              else if path_free k fact path <? minimum (rq_rate request) then
                CandidateCapacityFailure
                  (with_rates (minimum (rq_rate request)) (path_free k fact path)
                     (constraint_of BC_Capacity "path" path
                        "authorized path capacity is exhausted below the demand minimum"))
                  (pf_resources fact)
              else if existsb (resource_short k request) (pf_resources fact) then
                CandidateCapacityFailure
                  (with_rates (minimum (rq_rate request)) 0
                     (constraint_of BC_Capacity "path" path
                        "a resource traversed by this path cannot serve the demand minimum"))
                  (pf_resources fact)
              else CandidateUsable (pf_resources fact)
          end
      end
  end.

(** The first failure of each kind the loop has met. *)
Record PathFailures := mkPathFailures {
  fl_unknown : option BindingConstraint;
  fl_capacity : option (BindingConstraint * list ResourceId);
  fl_path : option BindingConstraint;
}.

Definition first_of {A} (seen : option A) (new : A) : option A :=
  match seen with Some _ => seen | None => Some new end.

Definition no_path_usable (fl : PathFailures) : PathSelection :=
  match fl_unknown fl with
  | Some c => mkPathSelection StaleInput 0 0 [] false false c
  | None =>
      match fl_capacity fl with
      | Some (c, traversal) => mkPathSelection Admit 0 0 traversal false true c
      | None =>
          mkPathSelection RejectPath 0 0 [] false false
            (default (constraint_of BC_Path "path" 0 "no authorized path is usable") (fl_path fl))
      end
  end.

Fixpoint try_candidates (k : EngineCore) (request : AdmissionRequest) (fl : PathFailures)
    (order : list PathCandidate) : PathSelection :=
  match order with
  | [] => no_path_usable fl
  | candidate :: order' =>
      match judge_candidate k request candidate with
      | CandidatePathFailure c =>
          try_candidates k request
            (mkPathFailures (fl_unknown fl) (fl_capacity fl) (first_of (fl_path fl) c)) order'
      | CandidateUnknown c =>
          try_candidates k request
            (mkPathFailures (first_of (fl_unknown fl) c) (fl_capacity fl) (fl_path fl)) order'
      | CandidateCapacityFailure c traversal =>
          try_candidates k request
            (mkPathFailures (fl_unknown fl) (first_of (fl_capacity fl) (c, traversal)) (fl_path fl))
            order'
      | CandidateUsable traversal =>
          mkPathSelection Admit (pcd_path candidate) (pcd_path_authority_generation candidate)
            traversal true false empty_constraint
      end
  end.

Definition select_path (k : EngineCore) (request : AdmissionRequest) : PathSelection :=
  if bool_decide (rq_path_candidates request = []) then
    if path_required k then
      mkPathSelection RejectPolicy 0 0 [] false false
        (constraint_of BC_Policy "path_binding" 0
           "policy requires an authorized path binding and none was declared")
    else mkPathSelection Admit 0 0 [] false false empty_constraint
  else try_candidates k request (mkPathFailures None None None) (path_order k request).

(** ** Step 6: capacity, headroom and obligation arithmetic *)

Record CapacityEvaluation := mkCapacityEvaluation {
  ce_outcome : AdmissionOutcome;
  ce_views : list ResourceView;
  ce_ceiling : Rate;
  ce_constraint : BindingConstraint;
}.

Definition defer_preferred (k : EngineCore) (request : AdmissionRequest) : bool :=
  match rq_contention request with
  | ContentionDefer => true
  | ContentionInheritPolicy =>
      match ek_policy k with
      | Some p => bool_decide (pol_on_contention p = ActionDefer)
      | None => false
      end
  | ContentionReject => false
  end.

Definition willing_ticks (k : EngineCore) (request : AdmissionRequest) : N :=
  match ek_policy k with
  | Some p => N.min (rq_deadline_ticks request) (pol_defer_horizon_ticks p)
  | None => 0
  end.

Definition view_of (k : EngineCore) (resource : ResourceId) (entry : ResourceCapacity) : ResourceView :=
  let headroom := headroom_for k entry in
  let obligations := obligations_for k resource in
  let load := admitted (ek_ledger k) resource in
  let available_after_obligations :=
    saturating_sub (saturating_sub (rc_usable entry) headroom) obligations in
  mkResourceView resource (rc_generation entry) (rc_usable entry) headroom obligations load
    available_after_obligations (saturating_sub available_after_obligations load).

(** The refusals of one resource, in the source's order. *)
Definition judge_resource (k : EngineCore) (request : AdmissionRequest) (entry : ResourceCapacity)
    (view : ResourceView) : Verdict :=
  let resource := vw_resource view in
  let min := minimum (rq_rate request) in
  let headroom_available := saturating_sub (rc_usable entry) (vw_headroom view) in
  let defer := defer_preferred k request in
  let willing := willing_ticks k request in
  let horizon := sat_add (ek_tick k) willing in
  refuse_when (rc_usable entry <? min)
    (reject RejectCapacity (with_rates min (rc_usable entry)
       (constraint_of BC_Capacity "resource" resource
          "authoritative usable capacity is below the demand minimum"))) then_check
  refuse_when (headroom_available <? min)
    (reject RejectCapacity (with_rates min headroom_available
       (constraint_of BC_Headroom "resource" resource
          "protected headroom leaves less than the demand minimum"))) then_check
  refuse_when (vw_available_after_obligations view <? min)
    (if defer && obligation_releases_within k resource horizon then
       reject Defer (with_rates min (vw_available_after_obligations view)
         (constraint_of BC_Obligation "resource" resource
            "a protected obligation releases within the deferral horizon"))
     else
       reject RejectObligation (with_rates min (vw_available_after_obligations view)
         (constraint_of BC_Obligation "resource" resource
            "protected obligations hold capacity below the demand minimum"))) then_check
  refuse_when (vw_available_for_new view <? min)
    (if defer && negb (willing =? 0) then
       reject Defer (with_rates min (vw_available_for_new view)
         (constraint_of BC_AdmittedLoad "resource" resource
            "existing admitted load is expected to drain within the deferral horizon"))
     else
       reject RejectCapacity (with_rates min (vw_available_for_new view)
         (constraint_of BC_AdmittedLoad "resource" resource
            "existing admitted load leaves less than the demand minimum"))).

(** The running minimum: the rate, and what it is limited by. *)
Record Limiting := mkLimiting {
  lm_rate : Rate;
  lm_kind : BindingConstraintKind;
  lm_subject : string;
  lm_id : N;
}.

Definition tighten (rate : Rate) (kind : BindingConstraintKind) (subject : string) (id : N)
    (l : Limiting) : Limiting :=
  if rate <? lm_rate l then mkLimiting rate kind subject id else l.

(** The loop over the targets: the views so far and either a refusal or the limit. *)
Fixpoint evaluate_targets (k : EngineCore) (request : AdmissionRequest) (views : list ResourceView)
    (limiting : Limiting) (targets : list ResourceId)
    : list ResourceView * (AdmissionOutcome * BindingConstraint + Limiting) :=
  match targets with
  | [] => (views, inr limiting)
  | resource :: targets' =>
      match find_capacity k resource with
      | Some entry =>
          if bool_decide (rc_evidence entry = EvidenceKnown) then
            let view := view_of k resource entry in
            let views := views ++ [view] in
            match judge_resource k request entry view with
            | Some refusal => (views, inl refusal)
            | None =>
                evaluate_targets k request views
                  (tighten (vw_available_for_new view) BC_AdmittedLoad "resource" resource limiting)
                  targets'
            end
          else (views, inl (StaleInput, constraint_of BC_UnknownEvidence "resource" resource
                  "capacity for this resource is UNKNOWN and cannot authorize admission"))
      | None => (views, inl (StaleInput, constraint_of BC_UnknownEvidence "resource" resource
                  "capacity for this resource is UNKNOWN and cannot authorize admission"))
      end
  end.

(** The selected path's own capacity. *)
Definition evaluate_path (k : EngineCore) (request : AdmissionRequest)
    (selected_path : option PathAdmissionFact) (limiting : Limiting)
    : AdmissionOutcome * BindingConstraint + Limiting :=
  match selected_path with
  | None => inr limiting
  | Some fact =>
      let free := path_free k fact (pf_path fact) in
      if free <? minimum (rq_rate request) then
        inl (RejectCapacity, with_rates (minimum (rq_rate request)) free
          (constraint_of BC_Capacity "path" (pf_path fact)
             "authorized path capacity is exhausted below the demand minimum"))
      else inr (tighten free BC_Capacity "path" (pf_path fact) limiting)
  end.

Definition grant_constraint (request : AdmissionRequest) (limiting : Limiting) : BindingConstraint :=
  with_rates (maximum (rq_rate request)) (lm_rate limiting)
    (constraint_of (lm_kind limiting) (lm_subject limiting) (lm_id limiting)
       (if lm_rate limiting <? maximum (rq_rate request)
        then "the granted rate is capped by this binding constraint"
        else "capacity is sufficient for the requested maximum")).

Definition evaluate_capacity (k : EngineCore) (request : AdmissionRequest)
    (targets : list ResourceId) (selected_path : option PathAdmissionFact) : CapacityEvaluation :=
  let max := maximum (rq_rate request) in
  let '(views, result) :=
    evaluate_targets k request [] (mkLimiting max BC_Capacity "grant" 0) targets in
  match result with
  | inl (outcome, c) => mkCapacityEvaluation outcome views max c
  | inr limiting =>
      match evaluate_path k request selected_path limiting with
      | inl (outcome, c) => mkCapacityEvaluation outcome views max c
      | inr limiting =>
          mkCapacityEvaluation Admit views (lm_rate limiting) (grant_constraint request limiting)
      end
  end.

(** ** Admission *)

Definition refuse_with (request : AdmissionRequest) (claim : ClaimContext) (record_it : bool)
    (outcome : AdmissionOutcome) (c : BindingConstraint) : M EngineCore AdmissionDecision :=
  decision ← refusal request claim outcome c;
  finish_refusal decision request record_it ;;
  mret decision.

(** A refusal after the capacity stage carries the arithmetic it was based on. *)
Definition refuse_evaluated (request : AdmissionRequest) (claim : ClaimContext)
    (views : list ResourceView) (path : PathId) (path_generation : Generation)
    (outcome : AdmissionOutcome) (c : BindingConstraint) : M EngineCore AdmissionDecision :=
  decision ← refusal request claim outcome c;
  k ← get;
  let decision := fill_effective k views decision in
  let decision := decision <| ad_authority :=
    fill_target_authority k views path path_generation (ad_authority decision) |> in
  finish_refusal decision request true ;;
  mret decision.

Definition probe_of (request : AdmissionRequest) : AttemptRecord :=
  mkAttemptRecord (rq_request request) (rq_demand request) (rq_demand_generation request)
    (rq_attempt request) (fingerprint request) 0 RejectPolicy 0.

Definition note_replay : M EngineCore unit :=
  modify (fun k => k <| ek_counters := (ek_counters k) <| ct_idempotent_replays :=
                          ct_idempotent_replays (ek_counters k) +w 1 |> |>).

(** The replay rebuilt from the durable history when the decision is not cached. *)
Definition rebuild_replay (k : EngineCore) (request : AdmissionRequest) (record : DecisionRecord)
    : AdmissionDecision :=
  let authority := fill_authority k AuthorityVector_empty in
  let note := constraint_of BC_None "idempotent_replay" (dr_decision record)
                "identical attempt replayed from the durable decision history" in
  AdmissionDecision_new
    <| ad_decision := dr_decision record |> <| ad_audit := dr_audit record |>
    <| ad_outcome := dr_outcome record |> <| ad_request := dr_request record |>
    <| ad_demand := dr_demand record |> <| ad_demand_generation := dr_demand_generation record |>
    <| ad_attempt := dr_attempt record |> <| ad_epoch := dr_epoch record |>
    <| ad_incarnation := dr_incarnation record |> <| ad_decided_tick := dr_decided_tick record |>
    <| ad_selected_path := dr_path record |>
    <| ad_selected_path_generation := dr_bound_path_generation record |>
    <| ad_granted := dr_granted record |>
    <| ad_minimum_guaranteed := minimum (rq_rate request) |>
    <| ad_desired := desired (rq_rate request) |> <| ad_maximum := maximum (rq_rate request) |>
    <| ad_bound_capacity_generation := dr_bound_capacity_generation record |>
    <| ad_revalidation_required := bool_decide (dr_state record = RS_Invalidated) |>
    <| ad_request_fingerprint := dr_fingerprint record |>
    <| ad_idempotent_replay := true |>
    <| ad_explanation := x_add note (configure_explanation k Explanation_new) |>
    <| ad_authority := av_add AK_CapacitySnapshot (dr_decision record)
                         (dr_bound_capacity_generation record) (dr_epoch record) authority |>.

Definition replay_attempt (request : AdmissionRequest) (claim : ClaimContext)
    (existing : AttemptRecord) : M EngineCore AdmissionDecision :=
  note_replay ;;
  k ← get;
  match ek_decision_cache k !! at_decision existing with
  | Some cached => mret (cached <| ad_idempotent_replay := true |>)
  | None =>
      match history_find (at_decision existing) (ek_history k) with
      | None =>
          refuse_with request claim false ConflictingInput
            (constraint_of BC_IdentityConflict "attempt" (rq_attempt request)
               "attempt was acknowledged but its decision record has been retired")
      | Some record => mret (rebuild_replay k request record)
      end
  end.

Definition refuse_conflict (request : AdmissionRequest) (claim : ClaimContext) (cl : Classification)
    : M EngineCore AdmissionDecision :=
  refuse_with request claim false ConflictingInput
    (with_generations (at_fingerprint (cl_existing cl)) (fingerprint request)
       (constraint_of BC_IdentityConflict "attempt" (rq_attempt request)
          (if cl_request_id_conflict cl
           then "request identity was reused for different content"
           else "attempt identity was reused with different content"))).

(** [std::unique] on a sorted vector. *)
Fixpoint unique (l : list N) : list N :=
  match l with
  | [] => []
  | x :: l' =>
      match l' with
      | y :: _ => if x =? y then unique l' else x :: unique l'
      | [] => [x]
      end
  end.

(** The declared bindings and whatever the path traverses, sorted, without duplicates. *)
Definition targets_of (request : AdmissionRequest) (traversal : list ResourceId) : list ResourceId :=
  unique (merge_sort N.le ((rb_resource <$> rq_resource_bindings request) ++ traversal)).

Definition degrade_allowed (k : EngineCore) (request : AdmissionRequest) : bool :=
  match ek_policy k with Some p => pol_allow_degraded p | None => false end &&
  negb (bool_decide (rq_degradation request = DegradeNever)) &&
  match find_qos k (rq_qos request) with Some f => qf_degradation_allowed f | None => true end.

(** The verdict on a grant that covers the minimum: the outcome and the constraint
    to report, or a refusal. *)
Definition verdict_of (k : EngineCore) (request : AdmissionRequest) (grant : Rate)
    (binding : BindingConstraint) : (AdmissionOutcome * BindingConstraint) + (AdmissionOutcome * BindingConstraint) :=
  if grant <? desired (rq_rate request) then
    if negb (degrade_allowed k request) then
      inl (RejectCapacity, with_rates (desired (rq_rate request)) grant
        (constraint_of BC_Degradation "grant" 0
           "the requested rate cannot be met and degradation is not permitted"))
    else
      inr (AdmitDegraded, with_rates (desired (rq_rate request)) grant
        (constraint_of BC_Degradation "grant" 0
           "admitted below the desired rate but at or above the demand minimum"))
  else inr (Admit, binding).

(** Steps 8 and on: the decision is issued and committed. *)
Definition issue_grant (request : AdmissionRequest) (claim : ClaimContext) (targets : list ResourceId)
    (path : PathId) (path_generation : Generation) (views : list ResourceView) (grant : Rate)
    (verdict : AdmissionOutcome) (binding : BindingConstraint) : M EngineCore AdmissionDecision :=
  decision ← begin_decision request claim verdict;
  k ← get;
  let decision := decision
    <| ad_selected_path := path |> <| ad_selected_path_generation := path_generation |>
    <| ad_granted := grant |> <| ad_minimum_guaranteed := minimum (rq_rate request) |>
    <| ad_bound_capacity_generation := from_option cs_generation gen_unknown (ek_capacity k) |>
    <| ad_revalidation_required := true |> in
  let decision := fill_effective k views decision in
  let decision := decision
    <| ad_authority := fill_target_authority k views path path_generation (ad_authority decision) |>
    <| ad_explanation := x_add binding (ad_explanation decision) |> in
  finish_admission decision request ((fun r => (r, grant)) <$> targets) ;;
  mret decision.

(** Steps 6 to 8 for a request that passed every check. *)
Definition place_request (request : AdmissionRequest) (claim : ClaimContext)
    : M EngineCore AdmissionDecision :=
  k ← get;
  let sel := select_path k request in
  if negb (bool_decide (ps_outcome sel = Admit)) then
    refuse_with request claim true (ps_outcome sel) (ps_constraint sel)
  else
    let targets := targets_of request (ps_traversal sel) in
    if bool_decide (targets = []) then
      refuse_with request claim true RejectPolicy
        (constraint_of BC_RequestContract "request" (rq_request request)
           "request resolves to an empty governed resource set")
    else
      let fact := if ps_path_selected sel then find_path k (ps_selected sel) else None in
      let ce := evaluate_capacity k request targets fact in
      let path := ps_selected sel in
      let path_generation := ps_selected_generation sel in
      let refuse := refuse_evaluated request claim (ce_views ce) path path_generation in
      if negb (bool_decide (ce_outcome ce = Admit)) then refuse (ce_outcome ce) (ce_constraint ce)
      else
        let grant := clamped_to (ce_ceiling ce) (maximum (rq_rate request)) in
        if grant <? minimum (rq_rate request) then refuse RejectCapacity (ce_constraint ce)
        else
          match verdict_of k request grant (ce_constraint ce) with
          | inl (outcome, c) => refuse outcome c
          | inr (verdict, binding) =>
              issue_grant request claim targets path path_generation (ce_views ce) grant verdict
                binding
          end.

(** The checks made on a new attempt, in order. *)
Definition check_request (k : EngineCore) (request : AdmissionRequest) : Verdict :=
  check_readiness k then_check check_expectations k request then_check check_policy k request.

Definition admit_new (request : AdmissionRequest) (claim : ClaimContext)
    : M EngineCore AdmissionDecision :=
  k ← get;
  match check_request k request with
  | Some (outcome, c) => refuse_with request claim true outcome c
  | None => place_request request claim
  end.

Definition admit_locked (request : AdmissionRequest) (claim : ClaimContext)
    : M EngineCore AdmissionDecision :=
  k ← get;
  match validate_request request with
  | Err contract =>
      refuse_with request claim false RejectPolicy
        (constraint_of BC_RequestContract "request" (rq_request request) (message contract))
  | Val _ =>
      match check_fence k claim with
      | Some (outcome, c) => refuse_with request claim true outcome c
      | None =>
          let cl := classify (probe_of request) (ek_attempts k) in
          match cl_disposition cl with
          | AttemptReplay => replay_attempt request claim (cl_existing cl)
          | AttemptConflict => refuse_conflict request claim cl
          | AttemptNew => admit_new request claim
          end
      end
  end.

Definition admit_local (request : AdmissionRequest) : M EngineCore AdmissionDecision :=
  admit_locked request
    (in_process <| cc_trace := prov_trace (rq_provenance request) |>
                <| cc_attempt := rq_attempt request |>).

(** ** Release *)

Definition forget_cached (decision : AdmissionDecisionId) : M EngineCore unit :=
  modify (fun k => k <| ek_decision_cache := delete decision (ek_decision_cache k) |>).

(** Updating a decision's record in place, when it is retained. *)
Definition update_record (decision : AdmissionDecisionId) (f : DecisionRecord -> DecisionRecord)
    : M EngineCore unit :=
  modify (fun k =>
    match history_find decision (ek_history k) with
    | Some existing => k <| ek_history := (history_update decision (f existing) (ek_history k)).2 |>
    | None => k
    end).

Definition held_entries (l : AdmittedLoadLedger) (decision : AdmissionDecisionId) : list LedgerEntry :=
  filter (fun e => le_decision e = decision) (entries l).

(** The explanation is an in-out parameter. *)
Definition release_decision_locked (decision : AdmissionDecisionId) (reason : RevocationReason)
    (state : RevalidationState) (explanation : Explanation) : M EngineCore Explanation :=
  k ← get;
  if negb (holds (ek_ledger k) decision) then fail NotFound "decision holds no admitted load"
  else
    write_release (mkReleaseRecord decision (ek_epoch k) reason (held_entries (ek_ledger k) decision)) ;;
    released ← on_ledger (release decision);
    let latch := SumLatch_of (le_amount <$> released) in
    k ← get;
    write_revocation (mkRevocationRecord decision (ek_epoch k) (ek_audit k) reason state) ;;
    update_record decision (fun r => r <| dr_state := state |> <| dr_reason := reason |>
                                       <| dr_ledger_live := false |>) ;;
    modify (fun k => k <| ek_history := note_release (ek_history k) |>) ;;
    forget_cached decision ;;
    mret (x_add (with_rates 0 (saturated_total latch)
                   (constraint_of BC_Obligation "revocation" decision (reason_to_string reason)))
                explanation).

(** ** Revalidation *)

Definition result_for (k : EngineCore) (decision : AdmissionDecisionId) (record : DecisionRecord)
    : RevalidationResult :=
  RevalidationResult_new
    <| rv_decision := decision |> <| rv_original_outcome := dr_outcome record |>
    <| rv_granted := dr_granted record |> <| rv_tick := ek_tick k |>
    <| rv_explanation := configure_explanation k Explanation_new |>
    <| rv_authority := fill_authority k AuthorityVector_empty |>.

Definition rv_note (c : BindingConstraint) (r : RevalidationResult) : RevalidationResult :=
  r <| rv_explanation := x_add c (rv_explanation r) |>.

(** The grant is withdrawn: state, reason and note are set, then the load released. *)
Definition withdraw (decision : AdmissionDecisionId) (reason : RevocationReason)
    (c : BindingConstraint) (result : RevalidationResult) : M EngineCore RevalidationResult :=
  let result := rv_note c (result <| rv_state := RS_Revoked |> <| rv_reason := reason |>) in
  explanation ← release_decision_locked decision reason RS_Revoked (rv_explanation result);
  mret (result <| rv_explanation := explanation |> <| rv_ledger_released := true |>).

(** A generation the grant was bound to is no longer the current one. *)
Definition generations_moved (k : EngineCore) (record : DecisionRecord) (capacity : CapacitySnapshot)
    (policy : AdmissionPolicy) : bool :=
  negb (dr_bound_capacity_generation record =? cs_generation capacity) ||
  negb (dr_bound_policy_generation record =? pol_generation policy) ||
  match ek_qos k with
  | Some q => negb (dr_bound_qos_generation record =? qc_generation q) | None => false end ||
  match ek_priorities k with
  | Some p => negb (dr_bound_priority_generation record =? prc_generation p) | None => false end ||
  match ek_reservations k with
  | Some r => negb (dr_bound_reservation_generation record =? rs_generation r) | None => false end ||
  match ek_paths k with
  | Some p => negb (dr_bound_path_generation record =? pc_path_authority_generation p)
  | None => false end.

(** The path check: a withdrawal note when the path no longer justifies the grant. *)
Definition check_granted_path (k : EngineCore) (path : PathId) : option BindingConstraint :=
  if is_known path then
    match find_path k path with
    | None => Some (constraint_of BC_Path "path" path
                "the path that justified this grant is no longer published")
    | Some fact =>
        if bool_decide (pf_state fact = PathUp) then None
        else Some (constraint_of BC_Path "path" path
                "the path that justified this grant is not up")
    end
  else None.

(** The accounting check over the granted entries, first violation first. *)
Definition check_entry (k : EngineCore) (unknown_detail over_detail : string) (entry : LedgerEntry)
    : option BindingConstraint :=
  let resource := le_resource entry in
  match find_capacity k resource with
  | Some cap =>
      if bool_decide (rc_evidence cap = EvidenceKnown) then
        let allowance := allowance_of k resource cap in
        let load := admitted (ek_ledger k) resource in
        if allowance <? load then
          Some (with_rates load allowance (constraint_of BC_Capacity "resource" resource over_detail))
        else None
      else Some (constraint_of BC_UnknownEvidence "resource" resource unknown_detail)
  | None => Some (constraint_of BC_UnknownEvidence "resource" resource unknown_detail)
  end.

Fixpoint check_entries (k : EngineCore) (unknown_detail over_detail : string) (l : list LedgerEntry)
    : option BindingConstraint :=
  match l with
  | [] => None
  | entry :: l' =>
      match check_entry k unknown_detail over_detail entry with
      | Some c => Some c
      | None => check_entries k unknown_detail over_detail l'
      end
  end.

(** The end of a revalidation that found nothing to withdraw. *)
Definition conclude (decision : AdmissionDecisionId) (invalidated : bool)
    (result : RevalidationResult) : M EngineCore RevalidationResult :=
  let state := if invalidated then RS_Invalidated else RS_Valid in
  let reason := if invalidated then GenerationAdvance else NotRevoked in
  let note :=
    constraint_of (if invalidated then BC_StaleGeneration else BC_None) "revalidation" decision
      (if invalidated then "authority advanced past the generation this grant was bound to"
       else "authority generations still match the grant") in
  let result := rv_note note (result <| rv_state := state |> <| rv_reason := reason |>) in
  (if invalidated then
     k ← get;
     write_revocation (mkRevocationRecord decision (ek_epoch k) (ek_audit k) reason state) ;;
     update_record decision (fun r => r <| dr_state := state |> <| dr_reason := reason |>)
   else mret tt) ;;
  mret result.

(** The substantive checks: no missing authority passes. *)
Definition revalidate_grant (k : EngineCore) (decision : AdmissionDecisionId)
    (record : DecisionRecord) (result : RevalidationResult) : M EngineCore RevalidationResult :=
  match ek_capacity k with
  | None =>
      withdraw decision CapacityReduction
        (constraint_of BC_UnknownEvidence "capacity_snapshot" 0
           "capacity authority is UNKNOWN; the grant cannot be justified") result
  | Some capacity =>
      match ek_reservations k, ek_policy k with
      | Some _, Some policy =>
          match check_granted_path k (dr_path record) with
          | Some c => withdraw decision PathRevoked c result
          | None =>
              match check_entries k "capacity for a granted resource is UNKNOWN"
                      "admitted load plus obligations and headroom now exceeds authoritative usable capacity"
                      (held_entries (ek_ledger k) decision) with
              | Some c => withdraw decision CapacityReduction c result
              | None => conclude decision (generations_moved k record capacity policy) result
              end
          end
      | _, _ =>
          withdraw decision PolicyChange
            (constraint_of BC_UnknownEvidence "authority" 0
               "obligation or policy authority is UNKNOWN") result
      end
  end.

Definition already_released (record : DecisionRecord) : bool :=
  bool_decide (dr_state record = RS_Revoked) || bool_decide (dr_state record = RS_Expired).

Definition revalidate_locked (decision : AdmissionDecisionId) : M EngineCore RevalidationResult :=
  k ← get;
  match history_find decision (ek_history k) with
  | None => fail NotFound "decision is not retained in history"
  | Some record =>
      if negb (is_admitting (dr_outcome record)) then
        fail InvalidArgument "decision did not admit traffic and holds no capacity"
      else
      let result := result_for k decision record in
      if already_released record then
        mret (rv_note (constraint_of BC_Obligation "revalidation" decision
                         "decision was already released; nothing further to revoke")
                (result <| rv_state := dr_state record |> <| rv_reason := dr_reason record |>))
      else if negb (holds (ek_ledger k) decision) then
        update_record decision (fun r => r <| dr_state := RS_Revoked |>
                                           <| dr_reason := ClaimantDeath |>
                                           <| dr_ledger_live := false |>) ;;
        mret (rv_note (constraint_of BC_Obligation "revalidation" decision
                         "decision holds no admitted load in this incarnation")
                (result <| rv_state := RS_Revoked |> <| rv_reason := ClaimantDeath |>))
      else if negb (dr_epoch record =? ek_epoch k) ||
              negb (dr_incarnation record =? ek_incarnation k) then
        withdraw decision CoordinatorRestart
          (constraint_of BC_Fence "revalidation" decision
             "decision was issued by a previous coordinator incarnation") result
      else if existsb le_requires_revalidation (held_entries (ek_ledger k) decision) then
        mret (rv_note (constraint_of BC_UnknownEvidence "revalidation" decision
                         "recovered load has not yet been reconciled against republished capacity")
                (result <| rv_state := RS_Ambiguous |>))
      else revalidate_grant k decision record result
  end.

(** ** Revocation *)

Definition revoke_locked (decision : AdmissionDecisionId) (reason : RevocationReason)
    : M EngineCore RevalidationResult :=
  k ← get;
  match history_find decision (ek_history k) with
  | None => fail NotFound "decision is not retained in history"
  | Some record =>
      let result := (result_for k decision record) <| rv_reason := reason |> in
      if negb (is_admitting (dr_outcome record)) then
        mret (rv_note (constraint_of BC_None "revocation" decision
                         "decision never admitted traffic; nothing to release")
                (result <| rv_state := RS_Valid |>))
      else if already_released record || negb (holds (ek_ledger k) decision) then
        mret (rv_note (constraint_of BC_None "revocation" decision
                         "decision already holds no admitted load")
                (result <| rv_state := RS_Revoked |>
                        <| rv_reason := if negb (bool_decide (dr_reason record = NotRevoked))
                                        then dr_reason record else reason |>))
      else
        let result := result <| rv_state := RS_Revoked |> in
        explanation ← release_decision_locked decision reason RS_Revoked (rv_explanation result);
        mret (result <| rv_explanation := explanation |> <| rv_ledger_released := true |>)
  end.

(** ** Accounting enforcement *)

Definition enforcement_reason (trigger : EnforcementTrigger) : RevocationReason :=
  match trigger with
  | ReservationPublication => ObligationChange
  | PolicyPublication => PolicyChange
  | RestartRecovery => CoordinatorRestart
  | CapacityPublication | TriggerNone => CapacityReduction
  end.

Definition revoke_note (k : EngineCore) (held : list LedgerEntry) : option BindingConstraint :=
  check_entries k "owned load touches a resource whose capacity is UNKNOWN"
    "admitted load plus obligations and headroom exceeds authoritative usable capacity; revoking newest first"
    held.

(** The pass: the report so far and the grants not yet revoked. *)
Definition PassState : Type := ReconciliationReport * gmap N (list LedgerEntry).

Definition revoke_in_pass (reason : RevocationReason) (record : DecisionRecord)
    (held : list LedgerEntry) (note : BindingConstraint) (st : PassState) : M EngineCore PassState :=
  k ← get;
  let '(report, held_by) := st in
  let latch := SumLatch_of (le_amount <$> held) in
  let explanation := x_add note (configure_explanation k Explanation_new) in
  release_decision_locked (dr_decision record) reason RS_Revoked explanation ;;
  mret (report
          <| rp_revoked_decisions := rp_revoked_decisions report ++ [dr_decision record] |>
          <| rp_constraints := rp_constraints report ++ [note] |>
          <| rp_revoked := rp_revoked report +w 1 |>
          <| rp_released := sat_add (rp_released report) (saturated_total latch) |>,
        delete (dr_decision record) held_by).

(** One record: the grant is kept when it fits. *)
Definition enforce_record (reason : RevocationReason) (st : PassState) (record : DecisionRecord)
    : M EngineCore PassState :=
  k ← get;
  if negb (is_admitting (dr_outcome record)) then mret st
  else
    match st.2 !! dr_decision record with
    | None => mret st
    | Some held =>
        match revoke_note k held with
        | None => mret st
        | Some note => revoke_in_pass reason record held note st
        end
    end.

Fixpoint enforce_loop (reason : RevocationReason) (st : PassState)
    (newest_first : list DecisionRecord) : M EngineCore PassState :=
  match newest_first with
  | [] => mret st
  | record :: l' => st ← enforce_record reason st record; enforce_loop reason st l'
  end.

(** The resources whose obligations and headroom alone exceed their capacity. *)
Definition infeasible_resources (k : EngineCore) (capacity : CapacitySnapshot) : N :=
  sizeN (filter (fun e =>
    rc_evidence e = EvidenceKnown /\
    rc_usable e < saturating_add (obligations_for k (rc_resource e)) (headroom_for k e))
    (cs_resources capacity)).

(** The ledger's entries grouped by decision. *)
Definition held_by_decision (l : AdmittedLoadLedger) : gmap N (list LedgerEntry) :=
  foldl (fun m e => <[le_decision e := default [] (m !! le_decision e) ++ [e]]> m) ∅ (entries l).

Definition enforce_with (trigger : EnforcementTrigger) (capacity : CapacitySnapshot)
    : M EngineCore unit :=
  k ← get;
  let report := ReconciliationReport_new <| rp_trigger := trigger |> <| rp_performed := true |> in
  st ← enforce_loop (enforcement_reason trigger) (report, held_by_decision (ek_ledger k))
         (rev (in_audit_order (ek_history k)));
  modify (fun k =>
    let report := (st.1 : ReconciliationReport) <| rp_infeasible_resources := infeasible_resources k capacity |>
                         <| rp_retained := live_decisions (ek_ledger k) |> in
    k <| ek_ledger := clear_revalidation_flags (ek_ledger k) |>
      <| ek_pending_reconciliation := false |> <| ek_reconciliation := report |>) ;;
  if negb (rp_revoked st.1 =? 0) then write_audit_mark else mret tt.

Definition enforce_accounting_locked (trigger : EnforcementTrigger) : M EngineCore unit :=
  k ← get;
  if ft_fail_reconciliation (ek_faults k) then
    modify (fun k => k <| ek_faults := (ek_faults k) <| ft_fail_reconciliation := false |> |>) ;;
    fail DurableFailure "injected enforcement failure"
  else
    match ek_capacity k with
    | None =>
        modify (fun k => k <| ek_reconciliation :=
                                ReconciliationReport_new <| rp_trigger := trigger |> |>)
    | Some capacity => enforce_with trigger capacity
    end.
