(* ===== verification/Capacity.v ===== *)
(** * Capacity arithmetic and path selection

    What the lookups, the obligation index, the path selection and the capacity
    stage of [Engine] and [Admission] compute, for an engine whose published inputs
    passed validation. *)

From S2P Require Import Prelude Checked Identity Hash State Policy Request Authority.
From S2P Require Import Decision Ledger History Bytes Records Journal Engine Admission.
Local Open Scope N_scope.
Local Open Scope naf_scope.

(** ** Published inputs

    Every snapshot the engine holds has passed validation, its numbers are 64-bit
    words, and the obligation index is the one rebuilt from the reservations. *)

Record inputs_wf (k : EngineCore) : Prop := {
  in_capacity : forall c, ek_capacity k = Some c ->
    capacity_wf c /\ Forall (fun e => u64 (rc_usable e)) (cs_resources c);
  in_reservations : forall s, ek_reservations k = Some s ->
    reservations_wf s /\ Forall (fun o => u64 (po_reserved o)) (rs_obligations s);
  in_paths : forall c, ek_paths k = Some c ->
    paths_wf c /\ Forall (fun f => u64 (pf_path_usable_capacity f)) (pc_paths c);
  in_index : ek_obligation_totals k = ek_obligation_totals (rebuild_obligation_index k) /\
             ek_obligation_indices k = ek_obligation_indices (rebuild_obligation_index k);
}.

(** ** Binary search *)

Section find_by.
Context {T : Type} (project : T -> N).

Lemma find_by_sound (key : N) (l : list T) (x : T) :
  find_by project key l = Some x -> x ∈ l /\ project x = key.
Proof.
  unfold find_by. destruct (list_find _ l) as [[i y]|] eqn:E; cbn; [|done].
  apply list_find_Some in E as (Hi & _ & _). destruct (N.eqb_spec (project y) key); [|done].
  intros [= ->]. split; [by eapply list_elem_of_lookup_2|done].
Qed.

Lemma find_by_complete (key : N) (l : list T) (x : T) :
  increasing (project <$> l) -> x ∈ l -> project x = key -> find_by project key l = Some x.
Proof.
  intros Hs%increasing_strongly. revert Hs. unfold find_by.
  induction l as [|y l IH]; [by intros _ ?%not_elem_of_nil|].
  rewrite fmap_cons. intros [Hl Hy]%StronglySorted_inv Hin Hx. cbn [list_find].
  destruct (decide (~ project y < key)) as [Hge|Hlt].
  - cbn. apply elem_of_cons in Hin as [->|Hin]; [by rewrite Hx, N.eqb_refl|].
    rewrite Forall_fmap, Forall_forall in Hy. specialize (Hy x Hin). cbn in Hy. lia.
  - apply elem_of_cons in Hin as [->|Hin]; [lia|]. specialize (IH Hl Hin Hx).
    by destruct (list_find _ l) as [[i z]|].
Qed.
End find_by.

Lemma find_capacity_some (k : EngineCore) (r : ResourceId) (e : ResourceCapacity) :
  find_capacity k r = Some e ->
  exists c, ek_capacity k = Some c /\ e ∈ cs_resources c /\ rc_resource e = r.
Proof.
  unfold find_capacity. destruct (ek_capacity k) as [c|]; cbn; [|done].
  intros []%find_by_sound. by exists c.
Qed.

Lemma find_path_some (k : EngineCore) (p : PathId) (f : PathAdmissionFact) :
  find_path k p = Some f -> exists c, ek_paths k = Some c /\ f ∈ pc_paths c /\ pf_path f = p.
Proof.
  unfold find_path. destruct (ek_paths k) as [c|]; cbn; [|done].
  intros []%find_by_sound. by exists c.
Qed.

(** ** The obligation index *)

(** The indices, from [n] on, of the obligations on [r]. *)
Fixpoint positions (n : nat) (r : ResourceId) (l : list ProtectedObligation) : list nat :=
  match l with
  | [] => []
  | o :: l' => (if decide (po_resource o = r) then [n] else []) ++ positions (S n) r l'
  end.

Definition numbered_from (n : nat) (l : list ProtectedObligation) : list (nat * ProtectedObligation) :=
  imap (fun i o => ((n + i)%nat, o)) l.

Lemma numbered_from_cons (n : nat) (o : ProtectedObligation) (l : list ProtectedObligation) :
  numbered_from n (o :: l) = (n, o) :: numbered_from (S n) l.
Proof.
  unfold numbered_from. cbn. f_equal; [f_equal; lia|]. apply imap_ext. intros. cbn. f_equal. lia.
Qed.

Lemma index_totals (r : ResourceId) (l : list ProtectedObligation) (n : nat)
    (acc : gmap N Rate * gmap N (list nat)) :
  Forall (fun o => u64 (po_reserved o)) l ->
  (forall x, total_of acc.1 x + obligation_sum x l < two64) ->
  total_of (foldl index_obligation acc (numbered_from n l)).1 r =
  total_of acc.1 r + obligation_sum r l.
Proof.
  intros Hl. revert n acc. induction Hl as [|o l Ho Hl IH]; intros n [t m] Hsum.
  - unfold obligation_sum. cbn. lia.
  - rewrite numbered_from_cons. cbn [foldl index_obligation fst snd] in *. rewrite IH; cbn [fst].
    + rewrite total_of_insert, obligation_sum_cons. destruct (decide (po_resource o = r)) as [<-|]; [|lia].
      specialize (Hsum (po_resource o)). rewrite obligation_sum_cons, decide_True in Hsum by done.
      rewrite sat_add_spec; unfold u64, u64_max, two64 in *; lia.
    + intros x. specialize (Hsum x). rewrite obligation_sum_cons in Hsum. rewrite total_of_insert.
      destruct (decide (po_resource o = x)) as [<-|]; [|lia].
      rewrite sat_add_spec; unfold u64, u64_max, two64 in *; lia.
Qed.

Lemma index_indices (r : ResourceId) (l : list ProtectedObligation) (n : nat)
    (acc : gmap N Rate * gmap N (list nat)) :
  default [] ((foldl index_obligation acc (numbered_from n l)).2 !! r) =
  default [] (acc.2 !! r) ++ positions n r l.
Proof.
  revert n acc. induction l as [|o l IH]; intros n [t m]; [by rewrite app_nil_r|].
  rewrite numbered_from_cons. cbn [foldl index_obligation positions]. rewrite IH. cbn [snd].
  destruct (decide (po_resource o = r)) as [<-|].
  - rewrite lookup_insert_eq. cbn. by rewrite <- app_assoc.
  - by rewrite lookup_insert_ne.
Qed.

Lemma positions_obligations (s : ReservationSnapshot) (r : ResourceId)
    (pre l : list ProtectedObligation) :
  rs_obligations s = pre ++ l ->
  obligations_at s (positions (length pre) r l) = on_resource r l.
Proof.
  unfold obligations_at, on_resource. revert pre. induction l as [|o l IH]; intros pre Hs; [done|].
  cbn [positions]. rewrite filter_cons, bind_app.
  rewrite Hs in IH. specialize (IH (pre ++ [o])). rewrite length_app, Nat.add_1_r, <- app_assoc in IH.
  rewrite Hs, IH by done. destruct (decide (po_resource o = r)); [|done].
  cbn. by rewrite list_lookup_middle.
Qed.

Section index.
Context (k : EngineCore) (Hk : inputs_wf k) (s : ReservationSnapshot)
  (Hs : ek_reservations k = Some s).

Lemma obligations_for_sum (r : ResourceId) : obligations_for k r = obligation_sum r (rs_obligations s).
Proof.
  destruct (in_reservations k Hk s Hs) as [Hwf Hw]. unfold obligations_for.
  rewrite (proj1 (in_index k Hk)). unfold rebuild_obligation_index. rewrite Hs. cbn.
  change (imap pair (rs_obligations s)) with (numbered_from 0 (rs_obligations s)).
  rewrite index_totals; [done|done|]. intros x. apply (rwf_sums s Hwf x).
Qed.

Lemma bucket_obligations (r : ResourceId) :
  obligations_at s (default [] (ek_obligation_indices k !! r)) = on_resource r (rs_obligations s).
Proof.
  rewrite (proj2 (in_index k Hk)). unfold rebuild_obligation_index. rewrite Hs. cbn.
  change (imap pair (rs_obligations s)) with (numbered_from 0 (rs_obligations s)).
  rewrite index_indices. by apply (positions_obligations s r []).
Qed.
End index.

(** ** Headroom and allowance *)

Lemma headroom_le (k : EngineCore) (e : ResourceCapacity) : headroom_for k e <= rc_usable e.
Proof. unfold headroom_for. rewrite clamped_to_min. lia. Qed.

Lemma allowance_exact (k : EngineCore) (r : ResourceId) (e : ResourceCapacity) :
  u64 (rc_usable e) ->
  allowance_of k r e = rc_usable e - headroom_for k e - obligations_for k r.
Proof.
  intros He. unfold allowance_of, saturating_sub. rewrite (sat_sub_spec (rc_usable e)) by done.
  apply sat_sub_spec, (u64_le _ _ He), N.le_sub_l.
Qed.

Lemma found_usable_word (k : EngineCore) (r : ResourceId) (e : ResourceCapacity) :
  inputs_wf k -> find_capacity k r = Some e -> u64 (rc_usable e).
Proof.
  intros Hk (c & Hc & Hin & _)%find_capacity_some.
  destruct (in_capacity k Hk c Hc) as [_ Hw]. rewrite Forall_forall in Hw. auto.
Qed.

(** What is left of a resource for new admissions; nothing when it is UNKNOWN. *)
Definition room (k : EngineCore) (r : ResourceId) : N :=
  match find_capacity k r with
  | Some e => if bool_decide (rc_evidence e = EvidenceKnown)
              then allowance_of k r e - admitted (ek_ledger k) r else 0
  | None => 0
  end.
Definition has_capacity (k : EngineCore) (r : ResourceId) : Prop := known_capacity k r = true.

Lemma has_capacity_iff (k : EngineCore) (r : ResourceId) :
  has_capacity k r <-> exists e, find_capacity k r = Some e /\ rc_evidence e = EvidenceKnown.
Proof.
  unfold has_capacity, known_capacity. destruct (find_capacity k r) as [e|]; [|naive_solver].
  rewrite bool_decide_eq_true. naive_solver.
Qed.

Lemma room_found (k : EngineCore) (r : ResourceId) (e : ResourceCapacity) :
  find_capacity k r = Some e -> rc_evidence e = EvidenceKnown ->
  room k r = allowance_of k r e - admitted (ek_ledger k) r.
Proof. intros H1 H2. unfold room. rewrite H1. by rewrite bool_decide_true. Qed.

Lemma room_word (k : EngineCore) (r : ResourceId) : inputs_wf k -> u64 (room k r).
Proof.
  intros Hk. unfold room. destruct (find_capacity k r) as [e|] eqn:E; [|done].
  destruct (bool_decide _); [|done]. pose proof (found_usable_word k r e Hk E) as He.
  rewrite allowance_exact by done. eapply u64_le; [exact He|]. lia.
Qed.

(** ** Path selection *)

(** What makes a published path usable for a request. *)
Record path_usable (k : EngineCore) (request : AdmissionRequest) (p : PathId)
    (fact : PathAdmissionFact) : Prop := {
  pu_published : find_path k p = Some fact;
  pu_up : pf_state fact = PathUp;
  pu_known : Forall (has_capacity k) (pf_resources fact);
  pu_latency : pf_path_latency fact <= rq_maximum_latency request;
  pu_free : minimum (rq_rate request) <= path_free k fact p;
  pu_resources : Forall (fun r => resource_short k request r = false) (pf_resources fact);
}.

Lemma judge_usable (k : EngineCore) (request : AdmissionRequest) (c : PathCandidate)
    (traversal : list ResourceId) :
  judge_candidate k request c = CandidateUsable traversal <->
  exists fact, path_usable k request (pcd_path c) fact /\ traversal = pf_resources fact.
Proof.
  unfold judge_candidate. destruct (find_path k (pcd_path c)) as [fact|] eqn:Hf.
  2:{ split; [done|]. intros (f & [] & _). congruence. }
  assert (Hrest : (exists f, path_usable k request (pcd_path c) f /\ traversal = pf_resources f) <->
                  path_usable k request (pcd_path c) fact /\ traversal = pf_resources fact).
  { split; [|by exists fact]. intros (f & Hu & ->).
    assert (f = fact) as -> by (pose proof (pu_published _ _ _ _ Hu); congruence). done. }
  rewrite Hrest. clear Hrest.
  destruct (pf_state fact) eqn:Hup; [by split; [|intros [[] _]; congruence]| |
                                     by split; [|intros [[] _]; congruence]].
  destruct (list_find _ (pf_resources fact)) as [[i r]|] eqn:Hlf.
  { split; [done|]. intros [[_ _ Hk _ _ _] _]. apply list_find_Some in Hlf as (Hr & Hn & _).
    rewrite Forall_forall in Hk. unfold has_capacity in Hk.
    rewrite Hk in Hn; [done|by eapply list_elem_of_lookup_2]. }
  apply list_find_None in Hlf.
  destruct (N.ltb_spec (rq_maximum_latency request) (pf_path_latency fact));
    [by split; [|intros [[] _]; lia]|].
  destruct (N.ltb_spec (path_free k fact (pcd_path c)) (minimum (rq_rate request)));
    [by split; [|intros [[] _]; lia]|].
  destruct (existsb _ (pf_resources fact)) eqn:Hex.
  { split; [done|]. intros [[_ _ _ _ _ Hs] _]. apply existsb_exists in Hex as (r & Hr & Hsh).
    rewrite Forall_forall in Hs. rewrite Hs in Hsh; [done|by apply list_elem_of_In]. }
  split; [intros [= <-]|by intros [_ ->]]. split; [|done]. constructor; try done.
  - eapply Forall_impl; [exact Hlf|]. intros r Hr. unfold has_capacity.
    cbn in Hr. by destruct (known_capacity k r).
  - apply Forall_forall. intros r Hr. destruct (resource_short k request r) eqn:E; [|done].
    enough (existsb (resource_short k request) (pf_resources fact) = true) by congruence.
    apply existsb_exists. exists r. by rewrite <- list_elem_of_In.
Qed.

Definition usable_candidate (k : EngineCore) (request : AdmissionRequest) (c : PathCandidate) : Prop :=
  exists fact, path_usable k request (pcd_path c) fact.

(** The selection made by the loop: the first usable candidate, or none. *)
Lemma try_candidates_spec (k : EngineCore) (request : AdmissionRequest) (fl : PathFailures)
    (order : list PathCandidate) :
  let sel := try_candidates k request fl order in
  (ps_path_selected sel = true /\ ps_outcome sel = Admit /\
   exists pre c post fact, order = pre ++ c :: post /\
     Forall (fun c => ~ usable_candidate k request c) pre /\
     path_usable k request (pcd_path c) fact /\
     ps_selected sel = pcd_path c /\
     ps_selected_generation sel = pcd_path_authority_generation c /\
     ps_traversal sel = pf_resources fact) \/
  (ps_path_selected sel = false /\ ps_selected sel = 0 /\
   (ps_outcome sel = Admit <-> ps_capacity_blocked sel = true) /\
   Forall (fun c => ~ usable_candidate k request c) order).
Proof.
  revert fl. induction order as [|c order IH]; intros fl; cbn [try_candidates].
  - right. unfold no_path_usable.
    destruct (fl_unknown fl); [|destruct (fl_capacity fl) as [[]|]]; cbn; split_and!; done.
  - assert (Hskip : forall fl', (forall t, judge_candidate k request c <> CandidateUsable t) ->
      let sel := try_candidates k request fl' order in
      (ps_path_selected sel = true /\ ps_outcome sel = Admit /\
       exists pre c' post fact, c :: order = pre ++ c' :: post /\
         Forall (fun c => ~ usable_candidate k request c) pre /\
         path_usable k request (pcd_path c') fact /\
         ps_selected sel = pcd_path c' /\
         ps_selected_generation sel = pcd_path_authority_generation c' /\
         ps_traversal sel = pf_resources fact) \/
      (ps_path_selected sel = false /\ ps_selected sel = 0 /\
       (ps_outcome sel = Admit <-> ps_capacity_blocked sel = true) /\
       Forall (fun c => ~ usable_candidate k request c) (c :: order))).
    { intros fl' Hc. assert (Hn : ~ usable_candidate k request c).
      { intros [fact Hu]. apply (Hc (pf_resources fact)), judge_usable. by exists fact. }
      destruct (IH fl') as [(? & ? & pre & c' & post & fact & -> & ? & ?)|(? & ? & ? & ?)].
      - left. split_and!; try done. exists (c :: pre), c', post, fact. split; [done|].
        split; [by constructor|done].
      - right. split_and!; try done. by constructor. }
    destruct (judge_candidate k request c) as [f|f|f t|t] eqn:E; [by apply Hskip; congruence..|].
    apply judge_usable in E as (fact & Hu & ->). left. cbn. split_and!; try done.
    exists [], c, order, fact. split_and!; done.
Qed.

Lemma path_order_sub (k : EngineCore) (request : AdmissionRequest) (c : PathCandidate) :
  c ∈ path_order k request ->
  c ∈ rq_path_candidates request /\
  (rq_required_path request <> 0 -> pcd_path c = rq_required_path request) /\
  (rq_required_path request = 0 -> substitution_allowed k request = false ->
   head (rq_path_candidates request) = Some c).
Proof.
  unfold path_order, is_known. destruct (N.eqb_spec (rq_required_path request) 0) as [E|E]; cbn [negb].
  - destruct (substitution_allowed k request) eqn:Es; cbn [negb]; [done|].
    destruct (rq_path_candidates request) as [|c' l]; [by intros ?%not_elem_of_nil|].
    intros ->%list_elem_of_singleton. split_and!; [left|done|done].
  - destruct (list_find _ _) as [[i c']|] eqn:Hl; [|by intros ?%not_elem_of_nil].
    intros ->%list_elem_of_singleton. apply list_find_Some in Hl as (Hi & Hp & _).
    split_and!; [by eapply list_elem_of_lookup_2|done|by intros ?].
Qed.

(** ** The capacity stage *)

Lemma foldr_min_init (x y : N) (l : list N) : foldr N.min (N.min x y) l = N.min x (foldr N.min y l).
Proof. induction l as [|z l IH]; cbn; [done|]. rewrite IH. lia. Qed.

Section evaluation.
Context (k : EngineCore) (Hk : inputs_wf k) (request : AdmissionRequest).
Let min := minimum (rq_rate request).

Lemma view_room (r : ResourceId) (e : ResourceCapacity) :
  find_capacity k r = Some e -> rc_evidence e = EvidenceKnown ->
  vw_available_for_new (view_of k r e) = room k r.
Proof.
  intros Hf He. rewrite (room_found k r e) by done. cbn. unfold saturating_sub at 1.
  pose proof (found_usable_word k r e Hk Hf) as Hw. apply sat_sub_spec.
  change (u64 (allowance_of k r e)). rewrite allowance_exact by done.
  eapply u64_le; [exact Hw|]. lia.
Qed.

(** The four refusals of a resource amount to one comparison. *)
Lemma judge_resource_none (r : ResourceId) (e : ResourceCapacity) :
  find_capacity k r = Some e -> rc_evidence e = EvidenceKnown ->
  judge_resource k request e (view_of k r e) = None <-> min <= room k r.
Proof.
  intros Hf He. pose proof (view_room r e Hf He) as Hv. rewrite (room_found k r e) in * by done.
  pose proof (found_usable_word k r e Hk Hf) as Hw.
  pose proof (allowance_exact k r e Hw) as Ha. pose proof (headroom_le k e) as Hh.
  unfold judge_resource. rewrite Hv. cbn [view_of vw_resource vw_headroom vw_available_after_obligations].
  change (saturating_sub (saturating_sub (rc_usable e) (headroom_for k e)) (obligations_for k r))
    with (allowance_of k r e).
  unfold saturating_sub. rewrite sat_sub_spec by done. fold min.
  unfold refuse_when, and_then, reject.
  destruct (N.ltb_spec (rc_usable e) min); [split; [done|lia]|].
  destruct (N.ltb_spec (rc_usable e - headroom_for k e) min); [split; [done|lia]|].
  destruct (N.ltb_spec (allowance_of k r e) min).
  { destruct (_ && _); (split; [done|lia]). }
  destruct (N.ltb_spec (allowance_of k r e - admitted (ek_ledger k) r) min); [|done].
  destruct (_ && _); (split; [done|lia]).
Qed.

Lemma judge_resource_refuses (e : ResourceCapacity) (v : ResourceView) (o : AdmissionOutcome)
    (c : BindingConstraint) :
  judge_resource k request e v = Some (o, c) -> is_admitting o = false.
Proof.
  unfold judge_resource, refuse_when, and_then, reject.
  repeat (case_match; try discriminate); congruence || (intros; simplify_eq; done).
Qed.

Definition fits (r : ResourceId) : Prop := has_capacity k r /\ min <= room k r.

Lemma evaluate_targets_spec (targets : list ResourceId) (views : list ResourceView) (lim : Limiting) :
  match (evaluate_targets k request views lim targets).2 with
  | inr lim' => Forall fits targets /\ lm_rate lim' = foldr N.min (lm_rate lim) (room k <$> targets)
  | inl (o, c) => ~ Forall fits targets /\ is_admitting o = false
  end.
Proof.
  revert views lim. induction targets as [|r l IH]; intros views lim; cbn [evaluate_targets]; [done|].
  assert (Hno : ~ has_capacity k r -> ~ Forall fits (r :: l))
    by (intros H [[]]%Forall_cons; done).
  destruct (find_capacity k r) as [e|] eqn:Hf; cbn [snd].
  2:{ split; [|done]. apply Hno. rewrite has_capacity_iff, Hf. naive_solver. }
  destruct (decide (rc_evidence e = EvidenceKnown)) as [He|He].
  2:{ rewrite bool_decide_false by done. cbn. split; [|done].
      apply Hno. rewrite has_capacity_iff, Hf. naive_solver. }
  rewrite bool_decide_true by done.
  destruct (judge_resource k request e (view_of k r e)) as [[o c]|] eqn:Hj; cbn [snd].
  - split; [|by eapply judge_resource_refuses]. intros [[_ Hroom] _]%Forall_cons.
    apply (judge_resource_none r e) in Hroom; congruence.
  - apply judge_resource_none in Hj; [|done..].
    specialize (IH (views ++ [view_of k r e])
      (tighten (vw_available_for_new (view_of k r e)) BC_AdmittedLoad "resource" r lim)).
    destruct (evaluate_targets _ _ _ _ l) as [vs [[o c]|lim']]; cbn [snd] in *.
    + split; [|by apply IH]. intros [_ H]%Forall_cons. by apply IH.
    + destruct IH as [IHf ->]. split.
      * constructor; [|done]. split; [|done]. apply has_capacity_iff. eauto.
      * unfold tighten. rewrite (view_room r e) by done. cbn.
        rewrite <- foldr_min_init. f_equal. clear. destruct (N.ltb_spec (room k r) (lm_rate lim)); cbn; lia.
Qed.

(** The capacity stage admits exactly when every target and the path fit the
    minimum, and then its ceiling is the minimum of the maximum and every room. *)
Lemma evaluate_capacity_spec (targets : list ResourceId) (path : option PathAdmissionFact) :
  let free f := path_free k f (pf_path f) in
  let ce := evaluate_capacity k request targets path in
  if decide (ce_outcome ce = Admit) then
    Forall fits targets /\ (forall f, path = Some f -> min <= free f) /\
    ce_ceiling ce = N.min (foldr N.min (maximum (rq_rate request)) (room k <$> targets))
                      (from_option free (maximum (rq_rate request)) path)
  else is_admitting (ce_outcome ce) = false /\
       ~ (Forall fits targets /\ forall f, path = Some f -> min <= free f).
Proof.
  cbn zeta. unfold evaluate_capacity. set (lim := mkLimiting _ _ _ _).
  pose proof (evaluate_targets_spec targets [] lim) as H.
  destruct (evaluate_targets k request [] lim targets) as [views [[o c]|lim']]; cbn [snd] in H.
  - destruct H as [H Ho]. cbn. rewrite decide_False by (intros ->; done). naive_solver.
  - destruct H as [Hf Hl]. change (lm_rate lim) with (maximum (rq_rate request)) in Hl.
    unfold evaluate_path.
    assert (Hmax : forall l, foldr N.min (maximum (rq_rate request)) l <= maximum (rq_rate request))
      by (induction l; cbn; lia).
    specialize (Hmax (room k <$> targets)).
    destruct path as [f|]; cbn [from_option].
    + fold min. destruct (N.ltb_spec (path_free k f (pf_path f)) min); cbn.
      * split; [done|]. intros [_ Hp]. specialize (Hp f eq_refl). lia.
      * split_and!; [done|by intros ? [= <-]|]. rewrite <- Hl. unfold tighten.
        destruct (N.ltb_spec (path_free k f (pf_path f)) (lm_rate lim')); cbn; lia.
    + cbn. split_and!; [done|done|]. rewrite Hl. lia.
Qed.
End evaluation.

(** ** A small engine for the witnesses

    Two resources with 1000 and 500 units, an obligation of 200 on the first, one
    path of capacity 300 over the second. *)

Definition sample_capacity : CapacitySnapshot :=
  mkCapacitySnapshot 1 1 1 0
    [mkResourceCapacity 1 1 EvidenceKnown 1000 100; mkResourceCapacity 2 1 EvidenceKnown 500 0].
Definition sample_reservations : ReservationSnapshot :=
  mkReservationSnapshot 1 1 1 0 [mkProtectedObligation 7 1 1 200 1 30 false].
Definition sample_paths : PathCatalog :=
  mkPathCatalog 1 1 0 [mkPathAdmissionFact 5 1 PathUp 300 10 [2]].
Definition sample_engine : EngineCore :=
  rebuild_obligation_index
    ((AdmissionEngine_new EngineConfig_new)
       <| ek_policy := Some sample_policy |> <| ek_capacity := Some sample_capacity |>
       <| ek_reservations := Some sample_reservations |> <| ek_paths := Some sample_paths |>
       <| ek_qos := Some (mkQoSClassCatalog 1 1 0 [mkQoSClassFact 1 1 0 1000 1000 true]) |>
       <| ek_priorities := Some (mkPriorityClassCatalog 1 1 0 [mkPriorityClassFact 1 1 1 false]) |>).
Definition path_request (attempt : N) : AdmissionRequest :=
  (sample_request attempt 3) <| rq_path_candidates := [mkPathCandidate 5 1] |>.

Lemma sample_inputs_wf : inputs_wf sample_engine.
Proof.
  constructor.
  - intros c [= <-]. split; [by apply validate_capacity_spec|by repeat constructor].
  - intros s [= <-]. split; [|by repeat constructor].
    apply validate_reservations_spec; [by repeat constructor|done].
  - intros c [= <-]. split; [by apply validate_paths_spec|by repeat constructor].
  - done.
Qed.

(** ** Properties *)

(** The lookups are exact.  On a list whose keys are strictly increasing, as every
    validated snapshot's are, the binary search [find_by] returns an element if
    and only if it is in the list and carries the key; it returns nothing exactly
    when no element carries it. *)
Theorem find_by_exact {T} (project : T -> N) (key : N) (l : list T) (x : T)
    (Hl : increasing (project <$> l)) :
  (find_by project key l = Some x <-> x ∈ l /\ project x = key) /\
  (find_by project key l = None <-> key ∉ project <$> l).
Proof.
  split.
  - split; [apply find_by_sound|]. intros []. by apply find_by_complete.
  - destruct (find_by project key l) as [y|] eqn:E.
    + apply find_by_sound in E as [Hy <-]. split; [done|]. intros H. destruct H.
      by apply list_elem_of_fmap_2.
    + split; [|done]. intros _ (y & -> & Hy)%list_elem_of_fmap.
      by rewrite (find_by_complete project _ l y Hl Hy eq_refl) in E.
Qed.

Lemma find_by_exact_witness :
  increasing (rc_resource <$> cs_resources sample_capacity) /\
  find_by rc_resource 3 (cs_resources sample_capacity) = None.
Proof.
  assert (H : increasing (rc_resource <$> cs_resources sample_capacity))
    by (repeat constructor).
  split; [exact H|].
  apply (find_by_exact rc_resource 3 _ (mkResourceCapacity 3 1 EvidenceKnown 0 0) H).
  intros Hin. repeat (apply elem_of_cons in Hin as [Hin|Hin]; [discriminate Hin|]).
  by apply not_elem_of_nil in Hin.
Defined.

(** The obligation index is exact.  After the index is rebuilt from a validated
    reservation snapshot, the obligations on a resource are the exact sum of the
    snapshot's obligations on it, without saturation, and the deferral question
    is answered by exactly the snapshot's obligations: one on the resource that
    is not inviolable and is released after now but within the horizon. *)
Theorem obligation_index_exact (k : EngineCore) (s : ReservationSnapshot) (r : ResourceId) (horizon : N)
    (Hs : ek_reservations k = Some s) (Hwf : reservations_wf s)
    (Hw : Forall (fun o => u64 (po_reserved o)) (rs_obligations s)) :
  let k' := rebuild_obligation_index k in
  obligations_for k' r = obligation_sum r (rs_obligations s) /\
  (obligation_releases_within k' r horizon = true <->
   exists o, o ∈ rs_obligations s /\ po_resource o = r /\ po_inviolable o = false /\
             ek_tick k < po_release_tick o <= horizon).
Proof.
  cbn zeta. set (k' := rebuild_obligation_index k).
  assert (Hs' : ek_reservations k' = Some s) by done.
  assert (Hidx : default [] (ek_obligation_indices k' !! r) = positions 0 r (rs_obligations s)).
  { unfold k', rebuild_obligation_index. rewrite Hs. cbn.
    change (imap pair (rs_obligations s)) with (numbered_from 0 (rs_obligations s)).
    by rewrite index_indices. }
  split.
  - unfold k', obligations_for, rebuild_obligation_index. rewrite Hs. cbn.
    change (imap pair (rs_obligations s)) with (numbered_from 0 (rs_obligations s)).
    rewrite index_totals; [done|done|]. intros x. apply (rwf_sums s Hwf x).
  - pose proof (positions_obligations s r [] (rs_obligations s) eq_refl) as Hb. cbn [length] in Hb.
    rewrite <- Hidx in Hb. unfold obligation_releases_within. rewrite Hs'.
    assert (Hex : existsb (fun o => negb (po_inviolable o) && negb (po_release_tick o <=? ek_tick k') &&
                     (po_release_tick o <=? horizon)) (on_resource r (rs_obligations s)) = true <->
      exists o, o ∈ rs_obligations s /\ po_resource o = r /\ po_inviolable o = false /\
                ek_tick k < po_release_tick o <= horizon).
    { rewrite existsb_exists. change (ek_tick k') with (ek_tick k). unfold on_resource.
      split; intros (o & H).
      - destruct H as [Hin H]. apply list_elem_of_In, list_elem_of_filter in Hin as [<- Hin].
        rewrite !andb_true_iff, !negb_true_iff, N.leb_gt, N.leb_le in H. exists o. naive_solver.
      - exists o. rewrite <- list_elem_of_In, list_elem_of_filter.
        rewrite !andb_true_iff, !negb_true_iff, N.leb_gt, N.leb_le. naive_solver. }
    rewrite <- Hex, <- Hb. by destruct (ek_obligation_indices k' !! r).
Qed.

Lemma obligation_index_exact_witness :
  obligation_releases_within sample_engine 1 30 = true /\ obligations_for sample_engine 1 = 200.
Proof.
  destruct (obligation_index_exact sample_engine sample_reservations 1 30 eq_refl) as [H1 H2];
    [apply validate_reservations_spec; [by repeat constructor|done]|by repeat constructor|].
  split; [|exact H1]. apply H2. exists (mkProtectedObligation 7 1 1 200 1 30 false).
  split_and!; [left|done..].
Defined.

(** Path selection never invents or substitutes a path.  When a path is
    selected it is one of the declared candidates, at the candidate's generation,
    the required one if the request requires one, the first one if substitution
    is not allowed; it is published, up, within the latency budget, has room for
    the minimum, and every resource it traverses has KNOWN capacity whose
    allowance covers the minimum; every candidate preferred to it was unusable.
    When none is selected, no candidate that could be tried was usable, and
    the outcome is an admission only for a request without candidates, which
    the policy does not forbid, or when the capacity was exhausted. *)
Theorem select_path_sound (k : EngineCore) (request : AdmissionRequest) :
  let sel := select_path k request in
  if ps_path_selected sel then
    ps_outcome sel = Admit /\
    exists pre c post fact,
      path_order k request = pre ++ c :: post /\ c ∈ rq_path_candidates request /\
      (rq_required_path request <> 0 -> pcd_path c = rq_required_path request) /\
      (rq_required_path request = 0 -> substitution_allowed k request = false ->
       head (rq_path_candidates request) = Some c) /\
      ps_selected sel = pcd_path c /\
      ps_selected_generation sel = pcd_path_authority_generation c /\
      ps_traversal sel = pf_resources fact /\ path_usable k request (pcd_path c) fact /\
      Forall (fun c => ~ usable_candidate k request c) pre
  else
    ps_selected sel = 0 /\
    (rq_path_candidates request <> [] ->
       Forall (fun c => ~ usable_candidate k request c) (path_order k request)) /\
    (ps_outcome sel = Admit ->
       (rq_path_candidates request = [] /\ path_required k = false /\ ps_traversal sel = []) \/
       (rq_path_candidates request <> [] /\ ps_capacity_blocked sel = true)).
Proof.
  cbn zeta. unfold select_path.
  destruct (decide (rq_path_candidates request = [])) as [He|Hne].
  - rewrite bool_decide_true by done. destruct (path_required k) eqn:Hp; cbn; split_and!; naive_solver.
  - rewrite bool_decide_false by done.
    destruct (try_candidates_spec k request (mkPathFailures None None None) (path_order k request))
      as [(Hsel & Ho & pre & c & post & fact & Hord & Hpre & Hu & Hs & Hg & Ht)|(Hsel & Hs & Ho & Hall)];
      rewrite Hsel.
    + split; [done|]. exists pre, c, post, fact.
      destruct (path_order_sub k request c) as (? & ? & ?); [rewrite Hord; apply elem_mid|].
      by split_and!.
    + split_and!; [done|done|]. intros Ha. right. split; [done|]. by apply Ho.
Qed.

(** C29: the capacity stage is exact.  It lets a request through if and only if
    every target resource has KNOWN capacity with room for the minimum, that is
    usable capacity less headroom less obligations less admitted load, and the
    selected path has room for it; then its ceiling is the largest rate up to the
    request's maximum that fits every target and the path.  Every other outcome
    is a refusal. *)
Theorem evaluate_capacity_exact (k : EngineCore) (request : AdmissionRequest)
    (targets : list ResourceId) (path : option PathAdmissionFact) (Hk : inputs_wf k) :
  let rate := rq_rate request in
  let ce := evaluate_capacity k request targets path in
  let fit g := g <= maximum rate /\
    Forall (fun r => exists e, find_capacity k r = Some e /\ rc_evidence e = EvidenceKnown /\
              g <= rc_usable e - headroom_for k e - obligations_for k r - admitted (ek_ledger k) r)
      targets /\
    (forall f, path = Some f -> g <= path_free k f (pf_path f)) in
  (is_admitting (ce_outcome ce) = true -> ce_outcome ce = Admit) /\
  (minimum rate <= maximum rate -> ce_outcome ce = Admit <-> fit (minimum rate)) /\
  (minimum rate <= maximum rate -> ce_outcome ce = Admit ->
     fit (ce_ceiling ce) /\ forall g, fit g -> g <= ce_ceiling ce).
Proof.
  cbn zeta. pose proof (evaluate_capacity_spec k Hk request targets path) as H. cbn zeta in H.
  set (ce := evaluate_capacity k request targets path) in *.
  set (room_fits := fun g r => exists e, find_capacity k r = Some e /\ rc_evidence e = EvidenceKnown /\
    g <= rc_usable e - headroom_for k e - obligations_for k r - admitted (ek_ledger k) r).
  assert (Hroom : forall g r, room_fits g r <-> has_capacity k r /\ g <= room k r).
  { intros g r. rewrite has_capacity_iff. split.
    - intros (e & Hf & He & Hg). split; [eauto|]. rewrite (room_found k r e) by done.
      by rewrite allowance_exact by (eapply found_usable_word; eauto).
    - intros [(e & Hf & He) Hg]. exists e. split_and!; [done..|].
      rewrite (room_found k r e), allowance_exact in Hg by (done || (eapply found_usable_word; eauto)).
      done. }
  assert (Hall : forall g, Forall (room_fits g) targets <->
                 Forall (fun r => has_capacity k r /\ g <= room k r) targets)
    by (intros g; apply Forall_iff, Hroom).
  assert (Hmin : forall l g m, g <= foldr N.min m l <-> g <= m /\ Forall (fun x => g <= x) l).
  { induction l as [|x l IH]; intros g m; cbn; [rewrite Forall_nil; naive_solver|].
    rewrite N.min_glb_iff, IH, Forall_cons. naive_solver. }
  case_decide as Ha.
  - destruct H as (Hf & Hp & Hc). split; [done|]. split.
    { intros Hrate. split; [|done]. intros _. split_and!; [done|by apply Hall|done]. }
    intros Hrate _. split.
    + assert (Hle : ce_ceiling ce <= N.min (foldr N.min (maximum (rq_rate request)) (room k <$> targets))
                (from_option (fun f => path_free k f (pf_path f)) (maximum (rq_rate request)) path)) by lia.
      apply N.min_glb_iff in Hle as [H1 H2]. apply Hmin in H1 as [H1 H3].
      rewrite Forall_fmap in H3. split_and!; [done| |by intros f ->].
      apply Hall, Forall_forall. intros r Hr. rewrite Forall_forall in Hf, H3.
      split; [by apply Hf|by apply H3].
    + intros g (H1 & H2 & H3). apply Hall in H2. rewrite Hc. apply N.min_glb.
      * apply Hmin. split; [done|]. rewrite Forall_fmap. eapply Forall_impl; [exact H2|]. by intros ? [].
      * destruct path as [f|]; cbn; [by apply H3|done].
  - destruct H as [Ho Hn]. split_and!; [by rewrite Ho| |done].
    intros Hrate. split; [done|]. intros (_ & H2 & H3). apply Hall in H2. by destruct Hn.
Qed.

Lemma evaluate_capacity_exact_witness :
  inputs_wf sample_engine /\
  ce_outcome (evaluate_capacity sample_engine (sample_request 1 3) [1] None) = Admit.
Proof.
  split; [exact sample_inputs_wf|].
  apply (evaluate_capacity_exact sample_engine (sample_request 1 3) [1] None sample_inputs_wf); [done|].
  split_and!; [done| |done]. constructor; [|constructor].
  exists (mkResourceCapacity 1 1 EvidenceKnown 1000 100). split_and!; done.
Defined.
