(* ===== verification/Frames.v ===== *)
(** * What the steps of the engine leave alone

    Frame lemmas for the durable writers and for the shared ends of a decision:
    which parts of the engine each can change, whatever the journal's outcome. *)

From S2P Require Import Prelude Checked Identity Hash State Policy Request Authority.
From S2P Require Import Decision Ledger History Bytes Records Journal Engine Log Admission.
From S2P Require Import Capacity.
Local Open Scope N_scope.
Local Open Scope naf_scope.

(** ** Silent steps: only the journal and the armed faults change *)

Definition quiet (k k' : EngineCore) : Prop :=
  exists j f, k' = k <| ek_journal := j |> <| ek_faults := f |>.

#[export] Instance quiet_refl : Reflexive quiet.
Proof. intros k. exists (ek_journal k), (ek_faults k). by destruct k. Qed.
#[export] Instance quiet_trans : Transitive quiet.
Proof. intros k1 k2 k3 (j & f & ->) (j' & f' & ->). by exists j', f'. Qed.

Lemma quiet_journal (k : EngineCore) (j : option Journal) : quiet k (k <| ek_journal := j |>).
Proof. exists j, (ek_faults k). by destruct k. Qed.
Lemma quiet_faults (k : EngineCore) (f : FaultInjection) : quiet k (k <| ek_faults := f |>).
Proof. exists (ek_journal k), f. by destruct k. Qed.
#[export] Hint Resolve quiet_refl quiet_journal quiet_faults : naf.

Definition silent {A} (m : M EngineCore A) : Prop := forall k, quiet k (m k).2.

Lemma silent_wp {A} (m : M EngineCore A) (k : EngineCore) :
  silent m -> wp m (fun _ k' => quiet k k') k.
Proof. intros H. apply H. Qed.

Lemma silent_bind {A B} (m : M EngineCore A) (f : A -> M EngineCore B) :
  silent m -> (forall a, silent (f a)) -> silent (m ≫= f).
Proof.
  intros Hm Hf k. unfold mbind, M_bind. specialize (Hm k). destruct (m k) as [[a|e] k']; [|done].
  cbn in Hm. etrans; [exact Hm|apply Hf].
Qed.
Lemma silent_ret {A} (a : A) : silent (mret a).
Proof. by intros k. Qed.
Lemma silent_fail {A} (c : StatusCode) (s : string) : silent (fail (A := A) c s).
Proof. by intros k. Qed.
Lemma silent_gets {A} (f : EngineCore -> A) : silent (gets f).
Proof. by intros k. Qed.
Lemma silent_clear (f : FaultInjection) : silent (modify (fun k => k <| ek_faults := f |>)).
Proof. intros k. apply quiet_faults. Qed.
Lemma silent_journal {A} (m : M Journal A) : silent (on_journal m).
Proof.
  intros k. unfold on_journal. destruct (ek_journal k) as [j|]; [|done].
  destruct (m j) as [r j']. apply quiet_journal.
Qed.
#[export] Hint Resolve silent_ret silent_fail silent_gets silent_clear silent_journal : naf.

Ltac silent_steps :=
  repeat first
    [ solve [auto with naf]
    | apply silent_bind; [|intros ?]
    | case_match ].

Lemma silent_write_record (kind : JournalRecordKind) (payload : list N) :
  silent (write_record kind payload).
Proof. unfold write_record. silent_steps. Qed.
#[export] Hint Resolve silent_write_record : naf.

Lemma silent_write_prepare (r : PrepareRecord) : silent (write_prepare r).
Proof. unfold write_prepare. silent_steps. Qed.
Lemma silent_write_commit (r : DecisionRecord) : silent (write_commit r).
Proof. unfold write_commit. silent_steps. Qed.
Lemma silent_write_refusal (r : DecisionRecord) : silent (write_refusal r).
Proof. unfold write_refusal. silent_steps. Qed.
Lemma silent_write_release (r : ReleaseRecord) : silent (write_release r).
Proof. unfold write_release. silent_steps. Qed.
Lemma silent_write_revocation (r : RevocationRecord) : silent (write_revocation r).
Proof. unfold write_revocation. silent_steps. Qed.
Lemma silent_write_policy (p : AdmissionPolicy) : silent (write_policy_record p).
Proof. unfold write_policy_record. silent_steps. Qed.
Lemma silent_write_boot : silent write_boot.
Proof. unfold write_boot. silent_steps. Qed.
Lemma silent_write_audit_mark : silent write_audit_mark.
Proof. unfold write_audit_mark. silent_steps. Qed.
Lemma silent_compact : silent compact_locked.
Proof. unfold compact_locked. silent_steps. Qed.
#[export] Hint Resolve silent_write_prepare silent_write_commit silent_write_refusal
  silent_write_release silent_write_revocation silent_write_policy silent_write_boot
  silent_write_audit_mark silent_compact : naf.
Lemma silent_compact_if_needed : silent compact_if_needed_locked.
Proof. unfold compact_if_needed_locked. silent_steps. Qed.
#[export] Hint Resolve silent_compact_if_needed : naf.

(** Stepping over a silent computation: the state is the old one but for its
    journal and faults. *)
Lemma wp_silent {A} (m : M EngineCore A) (Q : Expected A -> EngineCore -> Prop) (k : EngineCore) :
  silent m ->
  (forall r j f, Q r (k <| ek_journal := j |> <| ek_faults := f |>)) ->
  wp m Q k.
Proof.
  intros Hm HQ. unfold wp. destruct (Hm k) as (j & f & Hk). rewrite Hk. apply HQ.
Qed.

(** Stepping over a durable writer, with what it does to the log. *)
Definition written (ok : Prop) (e : N -> LogRecord) (r : Expected unit) (k k' : EngineCore) : Prop :=
  forall o rs, ok -> logged o k rs ->
    match r with
    | Val _ => exists s, logged o k' (rs ++ [e s])
    | Err _ => logged o k' rs \/ exists s, cut o k' rs [e s]
    end.

Lemma wp_writes (m : M EngineCore unit) (ok : Prop) (e : N -> LogRecord)
    (Q : Expected unit -> EngineCore -> Prop) (k : EngineCore) :
  silent m -> (forall o, writes o m ok e) ->
  (forall r j f, written ok e r k (k <| ek_journal := j |> <| ek_faults := f |>) ->
     Q r (k <| ek_journal := j |> <| ek_faults := f |>)) ->
  wp m Q k.
Proof.
  intros Hm Hw HQ. unfold wp. destruct (Hm k) as (j & f & Hk). rewrite Hk. apply HQ. rewrite <- Hk.
  intros o rs Hok Hl. specialize (Hw o k rs Hok Hl). by destruct (m k) as [[u|s] k'].
Qed.

(** ** What a decision never changes: authority, sessions, time *)

Record same_inputs (k k' : EngineCore) : Prop := {
  si_config : ek_config k' = ek_config k;
  si_epoch : ek_epoch k' = ek_epoch k;
  si_incarnation : ek_incarnation k' = ek_incarnation k;
  si_tick : ek_tick k' = ek_tick k;
  si_policy : ek_policy k' = ek_policy k;
  si_capacity : ek_capacity k' = ek_capacity k;
  si_reservations : ek_reservations k' = ek_reservations k;
  si_paths : ek_paths k' = ek_paths k;
  si_qos : ek_qos k' = ek_qos k;
  si_priorities : ek_priorities k' = ek_priorities k;
  si_sessions : ek_sessions k' = ek_sessions k;
  si_totals : ek_obligation_totals k' = ek_obligation_totals k;
  si_indices : ek_obligation_indices k' = ek_obligation_indices k;
}.

#[export] Instance same_inputs_refl : Reflexive same_inputs.
Proof. intros k. by constructor. Qed.
#[export] Instance same_inputs_trans : Transitive same_inputs.
Proof. intros k1 k2 k3 [] []. constructor; congruence. Qed.

Section same_inputs.
Context (k k' : EngineCore) (H : same_inputs k k').

Lemma same_find_capacity (r : ResourceId) : find_capacity k' r = find_capacity k r.
Proof. unfold find_capacity. by rewrite (si_capacity _ _ H). Qed.
Lemma same_obligations (r : ResourceId) : obligations_for k' r = obligations_for k r.
Proof. unfold obligations_for. by rewrite (si_totals _ _ H). Qed.
Lemma same_headroom (e : ResourceCapacity) : headroom_for k' e = headroom_for k e.
Proof. unfold headroom_for. by rewrite (si_policy _ _ H). Qed.
Lemma same_allowance (r : ResourceId) (e : ResourceCapacity) :
  allowance_of k' r e = allowance_of k r e.
Proof. unfold allowance_of. by rewrite same_headroom, same_obligations. Qed.
Lemma same_fence (claim : ClaimContext) : check_fence k' claim = check_fence k claim.
Proof.
  unfold check_fence, fence. by rewrite (si_config _ _ H), (si_epoch _ _ H),
    (si_incarnation _ _ H), (si_sessions _ _ H).
Qed.
Lemma same_inputs_wf : inputs_wf k -> inputs_wf k'.
Proof.
  intros [Hc Hr Hp Hi]. constructor.
  - by rewrite (si_capacity _ _ H).
  - by rewrite (si_reservations _ _ H).
  - by rewrite (si_paths _ _ H).
  - unfold rebuild_obligation_index in *. rewrite (si_totals _ _ H), (si_indices _ _ H).
    by rewrite (si_reservations _ _ H).
Qed.
End same_inputs.

(** ** The end of a decision *)

(** The identity and the audit sequence are consumed. *)
Definition consumed (k : EngineCore) : EngineCore :=
  k <| ek_next_decision_sequence := ek_next_decision_sequence k +w 1 |>
    <| ek_audit := ek_audit k +w 1 |>.

(** A record has been stored in history and cache, and in the attempt registry when [b]. *)
Record filed (d : AdmissionDecision) (request : AdmissionRequest) (b : bool)
    (record : DecisionRecord) (k k' : EngineCore) : Prop := {
  fil_inputs : same_inputs k k';
  fil_ledger : ek_ledger k' = ek_ledger k;
  fil_next : ek_next_decision_sequence k' = ek_next_decision_sequence k;
  fil_audit : ek_audit k' = ek_audit k;
  fil_history : ek_history k' = trimmed (ek_ledger k) (history_insert record (ek_history k));
  fil_attempts : ek_attempts k' =
    if b then record_attempt (attempt_of k request d) (ek_attempts k) else ek_attempts k;
  fil_cache : ek_decision_cache k' !! ad_decision d = Some d;
}.

(** The record of a refusal has been logged and stored. *)
Record stored (d : AdmissionDecision) (request : AdmissionRequest) (b : bool)
    (record : DecisionRecord) (k k' : EngineCore) : Prop := {
  sto_filed :> filed d request b record k k';
  sto_log : forall o rs, decision_storable record -> logged o k rs -> logged o k' (rs ++ [LogRefused record]);
}.

Lemma wp_trim (Q : Expected unit -> EngineCore -> Prop) (k : EngineCore) :
  Q (Val tt) (k <| ek_history := trimmed (ek_ledger k) (ek_history k) |>) -> wp trim_history Q k.
Proof.
  intros H. unfold wp, trim_history, modify. cbn [fst snd]. unfold trimmed in H.
  destruct (needs_trim (ek_history k)); [done|]. by destruct k.
Qed.

(** The in-memory end of a decision, shared by refusals and admissions. *)
Lemma wp_file (d : AdmissionDecision) (request : AdmissionRequest) (b : bool) (record : DecisionRecord)
    (m : M EngineCore unit) (Q : Expected unit -> EngineCore -> Prop) (k : EngineCore) :
  (forall k', filed d request b record k k' -> ek_journal k' = ek_journal k ->
     ek_journal_ready k' = ek_journal_ready k -> ek_faults k' = ek_faults k -> wp m Q k') ->
  wp (insert_history record ;; trim_history ;;
      (if b then record_decision_attempt request d else mret tt) ;; remember d ;; count d ;; m) Q k.
Proof.
  intros HQ. unfold insert_history, record_decision_attempt, remember, count.
  apply wp_bind, wp_modify, wp_bind, wp_trim, wp_bind.
  destruct b; (apply wp_modify || apply wp_ret); apply wp_bind, wp_modify, wp_bind, wp_modify;
    (apply HQ; [|done..]); (constructor; [by constructor|done..|]); apply lookup_insert_eq.
Qed.

Lemma logged_same (k k' : EngineCore) :
  ek_journal k' = ek_journal k -> ek_journal_ready k' = ek_journal_ready k -> ek_faults k' = ek_faults k ->
  forall o rs, logged o k rs -> logged o k' rs.
Proof. intros Ej Er Ef o rs (fs & H & Hrs). exists fs. split; [|done]. unfold holding_frames in *. by rewrite Ej, Er, Ef. Qed.

(** A record is made fresh, so marking it fresh changes nothing. *)
Lemma to_record_fresh (k : EngineCore) (d : AdmissionDecision) :
  (to_record k d) <| dr_state := RS_Fresh |> = to_record k d.
Proof. vm_compute. reflexivity. Qed.

Lemma finish_refusal_spec (d : AdmissionDecision) (request : AdmissionRequest) (b : bool)
    (k : EngineCore) :
  wp (finish_refusal d request b)
    (fun res k' => match res with
                   | Val _ => stored d request b ((to_record k d) <| dr_state := RS_Fresh |>) k k'
                   | Err _ => quiet k k' /\ (forall o rs, decision_storable (to_record k d) -> logged o k rs ->
                       logged o k' rs \/ cut o k' rs [LogRefused (to_record k d)])
                   end) k.
Proof.
  unfold finish_refusal. apply wp_bind, wp_gets, wp_bind.
  eapply wp_writes; [apply silent_write_refusal|intros o; apply refusal_writes|].
  intros [[]|s] j f Hw; [|split; [by exists j, f|intros o rs Hok Hl; destruct (Hw o rs Hok Hl) as [H|[_ H]]; [by left|by right]]].
  replace (count d) with (count d ;; mret tt) by reflexivity. apply wp_file. intros k' [] Ej Er Ef. apply wp_ret.
  constructor; [constructor; try done; (etrans; [|eassumption]); by constructor|].
  rewrite to_record_fresh.
  intros o rs Hok Hl. destruct (Hw o rs Hok Hl) as [_ Hl']. exact (logged_same _ _ Ej Er Ef o _ Hl').
Qed.

Lemma install_admission_spec (d : AdmissionDecision) (request : AdmissionRequest)
    (record : DecisionRecord) (k : EngineCore) :
  wp (install_admission d request record) (fun r k' => filed d request true record k k' /\
    forall o rs, logged o k rs -> compactable o k' ->
      if has_value r then logged o k' rs \/ compacted o k' else gone o k' rs \/ gone_compacted o k') k.
Proof.
  unfold install_admission. apply (wp_file d request true). intros k1 [] Ej Er Ef.
  unfold wp. destruct (silent_compact_if_needed k1) as (j & f & Hq). split.
  - rewrite Hq. constructor; try done. etrans; [eassumption|by constructor].
  - intros o rs Hl Hc. apply (logged_same _ _ Ej Er Ef) in Hl.
    assert (Hc1 : compactable o k1) by (rewrite Hq in Hc; destruct Hc; by constructor).
    exact (compact_if_needed_compacts o k1 rs Hl Hc1).
Qed.

(** ** Facts about a freshly issued decision *)

(** What a decision repeats of the request and of the engine. *)
Definition copied (k : EngineCore) (request : AdmissionRequest) (d : AdmissionDecision) : Prop :=
  ad_request d = rq_request request /\ ad_demand d = rq_demand request /\
  ad_demand_generation d = rq_demand_generation request /\ ad_attempt d = rq_attempt request /\
  ad_epoch d = ek_epoch k /\ ad_incarnation d = ek_incarnation k /\ ad_decided_tick d = ek_tick k.

Record issued (k : EngineCore) (request : AdmissionRequest) (outcome : AdmissionOutcome)
    (d : AdmissionDecision) : Prop := {
  iss_decision : ad_decision d = ek_next_decision_sequence k;
  iss_audit : ad_audit d = ek_audit k;
  iss_outcome : ad_outcome d = outcome;
  iss_fingerprint : ad_request_fingerprint d = fingerprint request;
  iss_replay : ad_idempotent_replay d = false;
  iss_copied : copied k request d;
  iss_path : ad_selected_path d = 0 \/ is_Some (find_path k (ad_selected_path d));
  iss_bound : ad_bound_capacity_generation d = 0 \/
              ad_bound_capacity_generation d = from_option cs_generation 0 (ek_capacity k);
}.

(** Filling in the arithmetic changes nothing else of a decision. *)
Lemma fill_effective_shape (k : EngineCore) (views : list ResourceView) (d : AdmissionDecision) :
  exists e t, fill_effective k views d =
              d <| ad_effective := e |> <| ad_effective_truncated := t |>.
Proof.
  unfold fill_effective. generalize (from_option pol_max_effective_resources max_effective_resources_limit
    (ek_policy k)). intros bound.
  revert d. induction views as [|v l IH]; intros d; cbn [fill_effective_loop].
  - exists (ad_effective d), (ad_effective_truncated d). by destruct d.
  - destruct (_ <=? _); [by exists (ad_effective d), true; destruct d|].
    destruct (IH (d <| ad_effective := ad_effective d ++ [effective_of v] |>)) as (e & tr & ->).
    by exists e, tr.
Qed.

Lemma begin_decision_spec (request : AdmissionRequest) (claim : ClaimContext)
    (o : AdmissionOutcome) (Q : Expected AdmissionDecision -> EngineCore -> Prop) (k : EngineCore) :
  Q (Val (new_decision k request claim o)) (consumed k) -> wp (begin_decision request claim o) Q k.
Proof. done. Qed.

Lemma new_decision_issued (k : EngineCore) (request : AdmissionRequest) (claim : ClaimContext)
    (o : AdmissionOutcome) : issued k request o (new_decision k request claim o).
Proof. by constructor; [..|left|left]. Qed.

(** ** The outcome of a refusal *)

(** A decision was issued and refused: either it is logged and stored, and nothing else
    of the engine has changed, or the journal refused it and only its identity is used
    up. *)
Definition refused (request : AdmissionRequest) (b : bool) (o : AdmissionOutcome) (k : EngineCore)
    (res : Expected AdmissionDecision) (k' : EngineCore) : Prop :=
  match res with
  | Val d => issued k request o d /\ ad_granted d = 0 /\
             stored d request b ((to_record (consumed k) d) <| dr_state := RS_Fresh |>) (consumed k) k'
  | Err _ => quiet (consumed k) k' /\ exists d, issued k request o d /\ ad_granted d = 0 /\
             forall o rs, decision_storable (to_record k d) -> logged o k rs ->
               logged o k' rs \/ cut o k' rs [LogRefused (to_record k d)]
  end.

(** The end of every refusal. *)
Lemma wp_finish_refused (d : AdmissionDecision) (request : AdmissionRequest) (b : bool)
    (o : AdmissionOutcome) (k : EngineCore) :
  issued k request o d -> ad_granted d = 0 ->
  wp (finish_refusal d request b ;; mret d) (refused request b o k) (consumed k).
Proof.
  intros Hi Hg. apply wp_bind. eapply wp_mono; [apply finish_refusal_spec|]. intros [[]|s] k'.
  - intros Hs. apply wp_ret. by split_and!.
  - intros [Hq Hl]. split; [done|]. by exists d.
Qed.

Lemma refuse_with_spec (request : AdmissionRequest) (claim : ClaimContext) (b : bool)
    (o : AdmissionOutcome) (c : BindingConstraint) (k : EngineCore) :
  wp (refuse_with request claim b o c) (refused request b o k) k.
Proof.
  unfold refuse_with, refusal. apply wp_bind, wp_bind, begin_decision_spec, wp_ret, wp_finish_refused; [|done].
  by constructor; [..|left|left].
Qed.

Lemma refuse_evaluated_spec (request : AdmissionRequest) (claim : ClaimContext)
    (views : list ResourceView) (path : PathId) (g : Generation) (o : AdmissionOutcome)
    (c : BindingConstraint) (k : EngineCore) :
  wp (refuse_evaluated request claim views path g o c) (refused request true o k) k.
Proof.
  unfold refuse_evaluated, refusal.
  apply wp_bind, wp_bind, begin_decision_spec, wp_ret, wp_bind, wp_get.
  match goal with |- context [fill_effective ?k ?v ?d] => destruct (fill_effective_shape k v d) as (e & t & ->) end.
  apply wp_finish_refused; [|done]. by constructor; [..|left|left].
Qed.
