(* ===== verification/Grant.v ===== *)
(** * Admission: what a request can do to the engine

    The invariant of the engine and the complete list of outcomes of
    [admit_locked]: a replay, a refusal, a grant, or a failure that leaves nothing
    admitted. *)

From S2P Require Import Prelude Checked Identity Hash State Policy Request Authority.
From S2P Require Import Decision Ledger History Bytes Records Journal Engine Log Admission.
From S2P Require Import Capacity Frames.
Local Open Scope N_scope.
Local Open Scope naf_scope.

(** ** The target set *)

Lemma unique_spec (l : list N) :
  StronglySorted N.le l ->
  StronglySorted N.lt (unique l) /\ (forall x, x ∈ unique l <-> x ∈ l) /\
  (length (unique l) <= length l)%nat.
Proof.
  induction 1 as [|x l Hl IH Hx]; [by split_and!; constructor|]. cbn [unique].
  destruct l as [|y l]; [split_and!; [repeat constructor|done|done]|].
  destruct IH as (Hs & Hin & Hlen). apply Forall_cons in Hx as [Hxy Hx]. cbn [length] in *.
  destruct (N.eqb_spec x y) as [->|Hne].
  - split_and!; [done| |lia]. intros z. rewrite Hin, !elem_of_cons. naive_solver.
  - split_and!; [|by intros z; rewrite !(elem_of_cons _ z x), Hin|cbn in *; lia].
    constructor; [done|]. apply Forall_forall. intros z Hz%Hin.
    apply StronglySorted_inv in Hl as [_ Hy]. apply elem_of_cons in Hz as [->|Hz]; [lia|].
    rewrite Forall_forall in Hy. specialize (Hy z Hz). lia.
Qed.

Lemma ascending_distinct (l : list N) : StronglySorted N.lt l -> NoDup l.
Proof.
  induction 1 as [|x l Hl IH Hx]; constructor; [|done]. intros Hin.
  rewrite Forall_forall in Hx. specialize (Hx x Hin). lia.
Qed.

Lemma targets_spec (request : AdmissionRequest) (traversal : list ResourceId) :
  let targets := targets_of request traversal in
  StronglySorted N.lt targets /\
  (forall r, r ∈ targets <-> r ∈ rb_resource <$> rq_resource_bindings request \/ r ∈ traversal) /\
  (length targets <= length (rq_resource_bindings request) + length traversal)%nat.
Proof.
  cbn zeta. unfold targets_of. set (l := _ ++ traversal).
  assert (Hs : StronglySorted N.le (merge_sort N.le l)) by (apply StronglySorted_merge_sort; apply _).
  destruct (unique_spec _ Hs) as (H1 & H2 & H3). split_and!; [done| |].
  - intros r. rewrite H2, merge_sort_Permutation. unfold l. by rewrite elem_of_app.
  - etrans; [exact H3|]. rewrite (Permutation_length (merge_sort_Permutation N.le l)). unfold l.
    by rewrite length_app, length_fmap.
Qed.

(** A traversal handed on by the path selection is that of a published path. *)
Definition published_traversal (k : EngineCore) (t : list ResourceId) : Prop :=
  t = [] \/ exists p fact, find_path k p = Some fact /\ t = pf_resources fact.

Lemma judge_traversal (k : EngineCore) (request : AdmissionRequest) (c : PathCandidate) :
  match judge_candidate k request c with
  | CandidateCapacityFailure _ t | CandidateUsable t => published_traversal k t
  | _ => True
  end.
Proof.
  unfold judge_candidate, published_traversal.
  destruct (find_path k (pcd_path c)) as [fact|] eqn:Hf; [|done].
  destruct (pf_state fact); try done. destruct (list_find _ _) as [[? ?]|]; [done|].
  destruct (_ <? _); [done|]. destruct (_ <? _); [eauto|]. destruct (existsb _ _); eauto.
Qed.

Lemma try_traversal (k : EngineCore) (request : AdmissionRequest) (order : list PathCandidate)
    (fl : PathFailures) :
  (forall c t, fl_capacity fl = Some (c, t) -> published_traversal k t) ->
  published_traversal k (ps_traversal (try_candidates k request fl order)).
Proof.
  revert fl. induction order as [|c order IH]; intros fl Hfl; cbn [try_candidates].
  - unfold no_path_usable. destruct (fl_unknown fl); [by left|].
    destruct (fl_capacity fl) as [[? t]|]; [by eapply Hfl|by left].
  - pose proof (judge_traversal k request c) as Hj.
    destruct (judge_candidate k request c); [by apply IH..| |done]. apply IH. cbn.
    intros c' t'. destruct (fl_capacity fl) as [[? ?]|] eqn:E; cbn; [|by intros [= -> ->]].
    intros [= -> ->]. by eapply Hfl.
Qed.

Lemma select_traversal (k : EngineCore) (request : AdmissionRequest) :
  published_traversal k (ps_traversal (select_path k request)).
Proof.
  unfold select_path. destruct (bool_decide _); [|by apply try_traversal].
  destruct (path_required k); by left.
Qed.

Lemma traversal_size (k : EngineCore) (t : list ResourceId) :
  inputs_wf k -> published_traversal k t -> sizeN t <= 512.
Proof.
  intros Hk [->|(p & fact & Hf & ->)]; [done|].
  apply find_path_some in Hf as (c & Hc & Hin & _).
  destruct (in_paths k Hk c Hc) as [[_ _ _ He _] _]. rewrite Forall_forall in He. by apply He.
Qed.

(** ** The invariant of the engine *)

Record engine_wf (k : EngineCore) : Prop := {
  ew_inputs : inputs_wf k;
  ew_ledger : ledger_wf (ek_ledger k);
  ew_history : history_wf (ek_history k);
  ew_retired : u64 (hi_retired (ek_history k));
  ew_ids : forall d r, history_find d (ek_history k) = Some r ->
    d < ek_next_decision_sequence k /\ dr_audit r < ek_audit k;
  ew_next : ek_next_decision_sequence k <> 0;
  ew_held : forall d, holds (ek_ledger k) d = true ->
    exists r, history_find d (ek_history k) = Some r /\ is_admitting (dr_outcome r) = true;
}.

(** Neither sequence is about to wrap around. *)
Definition sequences_left (k : EngineCore) : Prop :=
  ek_next_decision_sequence k < u64_max /\ ek_audit k < u64_max.

Lemma consumed_ids (k : EngineCore) :
  sequences_left k ->
  ek_next_decision_sequence (consumed k) = ek_next_decision_sequence k + 1 /\
  ek_audit (consumed k) = ek_audit k + 1.
Proof. intros [H1 H2]. cbn. unfold u64_max in *. split; apply w_add_exact; unfold two64; lia. Qed.

(** Storing the record of a fresh decision keeps the invariant of the history, and
    every held decision keeps its record. *)
Lemma insert_fresh_wf (k : EngineCore) (record : DecisionRecord) (ledger : AdmittedLoadLedger) :
  engine_wf k -> sequences_left k ->
  dr_decision record = ek_next_decision_sequence k -> dr_audit record = ek_audit k ->
  let h' := trimmed ledger (history_insert record (ek_history k)) in
  history_wf h' /\ u64 (hi_retired h') /\
  (forall d r, history_find d h' = Some r ->
     d < ek_next_decision_sequence k + 1 /\ dr_audit r < ek_audit k + 1) /\
  (forall d r, holds ledger d = true ->
     (if decide (d = dr_decision record) then Some record else history_find d (ek_history k)) = Some r ->
     history_find d h' = Some r).
Proof.
  intros Hk Hs Hd Ha h'. destruct Hk as [_ _ Hwf Hr Hids Hnext _].
  set (h := history_insert record (ek_history k)) in *.
  assert (Hknown : dr_decision record <> 0) by congruence.
  assert (Hh : history_wf h).
  { apply history_insert_wf; [done|]. intros key Hkey.
    apply (hwf_index _ Hwf) in Hkey as (r & Hr' & Hra). apply Hids in Hr' as [_ Hlt]. lia. }
  pose proof (trimmed_retires ledger h Hh ltac:(unfold h; by rewrite insert_retired)) as Hret.
  fold h' in Hret. split_and!; [apply Hret|by eapply retired_word| |].
  - intros d r Hf. unfold history_find in Hf. eapply lookup_weaken in Hf; [|apply Hret].
    change (history_find d h = Some r) in Hf. unfold h in Hf. rewrite insert_find in Hf by done.
    case_decide as E; [injection Hf as <-; lia|]. apply Hids in Hf. lia.
  - intros d r Hh' Hf. unfold history_find. apply (ret_held _ _ _ Hret); [|done].
    change (history_find d h = Some r). unfold h. by rewrite insert_find.
Qed.

(** ** The outcomes of an admission *)

(** Nothing was admitted: the identity is used up, the amounts are as before, and
    neither history, registry nor cache saw anything. *)
Record voided (k k' : EngineCore) : Prop := {
  vo_inputs : same_inputs k k';
  vo_next : ek_next_decision_sequence k' = ek_next_decision_sequence (consumed k);
  vo_audit : ek_audit k' = ek_audit (consumed k);
  vo_ledger : same_amounts (ek_ledger k) (ek_ledger k');
  vo_history : ek_history k' = ek_history k;
  vo_attempts : ek_attempts k' = ek_attempts k;
  vo_cache : ek_decision_cache k' = ek_decision_cache k;
}.

(** The contract of a grant: what admission promises about the rate it grants. *)
Record justified (k : EngineCore) (request : AdmissionRequest) (targets : list ResourceId)
    (d : AdmissionDecision) : Prop := {
  ju_minimum : minimum (rq_rate request) <= ad_granted d;
  ju_maximum : ad_granted d <= maximum (rq_rate request);
  ju_outcome : ad_outcome d =
    if ad_granted d <? desired (rq_rate request) then AdmitDegraded else Admit;
  ju_degraded : ad_granted d < desired (rq_rate request) -> degrade_allowed k request = true;
  ju_room : Forall (fun r => has_capacity k r /\ ad_granted d <= room k r) targets;
  ju_targets : targets <> [] /\ NoDup targets;
  ju_bindings : Forall (fun b => rb_resource b ∈ targets) (rq_resource_bindings request);
  ju_path : ad_selected_path d <> 0 -> exists fact,
    path_usable k request (ad_selected_path d) fact /\
    ad_granted d <= path_free k fact (ad_selected_path d) /\
    Forall (fun r => r ∈ targets) (pf_resources fact);
  ju_size : sizeN targets <= sizeN (rq_resource_bindings request) + max_path_resources;
}.

(** The intent that is logged before a grant is reserved, and the record that is logged
    once it is. *)
Definition intent_of (k : EngineCore) (targets : list ResourceId) (d : AdmissionDecision) : PrepareRecord :=
  mkPrepareRecord (ad_decision d) (ad_demand d) (ad_attempt d) (ad_request_fingerprint d) (ek_epoch k)
    (ad_bound_capacity_generation d) (ad_selected_path d) ((fun r => (r, ad_granted d)) <$> targets).
Definition live_record (k : EngineCore) (d : AdmissionDecision) : DecisionRecord :=
  (to_record k d) <| dr_ledger_live := true |>.

(** What a failure between the intent and the commit leaves in the log: nothing, or the
    intent; or the file system went while they were written, the commit only after the
    load had been reserved. *)
Definition half_logged (k : EngineCore) (targets : list ResourceId) (d : AdmissionDecision) (k' : EngineCore) : Prop :=
  forall opts rs, prepare_storable (intent_of k targets d) -> decision_storable (live_record k d) ->
    logged opts k rs ->
    logged opts k' rs \/ exists s, let intent := LogPrepare s (intent_of k targets d) in
      logged opts k' (rs ++ [intent]) \/ cut opts k' rs [intent] \/
      (cut opts k' rs [intent; LogCommit (live_record k d)] /\ exists l, ledger_wf l /\
         reserved (ad_decision d) (ad_demand d) (ek_epoch k) (ad_bound_capacity_generation d)
           (ad_selected_path d) ((fun r => (r, ad_granted d)) <$> targets) (ek_ledger k) l).

(** What a decision that was not taken leaves in the log. *)
Inductive unsettled (k : EngineCore) (request : AdmissionRequest) (k' : EngineCore) : Prop :=
  | unsettled_refusal o d :
      issued k request o d -> ad_granted d = 0 ->
      (forall opts rs, decision_storable (to_record k d) -> logged opts k rs ->
         logged opts k' rs \/ cut opts k' rs [LogRefused (to_record k d)]) ->
      unsettled k request k'
  | unsettled_intent targets d :
      issued k request (ad_outcome d) d -> justified k request targets d ->
      half_logged k targets d k' -> unsettled k request k'.

(** A grant has been installed. *)
Record installed (k : EngineCore) (request : AdmissionRequest) (targets : list ResourceId)
    (d : AdmissionDecision) (k' : EngineCore) : Prop := {
  ins_issued : issued k request (ad_outcome d) d;
  ins_inputs : same_inputs k k';
  ins_next : ek_next_decision_sequence k' = ek_next_decision_sequence (consumed k);
  ins_audit : ek_audit k' = ek_audit (consumed k);
  ins_ledger : reserved (ad_decision d) (ad_demand d) (ek_epoch k) (ad_bound_capacity_generation d)
    (ad_selected_path d) ((fun r => (r, ad_granted d)) <$> targets) (ek_ledger k) (ek_ledger k');
  ins_wf : ledger_wf (ek_ledger k');
  ins_history : ek_history k' =
    trimmed (ek_ledger k')
      (history_insert (live_record k d) (ek_history k));
  ins_attempts : ek_attempts k' = record_attempt (attempt_of k request d) (ek_attempts k);
  ins_cache : ek_decision_cache k' !! ad_decision d = Some d;
  ins_log : forall opts rs, prepare_storable (intent_of k targets d) -> decision_storable (live_record k d) ->
    logged opts k rs -> compactable opts k' ->
    (exists s, let new := [LogPrepare s (intent_of k targets d); LogCommit (live_record k d)] in
       logged opts k' (rs ++ new) \/ gone opts k' (rs ++ new)) \/
    compacted opts k' \/ gone_compacted opts k';
}.

(** Every outcome of placing a request that passed the checks. *)
Inductive placed (k : EngineCore) (request : AdmissionRequest)
    : Expected AdmissionDecision -> EngineCore -> Prop :=
  | placed_refused o d k' :
      is_admitting o = false -> issued k request o d -> ad_granted d = 0 ->
      stored d request true ((to_record (consumed k) d) <| dr_state := RS_Fresh |>) (consumed k) k' ->
      placed k request (Val d) k'
  | placed_granted targets d res k' :
      justified k request targets d -> installed k request targets d k' ->
      (res = Val d \/ exists s, res = Err s) ->
      placed k request res k'
  | placed_failed s k' : voided k k' -> unsettled k request k' -> placed k request (Err s) k'.

Lemma quiet_voided (k k' : EngineCore) : quiet (consumed k) k' -> voided k k'.
Proof. intros (j & f & ->). by repeat constructor. Qed.

Lemma refused_placed (k : EngineCore) (request : AdmissionRequest) (o : AdmissionOutcome)
    (res : Expected AdmissionDecision) (k' : EngineCore) :
  is_admitting o = false -> refused request true o k res k' -> placed k request res k'.
Proof.
  intros Ho H. destruct res as [d|s]; cbn in H.
  - destruct H as (? & ? & ?). by eapply placed_refused.
  - destruct H as (Hq & d & Hi & Hg & Hl). apply placed_failed; [by apply quiet_voided|]. by eapply unsettled_refusal.
Qed.

Lemma amounts_keys (targets : list ResourceId) (g : Rate) :
  ((fun r => (r, g)) <$> targets).*1 = targets.
Proof. rewrite <- list_fmap_compose. apply list_fmap_id. Qed.

(** ** Issuing a grant *)

Section issue.
Context (k : EngineCore) (Hk : engine_wf k) (request : AdmissionRequest) (claim : ClaimContext)
  (targets : list ResourceId) (d : AdmissionDecision) (Hd : issued k request (ad_outcome d) d).
Let amounts := (fun r => (r, ad_granted d)) <$> targets.
Hypothesis (Hnd : NoDup targets) (Hg : u64 (ad_granted d)) (Hlen : sizeN targets <= ptrdiff_max).

Lemma amounts_ok :
  NoDup amounts.*1 /\ Forall (fun a => u64 a.2) amounts /\ sizeN amounts <= ptrdiff_max.
Proof.
  unfold amounts. rewrite amounts_keys. split_and!; [done| |].
  - apply Forall_fmap, Forall_true. done.
  - unfold sizeN in *. by rewrite length_fmap.
Qed.

Lemma finish_admission_spec :
  wp (finish_admission d request amounts)
    (fun res k' => match res with
                   | Val _ => installed k request targets d k'
                   | Err _ => (voided k k' /\ half_logged k targets d k') \/ installed k request targets d k'
                   end) (consumed k).
Proof.
  destruct amounts_ok as (Ha1 & Ha2 & Ha3).
  unfold finish_admission. apply wp_bind, wp_gets, wp_bind.
  eapply wp_writes; [apply silent_write_prepare|intros o; apply prepare_writes|].
  change (mkPrepareRecord _ _ _ _ _ _ _ _) with (intent_of k targets d).
  intros [[]|s] j f Hw; [|left; split; [apply quiet_voided; by exists j, f|]].
  2:{ intros o rs Hp _ Hl. destruct (Hw o rs Hp Hl) as [H|[s' H]]; [by left|]. right. exists s'. by right; left. }
  apply wp_bind. set (k1 := _ <| ek_faults := f |>) in *. unfold wp at 1, on_ledger.
  change (ek_ledger k1) with (ek_ledger k). change (ek_epoch (consumed k)) with (ek_epoch k).
  pose proof (reserve_outcome (ad_decision d) (ad_demand d) (ek_epoch k)
    (ad_bound_capacity_generation d) (ad_selected_path d) amounts Ha1 Ha2 Ha3 (ek_ledger k)
    (ew_ledger k Hk)) as Hres. unfold wp in Hres.
  destruct (reserve _ _ _ _ _ _ (ek_ledger k)) as [[[]|s] l'] eqn:Er; cbn [fst snd] in *.
  2:{ left. split; [constructor; try done; by apply same_load_amounts|]. intros o rs Hp _ Hl. right.
      destruct (Hw o rs Hp Hl) as [s' H]. exists s'. by left. }
  destruct Hres as [Hg' Hres].
  pose proof (reserved_wf _ _ _ _ _ _ _ _ Ha1 Ha2 Ha3 (ew_ledger k Hk) Hg' Hres) as Hwf'.
  apply wp_bind, wp_gets, wp_bind, wp_attempt.
  eapply wp_writes; [apply silent_write_commit|intros o; apply commit_writes|].
  change ((to_record (k1 <| ek_ledger := l' |>) d) <| dr_ledger_live := true |>) with (live_record k d).
  intros [[]|s] j' f' Hw'.
  - eapply wp_mono; [apply install_admission_spec|]. intros res k' [[E1 E2 E3 E4 E5 E6 E7] Hc].
    assert (Hins : installed k request targets d k').
    { constructor.
      - exact Hd.
      - etrans; [|exact E1]. by constructor.
      - exact E3.
      - exact E4.
      - rewrite E2. exact Hres.
      - rewrite E2. exact Hwf'.
      - rewrite E5, E2. reflexivity.
      - rewrite E6. reflexivity.
      - exact E7.
      - intros o rs Hp Hr Hl Hfit. destruct (Hw o rs Hp Hl) as [s Hl1]. destruct (Hw' o _ Hr Hl1) as [_ Hl2].
        rewrite <- app_assoc in Hl2. specialize (Hc o _ Hl2 Hfit).
        destruct (has_value res), Hc as [H|H]; [left; exists s; by left|by right; left|left; exists s; by right|by right; right]. }
    destruct res; [done|by right].
  - apply wp_bind, wp_attempt. unfold wp at 1, on_ledger.
    set (k2 := _ <| ek_faults := f' |>) in *. change (ek_ledger k2) with l'.
    pose proof (reserve_release _ _ _ _ _ _ _ _ Ha1 Ha2 Ha3 (ew_ledger k Hk) Er) as Hrel.
    destruct (release (ad_decision d) l') as [r l'']. cbn [fst snd] in *.
    apply wp_lift. left. split; [constructor; [by constructor|reflexivity|reflexivity|exact Hrel|reflexivity..]|].
    intros o rs Hp Hr Hl. destruct (Hw o rs Hp Hl) as [s' Hl1]. right. exists s'.
    destruct (Hw' o _ Hr Hl1) as [H|(_ & pre & Hpre & H)]; [by left|right; right].
    rewrite <- app_assoc in H. split; [|by exists l'].
    exists ([LogPrepare s' (intent_of k targets d)] ++ pre). split; [|done].
    destruct Hpre as [suf E]. exists suf. by rewrite <- app_assoc, <- E.
Qed.
End issue.

Lemma issue_grant_spec (k : EngineCore) (request : AdmissionRequest) (claim : ClaimContext)
    (targets : list ResourceId) (path : PathId) (g : Generation) (views : list ResourceView)
    (grant : Rate) (verdict : AdmissionOutcome) (binding : BindingConstraint) :
  engine_wf k -> NoDup targets -> u64 grant -> sizeN targets <= ptrdiff_max ->
  path = 0 \/ is_Some (find_path k path) ->
  wp (issue_grant request claim targets path g views grant verdict binding)
    (fun res k' => exists d, ad_outcome d = verdict /\ ad_granted d = grant /\
       ad_selected_path d = path /\ issued k request verdict d /\
       match res with
       | Val d' => d' = d /\ installed k request targets d k'
       | Err _ => (voided k k' /\ half_logged k targets d k') \/ installed k request targets d k'
       end) k.
Proof.
  intros Hk Hnd Hg Hlen Hpath. unfold issue_grant.
  apply wp_bind, begin_decision_spec, wp_bind, wp_get. cbv zeta.
  match goal with |- context [fill_effective (consumed k) views ?d0] =>
    destruct (fill_effective_shape (consumed k) views d0) as (e & t & ->) end.
  match goal with |- wp (finish_admission ?d0 _ _ ≫= _) _ _ => set (d := d0) end.
  assert (Hi : issued k request verdict d) by (constructor; [done..|by right]).
  apply wp_bind. eapply wp_mono.
  - change grant with (ad_granted d). by apply finish_admission_spec.
  - intros [[]|s] k' H; [apply wp_ret|]; by exists d.
Qed.

Lemma no_path_outcome (k : EngineCore) (request : AdmissionRequest) (order : list PathCandidate)
    (fl : PathFailures) :
  is_admitting (ps_outcome (try_candidates k request fl order)) = true ->
  ps_outcome (try_candidates k request fl order) = Admit.
Proof.
  revert fl. induction order as [|c order IH]; intros fl; cbn [try_candidates].
  - unfold no_path_usable. destruct (fl_unknown fl); [done|]. by destruct (fl_capacity fl) as [[]|].
  - destruct (judge_candidate k request c); auto.
Qed.

Lemma select_outcome (k : EngineCore) (request : AdmissionRequest) :
  ps_outcome (select_path k request) <> Admit ->
  is_admitting (ps_outcome (select_path k request)) = false.
Proof.
  intros H. apply not_true_is_false. intros Ha. apply H. revert Ha. unfold select_path.
  destruct (bool_decide _); [by destruct (path_required k)|apply no_path_outcome].
Qed.

(** The path selection, in the form the grant's contract needs it. *)
Lemma select_selected (k : EngineCore) (request : AdmissionRequest) :
  let sel := select_path k request in
  if ps_path_selected sel then
    exists fact, path_usable k request (ps_selected sel) fact /\ ps_traversal sel = pf_resources fact
  else ps_selected sel = 0.
Proof.
  cbn zeta. unfold select_path. destruct (bool_decide _); [by destruct (path_required k)|].
  destruct (try_candidates_spec k request (mkPathFailures None None None) (path_order k request))
    as [(Hs & _ & pre & c & post & fact & _ & _ & Hu & E & _ & Ht)|(Hs & E & _)]; rewrite Hs; [|done].
  exists fact. by rewrite E.
Qed.

Lemma verdict_spec (k : EngineCore) (request : AdmissionRequest) (g : Rate) (c : BindingConstraint) :
  match verdict_of k request g c with
  | inl (o, _) => is_admitting o = false
  | inr (v, _) =>
      v = (if g <? desired (rq_rate request) then AdmitDegraded else Admit) /\
      (g < desired (rq_rate request) -> degrade_allowed k request = true)
  end.
Proof.
  unfold verdict_of. destruct (N.ltb_spec g (desired (rq_rate request))); [|split; [done|lia]].
  destruct (degrade_allowed k request); done.
Qed.

Lemma foldr_min_le (l : list N) (m x : N) : x ∈ l -> foldr N.min m l <= x.
Proof. induction 1; cbn; lia. Qed.

(** A grant clamped to what the targets and the path selected leave is justified. *)
Section clamped.
Context (k : EngineCore) (Hin : inputs_wf k) (request : AdmissionRequest).
Let sel := select_path k request.
Let targets := targets_of request (ps_traversal sel).
Let fact := if ps_path_selected sel then find_path k (ps_selected sel) else None.
Context (grant : Rate) (Hne : targets <> []) (Hfits : Forall (fits k request) targets)
  (Hceil : grant <= N.min (foldr N.min (maximum (rq_rate request)) (room k <$> targets))
                      (from_option (fun f => path_free k f (pf_path f)) (maximum (rq_rate request)) fact)).

Lemma clamped_rooms : Forall (fun r => has_capacity k r /\ grant <= room k r) targets.
Proof.
  apply Forall_forall. intros r Hr. rewrite Forall_forall in Hfits. split; [by apply Hfits|].
  pose proof (foldr_min_le (room k <$> targets) (maximum (rq_rate request)) (room k r)
    ltac:(by apply list_elem_of_fmap_2)). lia.
Qed.

Lemma clamped_word : u64 grant.
Proof.
  pose proof clamped_rooms as H. destruct targets as [|r l]; [done|].
  apply Forall_cons in H as [[_ Hr] _]. exact (u64_le _ _ (room_word k r Hin) Hr).
Qed.

Lemma clamped_justified (d : AdmissionDecision) :
  minimum (rq_rate request) <= grant <= maximum (rq_rate request) ->
  ad_granted d = grant -> ad_selected_path d = ps_selected sel ->
  ad_outcome d = (if grant <? desired (rq_rate request) then AdmitDegraded else Admit) ->
  (grant < desired (rq_rate request) -> degrade_allowed k request = true) ->
  justified k request targets d.
Proof.
  intros [Hmin Hmax] Hg Hp Ho Hdeg. destruct (targets_spec request (ps_traversal sel)) as (Hts & Htin & Htlen).
  pose proof (traversal_size k _ Hin (select_traversal k request)) as Htrav.
  pose proof (select_selected k request) as Hsel. cbv zeta in Hsel.
  constructor; rewrite ?Hg, ?Hp; try done.
  - exact clamped_rooms.
  - split; [done|by apply ascending_distinct].
  - apply Forall_forall. intros b Hb. apply Htin. left. by apply list_elem_of_fmap_2.
  - intros Hp0. pose proof Hceil as Hc. unfold fact, sel in *. destruct (ps_path_selected _); [|by rewrite Hsel in Hp0].
    destruct Hsel as (f & Hu & Ht). exists f. split; [done|].
    pose proof (pu_published _ _ _ _ Hu) as Hf. rewrite Hf in Hc. cbn in Hc.
    apply find_path_some in Hf as (_ & _ & _ & Hfp). rewrite Hfp in Hc.
    split; [lia|].
    apply Forall_forall. intros r Hr. apply Htin. right. by rewrite Ht.
  - unfold sizeN, max_path_resources in *. unfold targets, sel in *. lia.
Qed.
End clamped.

Lemma place_request_spec (k : EngineCore) (request : AdmissionRequest) (claim : ClaimContext) :
  engine_wf k -> request_wf request ->
  wp (place_request request claim) (placed k request) k.
Proof.
  intros Hk Hrq. pose proof (ew_inputs k Hk) as Hin.
  unfold place_request. apply wp_bind, wp_get. cbv zeta.
  pose proof (select_selected k request) as Hsel. cbv zeta in Hsel.
  pose proof (traversal_size k _ Hin (select_traversal k request)) as Htrav.
  pose proof (select_outcome k request) as Hout.
  set (sel := select_path k request) in *.
  destruct (decide (ps_outcome sel = Admit)) as [Ha|Ha].
  2:{ rewrite bool_decide_false by done. cbn [negb]. eapply wp_mono; [apply refuse_with_spec|].
      intros res k'. by apply refused_placed, Hout. }
  rewrite bool_decide_true by done. cbn [negb].
  destruct (targets_spec request (ps_traversal sel)) as (Hts & Htin & Htlen).
  set (targets := targets_of request (ps_traversal sel)) in *.
  destruct (decide (targets = [])) as [He|Hne].
  { rewrite bool_decide_true by done. eapply wp_mono; [apply refuse_with_spec|].
    intros res k'. by apply refused_placed. }
  rewrite bool_decide_false by done.
  set (fact := if ps_path_selected sel then find_path k (ps_selected sel) else None).
  pose proof (evaluate_capacity_spec k Hin request targets fact) as Hce. cbv zeta in Hce.
  set (ce := evaluate_capacity k request targets fact) in *.
  case_decide as Hadm.
  2:{ rewrite bool_decide_false by done. cbn [negb].
      eapply wp_mono; [apply refuse_evaluated_spec|]. intros res k'. apply refused_placed, Hce. }
  rewrite bool_decide_true by done. cbn [negb]. destruct Hce as (Hfits & Hpath & Hceil).
  set (grant := clamped_to (ce_ceiling ce) (maximum (rq_rate request))).
  assert (Hgrant : grant = N.min (ce_ceiling ce) (maximum (rq_rate request)))
    by apply clamped_to_min.
  destruct (N.ltb_spec grant (minimum (rq_rate request))) as [Hlt|Hmin].
  { eapply wp_mono; [apply refuse_evaluated_spec|]. intros res k'. by apply refused_placed. }
  pose proof (verdict_spec k request grant (ce_constraint ce)) as Hv.
  destruct (verdict_of _ _ _ _) as [[o c]|[v c]].
  { eapply wp_mono; [apply refuse_evaluated_spec|]. intros res k'. by apply refused_placed. }
  destruct Hv as [Hv Hdeg].
  assert (Hle : grant <= ce_ceiling ce) by lia. rewrite Hceil in Hle.
  pose proof (clamped_word k Hin request grant Hne Hfits Hle) as Hword.
  eapply wp_mono.
  - apply issue_grant_spec; [done|by apply ascending_distinct|done| |].
    + destruct Hrq as [_ _ _ _ _ _ _ _ _ [Hb _] _ _ _ _ _ _ _ _]. unfold sizeN, ptrdiff_max in *. lia.
    + destruct (ps_path_selected sel); [|by left]. destruct Hsel as (f & Hu & _). right. exists f. apply Hu.
  - intros res k' (d & Ho & Hg & Hp & Hi & Hres).
    assert (Hj : justified k request targets d) 
      by (apply (clamped_justified k Hin request grant Hne Hfits Hle); try done; [lia|by rewrite Ho]).
    rewrite <- Ho in Hi. destruct res as [d'|s].
    + destruct Hres as [-> Hins]. eapply placed_granted; eauto.
    + destruct Hres as [[Hv' Hl]|Hins]; [|eapply placed_granted; eauto].
      apply placed_failed; [done|by eapply unsettled_intent].
Qed.

(** ** The checks only refuse *)

Definition refusing (v : Verdict) : Prop :=
  match v with Some (o, _) => is_admitting o = false | None => True end.

Lemma refusing_then (a b : Verdict) : refusing a -> refusing b -> refusing (a then_check b).
Proof. by destruct a. Qed.
Lemma refusing_when (b : bool) (v : Verdict) : refusing v -> refusing (refuse_when b v).
Proof. by destruct b. Qed.
#[local] Hint Resolve refusing_then refusing_when : naf.
#[local] Hint Extern 1 (refusing (Some _)) => reflexivity : naf.
#[local] Hint Extern 1 (refusing None) => exact I : naf.
#[local] Hint Extern 1 (refusing (fence _ _ _)) => reflexivity : naf.
#[local] Hint Extern 1 (refusing (stale _ _ _ _ _)) => reflexivity : naf.
#[local] Hint Extern 1 (refusing (unknown _ _ _)) => reflexivity : naf.
#[local] Hint Extern 1 (refusing (reject _ _)) => reflexivity : naf.

Lemma check_fence_refuses (k : EngineCore) (claim : ClaimContext) : refusing (check_fence k claim).
Proof.
  unfold check_fence. destruct (_ && _); [auto 10 with naf|].
  repeat (apply refusing_then; [auto with naf|]). destruct (_ !! _); auto with naf.
Qed.

Lemma require_generation_refuses (g a : Generation) (s : string) : refusing (require_generation g a s).
Proof. unfold require_generation. auto with naf. Qed.
#[local] Hint Resolve require_generation_refuses : naf.

Lemma check_expectations_refuses (k : EngineCore) (request : AdmissionRequest) :
  refusing (check_expectations k request).
Proof.
  unfold check_expectations.
  apply refusing_then; [|apply refusing_then; [|apply refusing_then; [|apply refusing_then;
    [|apply refusing_then; [|apply refusing_then]]]]].
  - unfold expect_capacity. destruct (ek_capacity k); auto 10 with naf.
  - unfold expect_reservations. destruct (ek_reservations k); auto 10 with naf.
  - unfold expect_catalogs. repeat (apply refusing_then; [auto with naf|]). apply refusing_when.
    destruct (ek_paths k); auto with naf.
  - induction (rq_resource_bindings request) as [|b l IH]; cbn [expect_bindings]; [done|].
    destruct (find_capacity k _); auto 10 with naf.
  - induction (rq_path_candidates request) as [|c l IH]; cbn [expect_candidates]; [done|].
    destruct (find_path k _); auto 10 with naf.
  - unfold expect_classes. destruct (find_qos k _); [|done]. apply refusing_then; [auto with naf|].
    destruct (find_priority k _); auto with naf.
  - induction (rq_reservation_refs request) as [|r l IH]; cbn [expect_refs]; [done|].
    destruct (list_find _ _) as [[]|]; auto 10 with naf.
Qed.

Lemma check_policy_refuses (k : EngineCore) (request : AdmissionRequest) :
  refusing (check_policy k request).
Proof.
  unfold check_policy. destruct (ek_policy k); [|done].
  repeat (apply refusing_then; [auto with naf|]). destruct (find_qos k _); [|done].
  unfold check_qos_fact. auto 10 with naf.
Qed.

Lemma check_request_refuses (k : EngineCore) (request : AdmissionRequest) :
  refusing (check_request k request).
Proof.
  unfold check_request. apply refusing_then; [|apply refusing_then].
  - unfold check_readiness. by destruct (readiness k).
  - apply check_expectations_refuses.
  - apply check_policy_refuses.
Qed.

(** ** The outcomes of a request *)

(** The request and the claim pass every check of the coordinator in state [k]. *)
Record passes (k : EngineCore) (request : AdmissionRequest) (claim : ClaimContext) : Prop := {
  pa_contract : request_wf request;
  pa_fence : check_fence k claim = None;
  pa_new : cl_disposition (classify (probe_of request) (ek_attempts k)) = AttemptNew;
  pa_ready : check_readiness k = None;
  pa_expectations : check_expectations k request = None;
  pa_policy : check_policy k request = None;
}.

Definition replay_counted (k k' : EngineCore) : Prop :=
  exists c, k' = k <| ek_counters := c |>.

(** A replay hands out what was decided before. *)
Record replayed (k : EngineCore) (request : AdmissionRequest) (claim : ClaimContext)
    (d : AdmissionDecision) : Prop := {
  re_contract : request_wf request;
  re_fence : check_fence k claim = None;
  re_flag : ad_idempotent_replay d = true;
  re_known : exists a, ag_attempts (ek_attempts k) !! (rq_demand request, rq_attempt request) = Some a /\
    at_fingerprint a = fingerprint request /\
    ((exists c, ek_decision_cache k !! at_decision a = Some c /\ d = c <| ad_idempotent_replay := true |>) \/
     (ek_decision_cache k !! at_decision a = None /\
      exists r, history_find (at_decision a) (ek_history k) = Some r /\ d = rebuild_replay k request r));
}.

(** A well-formed request by a live claim under an attempt not seen before. *)
Definition first_attempt (k : EngineCore) (request : AdmissionRequest) (claim : ClaimContext) : Prop :=
  request_wf request /\ check_fence k claim = None /\
  cl_disposition (classify (probe_of request) (ek_attempts k)) = AttemptNew.

Inductive answered (k : EngineCore) (request : AdmissionRequest) (claim : ClaimContext)
    : Expected AdmissionDecision -> EngineCore -> Prop :=
  | answered_refused b o d k0 k' :
      replay_counted k k0 -> is_admitting o = false -> issued k request o d -> ad_granted d = 0 ->
      (b = true -> request_wf request) -> (first_attempt k request claim -> b = true) ->
      stored d request b ((to_record (consumed k0) d) <| dr_state := RS_Fresh |>) (consumed k0) k' ->
      answered k request claim (Val d) k'
  | answered_failed s k0 k' :
      replay_counted k k0 -> voided k0 k' -> unsettled k0 request k' -> answered k request claim (Err s) k'
  | answered_replayed d k' :
      replay_counted k k' -> replayed k request claim d -> answered k request claim (Val d) k'
  | answered_placed res k' :
      passes k request claim -> placed k request res k' -> answered k request claim res k'.

#[export] Instance replay_counted_refl : Reflexive replay_counted.
Proof. intros k. exists (ek_counters k). by destruct k. Qed.

Lemma refused_answered (k k0 : EngineCore) (request : AdmissionRequest) (claim : ClaimContext)
    (b : bool) (o : AdmissionOutcome) (res : Expected AdmissionDecision) (k' : EngineCore) :
  replay_counted k k0 -> is_admitting o = false -> (b = true -> request_wf request) ->
  (first_attempt k request claim -> b = true) ->
  refused request b o k0 res k' -> answered k request claim res k'.
Proof.
  intros Hc Ho Hb Hf H. destruct res as [d|s]; cbn in H.
  - destruct H as (Hi & Hg & Hs). eapply answered_refused; try done.
    destruct Hc as [c ->]. destruct Hi. by constructor.
  - destruct H as (Hq & d & Hi & Hg & Hl). eapply answered_failed; [done|by apply quiet_voided|].
    by eapply unsettled_refusal.
Qed.

Lemma classify_replay (candidate : AttemptRecord) (g : AttemptRegistry) :
  cl_disposition (classify candidate g) = AttemptReplay ->
  ag_attempts g !! attempt_key candidate = Some (cl_existing (classify candidate g)) /\
  at_fingerprint (cl_existing (classify candidate g)) = at_fingerprint candidate.
Proof.
  unfold classify. destruct (ag_attempts g !! attempt_key candidate) as [a|].
  - destruct (N.eqb_spec (at_fingerprint a) (at_fingerprint candidate)); [done|by intros].
  - destruct (_ && _); by intros.
Qed.

(** Every answer of [admit_locked]. *)
Lemma admit_answered (k : EngineCore) (request : AdmissionRequest) (claim : ClaimContext) :
  engine_wf k -> wp (admit_locked request claim) (answered k request claim) k.
Proof.
  intros Hk. unfold admit_locked. apply wp_bind, wp_get.
  destruct (validate_request request) as [[]|contract] eqn:Hv.
  2:{ eapply wp_mono; [apply refuse_with_spec|]. intros res k'.
      apply (refused_answered k k); [reflexivity|done|done|].
      intros (Hwf & _). apply validate_request_spec in Hwf. congruence. }
  apply validate_request_spec in Hv. pose proof (check_fence_refuses k claim) as Hf.
  destruct (check_fence k claim) as [[o c]|] eqn:Ef.
  { eapply wp_mono; [apply refuse_with_spec|]. intros res k'.
    by apply (refused_answered k k). }
  destruct (cl_disposition (classify (probe_of request) (ek_attempts k))) eqn:Ecl.
  - unfold admit_new. apply wp_bind, wp_get. pose proof (check_request_refuses k request) as Hc.
    destruct (check_request k request) as [[o c]|] eqn:Ec.
    { eapply wp_mono; [apply refuse_with_spec|]. intros res k'.
      by apply (refused_answered k k). }
    eapply wp_mono; [by apply place_request_spec|]. intros res k' Hp. apply answered_placed; [|done].
    unfold check_request, and_then in Ec.
    destruct (check_readiness k) eqn:E1; [done|]. destruct (check_expectations k request) eqn:E2; [done|].
    by constructor.
  - assert (Hold : ~ first_attempt k request claim) by (intros (_ & _ & ?); congruence).
    apply classify_replay in Ecl as [Ha Hfp].
    set (a := cl_existing _) in *. unfold replay_attempt, note_replay.
    apply wp_bind, wp_modify, wp_bind, wp_get. set (k0 := k <| ek_counters := _ |>).
    assert (Hc : replay_counted k k0) by (by eexists).
    change (ek_decision_cache k0) with (ek_decision_cache k). change (ek_history k0) with (ek_history k).
    destruct (ek_decision_cache k !! at_decision a) as [d|] eqn:Ed.
    { apply wp_ret. apply answered_replayed; [done|]. constructor; try done.
      exists a. split_and!; try done. left. by exists d. }
    destruct (history_find (at_decision a) (ek_history k)) as [r|] eqn:Er.
    { apply wp_ret. apply answered_replayed; [done|]. constructor; try done.
      exists a. split_and!; try done. right. split; [done|]. by exists r. }
    eapply wp_mono; [apply refuse_with_spec|]. intros res k'.
    by apply (refused_answered k k0).
  - unfold refuse_conflict. eapply wp_mono; [apply refuse_with_spec|]. intros res k'.
    apply (refused_answered k k); [reflexivity|done|done|]. intros (_ & _ & ?). congruence.
Qed.

(** ** The invariant is kept by every answer *)

Lemma held_none (l l' : AdmittedLoadLedger) (d : N) :
  lg_by_decision l' = lg_by_decision l -> holds l' d = holds l d.
Proof. unfold holds. by intros ->. Qed.

Lemma held_reserved (l l' : AdmittedLoadLedger) (d demand e g p : N)
    (amounts : list (ResourceId * Rate)) (x : N) :
  reserved d demand e g p amounts l l' -> holds l' x = true -> x = d \/ holds l x = true.
Proof.
  intros (_ & _ & E & _). unfold holds. rewrite E, !bool_decide_eq_true.
  destruct (decide (d = x)) as [->|Hne]; [by left|]. rewrite lookup_insert_ne by done. by right.
Qed.

(** A stored record of a fresh decision, over a ledger that grew by at most it. *)
Lemma fresh_record_wf (k k' : EngineCore) (record : DecisionRecord) :
  engine_wf k -> sequences_left k -> same_inputs k k' ->
  ek_next_decision_sequence k' = ek_next_decision_sequence (consumed k) ->
  ek_audit k' = ek_audit (consumed k) ->
  ek_history k' = trimmed (ek_ledger k') (history_insert record (ek_history k)) ->
  ledger_wf (ek_ledger k') ->
  dr_decision record = ek_next_decision_sequence k -> dr_audit record = ek_audit k ->
  (forall d, holds (ek_ledger k') d = true ->
     (d = dr_decision record /\ is_admitting (dr_outcome record) = true) \/
     holds (ek_ledger k) d = true) ->
  engine_wf k'.
Proof.
  intros Hk Hs Hin Hn Ha Hh Hl Hd Hda Hheld.
  destruct (insert_fresh_wf k record (ek_ledger k') Hk Hs Hd Hda) as (H1 & H2 & H3 & H4).
  rewrite <- Hh in *. destruct (consumed_ids k Hs) as [E1 E2].
  constructor; try done.
  - exact (same_inputs_wf k k' Hin (ew_inputs k Hk)).
  - rewrite Hn, Ha, E1, E2. exact H3.
  - rewrite Hn, E1. lia.
  - intros d Hd'. destruct (Hheld d Hd') as [[-> Hadm]|Hold].
    + exists record. split; [|done]. apply H4; [done|]. by rewrite decide_True.
    + destruct (ew_held k Hk d Hold) as (r & Hr & Hadm). exists r. split; [|done].
      apply H4; [done|]. rewrite decide_False; [done|].
      apply (ew_ids k Hk) in Hr as [Hlt _]. rewrite Hd. lia.
Qed.

Lemma voided_wf (k k' : EngineCore) :
  engine_wf k -> sequences_left k -> voided k k' -> engine_wf k'.
Proof.
  intros Hk Hs [Hin Hn Ha Hl Hh _ _]. destruct (consumed_ids k Hs) as [E1 E2].
  destruct Hk as [H1 H2 H3 H4 H5 H6 H7]. constructor; rewrite ?Hh; try done.
  - exact (same_inputs_wf k k' Hin H1).
  - by eapply same_amounts_wf.
  - intros d r Hr. rewrite Hn, Ha, E1, E2. destruct (H5 d r Hr). lia.
  - rewrite Hn, E1. lia.
  - intros d Hd. apply H7. by rewrite <- (held_none (ek_ledger k) (ek_ledger k') d (proj1 (proj2 Hl))).
Qed.

Lemma installed_wf (k k' : EngineCore) (request : AdmissionRequest) (targets : list ResourceId)
    (d : AdmissionDecision) :
  engine_wf k -> sequences_left k -> is_admitting (ad_outcome d) = true ->
  installed k request targets d k' -> engine_wf k'.
Proof.
  intros Hk Hs Hadm [[Hd Ha _ _ _] Hin Hn Haud Hl Hwf Hh _ _].
  refine (fresh_record_wf k k' _ Hk Hs Hin Hn Haud Hh Hwf Hd Ha _).
  intros x Hx. destruct (held_reserved _ _ _ _ _ _ _ _ x Hl Hx) as [->|]; [by left|by right].
Qed.

Lemma justified_admits (k : EngineCore) (request : AdmissionRequest) (targets : list ResourceId)
    (d : AdmissionDecision) : justified k request targets d -> is_admitting (ad_outcome d) = true.
Proof. intros Hj. rewrite (ju_outcome _ _ _ _ Hj). by destruct (_ <? _). Qed.

Lemma replay_counted_wf (k k' : EngineCore) : engine_wf k -> replay_counted k k' -> engine_wf k'.
Proof.
  intros [H1 H2 H3 H4 H5 H6 H7] [c ->]. constructor; try done. by destruct H1.
Qed.

Lemma stored_refusal_wf (k k' : EngineCore) (request : AdmissionRequest) (b : bool)
    (o : AdmissionOutcome) (d : AdmissionDecision) :
  engine_wf k -> sequences_left k -> issued k request o d ->
  stored d request b ((to_record (consumed k) d) <| dr_state := RS_Fresh |>) (consumed k) k' ->
  engine_wf k'.
Proof.
  intros Hk Hs [Hd Ha _ _ _] [[Hin Hl Hn Hau Hh _ _] _].
  change (ek_ledger (consumed k)) with (ek_ledger k) in *.
  change (ek_history (consumed k)) with (ek_history k) in Hh. rewrite <- Hl in Hh.
  refine (fresh_record_wf k k' _ Hk Hs _ Hn Hau Hh _ Hd Ha _).
  - etrans; [|exact Hin]. by constructor.
  - rewrite Hl. apply Hk.
  - intros x. rewrite Hl. by right.
Qed.

Lemma answered_wf (k k' : EngineCore) (request : AdmissionRequest) (claim : ClaimContext)
    (res : Expected AdmissionDecision) :
  engine_wf k -> sequences_left k -> answered k request claim res k' -> engine_wf k'.
Proof.
  intros Hk Hs Ha.
  assert (Hrc : forall k0, replay_counted k k0 -> engine_wf k0 /\ sequences_left k0).
  { intros k0 H. split; [by eapply replay_counted_wf|]. by destruct H as [c ->]. }
  destruct Ha as [b o d k0 k' Hc Ho Hi Hg _ _ Hst|s k0 k' Hc Hv _|d k' Hc Hr|res k' Hp Hpl].
  - destruct (Hrc _ Hc) as [Hk0 Hs0]. eapply (stored_refusal_wf k0); try done.
    destruct Hc as [c ->]. destruct Hi. by constructor.
  - destruct (Hrc _ Hc). by eapply voided_wf.
  - by apply Hrc.
  - destruct Hpl as [o d k' Ho Hi Hg Hst|targets d res k' Hj Hi Hres|s k' Hv _].
    + by eapply stored_refusal_wf.
    + eapply installed_wf; try done. by eapply justified_admits.
    + by eapply voided_wf.
Qed.
