(* ===== verification/Safety.v ===== *)
(** * Admission: properties

    What a request can rely on: soundness of a grant, refusals and failures that
    admit nothing, idempotent retries, identities used once, conflicts and fences. *)

From S2P Require Import Prelude Checked Identity Hash State Policy Request Authority.
From S2P Require Import Decision Ledger History Bytes Records Journal Engine Admission.
From S2P Require Import Capacity Frames Grant.
Local Open Scope N_scope.
Local Open Scope naf_scope.

(** ** Helpers *)

Lemma admit_runs (k k' : EngineCore) (request : AdmissionRequest) (claim : ClaimContext)
    (res : Expected AdmissionDecision) :
  engine_wf k -> admit_locked request claim k = (res, k') -> answered k request claim res k'.
Proof. intros Hk E. by apply (wp_elim _ _ _ _ _ (admit_answered k request claim Hk)) in E. Qed.

Lemma amount_of_targets (r : ResourceId) (g : Rate) (targets : list ResourceId) :
  NoDup targets ->
  amount_of r ((fun r => (r, g)) <$> targets) = if decide (r ∈ targets) then g else 0.
Proof.
  intros Hnd. case_decide as Hr.
  - apply amount_of_in; [by rewrite amounts_keys|]. by apply (list_elem_of_fmap_2 (fun r => (r, g))).
  - apply amount_of_notin. by rewrite amounts_keys.
Qed.

Lemma record_attempt_find (a : AttemptRecord) (g : AttemptRegistry) :
  ag_attempts (record_attempt a g) !! attempt_key a = Some a.
Proof.
  unfold record_attempt. cbv zeta. destruct (is_known (at_request a)); [|apply lookup_insert_eq].
  destruct (_ !! at_request a); apply lookup_insert_eq.
Qed.

(** ** A small engine, its invariant and a first grant *)

Lemma sample_engine_wf : engine_wf sample_engine.
Proof.
  constructor.
  - exact sample_inputs_wf.
  - exact ledger_new_wf.
  - apply history_new_wf.
  - done.
  - intros d r Hr. unfold history_find in Hr. cbn in Hr. by rewrite lookup_empty in Hr.
  - done.
  - intros d Hd. apply bool_decide_eq_true in Hd as [es Hes]. cbn in Hes. by rewrite lookup_empty in Hes.
Qed.

(** The decision and the engine a run ends in. *)
Definition decision_of (run : Expected AdmissionDecision * EngineCore) : AdmissionDecision :=
  match run.1 with Val d => d | Err _ => AdmissionDecision_new end.

Lemma run_value (run : Expected AdmissionDecision * EngineCore) :
  has_value run.1 = true -> run = (Val (decision_of run), run.2).
Proof. by destruct run as [[d|s] k]. Qed.

Definition first_run : Expected AdmissionDecision * EngineCore :=
  admit_locked (sample_request 1 3) in_process sample_engine.

Lemma first_run_value : first_run = (Val (decision_of first_run), first_run.2).
Proof. apply run_value. by vm_compute. Qed.

(** ** Properties *)

(** C6: a grant is sound.  When [admit_locked] answers with a fresh admitting decision, the
    request is well formed, the claim is not fenced, the attempt is new and every
    readiness, authority and policy check passed; the granted rate lies within the
    request's minimum and maximum, is below the desired rate only when the outcome
    is ADMIT_DEGRADED and degradation is allowed, and on every target resource, the
    declared bindings and the selected path's traversal included, it fits what
    KNOWN usable capacity leaves after headroom, obligations and the load admitted
    so far; a selected path is up and has room for it.  The ledger then carries
    exactly this grant on exactly these resources, and the decision is on record. *)
Theorem admission_sound (k k' : EngineCore) (request : AdmissionRequest) (claim : ClaimContext)
    (d : AdmissionDecision) (Hk : engine_wf k) (Hs : sequences_left k)
    (Hrun : admit_locked request claim k = (Val d, k'))
    (Hadm : is_admitting (ad_outcome d) = true) (Hfresh : ad_idempotent_replay d = false) :
  passes k request claim /\
  exists targets, justified k request targets d /\
    (forall r, r ∈ targets -> exists e, find_capacity k r = Some e /\ rc_evidence e = EvidenceKnown /\
       ad_granted d <= rc_usable e - headroom_for k e - obligations_for k r - admitted (ek_ledger k) r) /\
    (forall r, admitted (ek_ledger k') r =
       admitted (ek_ledger k) r + (if decide (r ∈ targets) then ad_granted d else 0)) /\
    holds (ek_ledger k) (ad_decision d) = false /\ holds (ek_ledger k') (ad_decision d) = true /\
    (exists r, history_find (ad_decision d) (ek_history k') = Some r /\
               dr_outcome r = ad_outcome d /\ dr_granted r = ad_granted d).
Proof.
  pose proof (admit_runs k k' request claim _ Hk Hrun) as Ha.
  inversion Ha as [b o d' k0 k'' Hc Ho Hi|s ? ? ? Hv|d' k'' Hc Hr|res k'' Hp Hpl]; subst.
  - destruct Hi as [_ _ <- _ _]. congruence.
  - destruct Hr as [_ _ Hr _]. congruence.
  - inversion Hpl as [o d' k'' Ho Hi|targets d' res k'' Hj Hi Hres|]; subst.
    { destruct Hi as [_ _ <- _ _]. congruence. }
    assert (d' = d) as -> by (destruct Hres as [[= ->]|[? [=]]]; done).
    split; [done|]. exists targets. pose proof (ju_targets _ _ _ _ Hj) as [_ Hnd].
    destruct Hi as [Hiss Hin _ _ (E1 & _ & E3 & _) _ Hh _ _].
    assert (Hlive : holds (ek_ledger k') (ad_decision d) = true).
    { unfold holds. rewrite E3, lookup_insert_eq. by apply bool_decide_eq_true. }
    split_and!; [done| | | |done|].
    + intros r Hr. pose proof (ju_room _ _ _ _ Hj) as Hroom. rewrite Forall_forall in Hroom.
      destruct (Hroom r Hr) as [(e & Hf & He)%has_capacity_iff Hg]. exists e. split_and!; [done..|].
      rewrite (room_found k r e Hf He), allowance_exact in Hg;
        [done|by eapply found_usable_word; [apply Hk|]].
    + intros r. rewrite E1. by rewrite amount_of_targets.
    + apply not_true_is_false. intros Hh'. apply (ew_held k Hk) in Hh' as (r & Hr & _).
      apply (ew_ids k Hk) in Hr as [Hlt _]. rewrite (iss_decision _ _ _ _ Hiss) in Hlt. lia.
    + set (record := (to_record k d) <| dr_ledger_live := true |>) in *.
      destruct (insert_fresh_wf k record (ek_ledger k') Hk Hs) as (_ & _ & _ & Hfind);
        [apply Hiss|apply Hiss|].
      exists record. split_and!; [|done|done]. rewrite Hh. apply Hfind; [done|].
      by rewrite decide_True.
Qed.

Lemma admission_sound_witness :
  is_admitting (ad_outcome (decision_of first_run)) = true /\
  holds (ek_ledger first_run.2) (ad_decision (decision_of first_run)) = true.
Proof.
  assert (Ha : is_admitting (ad_outcome (decision_of first_run)) = true) by (by vm_compute).
  split; [exact Ha|].
  destruct (admission_sound sample_engine first_run.2 (sample_request 1 3) in_process
    (decision_of first_run) sample_engine_wf) as (_ & targets & H);
    [done|exact first_run_value|exact Ha|by vm_compute|].
  apply H.
Defined.

(** C10: only a fresh grant moves load.  When the answer is a refusal, a deferral or a
    replay, the ledger is exactly what it was.  When the call fails, every
    resource's load, the held decisions and the entry count are as before, the
    reservation of a failed commit having been rolled back; the one exception is
    a failure of the journal compaction that follows a committed grant. *)
Theorem only_grants_move_load (k k' : EngineCore) (request : AdmissionRequest)
    (claim : ClaimContext) (res : Expected AdmissionDecision) (Hk : engine_wf k)
    (Hrun : admit_locked request claim k = (res, k')) :
  match res with
  | Val d => is_admitting (ad_outcome d) = false \/ ad_idempotent_replay d = true ->
             ek_ledger k' = ek_ledger k
  | Err _ => same_amounts (ek_ledger k) (ek_ledger k') \/
             exists targets d, passes k request claim /\ justified k request targets d /\
                               installed k request targets d k'
  end.
Proof.
  pose proof (admit_runs k k' request claim res Hk Hrun) as Ha.
  destruct Ha as [b o d k0 k' Hc Ho Hi _ _ _ Hst|s k0 k' Hc Hv _|d k' Hc Hr|res k' Hp Hpl].
  - intros _. rewrite (fil_ledger _ _ _ _ _ _ Hst). by destruct Hc as [c ->].
  - left. destruct Hc as [c ->]. apply Hv.
  - intros _. by destruct Hc as [c ->].
  - destruct Hpl as [o d k' Ho Hi _ Hst|targets d res k' Hj Hi Hres|s k' Hv _].
    + intros _. by rewrite (fil_ledger _ _ _ _ _ _ Hst).
    + destruct Hres as [->|[s ->]]; [|right; by exists targets, d].
      pose proof (justified_admits _ _ _ _ Hj) as Had. pose proof (ins_issued _ _ _ _ _ Hi) as [_ _ _ _ Hrep].
      intros [?|?]; congruence.
    + left. apply Hv.
Qed.

Definition bad_request : AdmissionRequest := (sample_request 1 3) <| rq_demand := 0 |>.

Lemma only_grants_move_load_witness :
  ek_ledger (admit_locked bad_request in_process sample_engine).2 = ek_ledger sample_engine.
Proof.
  set (run := admit_locked bad_request in_process sample_engine).
  assert (Hv : run = (Val (decision_of run), run.2)) by (apply run_value; by vm_compute).
  apply (only_grants_move_load sample_engine run.2 bad_request in_process (Val (decision_of run))
    sample_engine_wf Hv).
  left. by vm_compute.
Defined.

(** Identities are used once.  A fresh answer carries the next decision identity and the
    current audit sequence, both unknown to history and ledger, and both advance,
    also when the call fails before anything is recorded; a replay consumes
    nothing. *)
Theorem identities_used_once (k k' : EngineCore) (request : AdmissionRequest)
    (claim : ClaimContext) (res : Expected AdmissionDecision) (Hk : engine_wf k)
    (Hs : sequences_left k) (Hrun : admit_locked request claim k = (res, k')) :
  let advanced := ek_next_decision_sequence k' = ek_next_decision_sequence k + 1 /\
                  ek_audit k' = ek_audit k + 1 in
  match res with
  | Val d =>
      if ad_idempotent_replay d then
        ek_next_decision_sequence k' = ek_next_decision_sequence k /\ ek_audit k' = ek_audit k
      else
        ad_decision d = ek_next_decision_sequence k /\ ad_audit d = ek_audit k /\ advanced /\
        history_find (ad_decision d) (ek_history k) = None /\ holds (ek_ledger k) (ad_decision d) = false
  | Err _ => advanced
  end.
Proof.
  cbv zeta. destruct (consumed_ids k Hs) as [E1 E2].
  assert (Hnew : history_find (ek_next_decision_sequence k) (ek_history k) = None /\
                 holds (ek_ledger k) (ek_next_decision_sequence k) = false).
  { assert (Hf : history_find (ek_next_decision_sequence k) (ek_history k) = None).
    { destruct (history_find _ (ek_history k)) as [r|] eqn:Er; [|done].
      apply (ew_ids k Hk) in Er as [? _]. lia. }
    split; [done|]. apply not_true_is_false. intros (r & Hr & _)%(ew_held k Hk). congruence. }
  pose proof (admit_runs k k' request claim res Hk Hrun) as Ha.
  destruct Ha as [b o d k0 k' Hc Ho [Hd Hau _ _ Hr] _ _ _ Hst|s k0 k' Hc Hv _|d k' Hc Hr|res k' Hp Hpl].
  - rewrite Hr, Hd, Hau, (fil_next _ _ _ _ _ _ Hst), (fil_audit _ _ _ _ _ _ Hst).
    destruct Hc as [c ->]. split_and!; [reflexivity|reflexivity|exact E1|exact E2|apply Hnew|apply Hnew].
  - rewrite (vo_next _ _ Hv), (vo_audit _ _ Hv). destruct Hc as [c ->]. split; [exact E1|exact E2].
  - rewrite (re_flag _ _ _ _ Hr). destruct Hc as [c ->]. split; reflexivity.
  - destruct Hpl as [o d k' Ho [Hd Hau _ _ Hr] _ Hst|targets d res k' Hj Hi Hres|s k' Hv _].
    + rewrite Hr, Hd, Hau, (fil_next _ _ _ _ _ _ Hst), (fil_audit _ _ _ _ _ _ Hst).
      split_and!; [reflexivity|reflexivity|exact E1|exact E2|apply Hnew|apply Hnew].
    + destruct Hi as [[Hd Hau _ _ Hr] _ Hn Haud _ _ _ _ _].
      destruct Hres as [->|[s ->]]; rewrite ?Hr, Hn, Haud; [rewrite Hd|by split].
      split_and!; [reflexivity|exact Hau|exact E1|exact E2|apply Hnew|apply Hnew].
    + rewrite (vo_next _ _ Hv), (vo_audit _ _ Hv). by split.
Qed.

Lemma identities_used_once_witness :
  ek_next_decision_sequence first_run.2 = 2 /\ ad_decision (decision_of first_run) = 1.
Proof.
  pose proof (identities_used_once sample_engine first_run.2 (sample_request 1 3) in_process
    (Val (decision_of first_run)) sample_engine_wf ltac:(done) first_run_value) as H.
  assert (Hr : ad_idempotent_replay (decision_of first_run) = false) by (by vm_compute).
  cbv beta iota zeta in H. rewrite Hr in H. destruct H as (H1 & _ & (H2 & _) & _). split; [exact H2|exact H1].
Defined.

(** The engine knows the attempt of a request and the decision it made on it. *)
Record remembered (k : EngineCore) (request : AdmissionRequest) (d : AdmissionDecision) : Prop := {
  rm_request : request_wf request;
  rm_attempt : exists a, ag_attempts (ek_attempts k) !! (rq_demand request, rq_attempt request) = Some a /\
    at_fingerprint a = fingerprint request /\ at_decision a = ad_decision d;
  rm_decision : ek_decision_cache k !! ad_decision d = Some d;
}.

Lemma remembered_replays (k : EngineCore) (request : AdmissionRequest) (claim : ClaimContext)
    (d : AdmissionDecision) :
  remembered k request d -> check_fence k claim = None ->
  exists counters,
    admit_locked request claim k =
      (Val (d <| ad_idempotent_replay := true |>), k <| ek_counters := counters |>).
Proof.
  intros [Hwf (a & Ha & Hfp & Hd) Hc] Hfence. eexists. unfold admit_locked, mbind, M_bind, get. cbv beta iota.
  rewrite (proj2 (validate_request_spec request) Hwf), Hfence. unfold classify.
  change (attempt_key (probe_of request)) with (rq_demand request, rq_attempt request).
  change (at_fingerprint (probe_of request)) with (fingerprint request).
  rewrite Ha, Hfp, N.eqb_refl. cbn [cl_disposition cl_existing].
  unfold replay_attempt, note_replay, modify, mbind, M_bind, get. cbv beta iota.
  cbn [ek_decision_cache set_field]. rewrite Hd, Hc. reflexivity.
Qed.

Lemma recorded_remembered (k' : EngineCore) (request : AdmissionRequest) (d : AdmissionDecision)
    (a : AttemptRecord) (g : AttemptRegistry) :
  request_wf request -> attempt_key a = (rq_demand request, rq_attempt request) ->
  at_fingerprint a = fingerprint request -> at_decision a = ad_decision d ->
  ek_attempts k' = record_attempt a g -> ek_decision_cache k' !! ad_decision d = Some d ->
  remembered k' request d.
Proof.
  intros Hwf Hkey Hfp Hd Hat Hc. split; [done| |done]. exists a. split_and!; [|done|done].
  by rewrite Hat, <- Hkey, record_attempt_find.
Qed.

Lemma first_remembered (k k' : EngineCore) (request : AdmissionRequest) (claim : ClaimContext)
    (d : AdmissionDecision) :
  engine_wf k -> first_attempt k request claim -> admit_locked request claim k = (Val d, k') ->
  remembered k' request d /\ same_inputs k k'.
Proof.
  intros Hk Hfirst Hrun. pose proof Hfirst as (Hwf & Hfence & Hnew).
  pose proof (admit_runs k k' request claim _ Hk Hrun) as Ha.
  inversion Ha as [b o d' k0 k'' Hc Ho Hi _ Hb Hf Hst|s ? ? ? Hv|d' k'' Hc Hr|res k'' Hp Hpl]; subst.
  - rewrite (Hf Hfirst) in Hst. destruct Hst as [[Hin _ _ _ _ Hat Hca] _]. split.
    + eapply recorded_remembered; [done|..|exact Hat|exact Hca]; [done|by destruct Hi|done].
    + etrans; [|exact Hin]. destruct Hc as [c ->]. by constructor.
  - destruct Hr as [_ _ _ (a & Ha' & Hfp & _)]. unfold classify in Hnew.
    change (attempt_key (probe_of request)) with (rq_demand request, rq_attempt request) in Hnew.
    rewrite Ha' in Hnew. change (at_fingerprint (probe_of request)) with (fingerprint request) in Hnew.
    rewrite Hfp, N.eqb_refl in Hnew. done.
  - inversion Hpl as [o d' k'' Ho Hi Hg Hst|targets d' res k'' Hj Hi Hres|]; subst.
    + destruct Hst as [[Hin _ _ _ _ Hat Hca] _]. split.
      * eapply recorded_remembered; [done|..|exact Hat|exact Hca]; [done|by destruct Hi|done].
      * etrans; [|exact Hin]. by constructor.
    + assert (d' = d) as -> by (destruct Hres as [[= ->]|[? [=]]]; done).
      destruct Hi as [[] Hin _ _ _ _ _ Hat Hca]. split; [|exact Hin].
      by eapply recorded_remembered; [done|..|exact Hat|exact Hca].
Qed.

(** C9: a retry is idempotent.  When a well-formed request by a live claim is decided under an
    attempt not seen before, sending it again returns the same decision marked as
    a replay, whatever the decision was, and changes nothing but the counters: no
    load, no record, no identity. *)
Theorem retry_idempotent (k k' : EngineCore) (request : AdmissionRequest) (claim : ClaimContext)
    (d : AdmissionDecision) (Hk : engine_wf k) (Hfirst : first_attempt k request claim)
    (Hrun : admit_locked request claim k = (Val d, k')) :
  exists counters,
    admit_locked request claim k' =
      (Val (d <| ad_idempotent_replay := true |>), k' <| ek_counters := counters |>).
Proof.
  destruct (first_remembered k k' request claim d Hk Hfirst Hrun) as [Hm Hin].
  apply remembered_replays; [done|]. rewrite (same_fence k k' Hin). apply Hfirst.
Qed.

Lemma sample_request_wf : request_wf (sample_request 1 3).
Proof. by apply validate_request_spec. Qed.

Lemma retry_idempotent_witness :
  first_attempt sample_engine (sample_request 1 3) in_process /\
  exists counters, admit_locked (sample_request 1 3) in_process first_run.2 =
    (Val ((decision_of first_run) <| ad_idempotent_replay := true |>),
     first_run.2 <| ek_counters := counters |>).
Proof.
  assert (H : first_attempt sample_engine (sample_request 1 3) in_process)
    by (split_and!; [exact sample_request_wf|reflexivity|reflexivity]).
  split; [exact H|].
  exact (retry_idempotent sample_engine first_run.2 (sample_request 1 3) in_process
    (decision_of first_run) sample_engine_wf H first_run_value).
Defined.

(** A refusal that is not to be recorded leaves the ledger and the registry alone. *)
Lemma refused_unrecorded (k k0 k' : EngineCore) (request : AdmissionRequest) (o : AdmissionOutcome)
    (res : Expected AdmissionDecision) :
  replay_counted k k0 -> refused request false o k0 res k' ->
  ek_ledger k' = ek_ledger k /\ ek_attempts k' = ek_attempts k.
Proof.
  intros [c ->] H. destruct res as [d|s].
  - destruct H as (_ & _ & Hst). split; [exact (fil_ledger _ _ _ _ _ _ Hst)|exact (fil_attempts _ _ _ _ _ _ Hst)].
  - destruct H as [(j & f & ->) _]. split; reflexivity.
Qed.

(** C26: a reused identity is refused.  A well-formed request by a live claim whose (demand,
    attempt) pair is known under another fingerprint is never admitted: the
    answer, when the journal takes the refusal, is a fresh CONFLICTING_INPUT with
    no grant, and whether it does or not the ledger and the attempt first
    acknowledged are untouched. *)
Theorem conflict_refused (k k' : EngineCore) (request : AdmissionRequest) (claim : ClaimContext)
    (a : AttemptRecord) (res : Expected AdmissionDecision)
    (Hwf : request_wf request) (Hfence : check_fence k claim = None)
    (Ha : ag_attempts (ek_attempts k) !! (rq_demand request, rq_attempt request) = Some a)
    (Hfp : at_fingerprint a <> fingerprint request)
    (Hrun : admit_locked request claim k = (res, k')) :
  match res with
  | Val d => ad_outcome d = ConflictingInput /\ ad_granted d = 0 /\ ad_idempotent_replay d = false
  | Err _ => True
  end /\
  ek_ledger k' = ek_ledger k /\ ek_attempts k' = ek_attempts k.
Proof.
  set (cl := mkClassification AttemptConflict a false).
  assert (Hcl : classify (probe_of request) (ek_attempts k) = cl).
  { unfold classify. change (attempt_key (probe_of request)) with (rq_demand request, rq_attempt request).
    rewrite Ha. change (at_fingerprint (probe_of request)) with (fingerprint request).
    by rewrite (proj2 (N.eqb_neq _ _) Hfp). }
  assert (Hr : refused request false ConflictingInput k res k').
  { apply (wp_elim _ _ _ _ _ (refuse_with_spec request claim false ConflictingInput
      (with_generations (at_fingerprint a) (fingerprint request)
         (constraint_of BC_IdentityConflict "attempt" (rq_attempt request)
            "attempt identity was reused with different content")) k)).
    rewrite <-Hrun. unfold admit_locked, mbind, M_bind, get. cbv beta iota.
    by rewrite (proj2 (validate_request_spec request) Hwf), Hfence, Hcl. }
  split; [|by eapply refused_unrecorded].
  destruct res as [d|s]; [|done]. by destruct Hr as ([_ _ Ho _ Hrep] & Hg & _).
Qed.

Definition other_request : AdmissionRequest :=
  (sample_request 1 3) <| rq_request := 2 |> <| rq_tenant := 9 |>.

Lemma conflict_refused_witness :
  let run := admit_locked other_request in_process first_run.2 in
  ad_outcome (decision_of run) = ConflictingInput /\ ek_ledger run.2 = ek_ledger first_run.2.
Proof.
  cbv zeta. set (run := admit_locked other_request in_process first_run.2).
  assert (Hv : run = (Val (decision_of run), run.2)) by (apply run_value; by vm_compute).
  set (a := attempt_of first_run.2 (sample_request 1 3) (decision_of first_run)).
  destruct (conflict_refused first_run.2 run.2 other_request in_process a (Val (decision_of run)))
    as ((H & _) & Hl & _); [..|exact Hv|by split].
  - by apply validate_request_spec.
  - by vm_compute.
  - by vm_compute.
  - by vm_compute.
Defined.

(** ** Where the code departs from its documentation *)

(** An engine whose policy demands a path binding and whose only path has room for
    5 where the request needs at least 10. *)
Definition strict_policy : AdmissionPolicy :=
  mkAdmissionPolicy 3 1 1 0 50 0 true true true false true ActionReject [1; 2] [1] 16 4096 16 10.
Definition strict_engine : EngineCore :=
  sample_engine
    <| ek_policy := Some strict_policy |>
    <| ek_paths := Some (mkPathCatalog 1 1 0 [mkPathAdmissionFact 5 1 PathUp 5 10 [2]]) |>.

(** An exhausted path does not refuse.  Under a policy that requires a path binding, a
    request whose only candidate path cannot carry its minimum rate is admitted at
    its maximum rate without any path: the selection reports the block in a field
    that no later step reads. *)
Theorem exhausted_path_admitted :
  let sel := select_path strict_engine (path_request 1) in
  let d := decision_of (admit_locked (path_request 1) in_process strict_engine) in
  ps_capacity_blocked sel = true /\
  ad_outcome d = Admit /\ ad_granted d = 50 /\ ad_selected_path d = 0.
Proof. by vm_compute. Qed.

Definition stale_claim : ClaimContext := in_process <| cc_epoch := 9 |>.

(** A fenced claimant displaces an acknowledged attempt.  After a grant, the same request
    under a stale epoch is fenced, and the refusal takes the attempt's place in the
    registry: the rightful claimant's retry is then answered with the fenced
    refusal as a replay while the ledger still carries its grant. *)
Theorem fenced_claim_displaces_attempt :
  let stale := admit_locked (sample_request 1 3) stale_claim first_run.2 in
  let retry := admit_locked (sample_request 1 3) in_process stale.2 in
  ad_outcome (decision_of first_run) = Admit /\
  ad_outcome (decision_of stale) = FencedClaimant /\
  ad_outcome (decision_of retry) = FencedClaimant /\
  ad_idempotent_replay (decision_of retry) = true /\
  holds (ek_ledger retry.2) (ad_decision (decision_of first_run)) = true.
Proof. by vm_compute. Qed.

(** A replay does not tell of a revocation.  Retrying the request of a revoked grant
    answers ADMIT with the original rate and [revalidation_required] unset,
    although the ledger no longer carries the grant. *)
Theorem revoked_replay_admits :
  let revoked := revoke_locked (ad_decision (decision_of first_run)) OperatorRequest first_run.2 in
  let retry := admit_locked (sample_request 1 3) in_process revoked.2 in
  has_value revoked.1 = true /\
  ad_outcome (decision_of retry) = Admit /\ ad_granted (decision_of retry) = 50 /\
  ad_revalidation_required (decision_of retry) = false /\
  holds (ek_ledger retry.2) (ad_decision (decision_of retry)) = false.
Proof. by vm_compute. Qed.
