(* ===== verification/Api.v ===== *)
(** * Publication, sessions, time and status
    (the public entry points of src/src/engine/engine.cpp) *)

From S2P Require Import Prelude Checked Identity Hash State Policy Request Authority.
From S2P Require Import Decision Ledger History Bytes Records Journal Engine Admission.
Local Open Scope N_scope.
Local Open Scope naf_scope.

(** ** Content comparison: the epoch and the observation tick are excluded *)

Definition content_equal_policy (a b : AdmissionPolicy) : bool :=
  bool_decide (
    pol_id a = pol_id b /\ pol_generation a = pol_generation b /\
    pol_headroom_permille a = pol_headroom_permille b /\
    pol_headroom_floor a = pol_headroom_floor b /\
    pol_allow_degraded a = pol_allow_degraded b /\
    pol_allow_preemptible_admission a = pol_allow_preemptible_admission b /\
    pol_require_path_binding a = pol_require_path_binding b /\
    pol_require_reservation_reference a = pol_require_reservation_reference b /\
    pol_allow_path_substitution a = pol_allow_path_substitution b /\
    pol_on_contention a = pol_on_contention b /\ pol_allowed_qos a = pol_allowed_qos b /\
    pol_allowed_priorities a = pol_allowed_priorities b /\
    pol_max_explanation_constraints a = pol_max_explanation_constraints b /\
    pol_max_explanation_bytes a = pol_max_explanation_bytes b /\
    pol_max_effective_resources a = pol_max_effective_resources b /\
    pol_defer_horizon_ticks a = pol_defer_horizon_ticks b).

Definition content_equal_capacity (a b : CapacitySnapshot) : bool :=
  bool_decide (cs_snapshot a = cs_snapshot b /\ cs_generation a = cs_generation b /\
               cs_resources a = cs_resources b).
Definition content_equal_reservations (a b : ReservationSnapshot) : bool :=
  bool_decide (rs_snapshot a = rs_snapshot b /\ rs_generation a = rs_generation b /\
               rs_obligations a = rs_obligations b).
Definition content_equal_paths (a b : PathCatalog) : bool :=
  bool_decide (pc_path_authority_generation a = pc_path_authority_generation b /\
               pc_paths a = pc_paths b).
Definition content_equal_qos (a b : QoSClassCatalog) : bool :=
  bool_decide (qc_generation a = qc_generation b /\ qc_classes a = qc_classes b).
Definition content_equal_priorities (a b : PriorityClassCatalog) : bool :=
  bool_decide (prc_generation a = prc_generation b /\ prc_classes a = prc_classes b).

(** ** Publication

    What every publication decides about a snapshot before installing it: install
    it, acknowledge a republication, or refuse. *)

Inductive Publication := PublishInstall | PublishAlreadyCurrent | PublishRefused (status : Status).

Definition judge_publication {A} (generation : A -> Generation) (content_equal : A -> A -> bool)
    (what : string) (current : option A) (new : A) : Publication :=
  match current with
  | None => PublishInstall
  | Some old =>
      if generation new <? generation old then
        PublishRefused (status_error StaleGenerationCode (what +:+ " generation would move backwards"))
      else if generation new =? generation old then
        if content_equal new old then PublishAlreadyCurrent
        else PublishRefused (status_error ConflictIdentity
               (what +:+ " generation republished with different content"))
      else PublishInstall
  end.

Definition require_epoch : M EngineCore unit :=
  k ← get;
  lift (refuse_if (epoch_is_none (ek_epoch k)) (error EpochMismatch "engine has no fabric epoch")).

Definition require_same_epoch (epoch : FabricEpoch) (m : string) : M EngineCore unit :=
  k ← get;
  lift (refuse_if (negb (epoch =? ek_epoch k)) (error EpochMismatch m)).

Definition publish_if (p : Publication) (install : M EngineCore unit) : M EngineCore unit :=
  match p with
  | PublishInstall => install
  | PublishAlreadyCurrent => mret tt
  | PublishRefused status => lift (Err status)
  end.

Definition observe_tick (t : N) (k : EngineCore) : EngineCore := k <| ek_tick := N.max (ek_tick k) t |>.

Definition publish_policy (policy : AdmissionPolicy) : M EngineCore unit :=
  lift (validate_policy policy) ;;
  require_epoch ;;
  require_same_epoch (pol_epoch policy) "policy epoch does not match the fabric epoch" ;;
  k ← get;
  publish_if (judge_publication pol_generation content_equal_policy "policy" (ek_policy k) policy)
    (write_policy_record policy ;;
     modify (fun k => observe_tick (pol_observed_tick policy) (k <| ek_policy := Some policy |>)) ;;
     enforce_accounting_locked PolicyPublication).

Definition publish_capacity (snapshot : CapacitySnapshot) : M EngineCore unit :=
  lift (validate_capacity snapshot) ;;
  require_epoch ;;
  require_same_epoch (cs_epoch snapshot) "capacity epoch does not match the fabric epoch" ;;
  k ← get;
  publish_if (judge_publication cs_generation content_equal_capacity "capacity" (ek_capacity k) snapshot)
    (modify (fun k => observe_tick (cs_observed_tick snapshot) (k <| ek_capacity := Some snapshot |>)) ;;
     enforce_accounting_locked CapacityPublication).

Definition publish_reservations (snapshot : ReservationSnapshot) : M EngineCore unit :=
  lift (validate_reservations snapshot) ;;
  require_epoch ;;
  k ← get;
  publish_if (judge_publication rs_generation content_equal_reservations "reservation"
                (ek_reservations k) snapshot)
    (modify (fun k => observe_tick (rs_observed_tick snapshot)
                        (rebuild_obligation_index (k <| ek_reservations := Some snapshot |>))) ;;
     enforce_accounting_locked ReservationPublication).

Definition publish_paths (catalog : PathCatalog) : M EngineCore unit :=
  lift (validate_paths catalog) ;;
  require_epoch ;;
  k ← get;
  publish_if (judge_publication pc_path_authority_generation content_equal_paths "path authority"
                (ek_paths k) catalog)
    (modify (fun k => observe_tick (pc_observed_tick catalog) (k <| ek_paths := Some catalog |>))).

Definition publish_qos_catalog (catalog : QoSClassCatalog) : M EngineCore unit :=
  lift (validate_qos catalog) ;;
  require_epoch ;;
  k ← get;
  publish_if (judge_publication qc_generation content_equal_qos "qos catalog" (ek_qos k) catalog)
    (modify (fun k => observe_tick (qc_observed_tick catalog) (k <| ek_qos := Some catalog |>))).

Definition publish_priority_catalog (catalog : PriorityClassCatalog) : M EngineCore unit :=
  lift (validate_priorities catalog) ;;
  require_epoch ;;
  k ← get;
  publish_if (judge_publication prc_generation content_equal_priorities "priority catalog"
                (ek_priorities k) catalog)
    (modify (fun k => observe_tick (prc_observed_tick catalog) (k <| ek_priorities := Some catalog |>))).

Definition invalidate_capacity : M EngineCore unit := modify (fun k => k <| ek_capacity := None |>).
Definition invalidate_paths : M EngineCore unit := modify (fun k => k <| ek_paths := None |>).

(** ** Durability, faults *)

Definition attach_journal (journal : Journal) : M EngineCore unit :=
  k ← get;
  if ek_journal_ready k then fail AlreadyExists "a journal is already attached"
  else modify (fun k => k <| ek_journal := Some journal |>).

Definition compact_journal : M EngineCore unit := compact_locked.
Definition set_fault_injection (faults : FaultInjection) : M EngineCore unit :=
  modify (fun k => k <| ek_faults := faults |>).

(** ** Sessions *)

Definition register_session (publisher : PublisherId) (boot : BootId) : M EngineCore SessionGrant :=
  k ← get;
  lift (refuse_if (is_unknown publisher || is_unknown boot)
          (error InvalidArgument "publisher and boot identities are required")) ;;
  require_epoch ;;
  lift (refuse_if (ec_session_capacity (ek_config k) <=? mapN (ek_sessions k))
          (error Busy "session capacity is exhausted")) ;;
  let nonce := ek_next_session_nonce k in
  modify (fun k => k
    <| ek_next_session_nonce := nonce +w 1 |>
    <| ek_sessions := match ek_sessions k !! nonce with
                      | Some _ => ek_sessions k
                      | None => <[nonce := mkSessionRecord nonce publisher boot]> (ek_sessions k)
                      end |>) ;;
  mret (mkSessionGrant nonce (ek_incarnation k) (ek_epoch k) publisher boot).

Definition retire_session (session : SessionNonce) : M EngineCore unit :=
  k ← get;
  match ek_sessions k !! session with
  | None => fail NotFound "session is not live"
  | Some _ => modify (fun k => k <| ek_sessions := delete session (ek_sessions k) |>)
  end.

Definition begin_new_incarnation (incarnation : CoordinatorIncarnation) : M EngineCore unit :=
  k ← get;
  let next := ek_epoch k +w 1 in
  if negb (epoch_well_formed next) then fail ArithmeticOverflow "fabric epoch is exhausted"
  else
    modify (fun k => k <| ek_epoch := next |> <| ek_incarnation := incarnation |>
                       <| ek_sessions := ∅ |> <| ek_next_session_nonce := 1 |>) ;;
    write_boot.

(** ** Time *)

Definition advance_tick (ticks : N) : M EngineCore unit :=
  modify (fun k => k <| ek_tick := sat_add (ek_tick k) ticks |>).

(** ** Status *)

Record FabricStatus := mkFabricStatus {
  fs_readiness : EngineReadiness;
  fs_epoch : FabricEpoch;
  fs_incarnation : CoordinatorIncarnation;
  fs_tick : N;
  fs_has_policy : bool;
  fs_has_capacity : bool;
  fs_has_reservations : bool;
  fs_has_paths : bool;
  fs_has_qos : bool;
  fs_has_priority : bool;
  fs_policy_generation : Generation;
  fs_capacity_generation : Generation;
  fs_reservation_generation : Generation;
  fs_path_generation : Generation;
  fs_qos_generation : Generation;
  fs_priority_generation : Generation;
  fs_capacity_snapshot : CapacitySnapshotId;
  fs_reservation_snapshot : ReservationSnapshotId;
  fs_audit_sequence : AuditSequence;
  fs_decisions : N;
  fs_admissions : N;
  fs_refusals : N;
  fs_deferrals : N;
  fs_idempotent_replays : N;
  fs_conflicts : N;
  fs_fences : N;
  fs_stale_refusals : N;
  fs_ledger_entries : N;
  fs_live_decisions : N;
  fs_live_sessions : N;
  fs_total_admitted : Rate;
  fs_infeasible_resources : N;
  fs_durable : bool;
  fs_reconciled : bool;
}.

Definition status_locked (k : EngineCore) : FabricStatus :=
  let c := ek_counters k in
  {| fs_readiness := readiness k; fs_epoch := ek_epoch k; fs_incarnation := ek_incarnation k;
     fs_tick := ek_tick k;
     fs_has_policy := bool_decide (is_Some (ek_policy k));
     fs_has_capacity := bool_decide (is_Some (ek_capacity k));
     fs_has_reservations := bool_decide (is_Some (ek_reservations k));
     fs_has_paths := bool_decide (is_Some (ek_paths k));
     fs_has_qos := bool_decide (is_Some (ek_qos k));
     fs_has_priority := bool_decide (is_Some (ek_priorities k));
     fs_policy_generation := from_option pol_generation 0 (ek_policy k);
     fs_capacity_generation := from_option cs_generation 0 (ek_capacity k);
     fs_reservation_generation := from_option rs_generation 0 (ek_reservations k);
     fs_path_generation := from_option pc_path_authority_generation 0 (ek_paths k);
     fs_qos_generation := from_option qc_generation 0 (ek_qos k);
     fs_priority_generation := from_option prc_generation 0 (ek_priorities k);
     fs_capacity_snapshot := from_option cs_snapshot 0 (ek_capacity k);
     fs_reservation_snapshot := from_option rs_snapshot 0 (ek_reservations k);
     fs_audit_sequence := ek_audit k;
     fs_decisions := ct_decisions c; fs_admissions := ct_admissions c;
     fs_refusals := ct_refusals c; fs_deferrals := ct_deferrals c;
     fs_idempotent_replays := ct_idempotent_replays c; fs_conflicts := ct_conflicts c;
     fs_fences := ct_fences c; fs_stale_refusals := ct_stale_refusals c;
     fs_ledger_entries := lg_entry_count (ek_ledger k);
     fs_live_decisions := live_decisions (ek_ledger k);
     fs_live_sessions := mapN (ek_sessions k);
     fs_total_admitted := saturated_total (SumLatch_of (le_amount <$> entries (ek_ledger k)));
     fs_infeasible_resources := rp_infeasible_resources (ek_reconciliation k) +w
                                from_option (infeasible_resources k) 0 (ek_capacity k);
     fs_durable := has_journal k;
     fs_reconciled := negb (ek_pending_reconciliation k) |}.

(** ** The public read operations and decisions

    Each takes the lock and reads or calls the locked operation. *)

Definition fault_injection (k : EngineCore) : FaultInjection := ek_faults k.
Definition live_sessions (k : EngineCore) : N := mapN (ek_sessions k).
Definition engine_tick (k : EngineCore) : N := ek_tick k.
Definition engine_status (k : EngineCore) : FabricStatus := status_locked k.
Definition admitted_load (resource : ResourceId) (k : EngineCore) : Rate := admitted (ek_ledger k) resource.
Definition engine_policy (k : EngineCore) : option AdmissionPolicy := ek_policy k.
Definition decision_record (decision : AdmissionDecisionId) (k : EngineCore) : option DecisionRecord :=
  history_find decision (ek_history k).
Definition decision_history (k : EngineCore) : list DecisionRecord := in_audit_order (ek_history k).
Definition ledger_entries (k : EngineCore) : list LedgerEntry := entries (ek_ledger k).
Definition engine_epoch (k : EngineCore) : FabricEpoch := ek_epoch k.
Definition engine_incarnation (k : EngineCore) : CoordinatorIncarnation := ek_incarnation k.
Definition last_reconciliation (k : EngineCore) : ReconciliationReport := ek_reconciliation k.

Definition engine_admit (request : AdmissionRequest) (claim : ClaimContext) : M EngineCore AdmissionDecision :=
  admit_locked request claim.

(** Neither of these uses the claim it is given. *)
Definition revalidate (decision : AdmissionDecisionId) (claim : ClaimContext)
    : M EngineCore RevalidationResult :=
  revalidate_locked decision.
Definition revoke (decision : AdmissionDecisionId) (reason : RevocationReason) (claim : ClaimContext)
    : M EngineCore RevalidationResult :=
  revoke_locked decision reason.
