(* ===== verification/Enforce.v ===== *)
(** * Revocation, revalidation and accounting enforcement: properties

    What releasing a grant does, what the verdicts of a revalidation mean, and that
    the enforcement pass leaves a ledger the published authority can carry. *)

From S2P Require Import Prelude Checked Identity Hash State Policy Request Authority.
From S2P Require Import Decision Ledger History Bytes Records Journal Engine Admission.
From S2P Require Import Capacity Frames Grant Safety.
Local Open Scope N_scope.
Local Open Scope naf_scope.

(** ** The ledger by decision *)

Lemma bind_snd {A B} (l : list (A * list B)) : l ≫= snd = mjoin l.*2.
Proof. induction l as [|[a bs] l IH]; [done|]. cbn. by f_equal. Qed.

Lemma mapM_group {A} (key : A -> N) (l : list A) (m : gmap N (list A)) (d : N) :
  default [] (foldl (fun m e => <[key e := default [] (m !! key e) ++ [e]]> m) m l !! d) =
  default [] (m !! d) ++ filter (fun e => key e = d) l.
Proof.
  revert m. induction l as [|e l IH]; intros m; cbn [foldl]; [by rewrite app_nil_r|].
  rewrite IH, filter_cons. case_decide as E.
  - subst. rewrite lookup_insert_eq. cbn. by rewrite <- app_assoc.
  - by rewrite lookup_insert_ne.
Qed.

Lemma group_nonempty {A} (key : A -> N) (l : list A) (m : gmap N (list A)) :
  map_Forall (fun _ es => es <> []) m ->
  map_Forall (fun _ es => es <> [])
    (foldl (fun m e => <[key e := default [] (m !! key e) ++ [e]]> m) m l).
Proof.
  revert m. induction l as [|e l IH]; intros m Hm; cbn [foldl]; [done|].
  apply IH, map_Forall_insert_2; [|done]. by destruct (default [] _).
Qed.

Lemma filter_true {A} (P : A -> Prop) `{!forall x, Decision (P x)} (l : list A) :
  Forall P l -> filter P l = l.
Proof. induction 1; [done|]. rewrite filter_cons_True by done. by f_equal. Qed.

Section holdings.
Context (l : AdmittedLoadLedger) (Hwf : ledger_wf l).

Lemma entries_perm : entries l ≡ₚ all_entries (lg_by_decision l).
Proof.
  unfold entries, all_entries. rewrite merge_sort_Permutation, bind_snd.
  apply mjoin_perm. by rewrite map_items_perm.
Qed.

Lemma entry_held (e : LedgerEntry) :
  e ∈ all_entries (lg_by_decision l) <->
  exists es, lg_by_decision l !! le_decision e = Some es /\ e ∈ es.
Proof.
  unfold all_entries. rewrite list_elem_of_join. split.
  - intros (es & He & ([d es'] & -> & Hd%elem_of_map_to_list)%list_elem_of_fmap).
    pose proof (dok_entries _ _ (lwf_decisions l Hwf d es' Hd)) as H.
    rewrite Forall_forall in H. destruct (H e He) as [<- _]. by exists es'.
  - intros (es & Hes & He). exists es. split; [done|]. apply list_elem_of_fmap.
    exists (le_decision e, es). split; [done|]. by apply elem_of_map_to_list.
Qed.

Lemma held_entries_perm (d : AdmissionDecisionId) :
  held_entries l d ≡ₚ default [] (lg_by_decision l !! d).
Proof.
  unfold held_entries. rewrite entries_perm.
  assert (Hall : forall es, lg_by_decision l !! d = Some es -> filter (fun e => le_decision e = d) es = es).
  { intros es Hd. apply filter_true. eapply Forall_impl; [exact (dok_entries _ _ (lwf_decisions l Hwf d es Hd))|].
    by intros e []. }
  assert (Hnone : filter (fun e => le_decision e = d) (all_entries (delete d (lg_by_decision l))) = []).
  { apply elem_of_nil_inv. intros e (He & (es & Hin & ([d' es'] & -> & Hd'%elem_of_map_to_list)%list_elem_of_fmap)
      %list_elem_of_join)%list_elem_of_filter.
    apply lookup_delete_Some in Hd' as [Hne Hd'].
    pose proof (dok_entries _ _ (lwf_decisions l Hwf d' es' Hd')) as H.
    rewrite Forall_forall in H. destruct (H e Hin). congruence. }
  destruct (lg_by_decision l !! d) as [es|] eqn:Hd; cbn.
  - rewrite (all_entries_delete _ _ _ Hd), filter_app, Hnone, app_nil_r. by rewrite Hall.
  - by rewrite (delete_id _ _ Hd) in Hnone; rewrite Hnone.
Qed.
End holdings.

(** Two maps that hold the same entries under the same decisions, in some order. *)
Definition agrees (held : gmap N (list LedgerEntry)) (l : AdmittedLoadLedger) : Prop :=
  forall d, option_Forall2 (≡ₚ) (held !! d) (lg_by_decision l !! d).

Lemma held_by_decision_agrees (l : AdmittedLoadLedger) :
  ledger_wf l -> agrees (held_by_decision l) l.
Proof.
  intros Hwf d. pose proof (mapM_group le_decision (entries l) ∅ d) as Hg.
  pose proof (group_nonempty le_decision (entries l) ∅ (map_Forall_empty _)) as Hne.
  fold (held_by_decision l) in Hg, Hne. rewrite lookup_empty in Hg. cbn in Hg.
  pose proof (held_entries_perm l Hwf d) as Hp. unfold held_entries in Hp. rewrite <- Hg in Hp.
  destruct (held_by_decision l !! d) as [es|] eqn:E1, (lg_by_decision l !! d) as [es'|] eqn:E2;
    cbn in Hp; try (by constructor).
  - symmetry in Hp. apply Permutation_nil in Hp. by apply Hne in E1.
  - apply Permutation_nil in Hp. by apply (lwf_decisions l Hwf) in E2 as [_ ? _ _].
Qed.

(** ** Steps that only give back

    Releasing, revalidating and enforcing can take load off the ledger and annotate
    records, and nothing else. *)

(** The same record, up to what revalidation and revocation mark in it. *)
Definition marked (r r' : DecisionRecord) : Prop :=
  exists s c b, r' = r <| dr_state := s |> <| dr_reason := c |> <| dr_ledger_live := b |>.

#[export] Instance marked_refl : Reflexive marked.
Proof. intros r. exists (dr_state r), (dr_reason r), (dr_ledger_live r). by destruct r. Qed.
#[export] Instance marked_trans : Transitive marked.
Proof. intros r1 r2 r3 (s & c & b & ->) (s' & c' & b' & ->). exists s', c', b'. by destruct r1. Qed.

(** The same records, up to their marks. *)
Record annotated (h h' : DecisionHistory) : Prop := {
  an_wf : history_wf h -> history_wf h';
  an_retired : hi_retired h' = hi_retired h;
  an_index : hi_audit_index h' = hi_audit_index h;
  an_records : forall d, option_Forall2 marked (history_find d h) (history_find d h');
}.

#[export] Instance annotated_refl : Reflexive annotated.
Proof. intros h. constructor; [done..|]. intros d. destruct (history_find d h); by constructor. Qed.
#[export] Instance annotated_trans : Transitive annotated.
Proof.
  intros h1 h2 h3 [W1 R1 I1 F1] [W2 R2 I2 F2]. constructor; [auto|congruence..|].
  intros d. specialize (F1 d). specialize (F2 d).
  destruct F1 as [r1 r2 H1|]; inversion F2 as [? r3 H2|]; subst; constructor. by etrans.
Qed.

Record lowered (k k' : EngineCore) : Prop := {
  lo_shape : exists j f l h c, k' = k <| ek_journal := j |> <| ek_faults := f |> <| ek_ledger := l |>
                                      <| ek_history := h |> <| ek_decision_cache := c |>;
  lo_wf : ledger_wf (ek_ledger k) -> ledger_wf (ek_ledger k');
  lo_load : forall r, admitted (ek_ledger k') r <= admitted (ek_ledger k) r;
  lo_held : lg_by_decision (ek_ledger k') ⊆ lg_by_decision (ek_ledger k);
  lo_history : annotated (ek_history k) (ek_history k');
}.

#[export] Instance lowered_refl : Reflexive lowered.
Proof.
  intros k. constructor; [|done|lia|done|done].
  exists (ek_journal k), (ek_faults k), (ek_ledger k), (ek_history k), (ek_decision_cache k).
  by destruct k.
Qed.
#[export] Instance lowered_trans : Transitive lowered.
Proof.
  intros k1 k2 k3 [(j & f & l & h & c & E1) W1 L1 H1 A1] [(j' & f' & l' & h' & c' & E2) W2 L2 H2 A2].
  constructor; [|auto| |by etrans|by etrans].
  - exists j', f', l', h', c'. rewrite E2, E1. reflexivity.
  - intros r. specialize (L1 r). specialize (L2 r). lia.
Qed.

Lemma lowered_inputs (k k' : EngineCore) : lowered k k' -> same_inputs k k'.
Proof. intros [(j & f & l & h & c & ->) _ _ _ _]. by constructor. Qed.

Lemma lowered_wf (k k' : EngineCore) : engine_wf k -> lowered k k' -> engine_wf k'.
Proof.
  intros Hk Hl. pose proof (lowered_inputs _ _ Hl) as Hin.
  destruct Hl as [Hs Hw _ Hheld [Ah Ar _ Af]].
  assert (Hn : ek_next_decision_sequence k' = ek_next_decision_sequence k /\ ek_audit k' = ek_audit k)
    by (by destruct Hs as (j & f & l & h & c & ->)).
  destruct Hn as [Hn Ha]. constructor.
  - by apply (same_inputs_wf _ _ Hin), Hk.
  - apply Hw, Hk.
  - apply Ah, Hk.
  - rewrite Ar. apply Hk.
  - intros d r Hr. rewrite Hn, Ha. specialize (Af d). rewrite Hr in Af.
    inversion Af as [r0 r1 (s & c & b & ->) E1 E2|]; subst. exact (ew_ids k Hk d r0 (eq_sym E1)).
  - rewrite Hn. apply Hk.
  - intros d Hd. unfold holds in Hd. apply bool_decide_eq_true in Hd as [es Hes].
    assert (Hd0 : holds (ek_ledger k) d = true)
      by (apply bool_decide_eq_true; exists es; by eapply lookup_weaken).
    apply (ew_held k Hk) in Hd0 as (r & Hr & Hadm). specialize (Af d). rewrite Hr in Af.
    inversion Af as [r0 r1 (s & c & b & ->) E1 E2|]; subst. eexists. split; [reflexivity|exact Hadm].
Qed.

(** A computation that only gives back, from any engine that satisfies the invariant. *)
Definition lowers {A} (m : M EngineCore A) : Prop := forall k, engine_wf k -> lowered k (m k).2.

Lemma quiet_lowered (k k' : EngineCore) : quiet k k' -> lowered k k'.
Proof.
  intros (j & f & ->). constructor; [|done|intros r; cbn; lia|done|done].
  exists j, f, (ek_ledger k), (ek_history k), (ek_decision_cache k). by destruct k.
Qed.
Lemma lowers_silent {A} (m : M EngineCore A) : silent m -> lowers m.
Proof. intros H k _. apply quiet_lowered, H. Qed.
Lemma lowers_bind {A B} (m : M EngineCore A) (f : A -> M EngineCore B) :
  lowers m -> (forall a, lowers (f a)) -> lowers (m ≫= f).
Proof.
  intros Hm Hf k Hk. unfold mbind, M_bind. specialize (Hm k Hk).
  destruct (m k) as [[a|e] k']; [|done]. cbn in Hm. etrans; [exact Hm|].
  apply Hf. by eapply lowered_wf.
Qed.
Lemma lowers_get {A} (f : EngineCore -> M EngineCore A) :
  (forall k, engine_wf k -> lowered k (f k k).2) -> lowers (get ≫= f).
Proof. intros H k Hk. by apply H. Qed.

Lemma released_lowered (k : EngineCore) (d : AdmissionDecisionId) (es : list LedgerEntry)
    (l : AdmittedLoadLedger) :
  engine_wf k -> lg_by_decision (ek_ledger k) !! d = Some es -> released d es (ek_ledger k) l ->
  lowered k (k <| ek_ledger := l |>).
Proof.
  intros Hk Hd Hr. pose proof Hr as (E1 & E2 & E3). constructor.
  - exists (ek_journal k), (ek_faults k), l, (ek_history k), (ek_decision_cache k). by destruct k.
  - intros Hw. by eapply released_wf.
  - intros r. specialize (E1 r). cbn. lia.
  - cbn. rewrite E2. apply delete_subseteq.
  - done.
Qed.

Lemma on_ledger_run {A} (m : M AdmittedLoadLedger A) (k : EngineCore) :
  on_ledger m k = ((m (ek_ledger k)).1, k <| ek_ledger := (m (ek_ledger k)).2 |>).
Proof. unfold on_ledger. by destruct (m (ek_ledger k)). Qed.

Lemma ledger_unchanged (k : EngineCore) : k <| ek_ledger := ek_ledger k |> = k.
Proof. by destruct k. Qed.

Lemma lowers_release (d : AdmissionDecisionId) : lowers (on_ledger (release d)).
Proof.
  intros k Hk. rewrite on_ledger_run, release_run. cbn [fst snd].
  destruct (is_unknown d); cbn [snd]; [by rewrite ledger_unchanged|].
  pose proof (remove_outcome (ek_ledger k) d (ew_ledger k Hk)) as Ho. unfold wp in Ho.
  destruct (remove d (ek_ledger k)) as [[es|s] l]; cbn [fst snd] in *.
  - destruct Ho as [Hd Hr]. by eapply released_lowered.
  - destruct Ho as [-> _]. by rewrite ledger_unchanged.
Qed.

(** An annotation of one record. *)
Definition annotates (f : DecisionRecord -> DecisionRecord) : Prop :=
  forall r, marked r (f r).

Lemma history_lowered (k : EngineCore) (h : DecisionHistory) (c : gmap N AdmissionDecision) :
  annotated (ek_history k) h -> lowered k (k <| ek_history := h |> <| ek_decision_cache := c |>).
Proof.
  intros H. constructor; [|done|intros r; cbn; lia|done|done].
  exists (ek_journal k), (ek_faults k), (ek_ledger k), h, c. by destruct k.
Qed.

Lemma update_annotated (d : AdmissionDecisionId) (r : DecisionRecord)
    (f : DecisionRecord -> DecisionRecord) (h : DecisionHistory) :
  annotates f -> history_wf h -> history_find d h = Some r ->
  annotated h (history_update d (f r) h).2.
Proof.
  intros Hf Hwf Hr. pose proof (hwf_records h Hwf d r Hr) as (_ & Hd & _).
  destruct (Hf r) as (s & c & b & F).
  assert (E : (history_update d (f r) h).2 =
              h <| hi_records := <[d := (f r) <| dr_audit := dr_audit r |>]> (hi_records h) |>)
    by (unfold history_update, history_find in *; by rewrite Hr).
  constructor.
  - intros _. apply history_update_wf; [done|]. by rewrite F.
  - by rewrite E.
  - by rewrite E.
  - intros d'. rewrite E. unfold history_find in *. cbn. destruct (decide (d = d')) as [<-|Hne].
    + rewrite lookup_insert_eq, Hr, F. constructor. exists s, c, b. by destruct r.
    + rewrite lookup_insert_ne by done. destruct (hi_records h !! d'); by constructor.
Qed.

Lemma lowers_update (d : AdmissionDecisionId) (f : DecisionRecord -> DecisionRecord) :
  annotates f -> lowers (update_record d f).
Proof.
  intros Hf k Hk. unfold update_record, modify. cbn [snd].
  destruct (history_find d (ek_history k)) as [r|] eqn:Hr; [|done].
  pose proof (update_annotated d r f _ Hf (ew_history k Hk) Hr) as Ha.
  pose proof (history_lowered k _ (ek_decision_cache k) Ha) as Hl.
  by replace (_ <| ek_decision_cache := ek_decision_cache k |>) with
    (k <| ek_history := (history_update d (f r) (ek_history k)).2 |>) in Hl by (by destruct k).
Qed.

Lemma lowers_note_release : lowers (modify (fun k => k <| ek_history := note_release (ek_history k) |>)).
Proof.
  intros k Hk. assert (Ha : annotated (ek_history k) (note_release (ek_history k))).
  { constructor; [|done..|].
    - intros [H1 H2]. by constructor.
    - intros d. change (history_find d (note_release (ek_history k))) with (history_find d (ek_history k)).
      destruct (history_find d (ek_history k)); by constructor. }
  pose proof (history_lowered k _ (ek_decision_cache k) Ha) as Hl. cbn [modify snd].
  by replace (_ <| ek_decision_cache := ek_decision_cache k |>) with
    (k <| ek_history := note_release (ek_history k) |>) in Hl by (by destruct k).
Qed.

Lemma lowers_forget (d : AdmissionDecisionId) : lowers (forget_cached d).
Proof.
  intros k _. pose proof (history_lowered k _ (delete d (ek_decision_cache k)) (reflexivity _)) as Hl.
  unfold forget_cached. cbn [modify snd].
  by replace (k <| ek_history := ek_history k |> <| ek_decision_cache := delete d (ek_decision_cache k) |>)
    with (k <| ek_decision_cache := delete d (ek_decision_cache k) |>) in Hl by (by destruct k).
Qed.
#[export] Hint Resolve lowers_release lowers_update lowers_note_release lowers_forget : naf.

Lemma annotates_marks (state : RevalidationState) (reason : RevocationReason) (b : bool) :
  annotates (fun r => r <| dr_state := state |> <| dr_reason := reason |> <| dr_ledger_live := b |>).
Proof. intros r. by exists state, reason, b. Qed.
Lemma annotates_state (state : RevalidationState) (reason : RevocationReason) :
  annotates (fun r => r <| dr_state := state |> <| dr_reason := reason |>).
Proof. intros r. exists state, reason, (dr_ledger_live r). by destruct r. Qed.
#[export] Hint Resolve annotates_marks annotates_state : naf.

Ltac lowers_steps :=
  repeat first
    [ solve [auto with naf]
    | solve [apply lowers_silent; auto with naf]
    | apply lowers_bind; [|intros ?]
    | case_match ].

Lemma lowers_run {A} (m : M EngineCore A) (k : EngineCore) :
  lowers m -> engine_wf k -> lowered k (m k).2.
Proof. intros H. apply H. Qed.

Lemma lowers_release_decision (d : AdmissionDecisionId) (reason : RevocationReason)
    (state : RevalidationState) (x : Explanation) :
  lowers (release_decision_locked d reason state x).
Proof.
  unfold release_decision_locked. apply lowers_get. intros k Hk.
  destruct (negb _); [done|]. apply lowers_run; [|done].
  apply lowers_bind; [apply lowers_silent; auto with naf|intros _].
  apply lowers_bind; [auto with naf|intros released].
  apply lowers_get. intros k' Hk'. apply lowers_run; [|done]. lowers_steps.
Qed.
#[export] Hint Resolve lowers_release_decision : naf.

(** ** Releasing one decision *)

(** Decision [d] has given back all it held and its record says so. *)
Record withdrawn (k : EngineCore) (d : AdmissionDecisionId) (reason : RevocationReason)
    (state : RevalidationState) (k' : EngineCore) : Prop := {
  wi_inputs : same_inputs k k';
  wi_ledger : exists es, lg_by_decision (ek_ledger k) !! d = Some es /\
                         released d es (ek_ledger k) (ek_ledger k');
  wi_record : history_find d (ek_history k') =
    (fun r => r <| dr_state := state |> <| dr_reason := reason |> <| dr_ledger_live := false |>)
      <$> history_find d (ek_history k);
  wi_others : forall d', d' <> d -> history_find d' (ek_history k') = history_find d' (ek_history k);
  wi_cache : ek_decision_cache k' = delete d (ek_decision_cache k);
}.

Lemma update_record_run (k : EngineCore) (d : AdmissionDecisionId) (f : DecisionRecord -> DecisionRecord) :
  (forall r, dr_audit (f r) = dr_audit r) ->
  exists h, update_record d f k = (Val tt, k <| ek_history := h |>) /\
    history_find d h = f <$> history_find d (ek_history k) /\
    forall d', d' <> d -> history_find d' h = history_find d' (ek_history k).
Proof.
  intros Hf. unfold update_record, modify. destruct (history_find d (ek_history k)) as [r|] eqn:Hr.
  - exists (history_update d (f r) (ek_history k)).2. split; [done|].
    unfold history_update, history_find in *. rewrite Hr. cbn. split.
    + rewrite lookup_insert_eq. f_equal. rewrite <- (Hf r). by destruct (f r).
    + intros d' Hne. by rewrite lookup_insert_ne.
  - exists (ek_history k). split; [by destruct k|]. by rewrite Hr.
Qed.

Lemma wp_update_record (k : EngineCore) (d : AdmissionDecisionId)
    (f : DecisionRecord -> DecisionRecord) (Q : Expected unit -> EngineCore -> Prop) :
  (forall r, dr_audit (f r) = dr_audit r) ->
  (forall h, history_find d h = f <$> history_find d (ek_history k) ->
     (forall d', d' <> d -> history_find d' h = history_find d' (ek_history k)) ->
     Q (Val tt) (k <| ek_history := h |>)) ->
  wp (update_record d f) Q k.
Proof.
  intros Hf HQ. destruct (update_record_run k d f Hf) as (h & E & H1 & H2).
  unfold wp. rewrite E. by apply HQ.
Qed.

Lemma on_ledger_release (k : EngineCore) (d : AdmissionDecisionId)
    (Q : Expected (list LedgerEntry) -> EngineCore -> Prop) :
  ledger_wf (ek_ledger k) ->
  (forall es l, lg_by_decision (ek_ledger k) !! d = Some es -> released d es (ek_ledger k) l ->
     Q (Val es) (k <| ek_ledger := l |>)) ->
  (forall s, Q (Err s) k) ->
  wp (on_ledger (release d)) Q k.
Proof.
  intros Hwf HV HE. unfold wp. rewrite on_ledger_run, release_run. cbn [fst snd].
  destruct (is_unknown d); cbn [fst snd]; [rewrite ledger_unchanged; apply HE|].
  pose proof (remove_outcome (ek_ledger k) d Hwf) as Ho. unfold wp in Ho.
  destruct (remove d (ek_ledger k)) as [[es|s] l]; cbn [fst snd] in *.
  - destruct Ho. by apply HV.
  - destruct Ho as [-> _]. rewrite ledger_unchanged. apply HE.
Qed.

Lemma release_decision_spec (k : EngineCore) (d : AdmissionDecisionId) (reason : RevocationReason)
    (state : RevalidationState) (x : Explanation) :
  engine_wf k ->
  wp (release_decision_locked d reason state x)
    (fun res k' => if has_value res then withdrawn k d reason state k' else True) k.
Proof.
  intros Hk. unfold release_decision_locked. apply wp_bind, wp_get.
  destruct (negb _); [done|].
  apply wp_bind, wp_silent; [auto with naf|]. intros [[]|s] j f; [|done].
  apply wp_bind, on_ledger_release; [exact (ew_ledger k Hk)| |done].
  intros es l Hd Hr. apply wp_bind, wp_get, wp_bind, wp_silent; [auto with naf|].
  intros [[]|s] j' f'; [|done]. apply wp_bind, wp_update_record; [done|].
  intros h H1 H2. apply wp_bind, wp_modify. unfold forget_cached. apply wp_bind, wp_modify, wp_ret.
  cbn [has_value]. constructor; [by constructor|by exists es|exact H1|exact H2|reflexivity].
Qed.

Lemma withdrawn_released (k k' : EngineCore) (d : AdmissionDecisionId) (reason : RevocationReason)
    (state : RevalidationState) :
  ledger_wf (ek_ledger k) -> withdrawn k d reason state k' ->
  holds (ek_ledger k') d = false /\
  (forall d', d' <> d -> lg_by_decision (ek_ledger k') !! d' = lg_by_decision (ek_ledger k) !! d') /\
  (forall r, admitted (ek_ledger k') r + load r (held_entries (ek_ledger k) d) = admitted (ek_ledger k) r).
Proof.
  intros Hwf [_ (es & Hd & E1 & E2 & _) _ _ _]. split_and!.
  - apply bool_decide_eq_false. rewrite E2, lookup_delete_eq. by intros [].
  - intros d' Hne. by rewrite E2, lookup_delete_ne.
  - intros r. rewrite (load_perm r _ _ (held_entries_perm _ Hwf d)), Hd. apply E1.
Qed.

(** Nothing can go wrong: no journal is attached, and every held amount is positive. *)
Definition smooth (k : EngineCore) : Prop :=
  has_journal k = false /\
  map_Forall (fun _ es => Forall (fun e => le_amount e <> 0) es) (lg_by_decision (ek_ledger k)).

Lemma unjournaled_write (kind : JournalRecordKind) (payload : list N) (k : EngineCore) :
  has_journal k = false -> write_record kind payload k = (Val tt, k).
Proof.
  intros H. unfold write_record, gets, mbind, M_bind. cbv beta iota. by rewrite H.
Qed.

Lemma wp_unjournaled (kind : JournalRecordKind) (payload : list N) (k : EngineCore)
    (Q : Expected unit -> EngineCore -> Prop) :
  has_journal k = false -> Q (Val tt) k -> wp (write_record kind payload) Q k.
Proof. intros H HQ. unfold wp. by rewrite unjournaled_write. Qed.

(** Positive amounts are always given back. *)
Lemma positive_release (k : EngineCore) (d : AdmissionDecisionId) (es : list LedgerEntry) :
  engine_wf k -> lg_by_decision (ek_ledger k) !! d = Some es -> Forall (fun e => le_amount e <> 0) es ->
  exists l, on_ledger (release d) k = (Val es, k <| ek_ledger := l |>) /\ released d es (ek_ledger k) l.
Proof.
  intros Hk Hd Hpos. rewrite on_ledger_run, release_run.
  pose proof (dok_known _ _ (lwf_decisions _ (ew_ledger k Hk) d es Hd)) as Hne.
  apply is_unknown_false in Hne. rewrite Hne.
  pose proof (remove_outcome (ek_ledger k) d (ew_ledger k Hk)) as Ho. unfold wp in Ho.
  destruct (remove d (ek_ledger k)) as [[es'|s] l] eqn:E; cbn [fst snd] in *.
  - destruct Ho as [Ho Hr]. exists l. assert (es' = es) as -> by congruence. done.
  - destruct Ho as (_ & [?|(es' & Hes' & Hn)]); [congruence|]. assert (es' = es) as -> by congruence. done.
Qed.

Lemma smooth_release (k : EngineCore) (d : AdmissionDecisionId) (es : list LedgerEntry) :
  engine_wf k -> smooth k -> lg_by_decision (ek_ledger k) !! d = Some es ->
  exists l, on_ledger (release d) k = (Val es, k <| ek_ledger := l |>).
Proof.
  intros Hk [_ Hpos] Hd. destruct (positive_release k d es Hk Hd (Hpos d es Hd)) as (l & E & _). by exists l.
Qed.

Lemma smooth_lowered (k k' : EngineCore) :
  smooth k -> lowered k k' -> has_journal k' = false -> smooth k'.
Proof.
  intros [_ Hp] Hl Hj. split; [done|]. intros d es Hd. apply (Hp d).
  eapply lookup_weaken; [exact Hd|apply Hl].
Qed.

Lemma release_decision_succeeds (k : EngineCore) (d : AdmissionDecisionId)
    (reason : RevocationReason) (state : RevalidationState) (x : Explanation) :
  engine_wf k -> smooth k -> holds (ek_ledger k) d = true ->
  wp (release_decision_locked d reason state x)
    (fun res k' => has_value res = true /\ has_journal k' = false) k.
Proof.
  intros Hk Hs Hh. pose proof Hs as [Hj _].
  unfold release_decision_locked, write_release, write_revocation.
  apply wp_bind, wp_get. rewrite Hh. cbn [negb].
  apply wp_bind, wp_unjournaled; [exact Hj|]. apply bool_decide_eq_true in Hh as [es Hes].
  destruct (smooth_release k d es Hk Hs Hes) as [l Hl].
  apply wp_bind. unfold wp at 1. rewrite Hl. cbn [fst snd].
  apply wp_bind, wp_get, wp_bind, wp_unjournaled; [exact Hj|].
  apply wp_bind, wp_update_record; [done|]. intros h _ _.
  apply wp_bind, wp_modify. unfold forget_cached. by apply wp_bind, wp_modify, wp_ret.
Qed.

(** ** Revocation and revalidation only give back *)

Lemma lowers_lift {A} (e : Expected A) : lowers (lift e).
Proof. by intros k Hk. Qed.
Lemma lowers_withdraw (d : AdmissionDecisionId) (reason : RevocationReason) (c : BindingConstraint)
    (r : RevalidationResult) : lowers (withdraw d reason c r).
Proof. unfold withdraw. lowers_steps. Qed.
Lemma lowers_conclude (d : AdmissionDecisionId) (b : bool) (r : RevalidationResult) :
  lowers (conclude d b r).
Proof.
  unfold conclude. apply lowers_bind; [|intros ?; lowers_steps].
  destruct b; [|lowers_steps]. apply lowers_get. intros k Hk. apply lowers_run; [|done]. lowers_steps.
Qed.
#[export] Hint Resolve lowers_lift lowers_withdraw lowers_conclude : naf.

Lemma lowers_revalidate (d : AdmissionDecisionId) : lowers (revalidate_locked d).
Proof.
  unfold revalidate_locked. apply lowers_get. intros k Hk. apply lowers_run; [|done].
  unfold revalidate_grant. lowers_steps.
Qed.
Lemma lowers_revoke (d : AdmissionDecisionId) (reason : RevocationReason) :
  lowers (revoke_locked d reason).
Proof.
  unfold revoke_locked. apply lowers_get. intros k Hk. apply lowers_run; [|done]. lowers_steps.
Qed.

(** ** Entries the published authority can carry *)

Definition fits (k : EngineCore) (entry : LedgerEntry) : Prop :=
  exists cap, find_capacity k (le_resource entry) = Some cap /\ rc_evidence cap = EvidenceKnown /\
    admitted (ek_ledger k) (le_resource entry) <= allowance_of k (le_resource entry) cap.

Lemma check_entry_fits (k : EngineCore) (u o : string) (entry : LedgerEntry) :
  check_entry k u o entry = None <-> fits k entry.
Proof.
  unfold check_entry, fits. destruct (find_capacity k (le_resource entry)) as [cap|]; [|naive_solver].
  case_bool_decide as He; [|naive_solver].
  destruct (N.ltb_spec (allowance_of k (le_resource entry) cap)
    (admitted (ek_ledger k) (le_resource entry))) as [Hl|Hl].
  - split; [done|]. intros (cap' & [= <-] & _ & ?). lia.
  - split; [by exists cap|done].
Qed.

Lemma check_entries_fit (k : EngineCore) (u o : string) (l : list LedgerEntry) :
  check_entries k u o l = None <-> Forall (fits k) l.
Proof.
  induction l as [|e l IH]; cbn [check_entries]; [by split|].
  rewrite Forall_cons, <- IH. destruct (check_entry k u o e) as [c|] eqn:E.
  - split; [done|]. intros [H%(check_entry_fits k u o) _]. congruence.
  - apply check_entry_fits in E. naive_solver.
Qed.

Lemma fits_lowered (k k' : EngineCore) (e : LedgerEntry) : lowered k k' -> fits k e -> fits k' e.
Proof.
  intros Hl (cap & Hf & He & Hle). pose proof (lowered_inputs _ _ Hl) as Hin.
  exists cap. rewrite (same_find_capacity _ _ Hin), (same_allowance _ _ Hin).
  split_and!; [done..|]. pose proof (lo_load _ _ Hl (le_resource e)). lia.
Qed.

(** ** The verdicts of a revalidation *)

(** The grant of [record] is still covered by everything the engine has published. *)
Record stands (k : EngineCore) (d : AdmissionDecisionId) (record : DecisionRecord) : Prop := {
  st_admitted : is_admitting (dr_outcome record) = true;
  st_held : holds (ek_ledger k) d = true;
  st_epoch : dr_epoch record = ek_epoch k;
  st_incarnation : dr_incarnation record = ek_incarnation k;
  st_reconciled : Forall (fun e => le_requires_revalidation e = false) (held_entries (ek_ledger k) d);
  st_authority : is_Some (ek_capacity k) /\ is_Some (ek_reservations k) /\ is_Some (ek_policy k);
  st_path : dr_path record = 0 \/
    exists fact, find_path k (dr_path record) = Some fact /\ pf_state fact = PathUp;
  st_fits : Forall (fits k) (held_entries (ek_ledger k) d);
}.

(** A generation the grant was bound to has been replaced. *)
Definition moved (k : EngineCore) (record : DecisionRecord) : bool :=
  match ek_capacity k, ek_policy k with
  | Some capacity, Some policy => generations_moved k record capacity policy
  | _, _ => true
  end.

(** What the answer [r] to a revalidation of [d] says about the engine before and after. *)
Definition verdict_means (k : EngineCore) (d : AdmissionDecisionId) (record : DecisionRecord)
    (r : RevalidationResult) (k' : EngineCore) : Prop :=
  match rv_state r with
  | RS_Valid => stands k d record /\ moved k record = false /\ k' = k
  | RS_Invalidated =>
      stands k d record /\ moved k record = true /\ ek_ledger k' = ek_ledger k /\
      same_inputs k k' /\
      history_find d (ek_history k') =
        Some (record <| dr_state := RS_Invalidated |> <| dr_reason := GenerationAdvance |>)
  | RS_Ambiguous =>
      k' = k /\ Exists (fun e => le_requires_revalidation e = true) (held_entries (ek_ledger k) d)
  | _ =>
      if rv_ledger_released r then
        holds (ek_ledger k) d = true /\ withdrawn k d (rv_reason r) RS_Revoked k'
      else
        ek_ledger k' = ek_ledger k /\
        (already_released record = true \/ holds (ek_ledger k) d = false)
  end.

Ltac verdict_at s :=
  lazymatch goal with |- match rv_state ?x with _ => _ end =>
    let E := fresh in assert (E : rv_state x = s) by reflexivity; rewrite E; clear E end.

Lemma withdraw_spec (k : EngineCore) (d : AdmissionDecisionId) (reason : RevocationReason)
    (c : BindingConstraint) (r : RevalidationResult) :
  engine_wf k ->
  wp (withdraw d reason c r)
    (fun res k' => match res with
                   | Val r' => rv_ledger_released r' = true /\ rv_state r' = RS_Revoked /\
                               rv_reason r' = reason /\ withdrawn k d reason RS_Revoked k'
                   | Err _ => True
                   end) k.
Proof.
  intros Hk. unfold withdraw. apply wp_bind. eapply wp_mono; [by apply release_decision_spec|].
  intros [x|s] k' H; [|done]. by apply wp_ret.
Qed.

Lemma path_check (k : EngineCore) (path : PathId) :
  check_granted_path k path = None ->
  path = 0 \/ exists fact, find_path k path = Some fact /\ pf_state fact = PathUp.
Proof.
  unfold check_granted_path. destruct (is_known path) eqn:Hp.
  - destruct (find_path k path) as [fact|]; [|done]. case_bool_decide; [|done]. intros _. right. by exists fact.
  - intros _. left. unfold is_known in Hp. by apply negb_false_iff, N.eqb_eq in Hp.
Qed.

Section verdict.
Context (k : EngineCore) (d : AdmissionDecisionId) (record : DecisionRecord) (Hk : engine_wf k)
  (Hr : history_find d (ek_history k) = Some record).

(** A withdrawal is the last branch of the meaning. *)
Lemma withdraw_means (reason : RevocationReason) (c : BindingConstraint) (r : RevalidationResult) :
  holds (ek_ledger k) d = true ->
  wp (withdraw d reason c r)
    (fun res k' => match res with Val r' => verdict_means k d record r' k' | Err _ => True end) k.
Proof.
  intros Hh. eapply wp_mono; [by apply withdraw_spec|]. intros [r'|s] k'; [|done].
  intros (H1 & H2 & H3 & H4). unfold verdict_means. rewrite H2, H1, H3. by split.
Qed.

Lemma conclude_means (r : RevalidationResult) :
  stands k d record ->
  wp (conclude d (moved k record) r)
    (fun res k' => match res with Val r' => verdict_means k d record r' k' | Err _ => True end) k.
Proof.
  intros Hs. unfold conclude. destruct (moved k record) eqn:Hm; apply wp_bind.
  - apply wp_bind, wp_get, wp_bind, wp_silent; [auto with naf|]. intros [[]|s] j f; [|done].
    apply wp_update_record; [done|]. intros h H1 _. apply wp_ret. unfold verdict_means.
    verdict_at RS_Invalidated.
    split_and!; [done|done|reflexivity|by constructor|].
    change (history_find d h = Some (record <| dr_state := RS_Invalidated |> <| dr_reason := GenerationAdvance |>)).
    rewrite H1. change (history_find d (ek_history (k <| ek_journal := j |> <| ek_faults := f |>)))
      with (history_find d (ek_history k)). by rewrite Hr.
  - apply wp_ret, wp_ret. unfold verdict_means. verdict_at RS_Valid. by split_and!.
Qed.

Lemma revalidate_grant_means (r : RevalidationResult) :
  is_admitting (dr_outcome record) = true -> holds (ek_ledger k) d = true ->
  dr_epoch record = ek_epoch k -> dr_incarnation record = ek_incarnation k ->
  existsb le_requires_revalidation (held_entries (ek_ledger k) d) = false ->
  wp (revalidate_grant k d record r)
    (fun res k' => match res with Val r' => verdict_means k d record r' k' | Err _ => True end) k.
Proof.
  intros Ha Hh He Hi Hfl. unfold revalidate_grant.
  destruct (ek_capacity k) as [capacity|] eqn:Hc; [|by apply withdraw_means].
  destruct (ek_reservations k) as [reservations|] eqn:Hres; [|by apply withdraw_means].
  destruct (ek_policy k) as [policy|] eqn:Hp; [|by apply withdraw_means].
  destruct (check_granted_path k (dr_path record)) as [c|] eqn:Hpath; [by apply withdraw_means|].
  destruct (check_entries _ _ _ _) as [c|] eqn:Hf; [by apply withdraw_means|].
  assert (Hm : generations_moved k record capacity policy = moved k record)
    by (unfold moved; by rewrite Hc, Hp).
  rewrite Hm. apply conclude_means.
  constructor; rewrite ?Hc, ?Hres, ?Hp; try done.
  - apply Forall_forall. intros e Hin. apply not_true_is_false. intros Hf'.
    apply not_true_iff_false in Hfl. apply Hfl, existsb_exists. exists e.
    split; [by apply list_elem_of_In|done].
  - by apply path_check.
  - by eapply check_entries_fit.
Qed.
End verdict.

Lemma revalidation_meaning (k k' : EngineCore) (d : AdmissionDecisionId) (r : RevalidationResult)
    (Hk : engine_wf k) (Hrun : revalidate_locked d k = (Val r, k')) :
  exists record, history_find d (ek_history k) = Some record /\
    is_admitting (dr_outcome record) = true /\ verdict_means k d record r k'.
Proof.
  unfold revalidate_locked, mbind, M_bind, get in Hrun. cbv beta iota in Hrun.
  destruct (history_find d (ek_history k)) as [record|] eqn:Hr; [|done].
  exists record. split; [done|].
  destruct (is_admitting (dr_outcome record)) eqn:Ha; cbn [negb] in Hrun; [|done]. split; [done|].
  destruct (already_released record) eqn:Hrel.
  { injection Hrun as <- <-. unfold verdict_means.
    unfold already_released in Hrel. apply orb_true_iff in Hrel as Hrel'.
    destruct Hrel' as [E%bool_decide_eq_true|E%bool_decide_eq_true];
      verdict_at (dr_state record); rewrite E; by split; [|left]. }
  destruct (holds (ek_ledger k) d) eqn:Hh; cbn [negb] in Hrun.
  2: { destruct (update_record_run k d (fun r => r <| dr_state := RS_Revoked |>
         <| dr_reason := ClaimantDeath |> <| dr_ledger_live := false |>)) as (h & E & _ & _); [done|].
       rewrite E in Hrun. injection Hrun as <- <-. unfold verdict_means.
       verdict_at RS_Revoked. by split; [|right]. }
  destruct (_ || _) eqn:Hep in Hrun.
  { by apply (wp_elim _ _ _ _ _ (withdraw_means k d record Hk _ _ _ Hh)) in Hrun. }
  apply orb_false_iff in Hep as [He%negb_false_iff%N.eqb_eq Hi%negb_false_iff%N.eqb_eq].
  destruct (existsb _ _) eqn:Hfl in Hrun.
  { injection Hrun as <- <-. unfold verdict_means. verdict_at RS_Ambiguous.
    split; [done|]. apply existsb_exists in Hfl as (e & Hin & Hf). apply Exists_exists.
    exists e. split; [by apply list_elem_of_In|done]. }
  by apply (wp_elim _ _ _ _ _ (revalidate_grant_means k d record Hk Hr _ Ha Hh He Hi Hfl)) in Hrun.
Qed.

(** C11: a revalidation's verdict means what it says.  VALID: the grant is held, was
    issued in this epoch and incarnation, its path is up, every resource it uses
    has KNOWN capacity whose allowance covers all admitted load, no generation it
    is bound to has moved, and nothing changed.  INVALIDATED: the same but for a
    moved generation; the ledger is untouched and the record says so.  AMBIGUOUS:
    recovered load awaits reconciliation, and nothing changed.  REVOKED with the
    ledger released: exactly the grant's load is gone and its record is marked;
    otherwise there was nothing to release. *)
Theorem revalidation_sound (k k' : EngineCore) (d : AdmissionDecisionId) (r : RevalidationResult)
    (Hk : engine_wf k) (Hrun : revalidate_locked d k = (Val r, k')) :
  exists record, history_find d (ek_history k) = Some record /\
    is_admitting (dr_outcome record) = true /\ verdict_means k d record r k'.
Proof. by apply revalidation_meaning. Qed.

(** The engine after a first grant, and what calls on it return. *)
Definition granted_engine : EngineCore := first_run.2.

Lemma granted_engine_wf : engine_wf granted_engine.
Proof.
  eapply (answered_wf sample_engine granted_engine (sample_request 1 3) in_process).
  - exact sample_engine_wf.
  - done.
  - apply admit_runs; [exact sample_engine_wf|exact first_run_value].
Qed.

Definition verdict_of_run (run : Expected RevalidationResult * EngineCore) : RevalidationResult :=
  match run.1 with Val r => r | Err _ => RevalidationResult_new end.

Lemma verdict_value (run : Expected RevalidationResult * EngineCore) :
  has_value run.1 = true -> run = (Val (verdict_of_run run), run.2).
Proof. by destruct run as [[d|s] k]. Qed.

Lemma revalidation_sound_witness :
  let run := revalidate_locked 1 granted_engine in
  rv_state (verdict_of_run run) = RS_Valid /\ run.2 = granted_engine.
Proof.
  cbv zeta. set (run := revalidate_locked 1 granted_engine).
  assert (Hv : run = (Val (verdict_of_run run), run.2)) by (apply verdict_value; by vm_compute).
  assert (Hs : rv_state (verdict_of_run run) = RS_Valid) by (by vm_compute).
  split; [exact Hs|].
  destruct (revalidation_sound granted_engine run.2 1 (verdict_of_run run) granted_engine_wf Hv)
    as (record & _ & _ & H).
  unfold verdict_means in H. rewrite Hs in H. exact (proj2 (proj2 H)).
Defined.

(** C28: a revocation gives back exactly the grant.  Either the decision's load leaves
    every resource it was admitted on, no other grant is touched, the record is
    marked REVOKED with the given reason and the answer says so; or the decision
    holds nothing, because it never admitted, was released before, or is gone from
    the ledger, and nothing changes.  An unknown decision is an error that changes
    nothing.  With no journal to fail and positive amounts a retained decision is
    always answered. *)
Theorem revoke_exact (k k' : EngineCore) (d : AdmissionDecisionId) (reason : RevocationReason)
    (res : Expected RevalidationResult) (Hk : engine_wf k)
    (Hrun : revoke_locked d reason k = (res, k')) :
  match res with
  | Val r =>
      if rv_ledger_released r then
        withdrawn k d reason RS_Revoked k' /\ rv_state r = RS_Revoked /\ rv_reason r = reason /\
        holds (ek_ledger k) d = true /\ holds (ek_ledger k') d = false /\
        (forall d', d' <> d -> lg_by_decision (ek_ledger k') !! d' = lg_by_decision (ek_ledger k) !! d') /\
        (forall r, admitted (ek_ledger k') r + load r (held_entries (ek_ledger k) d) =
                   admitted (ek_ledger k) r)
      else
        k' = k /\ exists record, history_find d (ek_history k) = Some record /\
          (is_admitting (dr_outcome record) = false \/ already_released record = true \/
           holds (ek_ledger k) d = false)
  | Err _ => (history_find d (ek_history k) = None /\ k' = k) \/ ~ smooth k
  end.
Proof.
  unfold revoke_locked, mbind, M_bind, get in Hrun. cbv beta iota in Hrun.
  destruct (history_find d (ek_history k)) as [record|] eqn:Hr.
  2: { injection Hrun as <- <-. left. by split. }
  destruct (is_admitting (dr_outcome record)) eqn:Ha; cbn [negb] in Hrun.
  2: { injection Hrun as <- <-. split; [done|]. exists record. tauto. }
  destruct (already_released record || negb (holds (ek_ledger k) d)) eqn:Hn.
  { injection Hrun as <- <-. split; [done|]. exists record. split; [done|].
    apply orb_true_iff in Hn as [?|?%negb_true_iff]; tauto. }
  apply orb_false_iff in Hn as [Hrel Hh%negb_false_iff].
  pose proof (release_decision_spec k d reason RS_Revoked
    (rv_explanation ((result_for k d record) <| rv_reason := reason |> <| rv_state := RS_Revoked |>)) Hk) as Hw.
  pose proof (fun Hs => release_decision_succeeds k d reason RS_Revoked
    (rv_explanation ((result_for k d record) <| rv_reason := reason |> <| rv_state := RS_Revoked |>)) Hk Hs Hh)
    as Hok.
  unfold wp in Hw, Hok. destruct (release_decision_locked _ _ _ _ k) as [[x|s] k1];
    injection Hrun as <- <-; cbn [fst snd has_value] in Hw, Hok.
  - destruct (withdrawn_released k k1 d reason RS_Revoked (ew_ledger k Hk) Hw) as (W1 & W2 & W3).
    cbv beta iota. by split_and!.
  - right. intros Hs. by apply Hok in Hs as [? _].
Qed.

Lemma revoke_exact_witness :
  let run := revoke_locked 1 OperatorRequest granted_engine in
  rv_ledger_released (verdict_of_run run) = true /\ holds (ek_ledger run.2) 1 = false.
Proof.
  cbv zeta. set (run := revoke_locked 1 OperatorRequest granted_engine).
  assert (Hv : run = (Val (verdict_of_run run), run.2)) by (apply verdict_value; by vm_compute).
  assert (Hs : rv_ledger_released (verdict_of_run run) = true) by (by vm_compute).
  split; [exact Hs|].
  pose proof (revoke_exact granted_engine run.2 1 OperatorRequest _ granted_engine_wf Hv) as H.
  cbv beta iota in H. rewrite Hs in H. apply H.
Defined.

(** ** The enforcement pass *)

Definition settled (k : EngineCore) (d : AdmissionDecisionId) : Prop :=
  forall es, lg_by_decision (ek_ledger k) !! d = Some es -> Forall (fits k) es.

Lemma settled_lowered (k k' : EngineCore) (d : AdmissionDecisionId) :
  lowered k k' -> settled k d -> settled k' d.
Proof.
  intros Hl Hs es Hes. eapply Forall_impl; [eapply Hs, lookup_weaken; [exact Hes|apply Hl]|].
  intros e. by apply fits_lowered.
Qed.

(** The state of the pass begun in [k0] after the records [done], newest first. *)
Record pass_inv (k0 : EngineCore) (done : list DecisionRecord) (st : PassState) (k : EngineCore)
    : Prop := {
  pi_lowered : lowered k0 k;
  pi_agrees : agrees st.2 (ek_ledger k);
  pi_settled : Forall (fun r => is_admitting (dr_outcome r) = true -> settled k (dr_decision r)) done;
  pi_revoked : forall d, d ∈ rp_revoked_decisions st.1 <->
    holds (ek_ledger k0) d = true /\ holds (ek_ledger k) d = false;
  pi_order : sublist (rp_revoked_decisions st.1) (dr_decision <$> done);
  pi_count : rp_revoked st.1 = wrap64 (sizeN (rp_revoked_decisions st.1));
  pi_kept : forall d, holds (ek_ledger k0) d = true -> settled k0 d -> holds (ek_ledger k) d = true;
  pi_smooth : smooth k0 -> smooth k;
}.

Lemma holds_iff (l : AdmittedLoadLedger) (d : AdmissionDecisionId) :
  holds l d = true <-> exists es, lg_by_decision l !! d = Some es.
Proof. unfold holds. rewrite bool_decide_eq_true. done. Qed.

Lemma holds_lowered (k k' : EngineCore) (d : AdmissionDecisionId) :
  lowered k k' -> holds (ek_ledger k') d = true -> holds (ek_ledger k) d = true.
Proof.
  intros Hl (es & Hes)%holds_iff. apply holds_iff. exists es. eapply lookup_weaken; [exact Hes|apply Hl].
Qed.

(** A record that is passed over leaves the pass as it is. *)
Lemma pass_skip (k0 k : EngineCore) (done : list DecisionRecord) (st : PassState) (r : DecisionRecord) :
  pass_inv k0 done st k -> (is_admitting (dr_outcome r) = true -> settled k (dr_decision r)) ->
  pass_inv k0 (done ++ [r]) st k.
Proof.
  intros [Hl Ha Hse Hr Ho Hc Hk Hsm] Hs. constructor; try done.
  - apply Forall_app. split; [done|]. by constructor.
  - rewrite fmap_app. by apply sublist_inserts_r.
Qed.

Section revoke_one.
Context (k0 k k1 : EngineCore) (done : list DecisionRecord) (report : ReconciliationReport)
  (held_by : gmap N (list LedgerEntry)) (r : DecisionRecord) (reason : RevocationReason)
  (Hinv : pass_inv k0 done (report, held_by) k) (Hk : engine_wf k)
  (Hl : lowered k k1) (Hw : withdrawn k (dr_decision r) reason RS_Revoked k1)
  (Hover : ~ settled k (dr_decision r)).

Lemma pass_agrees : agrees (delete (dr_decision r) held_by) (ek_ledger k1).
Proof.
  intros d. destruct (wi_ledger _ _ _ _ _ Hw) as (es & _ & _ & -> & _).
  destruct (decide (dr_decision r = d)) as [<-|Hne].
  - rewrite !lookup_delete_eq. constructor.
  - rewrite !lookup_delete_ne by done. apply Hinv.
Qed.

Lemma pass_revoke (report' : ReconciliationReport) :
  rp_revoked_decisions report' = rp_revoked_decisions report ++ [dr_decision r] ->
  rp_revoked report' = rp_revoked report +w 1 ->
  (smooth k -> smooth k1) ->
  pass_inv k0 (done ++ [r]) (report', delete (dr_decision r) held_by) k1.
Proof.
  intros E1 E2 Hsm. pose proof Hinv as [Il Ia Is Ir Io Ic Ik Ism].
  destruct (withdrawn_released k k1 _ _ _ (ew_ledger k Hk) Hw) as (Hgone & Hrest & _).
  assert (Hheld : holds (ek_ledger k) (dr_decision r) = true)
    by (destruct (wi_ledger _ _ _ _ _ Hw) as (es & Hes & _); apply holds_iff; by exists es).
  assert (Hsame : forall d, d <> dr_decision r -> holds (ek_ledger k1) d = holds (ek_ledger k) d)
    by (intros d Hne; unfold holds; by rewrite Hrest).
  constructor.
  - by etrans.
  - exact pass_agrees.
  - apply Forall_app. split.
    + eapply Forall_impl; [exact Is|]. intros x Hx Ha. by eapply settled_lowered, Hx.
    + constructor; [|constructor]. intros _ es Hes. exfalso. apply not_true_iff_false in Hgone.
      apply Hgone, holds_iff. by exists es.
  - intros d. cbn [fst]. rewrite E1, elem_of_app, list_elem_of_singleton, (Ir d).
    destruct (decide (d = dr_decision r)) as [->|Hne].
    + rewrite Hgone, Hheld. split; [|tauto]. intros _. split; [|done]. by eapply holds_lowered.
    + rewrite Hsame by done. naive_solver.
  - cbn [fst]. rewrite E1, fmap_app. by apply sublist_app.
  - cbn [fst] in *. rewrite E1, E2, Ic. unfold sizeN. rewrite length_app. cbn [length].
    rewrite Nat2N.inj_add. unfold w_add, wrap64. apply N.Div0.add_mod_idemp_l.
  - intros d Hd Hse. destruct (decide (d = dr_decision r)) as [->|Hne].
    + exfalso. apply Hover. by eapply settled_lowered.
    + rewrite Hsame by done. by apply Ik.
  - auto.
Qed.
End revoke_one.

Lemma enforce_record_spec (k0 k : EngineCore) (reason : RevocationReason)
    (done : list DecisionRecord) (st : PassState) (r : DecisionRecord) :
  engine_wf k -> pass_inv k0 done st k ->
  wp (enforce_record reason st r)
    (fun res k' => match res with
                   | Val st' => pass_inv k0 (done ++ [r]) st' k'
                   | Err _ => lowered k0 k' /\ ~ smooth k0
                   end) k.
Proof.
  intros Hk Hinv. unfold enforce_record. apply wp_bind, wp_get.
  destruct (is_admitting (dr_outcome r)) eqn:Hadm; cbn [negb].
  2: { apply wp_ret, pass_skip; [done|congruence]. }
  pose proof (pi_agrees _ _ _ _ Hinv (dr_decision r)) as Hag.
  destruct (st.2 !! dr_decision r) as [held|] eqn:Hst.
  2: { inversion Hag as [|E1 E2]. apply wp_ret, pass_skip; [done|]. intros _ es Hes. congruence. }
  inversion Hag as [? es Hperm E1 E2|]; subst.
  destruct (revoke_note k held) as [note|] eqn:Hnote.
  2: { apply wp_ret, pass_skip; [done|]. intros _ es' Hes'. rewrite <- E2 in Hes'.
       injection Hes' as <-. apply check_entries_fit in Hnote. by rewrite <- Hperm. }
  assert (Hover : ~ settled k (dr_decision r)).
  { intros Hs. specialize (Hs es (eq_sym E2)). rewrite <- Hperm in Hs.
    eapply check_entries_fit in Hs. unfold revoke_note in Hnote. rewrite Hs in Hnote. done. }
  destruct st as [report held_by]. unfold revoke_in_pass. apply wp_bind, wp_get, wp_bind.
  match goal with |- context [release_decision_locked _ _ _ ?x] => set (x0 := x) end.
  pose proof (lowers_release_decision (dr_decision r) reason RS_Revoked x0 k Hk) as Hl.
  pose proof (release_decision_spec k (dr_decision r) reason RS_Revoked x0 Hk) as Hw.
  assert (Hh : holds (ek_ledger k) (dr_decision r) = true) by (apply holds_iff; by exists es).
  pose proof (fun Hs => release_decision_succeeds k (dr_decision r) reason RS_Revoked x0 Hk Hs Hh) as Hok.
  unfold wp in *. destruct (release_decision_locked _ _ _ _ k) as [[x|s] k1];
    cbn [fst snd has_value] in *.
  - eapply pass_revoke; [exact Hinv|exact Hk|exact Hl|exact Hw|exact Hover|done|done|].
    intros Hs. eapply smooth_lowered; [done..|]. by apply Hok.
  - split; [etrans; [apply Hinv|exact Hl]|]. intros Hs. apply (pi_smooth _ _ _ _ Hinv) in Hs.
    by apply Hok in Hs as [? _].
Qed.

Lemma enforce_loop_spec (k0 : EngineCore) (reason : RevocationReason) (l : list DecisionRecord) :
  engine_wf k0 ->
  forall done st k, pass_inv k0 done st k ->
  wp (enforce_loop reason st l)
    (fun res k' => match res with
                   | Val st' => pass_inv k0 (done ++ l) st' k'
                   | Err _ => lowered k0 k' /\ ~ smooth k0
                   end) k.
Proof.
  intros Hk0. induction l as [|r l IH]; intros done st k Hinv; cbn [enforce_loop].
  - apply wp_ret. by rewrite app_nil_r.
  - apply wp_bind. eapply wp_mono.
    { apply enforce_record_spec; [|exact Hinv]. eapply lowered_wf; [exact Hk0|apply Hinv]. }
    intros [st'|s] k' H; [|done].
    rewrite cons_middle, app_assoc. by apply IH.
Qed.

(** ** The end of the pass *)

(** Every entry of the ledger fits the capacity authority, when there is one. *)
Definition accounted (k : EngineCore) : Prop :=
  ek_capacity k <> None -> Forall (fits k) (entries (ek_ledger k)).

Lemma entries_settled (k : EngineCore) :
  ledger_wf (ek_ledger k) -> Forall (fits k) (entries (ek_ledger k)) <-> forall d, settled k d.
Proof.
  intros Hwf. rewrite (entries_perm (ek_ledger k)), Forall_forall. split.
  - intros H d es Hes. apply Forall_forall. intros e He. apply H, entry_held; [done|].
    pose proof (dok_entries _ _ (lwf_decisions _ Hwf d es Hes)) as Hd. rewrite Forall_forall in Hd.
    destruct (Hd e He) as [-> _]. by exists es.
  - intros H e (es & Hes & He)%entry_held; [|done]. specialize (H _ es Hes).
    rewrite Forall_forall in H. by apply H.
Qed.

(** What accounting says of each resource. *)
Lemma accounted_resource (k : EngineCore) (r : ResourceId) :
  ledger_wf (ek_ledger k) -> accounted k -> ek_capacity k <> None -> admitted (ek_ledger k) r <> 0 ->
  exists cap, find_capacity k r = Some cap /\ rc_evidence cap = EvidenceKnown /\
              admitted (ek_ledger k) r <= allowance_of k r cap.
Proof.
  intros Hwf Ha Hc Hr. specialize (Ha Hc). rewrite (entries_perm (ek_ledger k)), Forall_forall in Ha.
  rewrite (lwf_totals _ Hwf) in Hr.
  destruct (decide (r ∈ le_resource <$> all_entries (lg_by_decision (ek_ledger k)))) as [Hin|Hn].
  - apply list_elem_of_fmap in Hin as (e & -> & He). by apply Ha.
  - by apply load_notin in Hn.
Qed.

Lemma pass_start (k : EngineCore) (report : ReconciliationReport) :
  engine_wf k -> rp_revoked_decisions report = [] -> rp_revoked report = 0 ->
  pass_inv k [] (report, held_by_decision (ek_ledger k)) k.
Proof.
  intros Hk E1 E2. constructor; cbn [fst snd]; rewrite ?E1, ?E2; try done.
  - apply held_by_decision_agrees, Hk.
  - intros d. rewrite elem_of_nil. split; [done|]. intros []. congruence.
Qed.

(** Every held decision has a record in the pass, so the pass settles them all. *)
Lemma pass_settles (k0 k : EngineCore) (st : PassState) :
  engine_wf k0 -> pass_inv k0 ([] ++ rev (in_audit_order (ek_history k0))) st k ->
  forall d, settled k d.
Proof.
  intros Hk0 Hinv d es Hes.
  assert (Hh : holds (ek_ledger k0) d = true).
  { eapply holds_lowered; [apply Hinv|]. apply holds_iff. by exists es. }
  destruct (ew_held k0 Hk0 d Hh) as (r & Hr & Hadm).
  pose proof (hwf_records _ (ew_history k0 Hk0) d r Hr) as (_ & Hd & _).
  pose proof (pi_settled _ _ _ _ Hinv) as Hs. rewrite Forall_forall in Hs.
  rewrite <- Hd in Hes. apply (Hs r); [|done..].
  cbn [app]. rewrite list_elem_of_In, <- in_rev, <- list_elem_of_In.
  apply (audit_order_elem _ (ew_history k0 Hk0)). by rewrite Hd.
Qed.

(** The pass is over: flags cleared, report published. *)
Definition reconciled (k : EngineCore) (report : ReconciliationReport) (k' : EngineCore) : Prop :=
  exists j f, k' = k <| ek_ledger := clear_revalidation_flags (ek_ledger k) |>
    <| ek_pending_reconciliation := false |> <| ek_reconciliation := report |>
    <| ek_journal := j |> <| ek_faults := f |>.

Section reconciled.
Context (k k' : EngineCore) (report : ReconciliationReport) (H : reconciled k report k').

Lemma reconciled_inputs : same_inputs k k'.
Proof. destruct H as (j & f & ->). by constructor. Qed.

Lemma reconciled_ledger : ek_ledger k' = clear_revalidation_flags (ek_ledger k).
Proof. by destruct H as (j & f & ->). Qed.

Lemma reconciled_lookup (d : AdmissionDecisionId) :
  lg_by_decision (ek_ledger k') !! d = set_flag false <$> lg_by_decision (ek_ledger k) !! d.
Proof. rewrite reconciled_ledger. cbn. apply lookup_fmap. Qed.

Lemma reconciled_holds (d : AdmissionDecisionId) :
  holds (ek_ledger k') d = holds (ek_ledger k) d.
Proof.
  unfold holds. rewrite reconciled_lookup. apply bool_decide_ext. by rewrite fmap_is_Some.
Qed.

Lemma reconciled_wf : engine_wf k -> engine_wf k'.
Proof.
  intros Hk. pose proof reconciled_inputs as Hin. pose proof reconciled_holds as Hh.
  assert (Hw : ledger_wf (ek_ledger k')) by (rewrite reconciled_ledger; apply set_flags_wf, Hk).
  constructor; [by apply (same_inputs_wf _ _ Hin), Hk|exact Hw|..].
  5: { intros d. rewrite Hh. intros Hd. destruct H as (j & f & ->). by apply (ew_held k Hk). }
  all: destruct H as (j & f & ->); apply Hk.
Qed.

Lemma reconciled_settled (d : AdmissionDecisionId) : settled k d -> settled k' d.
Proof.
  intros Hs es. rewrite reconciled_lookup. intros (es0 & Hes & ->)%fmap_Some.
  unfold set_flag. apply Forall_map. eapply Forall_impl; [by apply Hs|].
  intros e (cap & Hf & He & Hle). exists cap. cbn [le_resource set_field].
  change (le_resource (e <| le_requires_revalidation := false |>)) with (le_resource e).
  rewrite (same_find_capacity _ _ reconciled_inputs), (same_allowance _ _ reconciled_inputs).
  split_and!; [done..|]. by rewrite reconciled_ledger.
Qed.
End reconciled.

Lemma enforce_with_spec (k : EngineCore) (trigger : EnforcementTrigger) (capacity : CapacitySnapshot) :
  engine_wf k ->
  wp (enforce_with trigger capacity)
    (fun res k' =>
       (lowered k k' /\ res <> Val tt /\ ~ smooth k) \/
       exists st k1 report, pass_inv k (rev (in_audit_order (ek_history k))) st k1 /\
         reconciled k1 report k' /\
         rp_revoked_decisions report = rp_revoked_decisions st.1 /\
         rp_revoked report = rp_revoked st.1 /\
         rp_retained report = live_decisions (ek_ledger k1) /\
         (smooth k -> res = Val tt)) k.
Proof.
  intros Hk. unfold enforce_with. apply wp_bind, wp_get. cbv zeta. apply wp_bind.
  eapply wp_mono; [apply (enforce_loop_spec k _ _ Hk [])|].
  { by apply pass_start. }
  intros [st|s] k1 H; [|left; by destruct H]. cbn [app] in H.
  apply wp_bind, wp_modify.
  set (report := (st.1 : ReconciliationReport) <| rp_infeasible_resources := infeasible_resources k1 capacity |>
                   <| rp_retained := live_decisions (ek_ledger k1) |>).
  assert (Hrest : forall res j f, (smooth k -> res = Val tt) ->
    (fun k' => exists st k1 report, pass_inv k (rev (in_audit_order (ek_history k))) st k1 /\
         reconciled k1 report k' /\
         rp_revoked_decisions report = rp_revoked_decisions st.1 /\
         rp_revoked report = rp_revoked st.1 /\
         rp_retained report = live_decisions (ek_ledger k1) /\
         (smooth k -> res = Val tt))
    (k1 <| ek_ledger := clear_revalidation_flags (ek_ledger k1) |>
        <| ek_pending_reconciliation := false |> <| ek_reconciliation := report |>
        <| ek_journal := j |> <| ek_faults := f |>)).
  { intros res j f Hres. exists st, k1, report. by split_and!; [|exists j, f|..]. }
  destruct (negb _).
  - unfold wp. pose proof (silent_write_audit_mark (k1 <| ek_ledger := clear_revalidation_flags (ek_ledger k1) |>
        <| ek_pending_reconciliation := false |> <| ek_reconciliation := report |>)) as (j & f & Hq).
    right. rewrite Hq. apply Hrest. intros Hs. apply (pi_smooth _ _ _ _ H) in Hs as [Hj _].
    unfold write_audit_mark, gets, mbind, M_bind. cbv beta iota. by rewrite unjournaled_write.
  - apply wp_ret. right. by apply (Hrest (Val tt) (ek_journal k1) (ek_faults k1)).
Qed.

(** What enforcement achieves from [k], whatever its trigger. *)
Record enforced (k : EngineCore) (res : Expected unit) (k' : EngineCore) : Prop := {
  en_wf : engine_wf k';
  en_inputs : same_inputs k k';
  en_ids : ek_next_decision_sequence k' = ek_next_decision_sequence k /\ ek_audit k' = ek_audit k /\
           ek_next_session_nonce k' = ek_next_session_nonce k;
  en_load : forall r, admitted (ek_ledger k') r <= admitted (ek_ledger k) r;
  en_accounted : res = Val tt -> accounted k';
  en_grants : grants_of (ek_ledger k') ⊆ grants_of (ek_ledger k);
}.

Lemma lowered_enforced (k k' : EngineCore) (res : Expected unit) :
  engine_wf k -> lowered k k' -> res <> Val tt -> enforced k res k'.
Proof.
  intros Hk Hl Hr. constructor; [by eapply lowered_wf|by apply lowered_inputs| |apply Hl|done|apply grants_of_mono, Hl].
  by destruct (lo_shape _ _ Hl) as (j & f & l & h & c & ->).
Qed.

Lemma enforce_outcome (k : EngineCore) (trigger : EnforcementTrigger) :
  engine_wf k ->
  wp (enforce_accounting_locked trigger)
    (fun res k' => enforced k res k' /\
       (smooth k -> ft_fail_reconciliation (ek_faults k) = false -> res = Val tt)) k.
Proof.
  intros Hk. unfold enforce_accounting_locked. apply wp_bind, wp_get.
  destruct (ft_fail_reconciliation (ek_faults k)) eqn:Hf.
  { apply wp_bind, wp_modify, wp_lift. split; [|done]. apply lowered_enforced; [done| |done].
    exact (quiet_lowered _ _ (quiet_faults k ((ek_faults k) <| ft_fail_reconciliation := false |>))). }
  destruct (ek_capacity k) as [capacity|] eqn:Hc.
  2: { apply wp_modify. split; [|done]. constructor; [|by constructor|done|intros r; cbn; lia| |done].
       - constructor; [by apply (same_inputs_wf k); [constructor|apply Hk]|apply Hk..].
       - intros _ H. by rewrite <- Hc in H. }
  eapply wp_mono; [by apply enforce_with_spec|]. intros res k' [(Hl & Hr & Hs)|H].
  { split; [by apply lowered_enforced|done]. }
  destruct H as (st & k1 & report & Hinv & Hrec & _ & _ & _ & Hs). split; [|auto].
  pose proof (pi_lowered _ _ _ _ Hinv) as Hl. pose proof (lowered_wf _ _ Hk Hl) as Hk1.
  pose proof (reconciled_wf _ _ _ Hrec Hk1) as Hk'. constructor; [done| | | | |].
  - etrans; [by apply lowered_inputs|by eapply reconciled_inputs].
  - destruct (lo_shape _ _ Hl) as (j & f & l & h & c & ->). by destruct Hrec as (j' & f' & ->).
  - intros r. rewrite (reconciled_ledger _ _ _ Hrec). exact (lo_load _ _ Hl r).
  - intros _ _. apply entries_settled; [apply Hk'|]. intros d.
    eapply reconciled_settled; [done|]. exact (pass_settles k k1 st Hk Hinv d).
  - rewrite (reconciled_ledger _ _ _ Hrec). unfold clear_revalidation_flags. rewrite grants_flags. apply grants_of_mono, Hl.
Qed.


(** The engine after a first grant, its first resource shrunk to less than its
    headroom and obligations need. *)
Definition shrunk_capacity : CapacitySnapshot :=
  mkCapacitySnapshot 1 2 1 0
    [mkResourceCapacity 1 1 EvidenceKnown 300 100; mkResourceCapacity 2 1 EvidenceKnown 500 0].
Definition shrunk_engine : EngineCore := granted_engine <| ek_capacity := Some shrunk_capacity |>.

Lemma capacity_replaced_wf (k : EngineCore) (c : CapacitySnapshot) :
  engine_wf k -> capacity_wf c -> Forall (fun e => u64 (rc_usable e)) (cs_resources c) ->
  engine_wf (k <| ek_capacity := Some c |>).
Proof.
  intros [[_ Hr Hp Hi] Hl Hh Hre Hids Hn Hheld] Hc Hw.
  constructor; [|done..]. constructor; [|done..]. by intros c' [= <-].
Qed.

Lemma shrunk_engine_wf : engine_wf shrunk_engine.
Proof.
  apply (capacity_replaced_wf granted_engine shrunk_capacity granted_engine_wf);
    [by apply validate_capacity_spec|by repeat constructor].
Qed.

Lemma unit_run {S A} (run : Expected A * S) (v : A) : run.1 = Val v -> run = (Val v, run.2).
Proof. by destruct run as [r s]; cbn; intros ->. Qed.

Definition shrunk_run : Expected unit * EngineCore :=
  enforce_accounting_locked CapacityPublication shrunk_engine.


(** Enforcement revokes no more than it must report.  After a successful pass the
    report lists exactly the decisions that lost their load, newest first, with
    their count and the number of grants retained; and a grant whose every resource
    already fitted is kept. *)
Theorem enforcement_report_exact (k k' : EngineCore) (trigger : EnforcementTrigger) (Hk : engine_wf k)
    (Hc : ek_capacity k <> None) (Hrun : enforce_accounting_locked trigger k = (Val tt, k')) :
  let report := ek_reconciliation k' in
  (forall d, d ∈ rp_revoked_decisions report <->
     holds (ek_ledger k) d = true /\ holds (ek_ledger k') d = false) /\
  sublist (rp_revoked_decisions report) (dr_decision <$> rev (in_audit_order (ek_history k))) /\
  rp_revoked report = wrap64 (sizeN (rp_revoked_decisions report)) /\
  rp_retained report = live_decisions (ek_ledger k') /\
  (forall d, holds (ek_ledger k) d = true -> Forall (fits k) (held_entries (ek_ledger k) d) ->
     holds (ek_ledger k') d = true).
Proof.
  unfold enforce_accounting_locked, mbind, M_bind, get in Hrun. cbv beta iota in Hrun.
  destruct (ft_fail_reconciliation (ek_faults k)) eqn:Hf; [done|].
  destruct (ek_capacity k) as [capacity|] eqn:Hcap; [|done].
  apply (wp_elim _ _ _ _ _ (enforce_with_spec k trigger capacity Hk)) in Hrun as [(_ & ? & _)|H]; [done|].
  destruct H as (st & k1 & report & Hinv & Hrec & E1 & E2 & E3 & _).
  pose proof (reconciled_holds _ _ _ Hrec) as Hh.
  assert (E : ek_reconciliation k' = report) by (by destruct Hrec as (j & f & ->)).
  cbv zeta. rewrite E, E1, E2, E3. split_and!.
  - intros d. rewrite Hh. apply Hinv.
  - apply Hinv.
  - apply Hinv.
  - rewrite (reconciled_ledger _ _ _ Hrec). unfold live_decisions. cbn. by rewrite map_size_fmap.
  - intros d Hd Hfit. rewrite Hh. apply (pi_kept _ _ _ _ Hinv d Hd). intros es Hes.
    by rewrite (held_entries_perm _ (ew_ledger k Hk) d), Hes in Hfit.
Qed.

Lemma enforcement_report_exact_witness :
  1 ∈ rp_revoked_decisions (ek_reconciliation shrunk_run.2) /\ holds (ek_ledger shrunk_run.2) 1 = false.
Proof.
  assert (Hv : shrunk_run = (Val tt, shrunk_run.2))
    by (apply unit_run; by vm_compute).
  assert (Hg : holds (ek_ledger shrunk_run.2) 1 = false) by (by vm_compute).
  split; [|exact Hg].
  apply (enforcement_report_exact shrunk_engine shrunk_run.2 CapacityPublication shrunk_engine_wf); [done|exact Hv|].
  split; [by vm_compute|exact Hg].
Defined.
