(* ===== verification/Reach.v ===== *)
(** * The engine as a transition system

    Every public call of the engine is a step.  The invariant holds in every
    reachable state, admitted load stays within what the published authority allows,
    authorities and clocks only advance, and sessions and incarnations fence. *)

From S2P Require Import Prelude Checked Identity Hash State Policy Request Authority.
From S2P Require Import Decision Ledger History Bytes Records Journal Engine Admission.
From S2P Require Import Capacity Frames Grant Safety Enforce Api.
Local Open Scope N_scope.
Local Open Scope naf_scope.

(** ** Publication *)

Definition newer {A} (generation : A -> Generation) (current : option A) (new : A) : Prop :=
  forall old, current = Some old -> generation old < generation new.

Section publication.
Context {A : Type} (generation : A -> Generation) (content_equal : A -> A -> bool) (what : string)
  (current : option A) (new : A).

(** Why a publication changes nothing. *)
Definition already_current : Prop :=
  exists old, current = Some old /\ generation new = generation old /\ content_equal new old = true.
Definition outdated : Prop :=
  exists old, current = Some old /\
    (generation new < generation old \/
     (generation new = generation old /\ content_equal new old = false)).

Lemma judge_publication_spec :
  match judge_publication generation content_equal what current new with
  | PublishInstall => newer generation current new
  | PublishAlreadyCurrent => already_current
  | PublishRefused _ => outdated
  end.
Proof.
  unfold judge_publication, newer, already_current, outdated.
  destruct current as [old|]; [|done]. destruct (N.ltb_spec (generation new) (generation old)).
  { exists old. auto. }
  destruct (N.eqb_spec (generation new) (generation old)).
  - destruct (content_equal new old) eqn:E; exists old; auto.
  - intros ? [= <-]. lia.
Qed.

Lemma wp_publish (install : M EngineCore unit) (Q : Expected unit -> EngineCore -> Prop)
    (k : EngineCore) :
  (already_current -> Q (Val tt) k) -> (outdated -> forall s, Q (Err s) k) ->
  (newer generation current new -> wp install Q k) ->
  wp (publish_if (judge_publication generation content_equal what current new) install) Q k.
Proof.
  intros H1 H2 H3. pose proof judge_publication_spec as H. unfold publish_if.
  destruct (judge_publication _ _ _ _ _) as [| |s]; [by apply H3|by apply wp_ret, H1|].
  by apply wp_lift, H2.
Qed.
End publication.

Lemma wp_require_epoch {A} (m : M EngineCore A) (Q : Expected A -> EngineCore -> Prop) (k : EngineCore) :
  (epoch_is_none (ek_epoch k) = true -> forall s, Q (Err s) k) ->
  (epoch_is_none (ek_epoch k) = false -> wp m Q k) -> wp (require_epoch ;; m) Q k.
Proof.
  intros H1 H2. unfold require_epoch. apply wp_bind, wp_bind, wp_get, wp_lift.
  destruct (epoch_is_none (ek_epoch k)); cbn; auto.
Qed.

Lemma wp_require_same_epoch {A} (e : FabricEpoch) (s : string) (m : M EngineCore A)
    (Q : Expected A -> EngineCore -> Prop) (k : EngineCore) :
  (e <> ek_epoch k -> forall s, Q (Err s) k) -> (e = ek_epoch k -> wp m Q k) ->
  wp (require_same_epoch e s ;; m) Q k.
Proof.
  intros H1 H2. unfold require_same_epoch. apply wp_bind, wp_bind, wp_get, wp_lift.
  destruct (N.eqb_spec e (ek_epoch k)); cbn; auto.
Qed.

Lemma wp_validated {A} (v : Expected unit) (m : M EngineCore A)
    (Q : Expected A -> EngineCore -> Prop) (k : EngineCore) :
  (v <> Val tt -> forall s, Q (Err s) k) -> (v = Val tt -> wp m Q k) -> wp (lift v ;; m) Q k.
Proof. intros H1 H2. apply wp_bind, wp_lift. destruct v as [[]|s]; auto. Qed.

(** ** The invariant under changed inputs *)

Lemma inputs_replaced_wf (k k' : EngineCore) :
  engine_wf k -> inputs_wf k' -> ek_ledger k' = ek_ledger k -> ek_history k' = ek_history k ->
  ek_next_decision_sequence k' = ek_next_decision_sequence k -> ek_audit k' = ek_audit k ->
  engine_wf k'.
Proof.
  intros Hk Hi El Eh En Ea. constructor; rewrite ?El, ?Eh, ?En, ?Ea; try exact Hi; apply Hk.
Qed.

Lemma policy_replaced_wf (k : EngineCore) (p : AdmissionPolicy) (t : N) :
  engine_wf k -> engine_wf (observe_tick t (k <| ek_policy := Some p |>)).
Proof.
  intros Hk. apply (inputs_replaced_wf k); try done. destruct (ew_inputs k Hk). by constructor.
Qed.

Lemma capacity_observed_wf (k : EngineCore) (s : CapacitySnapshot) (t : N) :
  engine_wf k -> capacity_wf s -> Forall (fun e => u64 (rc_usable e)) (cs_resources s) ->
  engine_wf (observe_tick t (k <| ek_capacity := Some s |>)).
Proof.
  intros Hk Hs Hu. apply (inputs_replaced_wf k); try done.
  destruct (ew_inputs _ (capacity_replaced_wf k s Hk Hs Hu)). by constructor.
Qed.

Lemma reservations_replaced_wf (k : EngineCore) (s : ReservationSnapshot) (t : N) :
  engine_wf k -> reservations_wf s -> Forall (fun o => u64 (po_reserved o)) (rs_obligations s) ->
  engine_wf (observe_tick t (rebuild_obligation_index (k <| ek_reservations := Some s |>))).
Proof.
  intros Hk Hs Hu. apply (inputs_replaced_wf k); try done.
  destruct (ew_inputs k Hk) as [Hc _ Hp _]. constructor; [done| |done|done]. by intros s' [= <-].
Qed.

Lemma paths_replaced_wf (k : EngineCore) (c : PathCatalog) (t : N) :
  engine_wf k -> paths_wf c -> Forall (fun f => u64 (pf_path_usable_capacity f)) (pc_paths c) ->
  engine_wf (observe_tick t (k <| ek_paths := Some c |>)).
Proof.
  intros Hk Hs Hu. apply (inputs_replaced_wf k); try done.
  destruct (ew_inputs k Hk) as [Hc Hr _ Hi]. constructor; [done..| |done]. by intros s' [= <-].
Qed.

(** ** Publishing capacity *)

(** Resources that carry load have KNOWN capacity and stay within their allowance. *)
Definition within_allowance (k : EngineCore) : Prop :=
  forall r, admitted (ek_ledger k) r = 0 \/
    exists cap, find_capacity k r = Some cap /\ rc_evidence cap = EvidenceKnown /\
      admitted (ek_ledger k) r <= allowance_of k r cap.

Lemma accounted_within (k : EngineCore) :
  ledger_wf (ek_ledger k) -> accounted k -> ek_capacity k <> None -> within_allowance k.
Proof.
  intros Hw Ha Hc r. destruct (decide (admitted (ek_ledger k) r = 0)) as [|Hne]; [by left|right].
  by apply accounted_resource.
Qed.

Lemma install_enforced (k : EngineCore) (f : EngineCore -> EngineCore) (trigger : EnforcementTrigger)
    (Q : Expected unit -> EngineCore -> Prop) :
  engine_wf (f k) -> (forall res k', enforced (f k) res k' -> Q res k') ->
  wp (modify f ;; enforce_accounting_locked trigger) Q k.
Proof.
  intros Hk HQ. apply wp_bind, wp_modify. eapply wp_mono; [by apply enforce_outcome|].
  intros res k' [H _]. by apply HQ.
Qed.

(** What publishing a capacity snapshot can do. *)
Inductive capacity_published (k : EngineCore) (s : CapacitySnapshot)
    : Expected unit -> EngineCore -> Prop :=
  | capacity_refused m :
      ~ capacity_wf s \/ epoch_is_none (ek_epoch k) = true \/ cs_epoch s <> ek_epoch k \/
      outdated cs_generation content_equal_capacity (ek_capacity k) s ->
      capacity_published k s (Err m) k
  | capacity_acknowledged :
      already_current cs_generation content_equal_capacity (ek_capacity k) s ->
      capacity_published k s (Val tt) k
  | capacity_installed res k' :
      capacity_wf s -> cs_epoch s = ek_epoch k -> newer cs_generation (ek_capacity k) s ->
      enforced (observe_tick (cs_observed_tick s) (k <| ek_capacity := Some s |>)) res k' ->
      capacity_published k s res k'.

Lemma publish_capacity_spec (k : EngineCore) (s : CapacitySnapshot) :
  engine_wf k -> Forall (fun e => u64 (rc_usable e)) (cs_resources s) ->
  wp (publish_capacity s) (capacity_published k s) k.
Proof.
  intros Hk Hu. unfold publish_capacity. apply wp_validated.
  { intros Hn m. apply capacity_refused. left. intros H. by apply Hn, validate_capacity_spec. }
  intros Hwf%validate_capacity_spec. apply wp_require_epoch; [intros He m; apply capacity_refused; tauto|].
  intros _. apply wp_require_same_epoch; [intros He m; apply capacity_refused; tauto|].
  intros He. apply wp_bind, wp_get, wp_publish.
  - apply capacity_acknowledged.
  - intros Ho m. apply capacity_refused. tauto.
  - intros Hn. apply install_enforced; [by apply capacity_observed_wf|]. intros res k' H.
    by apply capacity_installed.
Qed.

(** Publishing capacity is exact.  A snapshot that is malformed, from another
    epoch, older than the current one, or of the same generation with other
    content is refused and changes nothing; the current one again is acknowledged
    and changes nothing; a newer one becomes the authority, moves the tick no
    further than it was observed, keeps every other authority and adds no load, and
    when the call succeeds every loaded resource is within the new allowance. *)
Theorem publish_capacity_exact (k k' : EngineCore) (s : CapacitySnapshot) (res : Expected unit)
    (Hk : engine_wf k) (Hu : Forall (fun e => u64 (rc_usable e)) (cs_resources s))
    (Hrun : publish_capacity s k = (res, k')) :
  (k' = k /\ has_value res = false /\
   (~ capacity_wf s \/ epoch_is_none (ek_epoch k) = true \/ cs_epoch s <> ek_epoch k \/
    exists old, ek_capacity k = Some old /\
      (cs_generation s < cs_generation old \/
       (cs_generation s = cs_generation old /\ content_equal_capacity s old = false)))) \/
  (k' = k /\ res = Val tt /\
   exists old, ek_capacity k = Some old /\ cs_generation s = cs_generation old /\
               content_equal_capacity s old = true) \/
  (capacity_wf s /\ cs_epoch s = ek_epoch k /\
   (forall old, ek_capacity k = Some old -> cs_generation old < cs_generation s) /\
   ek_capacity k' = Some s /\ ek_tick k' = N.max (ek_tick k) (cs_observed_tick s) /\
   ek_policy k' = ek_policy k /\ ek_reservations k' = ek_reservations k /\
   ek_paths k' = ek_paths k /\ ek_epoch k' = ek_epoch k /\ engine_wf k' /\
   (forall r, admitted (ek_ledger k') r <= admitted (ek_ledger k) r) /\
   (res = Val tt -> within_allowance k')).
Proof.
  apply (wp_elim _ _ _ _ _ (publish_capacity_spec k s Hk Hu)) in Hrun as [m H|H|res1 k1 H1 H2 H3 H4].
  - left. by split_and!.
  - right; left. by split_and!.
  - right; right. destruct H4 as [Hk1 Hin _ Hl Ha].
    assert (Hc : ek_capacity k1 = Some s) by exact (si_capacity _ _ Hin).
    split_and!; [done|done|done|exact Hc|exact (si_tick _ _ Hin)|exact (si_policy _ _ Hin)
      |exact (si_reservations _ _ Hin)|exact (si_paths _ _ Hin)|exact (si_epoch _ _ Hin)|done|exact Hl|].
    intros Hr. apply accounted_within; [apply Hk1|auto|by rewrite Hc].
Qed.

Lemma publish_capacity_exact_witness :
  let run := publish_capacity shrunk_capacity granted_engine in
  ek_capacity run.2 = Some shrunk_capacity /\ within_allowance run.2.
Proof.
  cbv zeta. set (run := publish_capacity shrunk_capacity granted_engine).
  assert (Hv : run = (Val tt, run.2)) by (apply unit_run; by vm_compute).
  assert (Hc : ek_capacity run.2 = Some shrunk_capacity) by (by vm_compute).
  assert (Hold : ek_capacity granted_engine = Some sample_capacity) by (by vm_compute).
  split; [exact Hc|].
  destruct (publish_capacity_exact granted_engine run.2 shrunk_capacity (Val tt) granted_engine_wf
    ltac:(by repeat constructor) Hv) as [(_ & H & _)|[(_ & _ & old & Ho & Hg & _)|H]].
  - discriminate H.
  - rewrite Hold in Ho. injection Ho as <-. discriminate Hg.
  - apply H. reflexivity.
Defined.

(** ** What every call preserves *)

(** An authority that is never withdrawn stays, or gives way to a newer one. *)
Definition advances {A} (generation : A -> Generation) (old new : option A) : Prop :=
  forall x, old = Some x -> exists y, new = Some y /\ (y = x \/ generation x < generation y).

Lemma advances_refl {A} (g : A -> Generation) (a : option A) : advances g a a.
Proof. intros x ->. exists x. auto. Qed.
Lemma advances_trans {A} (g : A -> Generation) (a b c : option A) :
  advances g a b -> advances g b c -> advances g a c.
Proof.
  intros H1 H2 x (y & Hy & Hxy)%H1. apply H2 in Hy as (z & Hz & Hyz). exists z. split; [done|].
  destruct Hxy as [->|], Hyz as [->|]; auto. right. lia.
Qed.
Lemma advances_newer {A} (g : A -> Generation) (a : option A) (x : A) :
  newer g a x -> advances g a (Some x).
Proof. intros H old Ho. exists x. auto. Qed.

(** Clocks, sequences and authorities only move forward. *)
Record progress (k k' : EngineCore) : Prop := {
  pg_epoch : ek_epoch k <= ek_epoch k';
  pg_tick : ek_tick k <= ek_tick k';
  pg_next : ek_next_decision_sequence k <= ek_next_decision_sequence k';
  pg_audit : ek_audit k <= ek_audit k';
  pg_policy : advances pol_generation (ek_policy k) (ek_policy k');
  pg_reservations : advances rs_generation (ek_reservations k) (ek_reservations k');
  pg_qos : advances qc_generation (ek_qos k) (ek_qos k');
  pg_priorities : advances prc_generation (ek_priorities k) (ek_priorities k');
}.

#[export] Instance progress_refl : Reflexive progress.
Proof. intros k. constructor; try lia; apply advances_refl. Qed.
#[export] Instance progress_trans : Transitive progress.
Proof. intros k1 k2 k3 [] []. constructor; try lia; by eapply advances_trans. Qed.

Lemma same_inputs_progress (k k' : EngineCore) :
  same_inputs k k' -> ek_next_decision_sequence k <= ek_next_decision_sequence k' ->
  ek_audit k <= ek_audit k' -> progress k k'.
Proof.
  intros [] Hn Ha. constructor; try lia; match goal with E : ?b = ?a |- advances _ ?a ?b => rewrite E end;
    apply advances_refl.
Qed.

(** What a call does to the grants: it keeps or withdraws them, or it adds one, under
    an identity never used before and an authority that it leaves as it is. *)
Inductive grants_move (k k' : EngineCore) : Prop :=
  | grants_kept : grants_of (ek_ledger k') ⊆ grants_of (ek_ledger k) -> grants_move k k'
  | grants_added d amounts :
      ek_next_decision_sequence k <= d -> d < ek_next_decision_sequence k' -> same_inputs k k' ->
      ek_capacity k <> None -> amounts <> [] ->
      grants_of (ek_ledger k') = <[d := amounts]> (grants_of (ek_ledger k)) -> grants_move k k'.

Lemma grants_same (k k' : EngineCore) : ek_ledger k' = ek_ledger k -> grants_move k k'.
Proof. intros E. apply grants_kept. by rewrite E. Qed.

Lemma grants_same_amounts (k k' : EngineCore) : same_amounts (ek_ledger k) (ek_ledger k') -> grants_move k k'.
Proof. intros (_ & E & _). apply grants_kept. unfold grants_of. by rewrite E. Qed.

(** A call that ended well ([ok]) also keeps admitted load accounted for. *)
Record safe_step (k : EngineCore) (ok : bool) (k' : EngineCore) : Prop := {
  ss_wf : engine_wf k';
  ss_progress : progress k k';
  ss_accounted : ok = true -> accounted k -> accounted k';
  ss_grants : grants_move k k';
}.

Lemma safe_refl (k : EngineCore) (ok : bool) : engine_wf k -> safe_step k ok k.
Proof. by constructor; [..|apply grants_same]. Qed.

(** Same ledger and same capacity arithmetic: the accounting stands. *)
Lemma accounted_frame (k k' : EngineCore) :
  same_amounts (ek_ledger k) (ek_ledger k') ->
  ek_capacity k' = ek_capacity k -> ek_policy k' = ek_policy k ->
  ek_obligation_totals k' = ek_obligation_totals k -> accounted k -> accounted k'.
Proof.
  intros (El & Ed & _) Ec Ep Et Ha Hc. rewrite Ec in Hc. specialize (Ha Hc).
  unfold entries in *. rewrite Ed. eapply Forall_impl; [exact Ha|].
  intros e (cap & Hf & He & Hle). exists cap.
  unfold find_capacity, allowance_of, headroom_for, obligations_for in *.
  rewrite Ec, Ep, Et, El. by split_and!.
Qed.

Lemma same_amounts_refl (l : AdmittedLoadLedger) : same_amounts l l.
Proof. done. Qed.
#[export] Hint Resolve same_amounts_refl : naf.

Lemma accounted_same_inputs (k k' : EngineCore) :
  same_inputs k k' -> same_amounts (ek_ledger k) (ek_ledger k') -> accounted k -> accounted k'.
Proof. intros [] Hl. by apply accounted_frame. Qed.

Lemma accounted_lowered (k k' : EngineCore) :
  engine_wf k -> lowered k k' -> accounted k -> accounted k'.
Proof.
  intros Hk Hl Ha Hc. pose proof (lowered_wf _ _ Hk Hl) as Hk'.
  rewrite (si_capacity _ _ (lowered_inputs _ _ Hl)) in Hc. specialize (Ha Hc).
  apply entries_settled; [apply Hk'|]. intros d. eapply settled_lowered; [exact Hl|].
  by apply entries_settled; [apply Hk|].
Qed.

Lemma safe_lowered (k k' : EngineCore) (ok : bool) : engine_wf k -> lowered k k' -> safe_step k ok k'.
Proof.
  intros Hk Hl. constructor; [by eapply lowered_wf| |by intros _; apply accounted_lowered|apply grants_kept, grants_of_mono, Hl].
  pose proof (lowered_inputs _ _ Hl) as Hin.
  destruct (lo_shape _ _ Hl) as (j & f & l & h & c & ->). by apply same_inputs_progress.
Qed.

(** An installation followed by enforcement. *)
Lemma safe_enforced (k k0 k' : EngineCore) (res : Expected unit) :
  progress k k0 -> ek_ledger k0 = ek_ledger k -> enforced k0 res k' -> safe_step k (has_value res) k'.
Proof.
  intros Hp El [Hk' Hin (Hn & Ha & _) _ Hacc Hg]. constructor; [done| | |apply grants_kept; by rewrite <- El].
  - etrans; [exact Hp|]. apply same_inputs_progress; [done|lia|lia].
  - intros Hv _. apply Hacc. by destruct res as [[]|].
Qed.

(** ** A grant keeps the accounting *)

(** Load admitted on a resource is within the allowance found for it. *)
Lemma admitted_within (k : EngineCore) (r : ResourceId) (cap : ResourceCapacity) :
  engine_wf k -> accounted k -> find_capacity k r = Some cap ->
  admitted (ek_ledger k) r <= allowance_of k r cap.
Proof.
  intros Hk Ha Hf. destruct (decide (admitted (ek_ledger k) r = 0)) as [->|Hne]; [lia|].
  destruct (accounted_resource k r (ew_ledger k Hk) Ha) as (cap' & Hf' & _ & Hle); [|done|congruence].
  intros Hc. unfold find_capacity in Hf. by rewrite Hc in Hf.
Qed.

Lemma accounted_installed (k k' : EngineCore) (request : AdmissionRequest)
    (targets : list ResourceId) (d : AdmissionDecision) :
  engine_wf k -> justified k request targets d -> installed k request targets d k' ->
  accounted k -> accounted k'.
Proof.
  intros Hk Hj Hi Ha Hc. destruct Hi as [Hiss Hin _ _ (El & _ & Ed & _) Hwf _ _ _].
  pose proof (ju_targets _ _ _ _ Hj) as [_ Hnd]. pose proof (ju_room _ _ _ _ Hj) as Hroom.
  rewrite (si_capacity _ _ Hin) in Hc. pose proof (Ha Hc) as Hold.
  rewrite (entries_perm (ek_ledger k)), Forall_forall in Hold.
  assert (Hnew : lg_by_decision (ek_ledger k) !! ad_decision d = None).
  { destruct (lg_by_decision (ek_ledger k) !! ad_decision d) as [es|] eqn:E; [|done].
    assert (Hh : holds (ek_ledger k) (ad_decision d) = true) by (apply holds_iff; by exists es).
    apply (ew_held k Hk) in Hh as (rec & Hrec & _). apply (ew_ids k Hk) in Hrec as [Hlt _].
    rewrite (iss_decision _ _ _ _ Hiss) in Hlt. lia. }
  rewrite (entries_perm (ek_ledger k')), Ed, (all_entries_insert _ _ _ Hnew), Forall_forall.
  intros e He. set (r := le_resource e). unfold fits. fold r.
  setoid_rewrite (same_find_capacity _ _ Hin). setoid_rewrite (same_allowance _ _ Hin).
  rewrite El, amount_of_targets by done. case_decide as Ht.
  - rewrite Forall_forall in Hroom. destruct (Hroom r Ht) as [(cap & Hf & Hev)%has_capacity_iff Hg].
    rewrite (room_found k r cap Hf Hev) in Hg. exists cap. split_and!; [done..|].
    pose proof (admitted_within k r cap Hk Ha Hf). lia.
  - apply elem_of_app in He as [He|He].
    + exfalso. apply Ht. apply list_elem_of_fmap in He as ([r' a] & E & Hra).
      apply list_elem_of_fmap in Hra as (r'' & [= -> ->] & Hr''). unfold r. by rewrite E.
    + rewrite N.add_0_r. by apply Hold.
Qed.

(** ** Admission *)

Lemma stored_progress (k k' : EngineCore) (d : AdmissionDecision) (request : AdmissionRequest)
    (b : bool) (record : DecisionRecord) :
  sequences_left k -> stored d request b record (consumed k) k' -> progress k k'.
Proof.
  intros Hs [[Hin _ Hn Ha _ _ _] _]. destruct (consumed_ids k Hs) as [E1 E2].
  apply same_inputs_progress; [|rewrite Hn, E1; lia|rewrite Ha, E2; lia].
  etrans; [|exact Hin]. by constructor.
Qed.

Lemma accounted_stored (k k' : EngineCore) (d : AdmissionDecision) (request : AdmissionRequest)
    (b : bool) (record : DecisionRecord) :
  stored d request b record (consumed k) k' -> accounted k -> accounted k'.
Proof.
  intros [[Hin El _ _ _ _ _] _]. apply accounted_same_inputs.
  - etrans; [|exact Hin]. by constructor.
  - rewrite El. apply same_amounts_refl.
Qed.

Lemma replay_counted_step (k k0 : EngineCore) :
  replay_counted k k0 -> progress k k0 /\ (accounted k -> accounted k0) /\
  (sequences_left k -> sequences_left k0) /\ ek_ledger k0 = ek_ledger k.
Proof.
  intros [c ->]. split_and!; [by apply same_inputs_progress| |done|done].
  by apply accounted_same_inputs.
Qed.

Lemma grants_installed (k k' : EngineCore) (request : AdmissionRequest)
    (targets : list ResourceId) (d : AdmissionDecision) :
  sequences_left k -> justified k request targets d -> installed k request targets d k' -> grants_move k k'.
Proof.
  intros Hs Hj [Hiss Hin Hn _ (_ & _ & Ed & _) _ _ _ _]. destruct (consumed_ids k Hs) as [E1 _].
  destruct (ju_targets _ _ _ _ Hj) as [Hne _]. pose proof (iss_decision _ _ _ _ Hiss) as Hd.
  apply (grants_added k k' (ad_decision d) ((fun r => (r, ad_granted d)) <$> targets)); [rewrite Hd; lia|rewrite Hd, Hn, E1; lia|done| |by destruct targets|].
  - pose proof (ju_room _ _ _ _ Hj) as Hroom. destruct targets as [|r ts]; [done|]. apply Forall_cons in Hroom as [[Hc _] _].
    apply has_capacity_iff in Hc as (cap & Hf & _). intros E. unfold find_capacity in Hf. by rewrite E in Hf.
  - unfold grants_of. rewrite Ed, fmap_insert. f_equal. apply entries_amounts.
Qed.

Lemma safe_admit (k : EngineCore) (request : AdmissionRequest) (claim : ClaimContext) :
  engine_wf k -> sequences_left k -> safe_step k true (admit_locked request claim k).2.
Proof.
  intros Hk Hs. destruct (admit_locked request claim k) as [res k'] eqn:E. cbn [snd].
  pose proof (admit_runs k k' request claim res Hk E) as Ha.
  pose proof (answered_wf k k' request claim res Hk Hs Ha) as Hk'.
  destruct (consumed_ids k Hs) as [E1 E2].
  destruct Ha as [b o d k0 k' Hc Ho Hi Hg _ _ Hst|s k0 k' Hc Hv _|d k' Hc Hr|res k' Hp Hpl].
  - destruct (replay_counted_step _ _ Hc) as (Hp0 & Ha0 & Hs0 & El0). constructor; [done| | |].
    + etrans; [exact Hp0|]. by eapply stored_progress; [apply Hs0|].
    + intros _ Hacc. eapply accounted_stored; eauto.
    + apply grants_same. rewrite (fil_ledger _ _ _ _ _ _ Hst). exact El0.
  - destruct (replay_counted_step _ _ Hc) as (Hp0 & Ha0 & Hs0 & El0).
    destruct (consumed_ids k0 (Hs0 Hs)) as [E3 E4]. destruct Hv as [Hin Hn Ha Hl _ _ _]. constructor; [done| | |].
    + etrans; [exact Hp0|]. apply same_inputs_progress; [done|rewrite Hn, E3; lia|rewrite Ha, E4; lia].
    + intros _ Hacc. eapply (accounted_same_inputs k0); auto.
    + apply grants_same_amounts. by rewrite <- El0.
  - destruct (replay_counted_step _ _ Hc) as (Hp0 & Ha0 & _ & El0). constructor; [done..|by apply grants_same].
  - destruct Hpl as [o d k' Ho Hi Hg Hst|targets d res k' Hj Hi Hres|s k' Hv _].
    + constructor; [done|by eapply stored_progress|intros _; by eapply accounted_stored|].
      apply grants_same. by rewrite (fil_ledger _ _ _ _ _ _ Hst).
    + constructor; [done| |intros _; by eapply accounted_installed|by eapply grants_installed].
      destruct Hi as [_ Hin Hn Ha _ _ _ _ _].
      apply same_inputs_progress; [done|rewrite Hn, E1; lia|rewrite Ha, E2; lia].
    + destruct Hv as [Hin Hn Ha Hl _ _ _]. constructor; [done| | |by apply grants_same_amounts].
      * apply same_inputs_progress; [done|rewrite Hn, E1; lia|rewrite Ha, E2; lia].
      * intros _. by apply accounted_same_inputs.
Qed.

(** ** The other calls *)

Lemma quiet_safe (k k' : EngineCore) (ok : bool) : engine_wf k -> quiet k k' -> safe_step k ok k'.
Proof. intros Hk Hq. by apply safe_lowered, quiet_lowered. Qed.

(** Inputs that the accounting does not read. *)
Lemma safe_replaced (k k' : EngineCore) (ok : bool) :
  engine_wf k' -> progress k k' -> ek_ledger k' = ek_ledger k -> ek_capacity k' = ek_capacity k ->
  ek_policy k' = ek_policy k -> ek_obligation_totals k' = ek_obligation_totals k ->
  safe_step k ok k'.
Proof.
  intros Hk' Hp El Ec Ep Et. constructor; [done|done| |by apply grants_same].
  intros _. apply accounted_frame; [|done..]. rewrite El. apply same_amounts_refl.
Qed.

Ltac progress_by := constructor; cbn; try lia; (apply advances_refl || by apply advances_newer).

Lemma safe_publish_policy (k : EngineCore) (p : AdmissionPolicy) :
  engine_wf k ->
  wp (publish_policy p) (fun res k' => safe_step k (has_value res) k') k.
Proof.
  intros Hk. unfold publish_policy. apply wp_validated; [by intros; apply safe_refl|]. intros _.
  apply wp_require_epoch; [by intros; apply safe_refl|]. intros _.
  apply wp_require_same_epoch; [by intros; apply safe_refl|]. intros _.
  apply wp_bind, wp_get, wp_publish; [by intros; apply safe_refl..|]. intros Hn.
  apply wp_bind, wp_silent; [apply silent_write_policy|]. intros [[]|s] j f; [|apply quiet_safe; [done|by exists j, f]].
  apply install_enforced.
  - apply policy_replaced_wf. eapply lowered_wf; [exact Hk|]. apply quiet_lowered. by exists j, f.
  - intros res k' H. eapply safe_enforced; [| |exact H]; [progress_by|done].
Qed.

Lemma safe_publish_capacity (k : EngineCore) (s : CapacitySnapshot) :
  engine_wf k -> Forall (fun e => u64 (rc_usable e)) (cs_resources s) ->
  wp (publish_capacity s) (fun res k' => safe_step k (has_value res) k') k.
Proof.
  intros Hk Hu. eapply wp_mono; [by apply publish_capacity_spec|].
  intros r k' [m _|_|res k1 _ _ _ H]; [by apply safe_refl..|].
  eapply safe_enforced; [| |exact H]; [progress_by|done].
Qed.

Lemma safe_publish_reservations (k : EngineCore) (s : ReservationSnapshot) :
  engine_wf k -> Forall (fun o => u64 (po_reserved o)) (rs_obligations s) ->
  wp (publish_reservations s) (fun res k' => safe_step k (has_value res) k') k.
Proof.
  intros Hk Hu. unfold publish_reservations. apply wp_validated; [by intros; apply safe_refl|].
  intros Hv. apply validate_reservations_spec in Hv as Hwf; [|done..].
  apply wp_require_epoch; [by intros; apply safe_refl|]. intros _.
  apply wp_bind, wp_get, wp_publish; [by intros; apply safe_refl..|]. intros Hn.
  apply install_enforced; [by apply reservations_replaced_wf|].
  intros res k' H. eapply safe_enforced; [| |exact H]; [progress_by|done].
Qed.

Lemma safe_publish_paths (k : EngineCore) (c : PathCatalog) :
  engine_wf k -> Forall (fun f => u64 (pf_path_usable_capacity f)) (pc_paths c) ->
  wp (publish_paths c) (fun _ k' => safe_step k true k') k.
Proof.
  intros Hk Hu. unfold publish_paths. apply wp_validated; [by intros; apply safe_refl|].
  intros Hv%validate_paths_spec. apply wp_require_epoch; [by intros; apply safe_refl|]. intros _.
  apply wp_bind, wp_get, wp_publish; [by intros; apply safe_refl..|]. intros Hn.
  apply wp_modify, safe_replaced; [by apply paths_replaced_wf|progress_by|done..].
Qed.

Lemma safe_publish_qos (k : EngineCore) (c : QoSClassCatalog) :
  engine_wf k -> wp (publish_qos_catalog c) (fun _ k' => safe_step k true k') k.
Proof.
  intros Hk. unfold publish_qos_catalog. apply wp_validated; [by intros; apply safe_refl|].
  intros _. apply wp_require_epoch; [by intros; apply safe_refl|]. intros _.
  apply wp_bind, wp_get, wp_publish; [by intros; apply safe_refl..|]. intros Hn.
  apply wp_modify, safe_replaced; [|progress_by|done..].
  apply (inputs_replaced_wf k); try done. destruct (ew_inputs k Hk). by constructor.
Qed.

Lemma safe_publish_priorities (k : EngineCore) (c : PriorityClassCatalog) :
  engine_wf k -> wp (publish_priority_catalog c) (fun _ k' => safe_step k true k') k.
Proof.
  intros Hk. unfold publish_priority_catalog. apply wp_validated; [by intros; apply safe_refl|].
  intros _. apply wp_require_epoch; [by intros; apply safe_refl|]. intros _.
  apply wp_bind, wp_get, wp_publish; [by intros; apply safe_refl..|]. intros Hn.
  apply wp_modify, safe_replaced; [|progress_by|done..].
  apply (inputs_replaced_wf k); try done. destruct (ew_inputs k Hk). by constructor.
Qed.

Lemma safe_invalidate_capacity (k : EngineCore) :
  engine_wf k -> safe_step k true (k <| ek_capacity := None |>).
Proof.
  intros Hk. constructor; [|progress_by|by intros _ _ H|by apply grants_same].
  apply (inputs_replaced_wf k); try done. destruct (ew_inputs k Hk). by constructor.
Qed.
Lemma safe_invalidate_paths (k : EngineCore) :
  engine_wf k -> safe_step k true (k <| ek_paths := None |>).
Proof.
  intros Hk. apply safe_replaced; [|progress_by|done..].
  apply (inputs_replaced_wf k); try done. destruct (ew_inputs k Hk). by constructor.
Qed.

(** Sessions, time and incarnations are read neither by the invariant nor by the accounting. *)
Lemma safe_context (k : EngineCore) (e : FabricEpoch) (i : CoordinatorIncarnation) (t : N)
    (s : gmap N SessionRecord) (n : N) :
  engine_wf k -> ek_epoch k <= e -> ek_tick k <= t ->
  safe_step k true (k <| ek_epoch := e |> <| ek_incarnation := i |> <| ek_tick := t |>
                      <| ek_sessions := s |> <| ek_next_session_nonce := n |>).
Proof.
  intros Hk He Ht. apply safe_replaced; [|constructor; cbn; try lia; apply advances_refl|done..].
  apply (inputs_replaced_wf k); try done. destruct (ew_inputs k Hk). by constructor.
Qed.

Lemma safe_sessions (k : EngineCore) (s : gmap N SessionRecord) (n : N) :
  engine_wf k -> safe_step k true (k <| ek_next_session_nonce := n |> <| ek_sessions := s |>).
Proof.
  intros Hk. pose proof (safe_context k (ek_epoch k) (ek_incarnation k) (ek_tick k) s n Hk) as H.
  replace (k <| ek_next_session_nonce := n |> <| ek_sessions := s |>) with
    (k <| ek_epoch := ek_epoch k |> <| ek_incarnation := ek_incarnation k |> <| ek_tick := ek_tick k |>
       <| ek_sessions := s |> <| ek_next_session_nonce := n |>) by (by destruct k).
  apply H; lia.
Qed.

Lemma safe_register (k : EngineCore) (p : PublisherId) (b : BootId) :
  engine_wf k -> wp (register_session p b) (fun _ k' => safe_step k true k') k.
Proof.
  intros Hk. unfold register_session. apply wp_bind, wp_get, wp_validated; [by intros; apply safe_refl|].
  intros _. apply wp_require_epoch; [by intros; apply safe_refl|]. intros _.
  apply wp_validated; [by intros; apply safe_refl|]. intros _.
  apply wp_bind, wp_modify, wp_ret. by apply safe_sessions.
Qed.

Lemma safe_retire (k : EngineCore) (n : SessionNonce) :
  engine_wf k -> wp (retire_session n) (fun _ k' => safe_step k true k') k.
Proof.
  intros Hk. unfold retire_session. apply wp_bind, wp_get. destruct (_ !! n); [|by apply safe_refl].
  apply wp_modify. pose proof (safe_sessions k (delete n (ek_sessions k)) (ek_next_session_nonce k) Hk) as H.
  by replace (k <| ek_next_session_nonce := ek_next_session_nonce k |> <| ek_sessions := delete n (ek_sessions k) |>)
    with (k <| ek_sessions := delete n (ek_sessions k) |>) in H by (by destruct k).
Qed.

Lemma safe_incarnation (k : EngineCore) (i : CoordinatorIncarnation) :
  engine_wf k -> u64 (ek_epoch k) -> wp (begin_new_incarnation i) (fun _ k' => safe_step k true k') k.
Proof.
  intros Hk Hu. unfold begin_new_incarnation. apply wp_bind, wp_get.
  destruct (epoch_well_formed (ek_epoch k +w 1)) eqn:He; cbn [negb]; [|by apply safe_refl].
  assert (Hle : ek_epoch k <= ek_epoch k +w 1).
  { unfold epoch_well_formed, unknown_epoch in He. apply negb_true_iff, N.eqb_neq in He.
    unfold u64, w_add, wrap64, two64 in *.
    destruct (N.eq_dec (ek_epoch k + 1) 18446744073709551616) as [E|]; [by rewrite E in He|].
    rewrite N.mod_small by lia. lia. }
  apply wp_bind, wp_modify, wp_silent; [exact silent_write_boot|]. intros r j f.
  pose proof (safe_context k (ek_epoch k +w 1) i (ek_tick k) ∅ 1 Hk Hle) as H.
  replace (k <| ek_epoch := ek_epoch k +w 1 |> <| ek_incarnation := i |> <| ek_tick := ek_tick k |>
             <| ek_sessions := ∅ |> <| ek_next_session_nonce := 1 |>)
    with (k <| ek_epoch := ek_epoch k +w 1 |> <| ek_incarnation := i |>
            <| ek_sessions := ∅ |> <| ek_next_session_nonce := 1 |>) in H by (by destruct k).
  destruct H as [Hw Hp Ha _]; [lia|].
  match goal with |- safe_step _ _ (?k1 <| ek_journal := _ |> <| ek_faults := _ |>) =>
    destruct (quiet_safe k1 (k1 <| ek_journal := j |> <| ek_faults := f |>) true Hw) as [Hw' Hp' Ha' _];
      [by exists j, f|] end.
  constructor; [done|by etrans|auto|by apply grants_same].
Qed.

Lemma safe_tick (k : EngineCore) (t : N) :
  engine_wf k -> u64 (ek_tick k) -> u64 t -> safe_step k true (k <| ek_tick := sat_add (ek_tick k) t |>).
Proof.
  intros Hk Hu Ht. pose proof (safe_context k (ek_epoch k) (ek_incarnation k) (sat_add (ek_tick k) t)
    (ek_sessions k) (ek_next_session_nonce k) Hk) as H.
  replace (k <| ek_epoch := ek_epoch k |> <| ek_incarnation := ek_incarnation k |>
             <| ek_tick := sat_add (ek_tick k) t |> <| ek_sessions := ek_sessions k |>
             <| ek_next_session_nonce := ek_next_session_nonce k |>)
    with (k <| ek_tick := sat_add (ek_tick k) t |>) in H by (by destruct k).
  apply H; [lia|]. rewrite sat_add_spec by done. unfold u64, two64, u64_max in *. lia.
Qed.

(** ** Runs

    A step is one public call; its flag says whether a publication that enforces the
    accounting reported success.  The premises bound the inputs to the widths of
    their C++ types and keep the sequences from wrapping around. *)

Inductive engine_step : EngineCore -> bool -> EngineCore -> Prop :=
  | step_admit request claim k :
      sequences_left k -> engine_step k true (admit_locked request claim k).2
  | step_revalidate d k : engine_step k true (revalidate_locked d k).2
  | step_revoke d reason k : engine_step k true (revoke_locked d reason k).2
  | step_publish_policy p k :
      engine_step k (has_value (publish_policy p k).1) (publish_policy p k).2
  | step_publish_capacity s k :
      Forall (fun e => u64 (rc_usable e)) (cs_resources s) ->
      engine_step k (has_value (publish_capacity s k).1) (publish_capacity s k).2
  | step_publish_reservations s k :
      Forall (fun o => u64 (po_reserved o)) (rs_obligations s) ->
      engine_step k (has_value (publish_reservations s k).1) (publish_reservations s k).2
  | step_publish_paths c k :
      Forall (fun f => u64 (pf_path_usable_capacity f)) (pc_paths c) ->
      engine_step k true (publish_paths c k).2
  | step_publish_qos c k : engine_step k true (publish_qos_catalog c k).2
  | step_publish_priorities c k : engine_step k true (publish_priority_catalog c k).2
  | step_invalidate_capacity k : engine_step k true (invalidate_capacity k).2
  | step_invalidate_paths k : engine_step k true (invalidate_paths k).2
  | step_register p b k : engine_step k true (register_session p b k).2
  | step_retire n k : engine_step k true (retire_session n k).2
  | step_incarnation i k : u64 (ek_epoch k) -> engine_step k true (begin_new_incarnation i k).2
  | step_tick t k : u64 (ek_tick k) -> u64 t -> engine_step k true (advance_tick t k).2
  | step_attach j k : engine_step k true (attach_journal j k).2
  | step_compact k : engine_step k true (compact_journal k).2
  | step_faults f k : engine_step k true (set_fault_injection f k).2.

Lemma engine_step_safe (k k' : EngineCore) (ok : bool) :
  engine_step k ok k' -> engine_wf k -> safe_step k ok k'.
Proof.
  destruct 1 as [request claim k Hs|d k|d reason k|p k|s k Hu|s k Hu|c k Hu|c k|c k|k|k|p b k|n k|i k Hu
                |t k Hu Ht|j k|k|f k]; intros Hk.
  - by apply safe_admit.
  - apply safe_lowered; [done|]. by apply lowers_revalidate.
  - apply safe_lowered; [done|]. by apply lowers_revoke.
  - exact (safe_publish_policy k p Hk).
  - exact (safe_publish_capacity k s Hk Hu).
  - exact (safe_publish_reservations k s Hk Hu).
  - exact (safe_publish_paths k c Hk Hu).
  - exact (safe_publish_qos k c Hk).
  - exact (safe_publish_priorities k c Hk).
  - exact (safe_invalidate_capacity k Hk).
  - exact (safe_invalidate_paths k Hk).
  - exact (safe_register k p b Hk).
  - exact (safe_retire k n Hk).
  - exact (safe_incarnation k i Hk Hu).
  - exact (safe_tick k t Hk Hu Ht).
  - unfold attach_journal, mbind, M_bind, get, modify. cbv beta iota.
    destruct (ek_journal_ready k); [by apply safe_refl|apply quiet_safe, quiet_journal; done].
  - apply quiet_safe; [done|]. exact (silent_compact k).
  - apply quiet_safe; [done|]. apply quiet_faults.
Qed.

(** One call, whatever it reported. *)
Definition call (k k' : EngineCore) : Prop := exists ok, engine_step k ok k'.
(** One call that did not leave an enforcement half done. *)
Definition clean_call (k k' : EngineCore) : Prop := engine_step k true k'.

Lemma run_safe (k k' : EngineCore) : rtc call k k' -> engine_wf k -> engine_wf k' /\ progress k k'.
Proof.
  induction 1 as [k|k k1 k2 [ok Hs] _ IH]; intros Hk; [by split|].
  destruct (engine_step_safe _ _ _ Hs Hk) as [Hk1 Hp _ _]. destruct (IH Hk1). split; [done|by etrans].
Qed.

Lemma clean_run_safe (k k' : EngineCore) :
  rtc clean_call k k' -> engine_wf k -> accounted k -> engine_wf k' /\ accounted k'.
Proof.
  induction 1 as [k|k k1 k2 Hs _ IH]; intros Hk Ha; [done|].
  destruct (engine_step_safe _ _ _ Hs Hk) as [Hk1 _ Hacc _]. auto.
Qed.

Lemma new_engine_wf (config : EngineConfig) : engine_wf (AdmissionEngine_new config).
Proof.
  constructor.
  - by constructor.
  - exact ledger_new_wf.
  - apply history_new_wf.
  - done.
  - intros d r Hr. unfold history_find in Hr. cbn in Hr. by rewrite lookup_empty in Hr.
  - done.
  - intros d Hd. apply holds_iff in Hd as [es Hes]. cbn in Hes. by rewrite lookup_empty in Hes.
Qed.

(** ** Properties of every run *)


(** A sample run: a first engine is told the authorities, admits, and is fenced off. *)
Definition sample_run : EngineCore := (begin_new_incarnation 4 granted_engine).2.

Lemma sample_sequences : sequences_left sample_engine.
Proof. split; reflexivity. Qed.

Lemma granted_engine_step : clean_call sample_engine granted_engine.
Proof. exact (step_admit (sample_request 1 3) in_process sample_engine sample_sequences). Qed.

Lemma sample_run_calls : rtc clean_call sample_engine sample_run.
Proof.
  apply (rtc_l clean_call sample_engine granted_engine sample_run granted_engine_step), rtc_once.
  exact (step_incarnation 4 granted_engine ltac:(by vm_compute)).
Qed.

Lemma clean_calls (k k' : EngineCore) : rtc clean_call k k' -> rtc call k k'.
Proof.
  induction 1 as [k|k k1 k2 H _ IH]; [apply rtc_refl|]. eapply rtc_l; [|exact IH]. exists true. exact H.
Qed.

Lemma sample_run_steps : rtc call sample_engine sample_run.
Proof. exact (clean_calls _ _ sample_run_calls). Qed.



(** The calls that bring a fresh engine to a first grant. *)
Definition sample_qos : QoSClassCatalog := mkQoSClassCatalog 1 1 0 [mkQoSClassFact 1 1 0 1000 1000 true].
Definition sample_priorities : PriorityClassCatalog :=
  mkPriorityClassCatalog 1 1 0 [mkPriorityClassFact 1 1 1 false].
Definition engine0 : EngineCore := AdmissionEngine_new EngineConfig_new.
Definition engine1 : EngineCore := (publish_policy sample_policy engine0).2.
Definition engine2 : EngineCore := (publish_capacity sample_capacity engine1).2.
Definition engine3 : EngineCore := (publish_reservations sample_reservations engine2).2.
Definition engine4 : EngineCore := (publish_qos_catalog sample_qos engine3).2.
Definition engine5 : EngineCore := (publish_priority_catalog sample_priorities engine4).2.
Definition serving_engine : EngineCore := (admit_locked (sample_request 1 3) in_process engine5).2.

Lemma clean_when (k k' : EngineCore) (ok : bool) : ok = true -> engine_step k ok k' -> clean_call k k'.
Proof. by intros ->. Qed.

Lemma serving_engine_calls : rtc clean_call engine0 serving_engine.
Proof.
  apply (rtc_l clean_call engine0 engine1).
  { exact (clean_when _ _ _ ltac:(by vm_compute) (step_publish_policy sample_policy engine0)). }
  apply (rtc_l clean_call engine1 engine2).
  { exact (clean_when _ _ _ ltac:(by vm_compute)
      (step_publish_capacity sample_capacity engine1 ltac:(by repeat constructor))). }
  apply (rtc_l clean_call engine2 engine3).
  { exact (clean_when _ _ _ ltac:(by vm_compute)
      (step_publish_reservations sample_reservations engine2 ltac:(by repeat constructor))). }
  apply (rtc_l clean_call engine3 engine4); [exact (step_publish_qos sample_qos engine3)|].
  apply (rtc_l clean_call engine4 engine5); [exact (step_publish_priorities sample_priorities engine4)|].
  apply rtc_once. exact (step_admit (sample_request 1 3) in_process engine5 ltac:(by vm_compute)).
Qed.



