(* ===== verification/Broker.v ===== *)
(** * The load broker: an abstract specification of the engine

    What the coordinator promises, without how it does it: a broker that knows which
    grants stand, how much each resource may carry, and which identities are used up.
    It may leave things as they are, add one grant that fits, or change the authority
    and withdraw what no longer fits.  The engine refines it. *)

From S2P Require Import Prelude.
From S2P Require Import Checked.
From S2P Require Import Identity.
From S2P Require Import Hash.
From S2P Require Import State.
From S2P Require Import Policy.
From S2P Require Import Request.
From S2P Require Import Authority.
From S2P Require Import Decision.
From S2P Require Import Ledger.
From S2P Require Import History.
From S2P Require Import Bytes.
From S2P Require Import Records.
From S2P Require Import Journal.
From S2P Require Import Engine.
From S2P Require Import Recovery.
From S2P Require Import Admission.
From S2P Require Import Capacity.
From S2P Require Import Frames.
From S2P Require Import Grant.
From S2P Require Import Safety.
From S2P Require Import Api.
From S2P Require Import Enforce.
From S2P Require Import Reach.
Local Open Scope N_scope.
Local Open Scope naf_scope.

(** ** The specification *)

Record Broker := mkBroker {
  br_grants : gmap N (list (ResourceId * Rate));
  (** What a resource may carry: nothing is known before capacity is published, and
      nothing may be granted on a resource without a bound. *)
  br_bounds : option (ResourceId -> option Rate);
  br_next : N;
}.

(** The load the grants put on a resource. *)
Definition demand (grants : gmap N (list (ResourceId * Rate))) (r : ResourceId) : N :=
  map_sum (fun _ amounts => amount_of r amounts) grants.

Definition within_bounds (grants : gmap N (list (ResourceId * Rate))) (bounds : option (ResourceId -> option Rate)) : Prop :=
  forall f, bounds = Some f -> forall r, demand grants r = 0 \/ exists b, f r = Some b /\ demand grants r <= b.

Definition broker_new : Broker := mkBroker ∅ None 1.

Inductive broker_step : Broker -> Broker -> Prop :=
  (** Grants are kept or withdrawn, whatever becomes of the authority; what remains fits. *)
  | broker_adjust s grants bounds next :
      grants ⊆ br_grants s -> within_bounds grants bounds -> br_next s <= next ->
      broker_step s (mkBroker grants bounds next)
  (** One grant is added under the authority there is, with a fresh identity. *)
  | broker_grant s d amounts bounds next :
      br_next s <= d -> d < next -> amounts <> [] -> br_bounds s = Some bounds ->
      within_bounds (<[d := amounts]> (br_grants s)) (Some bounds) ->
      broker_step s (mkBroker (<[d := amounts]> (br_grants s)) (Some bounds) next).

(** ** What the specification guarantees *)

(** Grants fit their bounds and were issued before the next identity. *)
Record broker_ok (s : Broker) : Prop := {
  bo_bounded : within_bounds (br_grants s) (br_bounds s);
  bo_used : forall d, is_Some (br_grants s !! d) -> d < br_next s;
}.

Lemma broker_step_ok (s s' : Broker) : broker_step s s' -> broker_ok s -> broker_ok s'.
Proof.
  intros [s0 grants bounds next Hg Hb Hn|s0 d amounts bounds next Hd Hd' _ _ Hb] [_ Hu]; constructor; cbn; try done.
  - intros d [a Ha]. assert (d < br_next s0); [|lia]. apply Hu. exists a. by eapply lookup_weaken.
  - intros d' [a Ha]. apply lookup_insert_Some in Ha as [[<- _]|[_ Ha]]; [done|].
    assert (d' < br_next s0); [apply Hu; by exists a|lia].
Qed.

(** A grant never changes, and one that is gone, or an identity passed over, never
    comes back. *)
Definition settled_history (s s' : Broker) : Prop :=
  br_next s <= br_next s' /\
  forall d, d < br_next s -> br_grants s' !! d = None \/ br_grants s' !! d = br_grants s !! d.

#[export] Instance settled_refl : Reflexive settled_history.
Proof. intros s. split; [lia|]. by right. Qed.
#[export] Instance settled_trans : Transitive settled_history.
Proof.
  intros s1 s2 s3 [N1 H1] [N2 H2]. split; [lia|]. intros d Hd.
  destruct (H2 d) as [E|E]; [lia|by left|]. rewrite E. by apply H1.
Qed.

Lemma broker_step_settled (s s' : Broker) : broker_step s s' -> settled_history s s'.
Proof.
  intros [s0 grants bounds next Hg _ Hn|s0 d amounts bounds next Hd Hd' _ _ _]; split; cbn; try lia.
  - intros d _. destruct (grants !! d) as [a|] eqn:E; [right|by left]. symmetry. by eapply lookup_weaken.
  - intros d' Hlt. right. rewrite lookup_insert_ne by lia. done.
Qed.

Lemma broker_run_settled (s s' : Broker) : rtc broker_step s s' -> settled_history s s'.
Proof. induction 1 as [s|s s1 s' Hs _ IH]; [done|]. etrans; [by apply broker_step_settled|done]. Qed.

Lemma broker_run_ok (s s' : Broker) : rtc broker_step s s' -> broker_ok s -> broker_ok s'.
Proof. induction 1 as [s|s s1 s' Hs _ IH]; [done|]. intros Hok. by eapply IH, broker_step_ok. Qed.

(** ** The engine as a broker *)

(** What the published authority lets a resource carry. *)
Definition carrying_bound (k : EngineCore) (r : ResourceId) : option Rate :=
  cap ← find_capacity k r;
  if bool_decide (rc_evidence cap = EvidenceKnown) then Some (allowance_of k r cap) else None.

Definition broker_of (k : EngineCore) : Broker :=
  mkBroker (grants_of (ek_ledger k)) (match ek_capacity k with Some _ => Some (carrying_bound k) | None => None end)
    (ek_next_decision_sequence k).

Lemma demand_admitted (l : AdmittedLoadLedger) (r : ResourceId) :
  ledger_wf l -> demand (grants_of l) r = admitted l r.
Proof.
  intros Hl. rewrite (lwf_totals l Hl), (all_entries_sum (load r)) by (done || (intros; apply load_app)).
  apply map_sum_ext. intros d. unfold grants_of. rewrite lookup_fmap. by destruct (lg_by_decision l !! d).
Qed.

Lemma accounted_bounded (k : EngineCore) :
  engine_wf k -> accounted k -> within_bounds (br_grants (broker_of k)) (br_bounds (broker_of k)).
Proof.
  intros Hk Ha f Hf r. cbn in *. rewrite demand_admitted by apply Hk.
  destruct (ek_capacity k) as [c|] eqn:E; [|done]. injection Hf as <-.
  destruct (accounted_within k (ew_ledger k Hk) Ha ltac:(by rewrite E) r) as [|(cap & Hc & He & Hle)]; [by left|right].
  exists (allowance_of k r cap). split; [|done]. unfold carrying_bound. rewrite Hc. cbn. by rewrite bool_decide_true.
Qed.

Lemma same_bounds (k k' : EngineCore) : same_inputs k k' -> br_bounds (broker_of k') = br_bounds (broker_of k).
Proof.
  intros []. destruct k, k'. cbn in *. by subst.
Qed.

(** Every call that ends well is a step of the broker. *)
Lemma step_refines (k k' : EngineCore) :
  engine_wf k -> accounted k -> clean_call k k' -> broker_step (broker_of k) (broker_of k').
Proof.
  intros Hk Ha Hs. destruct (engine_step_safe _ _ _ Hs Hk) as [Hk' Hp Hacc Hg]. specialize (Hacc eq_refl Ha).
  pose proof (accounted_bounded k' Hk' Hacc) as Hb. destruct Hg as [Hg|d amounts Hd Hd' Hin Hc Hne Hg].
  - apply (broker_adjust (broker_of k) (grants_of (ek_ledger k'))); [done|exact Hb|apply Hp].
  - pose proof (same_bounds k k' Hin) as Eb. unfold broker_of at 2. unfold broker_of in Hb, Eb. cbn in Hb, Eb.
    rewrite Hg, Eb in *. destruct (ek_capacity k) as [c|] eqn:E; [|done].
    apply (broker_grant (broker_of k)); cbn; try done. by rewrite E.
Qed.

(** ** Runs *)

Lemma run_refines (k k' : EngineCore) :
  rtc clean_call k k' -> engine_wf k -> accounted k -> rtc broker_step (broker_of k) (broker_of k').
Proof.
  induction 1 as [k|k k1 k' Hs Hr IH]; intros Hk Ha; [apply rtc_refl|].
  destruct (engine_step_safe _ _ _ Hs Hk) as [Hk1 _ Hacc _].
  eapply rtc_l; [by apply step_refines|]. apply IH; auto.
Qed.



Lemma call_settled (k k' : EngineCore) :
  engine_wf k -> call k k' -> settled_history (broker_of k) (broker_of k').
Proof.
  intros Hk [ok Hs]. destruct (engine_step_safe _ _ _ Hs Hk) as [_ Hp _ Hg].
  split; [apply Hp|]. cbn. destruct Hg as [Hg|d amounts Hd _ _ _ _ Hg]; intros d' Hlt.
  - destruct (grants_of (ek_ledger k') !! d') as [a|] eqn:E; [right|by left]. symmetry. by eapply lookup_weaken.
  - right. rewrite Hg, lookup_insert_ne by lia. done.
Qed.


(** A grant is revoked, and another one made. *)
Definition revoked_engine : EngineCore := (revoke_locked 1 OperatorRequest serving_engine).2.
Definition second_request : AdmissionRequest := (sample_request 2 3) <| rq_request := 2 |>.
Definition regranted_engine : EngineCore := (admit_locked second_request in_process revoked_engine).2.

Lemma regranted_run : rtc call revoked_engine regranted_engine.
Proof.
  apply rtc_once. exists true. apply (step_admit second_request in_process revoked_engine).
  split; vm_compute; reflexivity.
Qed.

Lemma revoked_engine_wf : engine_wf revoked_engine.
Proof.
  assert (H : rtc clean_call engine0 revoked_engine).
  { eapply rtc_r; [exact serving_engine_calls|]. exact (step_revoke 1 OperatorRequest serving_engine). }
  apply (run_safe engine0 revoked_engine); [by apply clean_calls|exact (new_engine_wf EngineConfig_new)].
Qed.

