(* ===== verification/Fencing.v ===== *)
(** * Sessions and incarnations: properties

    Which claims the engine accepts: those of a live session of this epoch and
    incarnation, and what a new incarnation does to everything issued before. *)

From S2P Require Import Prelude Checked Identity Hash State Policy Request Authority.
From S2P Require Import Decision Ledger History Bytes Records Journal Engine Admission.
From S2P Require Import Capacity Frames Grant Safety Enforce Api Reach.
Local Open Scope N_scope.
Local Open Scope naf_scope.

(** A claim that is checked as a remote one: not in process, or in-process claims are not taken. *)
Definition remote (k : EngineCore) (claim : ClaimContext) : Prop :=
  cc_origin claim <> InProcess \/ ec_accept_in_process_claims (ek_config k) = false.

Lemma remote_guard (k : EngineCore) (claim : ClaimContext) :
  remote k claim ->
  bool_decide (cc_origin claim = InProcess) && ec_accept_in_process_claims (ek_config k) = false.
Proof.
  intros [Ho|Ha]; [by rewrite bool_decide_false|]. rewrite Ha. apply andb_false_r.
Qed.

Definition fenced (k : EngineCore) (claim : ClaimContext) : Prop :=
  exists c, check_fence k claim = Some (FencedClaimant, c).

(** The claims a remote caller can pass the fence with. *)
Record live_claim (k : EngineCore) (claim : ClaimContext) : Prop := {
  lc_epoch : cc_epoch claim = ek_epoch k /\ cc_epoch claim <> 0;
  lc_incarnation : cc_incarnation claim = ek_incarnation k;
  lc_session : cc_session claim <> 0;
  lc_record : exists s, ek_sessions k !! cc_session claim = Some s /\
    sr_publisher s = cc_publisher claim /\ sr_boot s = cc_boot claim;
}.

Lemma remote_fence (k : EngineCore) (claim : ClaimContext) :
  remote k claim -> check_fence k claim = None <-> live_claim k claim.
Proof.
  intros Hr. unfold check_fence. rewrite (remote_guard k claim Hr).
  unfold refuse_when, and_then, fence, epoch_is_none, is_unknown, unknown_epoch.
  destruct (N.eqb_spec (cc_epoch claim) 0) as [E0|E0].
  { split; [done|]. intros [[] _ _ _]. congruence. }
  destruct (N.ltb_spec (cc_epoch claim) (ek_epoch k)) as [E1|E1].
  { split; [done|]. intros [[] _ _ _]. lia. }
  destruct (N.ltb_spec (ek_epoch k) (cc_epoch claim)) as [E2|E2].
  { split; [done|]. intros [[] _ _ _]. lia. }
  destruct (N.eqb_spec (cc_incarnation claim) (ek_incarnation k)) as [E3|E3]; cbn [negb].
  2: { split; [done|]. by intros []. }
  destruct (N.eqb_spec (cc_session claim) 0) as [E4|E4].
  { split; [done|]. by intros []. }
  destruct (ek_sessions k !! cc_session claim) as [s|] eqn:Es.
  2: { split; [done|]. intros [_ _ _ (s & Hs & _)]. congruence. }
  destruct (N.eqb_spec (sr_publisher s) (cc_publisher claim)) as [E5|E5]; cbn [negb orb].
  2: { split; [done|]. intros [_ _ _ (s' & Hs & ? & _)]. congruence. }
  destruct (N.eqb_spec (sr_boot s) (cc_boot claim)) as [E6|E6]; cbn [negb].
  2: { split; [done|]. intros [_ _ _ (s' & Hs & _ & ?)]. congruence. }
  split; [|done]. intros _. constructor; [split; [lia|done]|done|done|by exists s].
Qed.

Lemma remote_old_epoch (k : EngineCore) (claim : ClaimContext) :
  remote k claim -> cc_epoch claim < ek_epoch k -> fenced k claim.
Proof.
  intros Hr He. unfold fenced, check_fence. rewrite (remote_guard k claim Hr).
  unfold refuse_when, and_then, fence.
  destruct (epoch_is_none (cc_epoch claim)); [by eexists|].
  apply N.ltb_lt in He as ->. by eexists.
Qed.

(** C24: the fence lets exactly live claims through.  A remote claim passes if and only
    if it names the current fabric epoch and incarnation and a session that is live
    and was registered by the same publisher under the same boot; and after
    [admit_locked] refuses a claim that is not live, no load has been admitted. *)
Theorem fence_exact (k : EngineCore) (claim : ClaimContext) (Hr : remote k claim) :
  (check_fence k claim = None <->
    (cc_epoch claim = ek_epoch k /\ cc_epoch claim <> 0) /\
    cc_incarnation claim = ek_incarnation k /\ cc_session claim <> 0 /\
    exists s, ek_sessions k !! cc_session claim = Some s /\
      sr_publisher s = cc_publisher claim /\ sr_boot s = cc_boot claim) /\
  (engine_wf k -> ~ live_claim k claim -> forall request,
    let '(res, k') := admit_locked request claim k in
    match res with
    | Val d => is_admitting (ad_outcome d) = false /\ ek_ledger k' = ek_ledger k
    | Err _ => same_amounts (ek_ledger k) (ek_ledger k')
    end).
Proof.
  split.
  - rewrite (remote_fence k claim Hr). split; [by intros []|]. intros (? & ? & ? & ?). by constructor.
  - intros Hk Hn request. destruct (admit_locked request claim k) as [res k'] eqn:E.
    rewrite <- (remote_fence k claim Hr) in Hn.
    pose proof (admit_runs k k' request claim res Hk E) as Ha.
    destruct Ha as [b o d k0 k' Hc Ho Hi _ _ _ Hst|s k0 k' Hc Hv _|d k' Hc [_ Hf _ _]|res k' Hp Hpl].
    + rewrite (iss_outcome _ _ _ _ Hi). split; [done|]. rewrite (fil_ledger _ _ _ _ _ _ Hst).
      by destruct Hc as [c ->].
    + destruct Hc as [c ->]. exact (vo_ledger _ _ Hv).
    + by destruct Hn.
    + destruct Hn. apply (pa_fence _ _ _ Hp).
Qed.

Definition remote_claim (g : SessionGrant) : ClaimContext :=
  mkClaimContext Claimant (sg_publisher g) (sg_boot g) (sg_session g) (sg_incarnation g) (sg_epoch g) 1 0 0.

Lemma fence_exact_witness :
  let claim := mkClaimContext Claimant 7 3 1 0 1 1 0 0 in
  remote sample_engine claim /\ check_fence sample_engine claim <> None.
Proof.
  cbv zeta. set (claim := mkClaimContext Claimant 7 3 1 0 1 1 0 0).
  assert (Hr : remote sample_engine claim) by (by left).
  split; [exact Hr|]. intros H. apply (fence_exact sample_engine claim Hr) in H as (_ & _ & _ & s & Hs & _).
  vm_compute in Hs. discriminate Hs.
Defined.

(** A session authorizes its own publisher until it ends.  When [register_session]
    succeeds on a nonce not in use, a claim made from the grant passes the fence, a
    claim under that session by any other publisher or boot does not, every other
    session is as it was, and after [retire_session] the claim is fenced. *)
Theorem session_lifecycle (k k1 : EngineCore) (publisher : PublisherId) (boot : BootId)
    (grant : SessionGrant) (Hfresh : ek_sessions k !! ek_next_session_nonce k = None)
    (Hnonce : ek_next_session_nonce k <> 0)
    (Hrun : register_session publisher boot k = (Val grant, k1)) :
  check_fence k1 (remote_claim grant) = None /\
  (forall claim, remote k1 claim -> cc_session claim = sg_session grant ->
     (cc_publisher claim <> publisher \/ cc_boot claim <> boot) -> check_fence k1 claim <> None) /\
  (forall n, n <> sg_session grant -> ek_sessions k1 !! n = ek_sessions k !! n) /\
  exists k2, retire_session (sg_session grant) k1 = (Val tt, k2) /\ fenced k2 (remote_claim grant).
Proof.
  unfold register_session, require_epoch, mbind, M_bind, get, lift, modify in Hrun. cbv beta iota in Hrun.
  destruct (refuse_if (_ || _) _) as [[]|]; [|done].
  destruct (epoch_is_none (ek_epoch k)) eqn:He; cbn [refuse_if] in Hrun; [done|].
  destruct (refuse_if _ _) as [[]|]; [|done]. rewrite Hfresh in Hrun. injection Hrun as <- <-.
  set (k1 := k <| ek_next_session_nonce := _ |> <| ek_sessions := _ |>).
  set (n := ek_next_session_nonce k) in *. set (record := mkSessionRecord n publisher boot).
  assert (Hs : ek_sessions k1 = <[n := record]> (ek_sessions k)) by reflexivity.
  assert (Hn : epoch_is_none (ek_epoch k) = (ek_epoch k =? 0)) by reflexivity.
  rewrite Hn in He. apply N.eqb_neq in He.
  split_and!.
  - apply remote_fence; [by left|]. constructor; [by split|done|done|].
    exists record. split; [|done]. rewrite Hs. apply lookup_insert_eq.
  - intros claim Hr Hc Hne. rewrite (remote_fence k1 claim Hr). intros [_ _ _ (s & Hl & Hp & Hb)].
    rewrite Hc, Hs in Hl. cbn [sg_session] in Hl. rewrite lookup_insert_eq in Hl. injection Hl as <-.
    cbn in Hp, Hb. destruct Hne; congruence.
  - intros m Hm. rewrite Hs. by rewrite lookup_insert_ne.
  - exists (k1 <| ek_sessions := delete n (ek_sessions k1) |>). split.
    + unfold retire_session, mbind, M_bind, get. cbv beta iota. cbn [sg_session].
      rewrite Hs, lookup_insert_eq. by rewrite <- Hs.
    + unfold fenced, check_fence, remote_claim. cbn [cc_origin]. rewrite bool_decide_false by done.
      cbn [andb cc_epoch cc_incarnation cc_session sg_epoch sg_incarnation sg_session].
      unfold refuse_when, and_then, fence.
      change (ek_epoch (k1 <| ek_sessions := _ |>)) with (ek_epoch k).
      change (ek_incarnation (k1 <| ek_sessions := _ |>)) with (ek_incarnation k).
      rewrite Hn, (proj2 (N.eqb_neq _ _) He), N.ltb_irrefl, N.eqb_refl. cbn [negb].
      unfold is_unknown. rewrite (proj2 (N.eqb_neq n 0) Hnonce).
      change (ek_sessions (k1 <| ek_sessions := delete n (ek_sessions k1) |>))
        with (delete n (ek_sessions k1)). rewrite lookup_delete_eq. by eexists.
Qed.

Definition session_run : Expected SessionGrant * EngineCore := register_session 7 3 sample_engine.
Definition session_grant : SessionGrant := mkSessionGrant 1 0 1 7 3.

Lemma session_lifecycle_witness :
  session_run.1 = Val session_grant /\ check_fence session_run.2 (remote_claim session_grant) = None.
Proof.
  assert (Hv : session_run.1 = Val session_grant) by (by vm_compute).
  split; [exact Hv|].
  apply (session_lifecycle sample_engine session_run.2 7 3 session_grant); [done|done|].
  exact (unit_run session_run session_grant Hv).
Defined.


