(* ===== verification/Restart.v ===== *)
(** * Recovery: properties

    What a restart brings back: exactly the load of committed, unreleased grants,
    flagged until authority is republished. *)

From S2P Require Import Prelude Checked Identity Hash State Policy Request Authority.
From S2P Require Import Decision.
From S2P Require Import Ledger History Bytes Records Journal Engine Log Recovery Admission.
From S2P Require Import Capacity.
From S2P Require Import Frames Grant Safety Enforce Api Reach.
Local Open Scope N_scope.
Local Open Scope naf_scope.

(** ** The log, applied *)

Definition apply_log (r : LogRecord) (lc : Replay) (k : EngineCore) : FrameResult :=
  match r with
  | LogBoot b => replay_boot lc k b
  | LogPolicy p => replay_policy lc k p
  | LogPrepare s p => replay_prepare s lc k p
  | LogCommit r => replay_commit lc k r
  | LogRefused r => replay_refused lc k r
  | LogRelease r => replay_release lc k r
  | LogRevocation r => replay_revocation lc k r
  | LogMark m => replay_mark lc k m
  | LogIgnored => FrameApplied lc k
  end.

Lemma replay_frame_log (f : JournalFrame) (lc : Replay) (k : EngineCore) :
  replay_frame f lc k = on_decoded (read_log f) (fun r => apply_log r lc k).
Proof.
  unfold replay_frame, read_log, on_decoded.
  destruct (jf_kind f); try reflexivity;
    match goal with |- context [match ?d with Val _ => _ | Err _ => _ end] => by destruct d end.
Qed.

Fixpoint apply_all (rs : list LogRecord) (lc : Replay) (k : EngineCore) : option (Replay * EngineCore) :=
  match rs with
  | [] => Some (lc, k)
  | r :: rs' =>
      match apply_log r lc k with
      | FrameApplied lc k => apply_all rs' (lc <| rp_replayed := rp_replayed lc + 1 |>) k
      | FrameRefused _ _ => None
      end
  end.

(** A replay that refuses nothing has read every frame. *)
Lemma replay_frames_log (frames : list JournalFrame) (lc lc' : Replay) (k k' : EngineCore) :
  replay_frames frames lc k = (None, (lc', k')) <->
  exists rs, read_all frames rs /\ apply_all rs lc k = Some (lc', k').
Proof.
  revert lc k. induction frames as [|f frames IH]; intros lc k; cbn [replay_frames].
  - split.
    + intros [= <- <-]. exists []. split; [constructor|done].
    + intros (rs & Hr & Ha). inversion Hr; subst. cbn in Ha. by injection Ha as <- <-.
  - rewrite replay_frame_log. unfold on_decoded. destruct (read_log f) as [r|s] eqn:Ef.
    + destruct (apply_log r lc k) as [lc1 k1|s c] eqn:Er.
      * rewrite IH. split.
        -- intros (rs & Hr & Ha). exists (r :: rs). split; [by constructor|]. cbn. by rewrite Er.
        -- intros (rs & Hr & Ha). inversion Hr as [|? r' ? rs' E Hrs]; subst.
           assert (r' = r) as -> by congruence. cbn in Ha. rewrite Er in Ha. by exists rs'.
      * split; [done|]. intros (rs & Hr & Ha). inversion Hr as [|? r' ? rs' E Hrs]; subst.
        assert (r' = r) as -> by congruence. cbn in Ha. by rewrite Er in Ha.
    + split; [done|]. intros (rs & Hr & _). inversion Hr; subst. congruence.
Qed.

(** ** What the log says about a decision *)

(** The last word on [d]: the outcome and state its record ends with. *)
Definition last_word (d : AdmissionDecisionId) (acc : option (AdmissionOutcome * RevalidationState))
    (r : LogRecord) : option (AdmissionOutcome * RevalidationState) :=
  match r with
  | LogCommit x | LogRefused x =>
      if dr_decision x =? d then Some (dr_outcome x, dr_state x) else acc
  | LogRevocation v =>
      if rvr_decision v =? d then (fun w => (w.1, rvr_state v)) <$> acc else acc
  | _ => acc
  end.
Definition word_on (d : AdmissionDecisionId) (rs : list LogRecord) := foldl (last_word d) None rs.

Definition released_in (d : AdmissionDecisionId) (rs : list LogRecord) : Prop :=
  exists r, LogRelease r ∈ rs /\ rl_decision r = d.
Definition committed_in (d : AdmissionDecisionId) (rs : list LogRecord) : Prop :=
  exists r, LogCommit r ∈ rs /\ dr_decision r = d.
Definition prepared_in (d : AdmissionDecisionId) (p : PrepareRecord) (rs : list LogRecord) : Prop :=
  exists s, LogPrepare s p ∈ rs /\ pr_decision p = d.

(** The grant of [d] stands at the end of the log. *)
Definition stands_in_log (d : AdmissionDecisionId) (rs : list LogRecord) : Prop :=
  (exists o s, word_on d rs = Some (o, s) /\ is_admitting o = true /\ s <> RS_Revoked /\ s <> RS_Expired) /\
  ~ released_in d rs.

(** The state of the loop after the records [rs]. *)
Record replayed_log (rs : list LogRecord) (lc : Replay) (k : EngineCore) : Prop := {
  rl_pending_in : forall d p s, rp_pending lc !! d = Some (p, s) -> LogPrepare s p ∈ rs /\ pr_decision p = d;
  rl_committed_in : forall d p, rp_committed lc !! d = Some p -> prepared_in d p rs /\ committed_in d rs;
  rl_committed_all : forall r, LogCommit r ∈ rs -> is_admitting (dr_outcome r) = true ->
    is_Some (rp_committed lc !! dr_decision r);
  rl_released_in : forall d, d ∈ rp_released_ids lc <-> released_in d rs;
  rl_word : forall d, d <> 0 ->
    (fun r => (dr_outcome r, dr_state r)) <$> history_find d (ek_history k) = word_on d rs;
}.

Lemma elem_of_snoc {A} (x y : A) (l : list A) : x ∈ l ++ [y] <-> x ∈ l \/ x = y.
Proof. by rewrite elem_of_app, list_elem_of_singleton. Qed.

Lemma word_snoc (d : AdmissionDecisionId) (rs : list LogRecord) (r : LogRecord) :
  word_on d (rs ++ [r]) = last_word d (word_on d rs) r.
Proof. unfold word_on. by rewrite foldl_app. Qed.

Lemma insert_word (d : AdmissionDecisionId) (x r : DecisionRecord) (h : DecisionHistory) :
  d <> 0 -> dr_decision r = dr_decision x -> dr_outcome r = dr_outcome x -> dr_state r = dr_state x ->
  (fun r => (dr_outcome r, dr_state r)) <$> history_find d (history_insert r h) =
    if dr_decision x =? d then Some (dr_outcome x, dr_state x)
    else (fun r => (dr_outcome r, dr_state r)) <$> history_find d h.
Proof.
  intros Hd Ed Eo Es. destruct (decide (dr_decision r = 0)) as [E0|E0].
  - unfold history_insert, is_unknown. rewrite E0. cbn. rewrite <- Ed, E0.
    by rewrite (proj2 (N.eqb_neq 0 d)) by congruence.
  - rewrite insert_find by done. rewrite <- Ed, <- Eo, <- Es.
    destruct (N.eqb_spec (dr_decision r) d) as [E|E].
    + by rewrite decide_True by done.
    + by rewrite decide_False by congruence.
Qed.

(** The log grows by a record that does not concern the tables. *)
Lemma log_grows (rs : list LogRecord) (r : LogRecord) (lc : Replay) (k : EngineCore) :
  (forall x, r <> LogRelease x) -> (forall x, r <> LogCommit x) ->
  (forall d acc, last_word d acc r = acc) -> replayed_log rs lc k -> replayed_log (rs ++ [r]) lc k.
Proof.
  intros H1 H2 H3 [P C A R W]. constructor.
  - intros d p s Hd. apply P in Hd as [? ?]. rewrite elem_of_snoc. auto.
  - intros d p Hd. apply C in Hd as [(s & ? & ?) (x & ? & ?)]. split; [exists s|exists x]; rewrite elem_of_snoc; auto.
  - intros x [Hx|Hx]%elem_of_snoc; [by apply A|by destruct (H2 x)].
  - intros d. rewrite R. unfold released_in. setoid_rewrite elem_of_snoc. split; [naive_solver|].
    intros (x & [Hx|Hx] & Hd); [eauto|by destruct (H1 x)].
  - intros d Hd. rewrite word_snoc, H3. by apply W.
Qed.

(** Scalars of the loop and other parts of the engine do not matter. *)
Lemma log_frame (rs : list LogRecord) (lc lc' : Replay) (k k' : EngineCore) :
  rp_pending lc' = rp_pending lc -> rp_committed lc' = rp_committed lc ->
  rp_released_ids lc' = rp_released_ids lc -> ek_history k' = ek_history k ->
  replayed_log rs lc k -> replayed_log rs lc' k'.
Proof.
  intros E1 E2 E3 E4 [P C A R W].
  constructor; [rewrite E1|rewrite E2|rewrite E2|rewrite E3|rewrite E4]; done.
Qed.

(** A decision record enters the history. *)
Lemma log_restored (rs : list LogRecord) (r : LogRecord) (x y : DecisionRecord) (lc lc' : Replay)
    (k : EngineCore) :
  (forall d acc, last_word d acc r = if dr_decision x =? d then Some (dr_outcome x, dr_state x) else acc) ->
  dr_decision y = dr_decision x -> dr_outcome y = dr_outcome x -> dr_state y = dr_state x ->
  (forall d p s, rp_pending lc' !! d = Some (p, s) -> LogPrepare s p ∈ rs /\ pr_decision p = d) ->
  (forall d p, rp_committed lc' !! d = Some p -> prepared_in d p rs /\ committed_in d (rs ++ [r])) ->
  (forall z, LogCommit z ∈ rs ++ [r] -> is_admitting (dr_outcome z) = true ->
     is_Some (rp_committed lc' !! dr_decision z)) ->
  rp_released_ids lc' = rp_released_ids lc -> (forall z, r <> LogRelease z) ->
  replayed_log rs lc k ->
  forall k', ek_history k' = history_insert y (ek_history k) -> replayed_log (rs ++ [r]) lc' k'.
Proof.
  intros Hw Ed Eo Es HP HC HA ER Hr [P C A R W] k' Hk'. constructor.
  - intros d p s Hd. apply HP in Hd as [? ?]. rewrite elem_of_snoc. auto.
  - intros d p Hd. apply HC in Hd as [(s & ? & ?) ?]. split; [|done]. exists s. rewrite elem_of_snoc. auto.
  - exact HA.
  - intros d. rewrite ER, R. unfold released_in. setoid_rewrite elem_of_snoc. split; [naive_solver|].
    intros (z & [Hz|Hz] & Hd); [eauto|by destruct (Hr z)].
  - intros d Hd. rewrite word_snoc, Hw, Hk', <- W by done. by apply insert_word.
Qed.

Lemma prepare_step (rs : list LogRecord) (s : N) (p : PrepareRecord) (lc lc' : Replay) (k k' : EngineCore) :
  replayed_log rs lc k -> apply_log (LogPrepare s p) lc k = FrameApplied lc' k' -> replayed_log (rs ++ [LogPrepare s p]) lc' k'.
Proof.
  cbn [apply_log]. intros Hl Ha. pose proof Hl as [P C A R W].
  injection Ha as <- <-.
  assert (Hg : replayed_log (rs ++ [LogPrepare s p]) lc k) by (by apply log_grows).
  destruct Hg as [P' C' A' R' W']. constructor; try done.
  intros d q s' Hd. cbn in Hd. destruct (decide (pr_decision p = d)) as [E|E].
  - rewrite E, lookup_insert_eq in Hd. injection Hd as <- <-. rewrite elem_of_snoc. auto.
  - rewrite lookup_insert_ne in Hd by done. by apply P'.
Qed.

Lemma commit_step (rs : list LogRecord) (x : DecisionRecord) (lc lc' : Replay) (k k' : EngineCore) :
  replayed_log rs lc k -> apply_log (LogCommit x) lc k = FrameApplied lc' k' -> replayed_log (rs ++ [LogCommit x]) lc' k'.
Proof.
  cbn [apply_log]. intros Hl Ha. pose proof Hl as [P C A R W].
  unfold replay_commit in Ha. destruct (_ && _) eqn:Hg in Ha; [done|]. unfold restore_record in Ha.
  injection Ha as <- <-. apply andb_false_iff in Hg.
  eapply (log_restored rs _ x _ lc); [| | | | | | | | |exact Hl|reflexivity]; try done.
  - intros d q s Hd. apply P. destruct (rp_pending lc !! dr_decision x) as [[q' s']|]; cbn in Hd; [|done].
    by apply lookup_delete_Some in Hd as [_ Hd].
  - intros d q Hd. destruct (rp_pending lc !! dr_decision x) as [[q' s']|] eqn:Hp; cbn in Hd.
    + apply lookup_insert_Some in Hd as [[<- <-]|[_ Hd]].
      * apply P in Hp as [Hp Hq]. split; [by exists s'|]. exists x. rewrite elem_of_snoc. auto.
      * apply C in Hd as [? (y & ? & ?)]. split; [done|]. exists y. rewrite elem_of_snoc. auto.
    + apply C in Hd as [? (y & ? & ?)]. split; [done|]. exists y. rewrite elem_of_snoc. auto.
  - intros z [Hz|Hz]%elem_of_snoc Hadm.
    + specialize (A z Hz Hadm). destruct (rp_pending lc !! dr_decision x) as [[q' s']|]; [|done].
      cbn. apply lookup_insert_is_Some. destruct (decide (dr_decision x = dr_decision z)); auto.
    + injection Hz as ->. destruct Hg as [Hg|Hg]; [congruence|].
      apply bool_decide_eq_false in Hg. destruct (rp_pending lc !! dr_decision x) as [[q' s']|]; [|done].
      cbn. rewrite lookup_insert_eq. by eexists.
  - by destruct (rp_pending lc !! dr_decision x) as [[q' s']|].
Qed.

Lemma refused_step (rs : list LogRecord) (x : DecisionRecord) (lc lc' : Replay) (k k' : EngineCore) :
  replayed_log rs lc k -> apply_log (LogRefused x) lc k = FrameApplied lc' k' -> replayed_log (rs ++ [LogRefused x]) lc' k'.
Proof.
  cbn [apply_log]. intros Hl Ha. pose proof Hl as [P C A R W].
  unfold replay_refused, restore_record in Ha. injection Ha as <- <-.
  eapply (log_restored rs _ x _ lc); [| | | | | | | | |exact Hl|reflexivity]; try done.
  - intros d q Hd. apply C in Hd as [? (y & ? & ?)]. split; [done|]. exists y. rewrite elem_of_snoc. auto.
  - intros z [Hz|Hz]%elem_of_snoc; [by apply A|done].
Qed.

Lemma release_step (rs : list LogRecord) (x : ReleaseRecord) (lc lc' : Replay) (k k' : EngineCore) :
  replayed_log rs lc k -> apply_log (LogRelease x) lc k = FrameApplied lc' k' -> replayed_log (rs ++ [LogRelease x]) lc' k'.
Proof.
  cbn [apply_log]. intros Hl Ha. pose proof Hl as [P C A R W].
  injection Ha as <- <-. constructor; try done.
  - intros d q s Hd. apply P in Hd as [? ?]. rewrite elem_of_snoc. auto.
  - intros d q Hd. apply C in Hd as [(s & ? & ?) (y & ? & ?)]. split; [exists s|exists y]; rewrite elem_of_snoc; auto.
  - intros z [Hz|Hz]%elem_of_snoc; [by apply A|done].
  - intros d. cbn. rewrite elem_of_snoc, R. unfold released_in. setoid_rewrite elem_of_snoc. naive_solver.
  - intros d Hd. rewrite word_snoc. by apply W.
Qed.

Lemma revocation_step (rs : list LogRecord) (v : RevocationRecord) (lc lc' : Replay) (k k' : EngineCore) :
  replayed_log rs lc k -> apply_log (LogRevocation v) lc k = FrameApplied lc' k' -> replayed_log (rs ++ [LogRevocation v]) lc' k'.
Proof.
  cbn [apply_log]. intros Hl Ha. pose proof Hl as [P C A R W].
  injection Ha as <- <-. constructor; try done.
  - intros d q s Hd. apply P in Hd as [? ?]. rewrite elem_of_snoc. auto.
  - intros d q Hd. apply C in Hd as [(s & ? & ?) (y & ? & ?)]. split; [exists s|exists y]; rewrite elem_of_snoc; auto.
  - intros z [Hz|Hz]%elem_of_snoc; [by apply A|done].
  - intros d. cbn. rewrite R. unfold released_in. setoid_rewrite elem_of_snoc. naive_solver.
  - intros d Hd. rewrite word_snoc. cbn [last_word]. rewrite <- W by done.
    destruct (history_find (rvr_decision v) (ek_history k)) as [e|] eqn:He.
    + cbn. unfold history_update, history_find in *. rewrite He. cbn.
      destruct (N.eqb_spec (rvr_decision v) d) as [<-|E].
      * by rewrite lookup_insert_eq, He.
      * by rewrite lookup_insert_ne.
    + destruct (N.eqb_spec (rvr_decision v) d) as [<-|E]; [by rewrite He|done].
Qed.

Lemma apply_log_step (rs : list LogRecord) (r : LogRecord) (lc lc' : Replay) (k k' : EngineCore) :
  replayed_log rs lc k -> apply_log r lc k = FrameApplied lc' k' -> replayed_log (rs ++ [r]) lc' k'.
Proof.
  intros Hl Ha. destruct r as [b|p|s p|x|x|x|v|m|];
    [|  |by eapply prepare_step|by eapply commit_step|by eapply refused_step|by eapply release_step|by eapply revocation_step|  |];
    cbn [apply_log] in Ha; destruct Hl as [P C A R W]; try (injection Ha as <- <-; by apply log_grows).
  - unfold replay_boot in Ha. destruct (negb _); [done|]. destruct (negb _); [done|].
    injection Ha as <- <-. by apply log_grows.
  - unfold replay_policy in Ha. destruct (validate_policy p); [|done].
    injection Ha as <- <-. by apply log_grows.
Qed.

Lemma apply_all_log (rs done : list LogRecord) (lc lc' : Replay) (k k' : EngineCore) :
  replayed_log done lc k -> apply_all rs lc k = Some (lc', k') -> replayed_log (done ++ rs) lc' k'.
Proof.
  revert done lc k. induction rs as [|r rs IH]; intros done lc k Hl Ha; cbn [apply_all] in Ha.
  - injection Ha as <- <-. by rewrite app_nil_r.
  - destruct (apply_log r lc k) as [lc1 k1|] eqn:Er; [|done].
    rewrite cons_middle, app_assoc. eapply IH; [|exact Ha].
    eapply log_frame; [..|by eapply apply_log_step]; done.
Qed.

(** ** The restored ledger *)

Definition prepared_entries (p : PrepareRecord) : list LedgerEntry :=
  make_entry (pr_decision p) (pr_demand p) (pr_epoch p) (pr_bound_capacity_generation p) (pr_path p)
    <$> pr_amounts p.

(** An intent the engine could have written: distinct resources, word-sized amounts. *)
Definition prepare_ok (p : PrepareRecord) : Prop :=
  NoDup (pr_amounts p).*1 /\ Forall (fun a => u64 a.2) (pr_amounts p) /\
  sizeN (pr_amounts p) <= ptrdiff_max.

Lemma reserve_prepared_held (p : PrepareRecord) (l l' : AdmittedLoadLedger) :
  reserve_prepared p l = (Val tt, l') ->
  pr_decision p <> 0 /\ lg_by_decision l !! pr_decision p = None /\
  lg_by_decision l' = <[pr_decision p := prepared_entries p]> (lg_by_decision l).
Proof.
  unfold reserve_prepared, reserve, reserve_path, mbind, M_bind, get, lift. cbv beta iota.
  destruct (reserve_guards _ _ l) as [[]|] eqn:Hg; [|done].
  assert (Hk : pr_decision p <> 0 /\ lg_by_decision l !! pr_decision p = None).
  { unfold reserve_guards in Hg. destruct (is_unknown (pr_decision p)) eqn:Hu; [done|].
    apply is_unknown_false in Hu. split; [done|].
    destruct (lg_by_decision l !! pr_decision p) as [es|]; [|done].
    by rewrite (bool_decide_true (is_Some (Some es))) in Hg by (by eexists). }
  unfold modify, gets, fail, lift. cbv beta iota.
  destruct (is_known (pr_path p)); [destruct (add_u64 _ _); [|done]|]; intros [= <-]; by destruct Hk.
Qed.

Lemma reserve_prepared_wf (p : PrepareRecord) (l : AdmittedLoadLedger) :
  prepare_ok p -> ledger_wf l -> ledger_wf (reserve_prepared p l).2.
Proof. intros (H1 & H2 & H3) Hwf. by apply reserve_wf. Qed.

(** Which intents a restored ledger holds. *)
Record restored (released : list AdmissionDecisionId) (k : EngineCore) (cs : list (N * PrepareRecord))
    (l l' : AdmittedLoadLedger) : Prop := {
  rs_all : forall d p, (d, p) ∈ cs -> still_live k released p = true ->
    pr_decision p <> 0 /\ lg_by_decision l' !! pr_decision p = Some (prepared_entries p);
  rs_only : forall d es, lg_by_decision l' !! d = Some es ->
    lg_by_decision l !! d = Some es \/
    exists d' p, (d', p) ∈ cs /\ still_live k released p = true /\ pr_decision p = d /\
                 es = prepared_entries p;
  rs_keeps : lg_by_decision l ⊆ lg_by_decision l';
  rs_wf : Forall (fun c => prepare_ok c.2) cs -> ledger_wf l -> ledger_wf l';
}.

Lemma still_live_ledger (k : EngineCore) (released : list AdmissionDecisionId) (p : PrepareRecord)
    (l : AdmittedLoadLedger) :
  still_live (k <| ek_ledger := l |>) released p = still_live k released p.
Proof. done. Qed.

Lemma restore_ledger_spec (released : list AdmissionDecisionId) (cs : list (N * PrepareRecord))
    (k : EngineCore) :
  wp (restore_ledger released cs)
    (fun res k' => res = Val tt -> exists l', k' = k <| ek_ledger := l' |> /\
                                              restored released k cs (ek_ledger k) l') k.
Proof.
  revert k. induction cs as [|[d p] cs IH]; intros k; cbn [restore_ledger].
  - apply wp_ret. intros _. exists (ek_ledger k). split; [by rewrite ledger_unchanged|].
    constructor; [by intros ? ? ?%not_elem_of_nil|by left|done|done].
  - apply wp_bind, wp_get, wp_bind. destruct (still_live k released p) eqn:Hs.
    + unfold wp at 1. rewrite on_ledger_run.
      destruct (reserve_prepared p (ek_ledger k)) as [[[]|s] l1] eqn:Hr; cbn [fst snd]; [|done].
      pose proof (reserve_prepared_held p _ _ Hr) as (Hd & Hn & Hb).
      eapply wp_mono; [apply IH|]. intros res k' H Hres. destruct (H Hres) as (l' & Hk' & [Ra Ro Rk Rw]).
      exists l'. split; [by rewrite Hk'|]. cbn [ek_ledger set_field] in *.
      change (ek_ledger (k <| ek_ledger := l1 |>)) with l1 in *. constructor.
      * intros d' q [[= -> ->]|Hq]%elem_of_cons Hsq; [|by eapply Ra]. split; [done|].
        eapply lookup_weaken; [|exact Rk]. by rewrite Hb, lookup_insert_eq.
      * intros d' es He. apply Ro in He as [He|(d2 & q & Hq & Hsq & Hpd & Hes)].
        -- rewrite Hb in He. apply lookup_insert_Some in He as [[<- <-]|[_ He]]; [|by left].
           right. exists d, p. split_and!; [left|done..].
        -- right. exists d2, q. split_and!; [by right|done..].
      * etrans; [|exact Rk]. rewrite Hb. by apply insert_subseteq.
      * intros [Hp Hall]%Forall_cons Hw. apply Rw; [done|].
        pose proof (reserve_prepared_wf p _ Hp Hw) as Hw'. by rewrite Hr in Hw'.
    + apply wp_ret. eapply wp_mono; [apply IH|]. intros res k' H Hres.
      destruct (H Hres) as (l' & Hk' & [Ra Ro Rk Rw]). exists l'. split; [done|]. constructor; [| |done|].
      * intros d' q [[= -> ->]|Hq]%elem_of_cons Hsq; [congruence|by eapply Ra].
      * intros d' es He. apply Ro in He as [He|(d2 & q & Hq & H1 & H2)]; [by left|].
        right. exists d2, q. split; [by right|done].
      * intros [Hp Hall]%Forall_cons Hw. by apply Rw.
Qed.

(** ** A recovery that is not refused *)

(** Replaying changes policy, history and registry only. *)
Definition replay_only (k k' : EngineCore) : Prop :=
  exists p h a, k' = k <| ek_policy := p |> <| ek_history := h |> <| ek_attempts := a |>.

#[export] Instance replay_only_refl : Reflexive replay_only.
Proof. intros k. exists (ek_policy k), (ek_history k), (ek_attempts k). by destruct k. Qed.
#[export] Instance replay_only_trans : Transitive replay_only.
Proof. intros k1 k2 k3 (p & h & a & ->) (p' & h' & a' & ->). by exists p', h', a'. Qed.

Lemma apply_log_only (r : LogRecord) (lc lc' : Replay) (k k' : EngineCore) :
  apply_log r lc k = FrameApplied lc' k' -> replay_only k k'.
Proof.
  destruct r as [b|p|s p|x|x|x|v|m|]; cbn [apply_log].
  - unfold replay_boot. destruct (negb _); [done|]. destruct (negb _); [done|]. by intros [= <- <-].
  - unfold replay_policy. destruct (validate_policy p); [|done]. intros [= <- <-].
    exists (Some p), (ek_history k), (ek_attempts k). by destruct k.
  - by intros [= <- <-].
  - unfold replay_commit, restore_record. destruct (_ && _); [done|]. intros [= <- <-].
    exists (ek_policy k); eexists _, _. reflexivity.
  - unfold replay_refused, restore_record. intros [= <- <-].
    exists (ek_policy k); eexists _, _. reflexivity.
  - by intros [= <- <-].
  - unfold replay_revocation. intros [= <- <-]. destruct (history_find _ _); [|done].
    exists (ek_policy k); eexists _, (ek_attempts k). reflexivity.
  - by intros [= <- <-].
  - by intros [= <- <-].
Qed.

Lemma apply_all_only (rs : list LogRecord) (lc lc' : Replay) (k k' : EngineCore) :
  apply_all rs lc k = Some (lc', k') -> replay_only k k'.
Proof.
  revert lc k. induction rs as [|r rs IH]; intros lc k; cbn [apply_all]; [by intros [= <- <-]|].
  destruct (apply_log r lc k) as [lc1 k1|] eqn:Er; [|done]. intros Ha.
  etrans; [by eapply apply_log_only|by eapply IH].
Qed.

(** A successful recovery, step by step. *)
Record recovery (frames : list JournalFrame) (k : EngineCore) (rs : list LogRecord) (lc : Replay)
    (k1 : EngineCore) (l : AdmittedLoadLedger) (next : FabricEpoch) (k' : EngineCore) : Prop := {
  ry_read : read_all frames rs;
  ry_applied : apply_all rs Replay_new k = Some (lc, k1);
  ry_restored : restored (rp_released_ids lc) k1 (items (rp_committed lc)) (ek_ledger k) l;
  ry_epoch : next_epoch (rp_epoch lc) (ec_epoch (ek_config k)) = Val next;
  ry_state : exists j f, k' = k1 <| ek_ledger := mark_all_requiring_revalidation l |>
    <| ek_history := trimmed (mark_all_requiring_revalidation l) (ek_history k1) |>
    <| ek_epoch := next |> <| ek_audit := rp_audit lc |>
    <| ek_next_decision_sequence := rp_max_decision lc +w 1 |>
    <| ek_sessions := ∅ |> <| ek_next_session_nonce := 1 |>
    <| ek_journal := j |> <| ek_faults := f |>
    <| ek_pending_reconciliation := negb (live_decisions l =? 0) |>;
}.

Lemma live_decisions_marked (l : AdmittedLoadLedger) :
  live_decisions (mark_all_requiring_revalidation l) = live_decisions l.
Proof. unfold live_decisions. cbn. by rewrite map_size_fmap. Qed.

Lemma trim_history_run (k : EngineCore) :
  (trim_history k).2 = k <| ek_history := trimmed (ek_ledger k) (ek_history k) |>.
Proof.
  unfold trim_history, modify, trimmed. cbn [snd]. destruct (needs_trim (ek_history k)); [done|].
  by destruct k.
Qed.

Lemma recover_outcome (frames : list JournalFrame) (report report' : RecoveryReport)
    (k k' : EngineCore) :
  recover_from frames report k = (report', k') -> rr_outcome report' <> RecoveryRefused ->
  exists rs lc k1 l next, recovery frames k rs lc k1 l next k'.
Proof.
  unfold recover_from. destruct (replay_frames frames Replay_new k) as [[[s c]|] [lc k1]] eqn:Hrep.
  { intros [= <- <-] H. by destruct H. }
  apply replay_frames_log in Hrep as (rs & Hread & Happ).
  pose proof (apply_all_only _ _ _ _ _ Happ) as (p & h & a & Hk1).
  pose proof (restore_ledger_spec (rp_released_ids lc) (items (rp_committed lc)) k1) as Hres. unfold wp in Hres.
  destruct (restore_ledger _ _ k1) as [[[]|s] k2]; cbn [fst snd] in Hres.
  2: { intros [= <- <-] H. by destruct H. }
  destruct (Hres eq_refl) as (l & -> & Hl). clear Hres. rewrite trim_history_run. unfold finish_recovery.
  replace (ec_epoch _) with (ec_epoch (ek_config k)) by (by rewrite Hk1).
  destruct (next_epoch _ _) as [next|s] eqn:Hn.
  2: { intros [= <- <-] H. by destruct H. }
  match goal with |- context [write_boot ?k0] => destruct (silent_write_boot k0) as (j & f & Hq);
    destruct (write_boot k0) as [[[]|s] k3] end; cbn [snd] in Hq.
  2: { intros [= <- <-] H. by destruct H. }
  intros [= <- <-] _. rewrite Hq. exists rs, lc, k1, l, next. constructor; try done.
  - replace (ek_ledger k) with (ek_ledger k1) by (by rewrite Hk1). exact Hl.
  - exists j, f. by rewrite <- (live_decisions_marked l).
Qed.

(** The maxima the loop keeps. *)
Definition record_of (r : LogRecord) : option DecisionRecord :=
  match r with LogCommit x | LogRefused x => Some x | _ => None end.

Record maxima (rs : list LogRecord) (lc : Replay) : Prop := {
  mx_boot : forall b, LogBoot b ∈ rs -> br_epoch b <= rp_epoch lc;
  mx_record : forall r x, r ∈ rs -> record_of r = Some x ->
    dr_decision x <= rp_max_decision lc /\ dr_audit x <= rp_audit lc;
  mx_source : rp_epoch lc = 0 \/ exists b, LogBoot b ∈ rs /\ br_epoch b = rp_epoch lc;
}.

Lemma maxima_grow (rs : list LogRecord) (r : LogRecord) (lc lc' : Replay) :
  rp_epoch lc <= rp_epoch lc' -> rp_max_decision lc <= rp_max_decision lc' -> rp_audit lc <= rp_audit lc' ->
  (forall b, r = LogBoot b -> br_epoch b <= rp_epoch lc') ->
  (forall x, record_of r = Some x -> dr_decision x <= rp_max_decision lc' /\ dr_audit x <= rp_audit lc') ->
  (rp_epoch lc' = rp_epoch lc \/ exists b, r = LogBoot b /\ br_epoch b = rp_epoch lc') ->
  maxima rs lc -> maxima (rs ++ [r]) lc'.
Proof.
  intros L1 L2 L3 Hb Hx He [B R S]. constructor.
  - intros b [Hin|Hin]%elem_of_snoc; [apply B in Hin; lia|by apply Hb].
  - intros y x [Hin| ->]%elem_of_snoc Hy; [|by apply Hx]. destruct (R y x Hin Hy). lia.
  - destruct He as [He|(b & -> & He)].
    + rewrite He. destruct S as [S|(b & Hin & S)]; [by left|right]. exists b. rewrite elem_of_snoc. auto.
    + right. exists b. rewrite elem_of_snoc. auto.
Qed.

Lemma apply_log_maxima (rs : list LogRecord) (r : LogRecord) (lc lc' : Replay) (k k' : EngineCore) :
  apply_log r lc k = FrameApplied lc' k' -> maxima rs lc -> maxima (rs ++ [r]) lc'.
Proof.
  intros Ha. destruct r as [b|p|s p|x|x|x|v|m|]; cbn [apply_log] in Ha.
  - unfold replay_boot in Ha. destruct (negb _); [done|]. destruct (negb _); [done|].
    injection Ha as <- _. destruct (N.ltb_spec (rp_epoch lc) (br_epoch b)) as [H|H].
    + apply maxima_grow; cbn; [lia|lia|lia|by intros b' [= <-]|done|by right; exists b].
    + apply maxima_grow; cbn; [lia|lia|lia|by intros b' [= <-]|done|by left].
  - unfold replay_policy in Ha. destruct (validate_policy p); [|done]. injection Ha as <- _.
    apply maxima_grow; [lia|lia|lia|done|done|by left].
  - injection Ha as <- _. apply maxima_grow; cbn; [lia|lia|lia|done|done|by left].
  - unfold replay_commit, restore_record in Ha. destruct (_ && _); [done|]. injection Ha as <- _.
    destruct (rp_pending lc !! dr_decision x) as [[q t]|]; cbn;
      destruct (N.leb_spec (rp_max_decision lc) (dr_decision x)), (N.ltb_spec (rp_audit lc) (dr_audit x));
      (apply maxima_grow; cbn; [lia|lia|lia|done|intros y [= <-]; lia|by left]).
  - unfold replay_refused, restore_record in Ha. injection Ha as <- _. cbn.
    destruct (N.leb_spec (rp_max_decision lc) (dr_decision x)), (N.ltb_spec (rp_audit lc) (dr_audit x));
      (apply maxima_grow; cbn; [lia|lia|lia|done|intros y [= <-]; lia|by left]).
  - injection Ha as <- _. apply maxima_grow; cbn; [lia|lia|lia|done|done|by left].
  - injection Ha as <- _. destruct (N.ltb_spec (rp_audit lc) (rvr_audit v));
      (apply maxima_grow; cbn; [lia|lia|lia|done|done|by left]).
  - injection Ha as <- _. destruct (N.ltb_spec (rp_audit lc) (am_sequence m));
      (apply maxima_grow; cbn; [lia|lia|lia|done|done|by left]).
  - injection Ha as <- _. apply maxima_grow; [lia|lia|lia|done|done|by left].
Qed.

Lemma apply_all_maxima (rs done : list LogRecord) (lc lc' : Replay) (k k' : EngineCore) :
  apply_all rs lc k = Some (lc', k') -> maxima done lc -> maxima (done ++ rs) lc'.
Proof.
  revert done lc k. induction rs as [|r rs IH]; intros done lc k Ha Hm; cbn [apply_all] in Ha.
  - injection Ha as <- <-. by rewrite app_nil_r.
  - destruct (apply_log r lc k) as [lc1 k1|] eqn:Er; [|done].
    rewrite cons_middle, app_assoc. eapply IH; [exact Ha|].
    apply (apply_log_maxima done) in Er as [B R S]; [by constructor|done].
Qed.

(** A new incarnation's epoch is later than every epoch the log has seen. *)
Lemma next_epoch_later (recovered configured next : FabricEpoch) :
  u64 recovered -> next_epoch recovered configured = Val next -> recovered < next.
Proof.
  intros Hu. unfold next_epoch, epoch_is_none, epoch_well_formed, unknown_epoch.
  destruct (_ && _ && _); [done|]. destruct (N.eqb_spec recovered 0) as [->|Hne]; cbn [negb].
  - destruct (N.eqb_spec configured 0); intros [= <-]; [done|lia].
  - destruct (N.eqb_spec (recovered +w 1) 0) as [E|E]; [done|]. intros [= <-].
    unfold w_add, wrap64, u64, two64 in *. destruct (N.eq_dec (recovered + 1) 18446744073709551616) as [E'|].
    + by rewrite E' in E.
    + rewrite N.mod_small by lia. lia.
Qed.

Lemma log_start (k : EngineCore) :
  hi_records (ek_history k) = ∅ -> replayed_log [] Replay_new k.
Proof.
  intros Hh. constructor; cbn; try by intros ? ?; rewrite ?lookup_empty.
  - intros r Hr. by apply not_elem_of_nil in Hr.
  - intros d. rewrite elem_of_nil. split; [done|]. by intros (r & Hr%not_elem_of_nil & _).
  - intros d _. unfold history_find. by rewrite Hh, lookup_empty.
Qed.
Lemma maxima_start : maxima [] Replay_new.
Proof.
  constructor; [by intros b ?%not_elem_of_nil|by intros r x ?%not_elem_of_nil|by left].
Qed.

Lemma existsb_mem (d : N) (l : list N) : existsb (N.eqb d) l = true <-> d ∈ l.
Proof.
  rewrite existsb_exists. split.
  - intros (x & Hx & <-%N.eqb_eq). by apply list_elem_of_In.
  - intros H. exists d. split; [by apply list_elem_of_In|apply N.eqb_refl].
Qed.

(** The test before reserving is what the log says. *)
Lemma still_live_log (rs : list LogRecord) (lc : Replay) (k : EngineCore) (p : PrepareRecord) :
  replayed_log rs lc k -> pr_decision p <> 0 ->
  still_live k (rp_released_ids lc) p = true <-> stands_in_log (pr_decision p) rs.
Proof.
  intros [_ _ _ R W] Hd. specialize (W _ Hd). unfold still_live, stands_in_log.
  assert (Hrel : existsb (N.eqb (pr_decision p)) (rp_released_ids lc) = true <-> released_in (pr_decision p) rs)
    by (by rewrite existsb_mem, R).
  destruct (history_find (pr_decision p) (ek_history k)) as [r|]; cbn in W.
  2: { split; [done|]. intros [(o & s & Hw & _) _]. congruence. }
  rewrite !andb_true_iff, !negb_true_iff, !bool_decide_eq_false, <- not_true_iff_false, Hrel, <- W.
  naive_solver.
Qed.

Lemma marked_lookup (l : AdmittedLoadLedger) (d : AdmissionDecisionId) :
  lg_by_decision (mark_all_requiring_revalidation l) !! d = set_flag true <$> lg_by_decision l !! d.
Proof. cbn. apply lookup_fmap. Qed.

(** The load that is restored, from the state at the end of the replay. *)
Lemma restored_load (rs : list LogRecord) (lc : Replay) (k k1 : EngineCore) (l : AdmittedLoadLedger) :
  ek_ledger k = Ledger_new -> replayed_log rs lc k1 ->
  restored (rp_released_ids lc) k1 (items (rp_committed lc)) (ek_ledger k) l ->
  (forall d es, lg_by_decision (mark_all_requiring_revalidation l) !! d = Some es ->
     stands_in_log d rs /\ committed_in d rs /\
     (exists p, prepared_in d p rs /\ entry_amount <$> es = pr_amounts p) /\
     Forall (fun e => le_requires_revalidation e = true) es) /\
  (forall r, LogCommit r ∈ rs -> is_admitting (dr_outcome r) = true -> dr_decision r <> 0 ->
     stands_in_log (dr_decision r) rs -> holds (mark_all_requiring_revalidation l) (dr_decision r) = true).
Proof.
  intros Hl Hlog [Ra Ron _ _].
  assert (Hin : forall d p, (d, p) ∈ items (rp_committed lc) <-> rp_committed lc !! d = Some p)
    by (intros d p; apply elem_of_map_items).
  split.
  - intros d es. rewrite marked_lookup. intros (es0 & He & ->)%fmap_Some.
    apply Ron in He as [He|(d' & p & Hp%Hin & Hs & Hd & ->)].
    { rewrite Hl in He. cbn in He. by rewrite lookup_empty in He. }
    apply (rl_committed_in _ _ _ Hlog) in Hp as Hc. destruct Hc as [(s & Hp1 & Hp2) Hc].
    destruct (Ra d' p (proj2 (Hin _ _) Hp) Hs) as [Hd0 _].
    assert (d' = d) as -> by congruence. apply (still_live_log rs _ _ _ Hlog Hd0) in Hs. rewrite Hd in Hs.
    split_and!; [done|done| |].
    + exists p. split; [by exists s|]. rewrite set_flag_amounts. apply entries_amounts.
    + unfold set_flag. apply Forall_map, Forall_true. done.
  - intros r Hr Hadm Hd Hs. destruct (rl_committed_all _ _ _ Hlog r Hr Hadm) as [p Hp].
    apply (rl_committed_in _ _ _ Hlog) in Hp as Hc. destruct Hc as [(s & _ & Hpd) _].
    rewrite <- Hpd in Hs, Hd. apply (still_live_log rs _ _ _ Hlog Hd) in Hs.
    destruct (Ra _ p (proj2 (Hin _ _) Hp) Hs) as [_ He].
    apply holds_iff. exists (set_flag true (prepared_entries p)). by rewrite marked_lookup, <- Hpd, He.
Qed.

(** C13: recovery restores exactly the committed load.  When a journal is recovered into
    a fresh engine and recovery is not refused, every decision that holds load had
    an intent and a commit in the log, its load is the amounts of the intent, the
    log's last word on it admits it unrevoked and unexpired, and no release of it
    was logged, so that an intent whose commit never appeared restores nothing;
    conversely every committed admission that still stands in the log holds its
    load.  All restored load is flagged for revalidation, no session is live, the
    epoch is later than every epoch in the log, and decision identities and audit
    sequences go on no lower than those on record. *)
Theorem recovery_restores_committed (frames : list JournalFrame) (report report' : RecoveryReport)
    (k k' : EngineCore) (Hl : ek_ledger k = Ledger_new) (Hh : hi_records (ek_history k) = ∅)
    (Hrun : recover_from frames report k = (report', k')) (Ho : rr_outcome report' <> RecoveryRefused) :
  exists rs, read_all frames rs /\
    (forall d es, lg_by_decision (ek_ledger k') !! d = Some es ->
       stands_in_log d rs /\ committed_in d rs /\
       (exists p, prepared_in d p rs /\ entry_amount <$> es = pr_amounts p) /\
       Forall (fun e => le_requires_revalidation e = true) es) /\
    (forall r, LogCommit r ∈ rs -> is_admitting (dr_outcome r) = true -> dr_decision r <> 0 ->
       stands_in_log (dr_decision r) rs -> holds (ek_ledger k') (dr_decision r) = true) /\
    ((forall s p, LogPrepare s p ∈ rs -> prepare_ok p) -> ledger_wf (ek_ledger k')) /\
    ek_sessions k' = ∅ /\
    (forall b, LogBoot b ∈ rs -> (forall b', LogBoot b' ∈ rs -> u64 (br_epoch b')) ->
       br_epoch b < ek_epoch k') /\
    (exists m, ek_next_decision_sequence k' = m +w 1 /\ forall r x, r ∈ rs -> record_of r = Some x ->
       dr_decision x <= m /\ dr_audit x <= ek_audit k').
Proof.
  destruct (recover_outcome _ _ _ _ _ Hrun Ho) as (rs & lc & k1 & l & next & Hry).
  destruct Hry as [Hread Happ Hres Hn (j & f & ->)].
  pose proof (apply_all_log rs [] _ _ _ _ (log_start k Hh) Happ) as Hlog. cbn [app] in Hlog.
  pose proof (apply_all_maxima rs [] _ _ _ _ Happ maxima_start) as [MB MR MS]. cbn [app] in *.
  destruct (restored_load rs lc k k1 l Hl Hlog Hres) as [Hheld Hback]. destruct Hres as [_ _ _ Rw].
  exists rs. split; [done|]. split_and!; [exact Hheld|exact Hback| | | |].
  - intros Hp. change (ek_ledger _) with (mark_all_requiring_revalidation l).
    apply set_flags_wf, Rw; [|rewrite Hl; exact ledger_new_wf].
    apply Forall_forall. intros [d p] Hc%elem_of_map_items. apply (rl_committed_in _ _ _ Hlog) in Hc as [(s & Hp1 & _) _].
    by apply (Hp s).
  - done.
  - intros b Hb Hu. apply N.le_lt_trans with (rp_epoch lc); [by apply MB|].
    apply (next_epoch_later _ _ _) in Hn; [done|].
    destruct MS as [->|(b' & Hb' & <-)]; [done|by apply Hu].
  - exists (rp_max_decision lc). split; [done|]. exact MR.
Qed.

(** ** Concrete restarts *)

Definition fresh_engine : EngineCore := AdmissionEngine_new EngineConfig_new.
Definition restart_run : RecoveryReport * EngineCore :=
  recover_from (compact_frames granted_engine) RecoveryReport_new fresh_engine.

Lemma recovery_restores_committed_witness :
  rr_outcome restart_run.1 = FreshStart /\ holds (ek_ledger restart_run.2) 1 = true /\
  exists rs, read_all (compact_frames granted_engine) rs /\ stands_in_log 1 rs /\ committed_in 1 rs.
Proof.
  assert (Ho : rr_outcome restart_run.1 = FreshStart) by (by vm_compute).
  assert (Hh : holds (ek_ledger restart_run.2) 1 = true) by (by vm_compute).
  split; [exact Ho|]. split; [exact Hh|].
  apply holds_iff in Hh as [es Hes].
  destruct (recovery_restores_committed (compact_frames granted_engine) RecoveryReport_new restart_run.1
    fresh_engine restart_run.2) as (rs & Hr & Hl & _);
    [reflexivity|reflexivity|by rewrite <- surjective_pairing|rewrite Ho; discriminate|].
  exists rs. split; [exact Hr|]. destruct (Hl 1 es Hes) as (H1 & H2 & _). by split.
Defined.

(** The daemon's configuration: no epoch, so that the journal decides it. *)
Definition durable_config : EngineConfig :=
  mkEngineConfig 0 0 0 max_decision_records max_attempt_records max_ledger_entries
    max_session_records true.
Definition on_disk (data : list N) : Journal :=
  (Journal_new "naf/journal" JournalOptions_new)
    <| jn_data := data |> <| jn_exists := negb (sizeN data =? 0) |>.
Definition started_on (data : list N) : RecoveryReport * EngineCore :=
  open_durable (attach_journal (on_disk data) (AdmissionEngine_new durable_config)).2.
Definition disk_of (k : EngineCore) : list N := from_option jn_data [] (ek_journal k).

(** A first incarnation on an empty disk grants one request of 50. *)
Definition durable0 : EngineCore := (started_on []).2.
Definition durable1 : EngineCore := (publish_policy sample_policy durable0).2.
Definition durable2 : EngineCore := (publish_capacity sample_capacity durable1).2.
Definition durable3 : EngineCore := (publish_reservations sample_reservations durable2).2.
Definition durable4 : EngineCore := (publish_qos_catalog sample_qos durable3).2.
Definition durable5 : EngineCore := (publish_priority_catalog sample_priorities durable4).2.
Definition durable6 : EngineCore := (admit_locked (sample_request 1 3) in_process durable5).2.
(** The second incarnation starts on the disk the first one left. *)
Definition restarted : RecoveryReport * EngineCore := started_on (disk_of durable6).

(** The authorities of the second incarnation: a capacity too small for the
    obligations it must protect. *)
Definition shrunk_again : CapacitySnapshot := mkCapacitySnapshot 1 2 2 0 (cs_resources shrunk_capacity).
Definition reservations_again : ReservationSnapshot :=
  mkReservationSnapshot 1 1 2 0 (rs_obligations sample_reservations).
Definition republish (k : EngineCore) : Expected unit * EngineCore :=
  publish_capacity shrunk_again (publish_reservations reservations_again k).2.

(** Recovery resumes the audit sequence at the last one used instead of after it,
    so the first decision of the new incarnation takes over the audit slot of the
    last recorded one.  If that one is a grant, it is no longer in the audit order,
    which is all that enforcement looks at: a publication succeeds, nothing is left
    pending, and the grant keeps load its resource no longer has.  Without the
    intervening decision, which here is a mere refusal, the load is withdrawn. *)
Theorem recovered_grant_escapes_enforcement :
  rr_outcome restarted.1 = Recovered /\ admitted (ek_ledger restarted.2) 1 = 50 /\
  (let k := (republish restarted.2).2 in admitted (ek_ledger k) 1 = 0) /\
  (let refused := admit_locked bad_request in_process restarted.2 in
   let published := republish refused.2 in
   ad_outcome <$> refused.1 = Val RejectPolicy /\
   published.1 = Val tt /\ ek_pending_reconciliation published.2 = false /\
   admitted (ek_ledger published.2) 1 = 50 /\
   exists cap, find_capacity published.2 1 = Some cap /\ allowance_of published.2 1 cap = 0).
Proof.
  cbn zeta. split_and!; [by vm_compute..|].
  exists (mkResourceCapacity 1 1 EvidenceKnown 300 100). split; by vm_compute.
Qed.

(** Once the capacity has been withdrawn, a snapshot of an older generation is
    accepted. *)
Theorem older_capacity_after_invalidation :
  let k := (publish_capacity shrunk_capacity engine5).2 in
  ek_capacity k = Some shrunk_capacity /\ cs_generation sample_capacity < cs_generation shrunk_capacity /\
  has_value (publish_capacity sample_capacity k).1 = false /\
  has_value (publish_capacity sample_capacity (invalidate_capacity k).2).1 = true.
Proof. cbn zeta. split_and!; by vm_compute. Qed.

(** A status counts an infeasible resource twice: [status_locked] starts from the count
    of the last enforcement pass and adds what it counts itself. *)
Definition infeasible_engine : EngineCore :=
  (publish_capacity (mkCapacitySnapshot 1 2 1 0 [mkResourceCapacity 1 1 EvidenceKnown 250 100]) sample_engine).2.
Theorem status_counts_infeasible_twice :
  from_option (infeasible_resources infeasible_engine) 0 (ek_capacity infeasible_engine) = 1 /\
  fs_infeasible_resources (status_locked infeasible_engine) = 2.
Proof. split; vm_compute; reflexivity. Qed.
