(* ===== verification/Compaction.v ===== *)
(** * Compaction: properties

    The frames that compaction writes, read as a log, and what a restart makes of them:
    the load of the engine that wrote them. *)

From S2P Require Import Prelude.
From S2P Require Import Checked.
From S2P Require Import Identity.
From S2P Require Import Hash.
From S2P Require Import State.
From S2P Require Import Policy.
From S2P Require Import Request.
From S2P Require Import Authority.
From S2P Require Import Decision.
From S2P Require Import Ledger.
From S2P Require Import History.
From S2P Require Import Bytes.
From S2P Require Import Records.
From S2P Require Import Journal.
From S2P Require Import Engine.
From S2P Require Import Log.
From S2P Require Import Recovery.
From S2P Require Import Admission.
From S2P Require Import Capacity.
From S2P Require Import Frames.
From S2P Require Import Grant.
From S2P Require Import Safety.
From S2P Require Import Enforce.
From S2P Require Import Restart.
Local Open Scope N_scope.
Local Open Scope naf_scope.

(** ** The load that is written *)

Definition add_amount (m : gmap N (list (ResourceId * Rate))) (e : LedgerEntry) :=
  <[le_decision e := default [] (m !! le_decision e) ++ [entry_amount e]]> m.

Lemma live_amounts_fold (d : AdmissionDecisionId) (es : list LedgerEntry) m :
  foldl add_amount m es !! d =
  match filter (fun e => le_decision e = d) es with
  | [] => m !! d
  | held => Some (default [] (m !! d) ++ (entry_amount <$> held))
  end.
Proof.
  revert m. induction es as [|e es IH]; intros m; [done|]. cbn [foldl]. rewrite IH.
  destruct (decide (le_decision e = d)) as [Hd|Hd].
  - rewrite filter_cons_True by done. unfold add_amount. rewrite Hd, lookup_insert_eq.
    destruct (filter _ es) as [|e' es']; simpl; [done|]. by rewrite <- app_assoc.
  - rewrite filter_cons_False by done. unfold add_amount. by rewrite lookup_insert_ne.
Qed.

Lemma live_amounts_held (l : AdmittedLoadLedger) (d : AdmissionDecisionId) :
  live_amounts l !! d = match held_entries l d with [] => None | held => Some (entry_amount <$> held) end.
Proof.
  unfold live_amounts, held_entries. change (foldl _ ∅ _) with (foldl add_amount ∅ (entries l)).
  rewrite live_amounts_fold, lookup_empty. by destruct (filter _ _).
Qed.

Lemma live_amounts_spec (l : AdmittedLoadLedger) (d : AdmissionDecisionId) (Hl : ledger_wf l) :
  (forall held, live_amounts l !! d = Some held ->
     exists es, lg_by_decision l !! d = Some es /\ held ≡ₚ entry_amount <$> es) /\
  (live_amounts l !! d = None <-> lg_by_decision l !! d = None).
Proof.
  rewrite live_amounts_held. pose proof (held_entries_perm l Hl d) as Hp.
  destruct (lg_by_decision l !! d) as [es|] eqn:E; cbn [default] in Hp.
  - pose proof (dok_nonempty _ _ (lwf_decisions l Hl d es E)) as Hne.
    destruct (held_entries l d) as [|e held] eqn:Eh.
    { apply Permutation_nil in Hp. by destruct Hne. }
    split; [|done]. intros h [= <-]. exists es. split; [done|].
    change (entry_amount <$> e :: held ≡ₚ entry_amount <$> es). by rewrite Hp.
  - apply Permutation_sym, Permutation_nil in Hp. rewrite Hp. by split.
Qed.

(** ** The log that is written *)

Definition compact_record_log (live : gmap N (list (ResourceId * Rate))) (record : DecisionRecord)
    : list LogRecord :=
  match live !! dr_decision record with
  | Some held =>
      if is_admitting (dr_outcome record) then
        [LogPrepare 0 (mkPrepareRecord (dr_decision record) (dr_demand record) (dr_attempt record)
           (dr_fingerprint record) (dr_epoch record) (dr_bound_capacity_generation record)
           (dr_path record) held); LogCommit record]
      else [LogRefused record]
  | None => [LogRefused record]
  end.

Definition compact_log (k : EngineCore) : list LogRecord :=
  [LogBoot (make_boot_record (ek_epoch k) (ek_incarnation k))] ++
  from_option (fun p => [LogPolicy p]) [] (ek_policy k) ++
  (in_audit_order (ek_history k) ≫= compact_record_log (live_amounts (ek_ledger k))) ++
  [LogMark (mkAuditMarkRecord (ek_audit k) (ek_epoch k) (sizeN (compact_frames k) - 1))].

(** What is written fits the records' fields. *)
Record journalable (k : EngineCore) : Prop := {
  jo_boot : boot_storable (make_boot_record (ek_epoch k) (ek_incarnation k));
  jo_policy : forall p, ek_policy k = Some p -> policy_storable p;
  jo_records : Forall decision_storable (in_audit_order (ek_history k));
  jo_amounts : forall d held, live_amounts (ek_ledger k) !! d = Some held ->
    sizeN held <= max_resource_bindings /\ Forall amount_storable held;
  jo_mark : u64 (ek_audit k) /\ u64 (sizeN (compact_frames k));
}.

Lemma read_record (live : gmap N (list (ResourceId * Rate))) (r : DecisionRecord) :
  decision_storable r ->
  (forall held, live !! dr_decision r = Some held -> sizeN held <= max_resource_bindings /\ Forall amount_storable held) ->
  read_all (compact_record_frames live r) (compact_record_log live r).
Proof.
  intros Hr Hl. unfold compact_record_frames, compact_record_log.
  assert (Href : read_log (mkJournalFrame JK_AdmissionRefused 0 (encode_decision_record r)) = Val (LogRefused r))
    by (by eapply read_encoded; [apply _|exact Hr|]).
  destruct (live !! dr_decision r) as [held|] eqn:E; [|by repeat constructor].
  destruct (is_admitting (dr_outcome r)); [|by repeat constructor].
  constructor; [|constructor; [|constructor]].
  - eapply read_encoded; [apply _| |done]. unfold decision_storable in Hr. unfold prepare_storable. cbn.
    specialize (Hl held eq_refl). naive_solver.
  - by eapply read_encoded; [apply _|exact Hr|].
Qed.

Lemma sizeN_shorter {A} (l : list A) (a : A) : u64 (sizeN (l ++ [a])) -> u64 (sizeN l).
Proof. unfold u64, sizeN. rewrite length_app. lia. Qed.

Lemma sizeN_last {A} (l : list A) (a : A) : sizeN (l ++ [a]) - 1 = sizeN l.
Proof. unfold sizeN. rewrite length_app. cbn. lia. Qed.

Lemma read_compact (k : EngineCore) : journalable k -> read_all (compact_frames k) (compact_log k).
Proof.
  intros [Hb Hp Hr Ha [Hm Hf]]. unfold compact_log.
  replace (sizeN (compact_frames k) - 1) with (sizeN (removelast (compact_frames k))).
  2: { unfold compact_frames. rewrite removelast_last. symmetry. apply sizeN_last. }
  unfold compact_frames in *. rewrite removelast_last. rewrite <- !app_assoc. apply Forall2_app; [|apply Forall2_app; [|apply Forall2_app]].
  - constructor; [|constructor]. by eapply read_encoded; [apply _|exact Hb|].
  - destruct (ek_policy k) as [p|] eqn:E; cbn [from_option]; [|constructor]. constructor; [|constructor].
    eapply read_encoded; [apply _|by apply Hp|done].
  - clear Hf Hm. induction Hr as [|r l Hr _ IH]; [constructor|]. cbn [mbind list_bind]. apply Forall2_app; [|exact IH].
    apply read_record; [done|]. intros held. apply Ha.
  - constructor; [|constructor]. eapply read_encoded; [apply _| |done].
    split; [exact Hm|]. split; [apply Hb|]. by apply sizeN_shorter in Hf.
Qed.

(** ** What the log says *)

#[local] Instance DecisionRecord_eq_dec : EqDecision DecisionRecord.
Proof. solve_decision. Defined.

Section log.
Context (k : EngineCore) (Hk : engine_wf k).
Let live := live_amounts (ek_ledger k).
Let records := in_audit_order (ek_history k).

Lemma records_found (r : DecisionRecord) :
  r ∈ records <-> history_find (dr_decision r) (ek_history k) = Some r.
Proof. apply audit_order_elem, Hk. Qed.

Lemma records_known (d : AdmissionDecisionId) (r : DecisionRecord) :
  history_find d (ek_history k) = Some r -> dr_decision r = d /\ d <> 0 /\ r ∈ records.
Proof.
  intros Hr. destruct (hwf_records _ (ew_history k Hk) d r Hr) as (_ & Hd & Hne).
  split_and!; [done|done|]. apply records_found. by rewrite Hd.
Qed.

(** The frames of a record are its only say about its decision. *)
Lemma record_word (d : AdmissionDecisionId) (r : DecisionRecord) acc :
  foldl (last_word d) acc (compact_record_log live r) =
  if dr_decision r =? d then Some (dr_outcome r, dr_state r) else acc.
Proof.
  unfold compact_record_log. destruct (live !! _); [destruct (is_admitting _)|]; done.
Qed.

Lemma records_word (d : AdmissionDecisionId) (l : list DecisionRecord) acc :
  (forall r, r ∈ l -> history_find (dr_decision r) (ek_history k) = Some r) ->
  foldl (last_word d) acc (l ≫= compact_record_log live) =
  match history_find d (ek_history k) with
  | Some r => if bool_decide (r ∈ l) then Some (dr_outcome r, dr_state r) else acc
  | None => acc
  end.
Proof.
  revert acc. induction l as [|x l IH]; intros acc Hl.
  { cbn. destruct (history_find _ _); [|done]. by rewrite bool_decide_false by apply not_elem_of_nil. }
  cbn [mbind list_bind]. rewrite foldl_app, record_word, IH by (intros r Hr; apply Hl; by right).
  assert (Hx : history_find (dr_decision x) (ek_history k) = Some x) by (apply Hl; left).
  destruct (N.eqb_spec (dr_decision x) d) as [<-|Hne].
  - rewrite Hx. rewrite (bool_decide_true (x ∈ x :: l)) by (by left). by case_bool_decide.
  - destruct (history_find d (ek_history k)) as [r|] eqn:E; [|done].
    apply (hwf_records _ (ew_history k Hk)) in E as (_ & Hd & _).
    apply (f_equal (fun b : bool => if b then _ else _)), bool_decide_ext. rewrite elem_of_cons. naive_solver.
Qed.

Lemma compact_word (d : AdmissionDecisionId) :
  word_on d (compact_log k) =
  (fun r => (dr_outcome r, dr_state r)) <$> history_find d (ek_history k).
Proof.
  unfold word_on, compact_log. rewrite !foldl_app.
  assert (Hskip : foldl (last_word d) None (from_option (fun p => [LogPolicy p]) [] (ek_policy k)) = None)
    by (by destruct (ek_policy k)).
  cbn [foldl last_word]. rewrite Hskip. rewrite records_word by (intros r; apply records_found).
  destruct (history_find d (ek_history k)) as [r|] eqn:E; [|done].
  rewrite bool_decide_true by (by eapply records_known). done.
Qed.

Lemma compact_elem (x : LogRecord) :
  x ∈ compact_log k -> (exists r, r ∈ records /\ x ∈ compact_record_log live r) \/
    (exists b, x = LogBoot b) \/ (exists p, x = LogPolicy p) \/ (exists m, x = LogMark m).
Proof.
  unfold compact_log. rewrite !elem_of_app, !list_elem_of_singleton, list_elem_of_bind.
  intros [ ->|[Hp|[(r & Hx & Hr)| ->]]]; [right; left; by eexists| |left; by exists r|right; right; right; by eexists].
  destruct (ek_policy k); [|by apply not_elem_of_nil in Hp]. apply list_elem_of_singleton in Hp as ->.
  right; right; left. by eexists.
Qed.

Lemma compact_released (d : AdmissionDecisionId) : ~ released_in d (compact_log k).
Proof.
  intros (r & [(x & _ & Hr)|[[? ?]|[[? ?]|[? ?]]]]%compact_elem & _); [|done..].
  unfold compact_record_log in Hr. destruct (live !! _); [destruct (is_admitting _)|]; set_solver.
Qed.

(** Exactly the records of held admissions are committed, each after its intent. *)
Lemma compact_committed (r : DecisionRecord) :
  LogCommit r ∈ compact_log k <->
  history_find (dr_decision r) (ek_history k) = Some r /\ is_admitting (dr_outcome r) = true /\
  exists held, live !! dr_decision r = Some held.
Proof.
  split.
  - intros [(x & Hx & Hr)|[[? ?]|[[? ?]|[? ?]]]]%compact_elem; [|done..].
    unfold compact_record_log in Hr. destruct (live !! dr_decision x) as [held|] eqn:E; [|set_solver].
    destruct (is_admitting (dr_outcome x)) eqn:Ea; [|set_solver].
    assert (r = x) as -> by set_solver. split_and!; [by apply records_found|done|by exists held].
  - intros (Hr & Ha & held & Hh). unfold compact_log. rewrite !elem_of_app, list_elem_of_bind.
    right. right. left. exists r. split; [|by apply records_found].
    unfold compact_record_log. fold live. rewrite Hh, Ha. set_solver.
Qed.

Lemma compact_prepared (s : N) (p : PrepareRecord) :
  LogPrepare s p ∈ compact_log k ->
  live !! pr_decision p = Some (pr_amounts p) /\
  exists r, history_find (pr_decision p) (ek_history k) = Some r /\ pr_path p = dr_path r.
Proof.
  intros [(x & Hx & Hr)|[[? ?]|[[? ?]|[? ?]]]]%compact_elem; [|done..].
  unfold compact_record_log in Hr. destruct (live !! dr_decision x) as [held|] eqn:E; [|set_solver].
  destruct (is_admitting _); [|set_solver].
  apply elem_of_cons in Hr as [Ep|Hr]; [|set_solver]. injection Ep as _ ->. split; [done|].
  exists x. split; [|done]. by apply records_found.
Qed.
End log.

(** ** Renumbered frames

    The journal gives the compacted frames sequence numbers of its own.  Those of the
    intents end up in the log; apart from them it says the same. *)

Definition strip (r : LogRecord) : LogRecord :=
  match r with LogPrepare _ p => LogPrepare 0 p | r => r end.

Lemma read_log_strip (f f' : JournalFrame) (r r' : LogRecord) :
  body f = body f' -> read_log f = Val r -> read_log f' = Val r' -> strip r = strip r'.
Proof.
  destruct f as [kind s bs], f' as [kind' s' bs']. intros [= -> ->]. unfold read_log. cbn [jf_kind jf_payload jf_sequence].
  destruct kind'; cbn; try (intros [= <-] [= <-]; done);
    match goal with |- context [?dec bs'] => destruct (dec bs') end; try done; by intros [= <-] [= <-].
Qed.

Lemma read_all_strip (fs fs' : list JournalFrame) (rs rs' : list LogRecord) :
  body <$> fs = body <$> fs' -> read_all fs rs -> read_all fs' rs' -> strip <$> rs = strip <$> rs'.
Proof.
  intros E H. revert fs' rs' E. induction H as [|f r fs rs Hf _ IH]; intros fs' rs' E H'.
  - destruct fs'; [|done]. by inversion H'.
  - destruct fs' as [|f' fs']; [done|]. injection E as Ek Ep Efs. inversion H' as [|? r' ? rs1 Hf' Hr']; subst.
    cbn. f_equal; [|by eapply IH]. eapply (read_log_strip f f'); [|done..]. unfold body. by rewrite Ek, Ep.
Qed.

Lemma read_all_exists (fs fs' : list JournalFrame) (rs : list LogRecord) :
  body <$> fs = body <$> fs' -> read_all fs rs -> exists rs', read_all fs' rs'.
Proof.
  intros E H. revert fs' E. induction H as [|f r fs rs Hf _ IH]; intros fs' E.
  - destruct fs'; [|done]. exists []. constructor.
  - destruct fs' as [|f' fs']; [done|]. injection E as Ek Ep Efs. destruct (IH fs' Efs) as [rs' Hrs].
    assert (exists r', read_log f' = Val r') as [r' Hr'].
    { destruct f as [kind s bs], f' as [kind' s' bs']. cbn in Ek, Ep. subst. revert Hf. unfold read_log.
      cbn [jf_kind jf_payload jf_sequence].
      destruct kind'; cbn; try (intros _; by eexists);
        match goal with |- context [?dec bs'] => destruct (dec bs') end; try done; intros _; by eexists. }
    exists (r' :: rs'). by constructor.
Qed.

Lemma compact_log_stripped (k : EngineCore) : strip <$> compact_log k = compact_log k.
Proof.
  unfold compact_log. rewrite !fmap_app. repeat f_equal; [by destruct (ek_policy k)|].
  induction (in_audit_order (ek_history k)) as [|r l IH]; [done|]. cbn [mbind list_bind]. rewrite fmap_app, IH. f_equal.
  unfold compact_record_log. destruct (_ !! _); [destruct (is_admitting _)|]; done.
Qed.

Lemma strip_word (d : AdmissionDecisionId) (rs : list LogRecord) : word_on d (strip <$> rs) = word_on d rs.
Proof.
  unfold word_on. generalize (@None (AdmissionOutcome * RevalidationState)).
  induction rs as [|r rs IH]; intros acc; [done|]. cbn. rewrite IH. by destruct r.
Qed.

Lemma strip_elem (r : LogRecord) (rs : list LogRecord) :
  (forall s p, r <> LogPrepare s p) -> r ∈ strip <$> rs <-> r ∈ rs.
Proof.
  intros Hr. rewrite list_elem_of_fmap. split.
  - intros (r' & -> & H). by destruct r'; try done; destruct (Hr 0 prepare).
  - intros H. exists r. split; [|done]. destruct r; try done. by destruct (Hr sequence prepare).
Qed.

Lemma strip_prepare (s : N) (p : PrepareRecord) (rs : list LogRecord) :
  LogPrepare s p ∈ rs -> LogPrepare 0 p ∈ strip <$> rs.
Proof. intros H. apply list_elem_of_fmap. by exists (LogPrepare s p). Qed.

Lemma read_renumbered (k : EngineCore) (frames : list JournalFrame) (rs : list LogRecord) :
  journalable k -> body <$> frames = body <$> compact_frames k -> read_all frames rs -> strip <$> rs = compact_log k.
Proof.
  intros Hj E H. rewrite <- compact_log_stripped. by eapply read_all_strip; [exact E|exact H|apply read_compact].
Qed.

(** ** What is restored *)

(** The grant of [d] stands in the engine: it holds load, and its record is neither
    revoked nor expired. *)
Definition stands_still (k : EngineCore) (d : AdmissionDecisionId) : Prop :=
  holds (ek_ledger k) d = true /\
  exists r, history_find d (ek_history k) = Some r /\ dr_state r <> RS_Revoked /\ dr_state r <> RS_Expired.

(** The same grants hold the same amounts on the same resources. *)
Definition same_grants (k k' : EngineCore) : Prop :=
  (forall d, holds (ek_ledger k') d = true <-> stands_still k d) /\
  (forall d es', lg_by_decision (ek_ledger k') !! d = Some es' ->
     exists es, lg_by_decision (ek_ledger k) !! d = Some es /\ (entry_amount <$> es') ≡ₚ (entry_amount <$> es)).

Lemma compacted_log_restores (k k0 k1 : EngineCore) (frames : list JournalFrame) (rs : list LogRecord)
    (lc : Replay) (l : AdmittedLoadLedger) (k' : EngineCore) :
  engine_wf k -> journalable k -> body <$> frames = body <$> compact_frames k ->
  ek_ledger k0 = Ledger_new -> hi_records (ek_history k0) = ∅ ->
  read_all frames rs -> apply_all rs Replay_new k0 = Some (lc, k1) ->
  restored (rp_released_ids lc) k1 (items (rp_committed lc)) (ek_ledger k0) l ->
  ek_ledger k' = mark_all_requiring_revalidation l -> same_grants k k'.
Proof.
  intros Hk Hj Eb Hl Hh Hread Happ Hres Ek'. pose proof (read_renumbered k frames rs Hj Eb Hread) as Ers.
  pose proof (apply_all_log _ [] _ _ _ _ (log_start k0 Hh) Happ) as Hlog. cbn [app] in Hlog.
  destruct (restored_load _ lc k0 k1 l Hl Hlog Hres) as [Hheld Hback]. rewrite <- Ek' in *.
  assert (Hcommit : forall r, LogCommit r ∈ rs <-> LogCommit r ∈ compact_log k)
    by (intros r; rewrite <- Ers; symmetry; by apply strip_elem).
  assert (Hword : forall d, word_on d rs = word_on d (compact_log k)) by (intros d; by rewrite <- Ers, strip_word).
  split.
  - intros d. split; [intros (es & He)%holds_iff|intros [(es & He)%holds_iff (r & Hr & Hs)]].
    + destruct (Hheld d es He) as ([(o & s & Hw & _ & Hs) _] & (r & Hc & Hd) & _).
      rewrite Hword, compact_word in Hw by done. apply Hcommit, (compact_committed k Hk) in Hc as (Hr & _ & held & Hv).
      rewrite Hd in Hr, Hv. rewrite Hr in Hw. injection Hw as <- <-.
      destruct (live_amounts_spec (ek_ledger k) d (ew_ledger k Hk)) as [Hlive _].
      destruct (Hlive held Hv) as (es0 & He0 & _). split; [by apply holds_iff; exists es0|by exists r].
    + destruct (records_known k Hk d r Hr) as (Hd & Hd0 & _).
      destruct (ew_held k Hk d) as (r' & Hr' & Ha); [by apply holds_iff; exists es|].
      assert (r' = r) as -> by congruence.
      destruct (live_amounts_spec (ek_ledger k) d (ew_ledger k Hk)) as [_ Hnone].
      destruct (live_amounts (ek_ledger k) !! d) as [held|] eqn:Hv; [|by rewrite (proj1 Hnone eq_refl) in He].
      rewrite <- Hd. apply Hback; [|done|by rewrite Hd|].
      * apply Hcommit, (compact_committed k Hk). rewrite Hd. split_and!; [done|done|by exists held].
      * split.
        -- exists (dr_outcome r), (dr_state r). rewrite Hword, (compact_word k Hk), Hd, Hr. split_and!; [done|done|apply Hs|apply Hs].
        -- intros (x & Hx & Ex). apply (compact_released k Hk (dr_decision r)). exists x. split; [|done].
           rewrite <- Ers. by apply strip_elem.
  - intros d es' He. destruct (Hheld d es' He) as (_ & _ & (p & (s & Hp & Hd) & Ham) & _).
    apply strip_prepare in Hp. rewrite Ers in Hp. apply (compact_prepared k Hk) in Hp as [Hp _]. rewrite Hd in Hp.
    destruct (live_amounts_spec (ek_ledger k) d (ew_ledger k Hk)) as [Hlive _].
    destruct (Hlive _ Hp) as (es & He0 & Hperm). exists es. split; [done|]. by rewrite Ham.
Qed.

(** Compaction preserves the admitted load.  When the frames [compact_locked]
    writes for an engine are recovered into a fresh one, under whatever sequence
    numbers, a decision holds load again exactly if it held load in the engine and its
    record is not marked revoked or expired; and each restored decision holds the
    amounts it held before, resource by resource. *)
Theorem compaction_preserves_load (k k0 k' : EngineCore) (frames : list JournalFrame) (report report' : RecoveryReport)
    (Hk : engine_wf k) (Hj : journalable k) (Hf : body <$> frames = body <$> compact_frames k)
    (Hl : ek_ledger k0 = Ledger_new) (Hh : hi_records (ek_history k0) = ∅)
    (Hrun : recover_from frames report k0 = (report', k'))
    (Ho : rr_outcome report' <> RecoveryRefused) :
  (forall d, holds (ek_ledger k') d = true <-> stands_still k d) /\
  (forall d es', lg_by_decision (ek_ledger k') !! d = Some es' ->
     exists es, lg_by_decision (ek_ledger k) !! d = Some es /\ (entry_amount <$> es') ≡ₚ (entry_amount <$> es)).
Proof.
  destruct (recover_outcome _ _ _ _ _ Hrun Ho) as (rs & lc & k1 & l & next & Hry).
  destruct Hry as [Hread Happ Hres Hn (j & f & ->)].
  by apply (compacted_log_restores k k0 k1 frames rs lc l).
Qed.

Lemma sample_policy_storable : policy_storable sample_policy.
Proof. unfold policy_storable. split_and!; storable. Qed.

Lemma granted_policy : ek_policy granted_engine = Some sample_policy.
Proof. by vm_compute. Qed.

(** The records of the example, evaluated. *)
Definition granted_records : list DecisionRecord := Eval vm_compute in in_audit_order (ek_history granted_engine).

Lemma granted_records_found : in_audit_order (ek_history granted_engine) = granted_records.
Proof. by vm_compute. Qed.

Lemma granted_amounts (d : AdmissionDecisionId) (held : list (ResourceId * Rate)) :
  live_amounts (ek_ledger granted_engine) !! d = Some held -> held = [(1, 50)].
Proof.
  assert (H : map_to_list (live_amounts (ek_ledger granted_engine)) = [(1, [(1, 50)])]) by (by vm_compute).
  intros Hd%elem_of_map_to_list. rewrite H in Hd. by apply list_elem_of_singleton in Hd as [= _ ->].
Qed.

Lemma granted_journalable : journalable granted_engine.
Proof.
  constructor.
  - unfold boot_storable. split_and!; by vm_compute.
  - intros p Hp. rewrite granted_policy in Hp. injection Hp as <-. exact sample_policy_storable.
  - rewrite granted_records_found. repeat constructor.
  - intros d held ->%granted_amounts. split; [by vm_compute|storable].
  - by vm_compute.
Qed.

Lemma compaction_preserves_load_witness :
  holds (ek_ledger restart_run.2) 1 = true /\
  forall d, holds (ek_ledger restart_run.2) d = true -> holds (ek_ledger granted_engine) d = true.
Proof.
  assert (Ho : rr_outcome restart_run.1 <> RecoveryRefused) by (vm_compute; discriminate).
  destruct (compaction_preserves_load granted_engine fresh_engine restart_run.2 (compact_frames granted_engine)
    RecoveryReport_new restart_run.1 granted_engine_wf granted_journalable eq_refl eq_refl eq_refl (surjective_pairing _) Ho) as [H _].
  split; [by vm_compute|]. intros d Hd. by apply H in Hd as [? _].
Defined.
