(* ===== verification/Continuity.v ===== *)
(** * Continuity: compaction, crash and restart together

    A compacted journal is never refused, and a coordinator that restarts on it carries
    the load of the one that wrote it. *)

From S2P Require Import Prelude.
From S2P Require Import Checked.
From S2P Require Import Identity.
From S2P Require Import Hash.
From S2P Require Import State.
From S2P Require Import Policy.
From S2P Require Import Request.
From S2P Require Import Authority.
From S2P Require Import Decision.
From S2P Require Import Ledger.
From S2P Require Import History.
From S2P Require Import Bytes.
From S2P Require Import Records.
From S2P Require Import Journal.
From S2P Require Import Engine.
From S2P Require Import Log.
From S2P Require Import Recovery.
From S2P Require Import Admission.
From S2P Require Import Capacity.
From S2P Require Import Frames.
From S2P Require Import Grant.
From S2P Require Import Safety.
From S2P Require Import Api.
From S2P Require Import Enforce.
From S2P Require Import Restart.
From S2P Require Import Compaction.
Local Open Scope N_scope.
Local Open Scope naf_scope.

(** ** Restoring a ledger that fits *)

(** The sum of a figure over intents. *)
Definition summed (f : N -> PrepareRecord -> N) (cs : list (N * PrepareRecord)) : N :=
  sumN ((fun c => f c.1 c.2) <$> cs).

Lemma summed_cons (f : N -> PrepareRecord -> N) (d : N) (p : PrepareRecord) cs :
  summed f ((d, p) :: cs) = f d p + summed f cs.
Proof. done. Qed.

Definition intent_size (_ : N) (p : PrepareRecord) : N := sizeN (pr_amounts p).
Definition intent_load (r : ResourceId) (_ : N) (p : PrepareRecord) : N := amount_of r (pr_amounts p).
Definition intent_path (q : PathId) (_ : N) (p : PrepareRecord) : N :=
  if decide (pr_path p = q) then path_amount (pr_amounts p) else 0.

(** An intent that can be reserved, and intents that fit a ledger together. *)
Record intent_ok (l : AdmittedLoadLedger) (d : N) (p : PrepareRecord) : Prop := {
  io_decision : pr_decision p = d;
  io_known : d <> 0;
  io_new : lg_by_decision l !! d = None;
  io_amounts : pr_amounts p <> [];
  io_shape : prepare_ok p;
  io_resources : Forall (fun a => a.1 <> 0) (pr_amounts p);
}.

Record restorable (l : AdmittedLoadLedger) (cs : list (N * PrepareRecord)) : Prop := {
  re_wf : ledger_wf l;
  re_distinct : NoDup cs.*1;
  re_intents : Forall (fun c => intent_ok l c.1 c.2) cs;
  re_count : lg_entry_count l + summed intent_size cs <= max_ledger_entries;
  re_loads : forall r, admitted l r + summed (intent_load r) cs < two64;
  re_paths : forall q, total_of (lg_path_totals l) q + summed (intent_path q) cs < two64;
}.

Lemma restorable_skip (l : AdmittedLoadLedger) (d : N) (p : PrepareRecord) (cs : list (N * PrepareRecord)) :
  restorable l ((d, p) :: cs) -> restorable l cs.
Proof.
  intros [Hw Hd Hi Hc Hl Hp]. apply Forall_cons in Hi as [_ Hi]. apply NoDup_cons in Hd as [_ Hd].
  rewrite summed_cons in Hc. constructor; [done..|lia| |].
  - intros r. specialize (Hl r). rewrite summed_cons in Hl. lia.
  - intros q. specialize (Hp q). rewrite summed_cons in Hp. lia.
Qed.

(** The next intent is reserved, and the others still fit. *)
Lemma restorable_reserve (l : AdmittedLoadLedger) (d : N) (p : PrepareRecord) (cs : list (N * PrepareRecord)) :
  restorable l ((d, p) :: cs) -> exists l', reserve_prepared p l = (Val tt, l') /\ restorable l' cs.
Proof.
  intros H. pose proof H as [Hw Hnd Hi Hc Hl Hp]. apply Forall_cons in Hi as [[Hd Hk Hn Ha (Hs & Hu & Hz) Hr] Hi].
  cbn [fst snd] in *. rewrite summed_cons in Hc. unfold intent_size at 1 in Hc.
  assert (Hg : reservable (pr_decision p) (pr_amounts p) l).
  { rewrite Hd. split_and!; [done..|lia|]. apply Forall_forall. intros [r a] Hin. split.
    - rewrite Forall_forall in Hr. by apply (Hr _ Hin).
    - specialize (Hl r). rewrite summed_cons in Hl. unfold intent_load at 1 in Hl.
      rewrite (amount_of_in r a) in Hl by done. cbn. lia. }
  assert (Hroom : path_room (pr_path p) (pr_amounts p) l).
  { right. specialize (Hp (pr_path p)). rewrite summed_cons in Hp. unfold intent_path at 1 in Hp.
    rewrite decide_True in Hp by done. lia. }
  assert (Hword : u64 (total_of (lg_path_totals l) (pr_path p))) by (specialize (Hp (pr_path p)); unfold u64; lia).
  pose proof (reserve_succeeds (pr_decision p) (pr_demand p) (pr_epoch p) (pr_bound_capacity_generation p)
    (pr_path p) (pr_amounts p) Hs Hu Hz l Hw Hword) as Hok.
  pose proof (reserve_outcome (pr_decision p) (pr_demand p) (pr_epoch p) (pr_bound_capacity_generation p)
    (pr_path p) (pr_amounts p) Hs Hu Hz l Hw) as Hout.
  pose proof (reserve_prepared_wf p l ltac:(done) Hw) as Hw'. unfold reserve_prepared in *. unfold wp in Hout.
  destruct (reserve _ _ _ _ _ _ l) as [res l']. cbn [fst snd] in *. destruct Hok as [[_ Hok] Hpath].
  specialize (Hok (conj Hg Hroom)). subst res. destruct Hout as [_ (Hl' & _ & Hb & Hc')]. specialize (Hpath eq_refl).
  exists l'. split; [done|]. apply NoDup_cons in Hnd as [Hfresh Hnd]. constructor; [done|done| | | |].
  - apply Forall_forall. intros [d' q] Hin. rewrite Forall_forall in Hi. destruct (Hi _ Hin). cbn [fst snd] in *. constructor; try done.
    rewrite Hb, Hd, lookup_insert_ne; [done|]. intros <-. apply Hfresh. apply list_elem_of_fmap. by exists (d, q).
  - rewrite Hc'. lia.
  - intros r. specialize (Hl r). rewrite summed_cons in Hl. unfold intent_load at 1 in Hl. rewrite Hl'. lia.
  - intros q. specialize (Hp q). rewrite summed_cons in Hp. unfold intent_path at 1 in Hp. rewrite Hpath.
    destruct (decide (q = pr_path p /\ pr_path p <> 0)) as [[-> _]|]; [rewrite decide_True in Hp by done; lia|].
    destruct (decide (pr_path p = q)); lia.
Qed.

(** Only the intents whose grants stand are reserved, and they need to fit. *)
Lemma restore_succeeds (released : list AdmissionDecisionId) (cs : list (N * PrepareRecord)) (k : EngineCore) :
  restorable (ek_ledger k) (filter (fun c => still_live k released c.2 = true) cs) ->
  (restore_ledger released cs k).1 = Val tt.
Proof.
  revert k. induction cs as [|[d p] cs IH]; intros k H; [done|]. cbn [restore_ledger].
  unfold mbind, M_bind, get. destruct (still_live k released p) eqn:E.
  - rewrite filter_cons_True in H by done. destruct (restorable_reserve _ _ _ _ H) as (l' & El & H').
    rewrite on_ledger_run, El. by apply IH.
  - rewrite filter_cons_False in H by (cbn; congruence). by apply IH.
Qed.

Lemma restorable_filter (P : N * PrepareRecord -> Prop) `{!forall c, Decision (P c)} (l : AdmittedLoadLedger)
    (cs : list (N * PrepareRecord)) : restorable l cs -> restorable l (filter P cs).
Proof.
  intros [Hw Hd Hi Hc Hl Hp].
  assert (Hs : forall f, summed f (filter P cs) <= summed f cs).
  { intros f. clear. induction cs as [|c cs IH]; [done|]. rewrite filter_cons. destruct c as [d p].
    destruct (decide (P (d, p))); rewrite !summed_cons; lia. }
  constructor; [done| | | | |].
  - clear - Hd. induction cs as [|[d p] cs IH]; [done|]. apply NoDup_cons in Hd as [Hn Hd]. rewrite filter_cons.
    destruct (decide _); [|by apply IH]. apply NoDup_cons. split; [|by apply IH].
    contradict Hn. apply list_elem_of_fmap in Hn as (c & -> & [_ Hc]%list_elem_of_filter). by apply list_elem_of_fmap_2.
  - rewrite Forall_forall in *. intros c [_ Hin]%list_elem_of_filter. by apply Hi.
  - specialize (Hs intent_size). lia.
  - intros r. specialize (Hs (intent_load r)). specialize (Hl r). lia.
  - intros q. specialize (Hs (intent_path q)). specialize (Hp q). lia.
Qed.

(** ** The intents of a compacted log fit *)

Definition path_of (k : EngineCore) (d : AdmissionDecisionId) : PathId :=
  from_option dr_path 0 (history_find d (ek_history k)).

(** What the live grants add to the total of a path when they are reserved again. *)
Definition path_demand (k : EngineCore) (q : PathId) : N :=
  map_sum (fun d held => if decide (path_of k d = q) then path_amount held else 0) (live_amounts (ek_ledger k)).

Lemma items_summed (f : N -> PrepareRecord -> N) (m : gmap N PrepareRecord) : summed f (items m) = map_sum f m.
Proof. unfold summed, map_sum. by rewrite map_items_perm. Qed.

Section fits.
Context (k : EngineCore) (Hk : engine_wf k) (Hj : journalable k).
Let live := live_amounts (ek_ledger k).

Lemma live_sum (f : list (ResourceId * Rate) -> N) `{!Proper ((≡ₚ) ==> eq) f} :
  f [] = 0 -> (forall l l', f (l ++ l') = f l + f l') ->
  map_sum (fun _ held => f held) live = f (entry_amount <$> all_entries (lg_by_decision (ek_ledger k))).
Proof.
  intros H0 Happ. rewrite (all_entries_sum (fun es => f (entry_amount <$> es))) by (done || (intros; by rewrite fmap_app)).
  apply map_sum_ext. intros d. destruct (live_amounts_spec (ek_ledger k) d (ew_ledger k Hk)) as [Hlive Hnone].
  fold live in Hlive, Hnone. destruct (live !! d) as [held|].
  - destruct (Hlive held eq_refl) as (es & -> & Hp). cbn. by rewrite Hp.
  - by rewrite (proj1 Hnone eq_refl).
Qed.

(** Intents whose amounts are those of live grants are worth no more than these. *)
Lemma committed_sum (f : N -> list (ResourceId * Rate) -> N) (m : gmap N PrepareRecord) :
  pr_amounts <$> m ⊆ live -> map_sum (fun d p => f d (pr_amounts p)) m <= map_sum f live.
Proof.
  intros H. etrans; [|by apply map_sum_subseteq]. apply N.eq_le_incl, map_sum_ext.
  intros d. rewrite lookup_fmap. by destruct (m !! d).
Qed.

Lemma compact_restorable (m : gmap N PrepareRecord) :
  (forall d p, m !! d = Some p -> pr_decision p = d /\ LogPrepare 0 p ∈ compact_log k) ->
  (forall q, path_demand k q < two64) -> restorable Ledger_new (items m).
Proof.
  intros Hm Hpath.
  assert (Hin : forall d p, m !! d = Some p -> live !! d = Some (pr_amounts p) /\ pr_path p = path_of k d).
  { intros d p [Hd [Hl (r & Hr & Hp)]%compact_prepared]%Hm; [|done]. rewrite Hd in *. split; [done|]. unfold path_of. by rewrite Hr. }
  assert (Hsub : pr_amounts <$> m ⊆ live).
  { apply map_subseteq_spec. intros d held. rewrite lookup_fmap. intros (p & Hp & ->)%fmap_Some. by apply Hin. }
  constructor.
  - exact ledger_new_wf.
  - rewrite map_items_perm. apply NoDup_fst_map_to_list.
  - apply Forall_forall. intros [d p] Hp%elem_of_map_items. destruct (Hm d p Hp) as [Hd _]. destruct (Hin d p Hp) as [Hl _].
    destruct (live_amounts_spec (ek_ledger k) d (ew_ledger k Hk)) as [Hlive _].
    destruct (Hlive _ Hl) as (es & He & Hperm). destruct (lwf_decisions _ (ew_ledger k Hk) d es He) as [Hk0 Hne Hes Hnd].
    destruct (jo_amounts k Hj d _ Hl) as [Hsz Hu]. cbn [fst snd]. constructor; [done|done|done| | |].
    + intros E. rewrite E in Hperm. apply Permutation_nil in Hperm. by destruct es.
    + split_and!.
      * rewrite Hperm. rewrite <- list_fmap_compose. exact Hnd.
      * eapply Forall_impl; [exact Hu|]. by intros a [].
      * unfold max_resource_bindings, ptrdiff_max in *. lia.
    + rewrite Hperm. apply Forall_fmap. eapply Forall_impl; [exact Hes|]. by intros e [].
  - rewrite items_summed. pose proof (committed_sum (fun _ held => sizeN held) m Hsub) as H. cbn.
    rewrite (live_sum sizeN) in H by (done || (intros; apply sizeN_app)).
    pose proof (lwf_count _ (ew_ledger k Hk)). pose proof (lwf_bounded _ (ew_ledger k Hk)).
    unfold sizeN in H at 2. rewrite length_fmap in H. unfold intent_size, sizeN in *. lia.
  - intros r. rewrite items_summed. pose proof (committed_sum (fun _ held => amount_of r held) m Hsub) as H. cbn.
    rewrite (live_sum (amount_of r)) in H by (done || (intros; apply amount_of_app)).
    pose proof (lwf_totals _ (ew_ledger k Hk) r) as Ht. unfold load in Ht. pose proof (lwf_words _ (ew_ledger k Hk) r).
    unfold intent_load. change (admitted Ledger_new r) with 0. lia.
  - intros q. rewrite items_summed. change (total_of _ q) with 0. rewrite N.add_0_l.
    eapply N.le_lt_trans; [|exact (Hpath q)].
    pose proof (committed_sum (fun d held => if decide (path_of k d = q) then path_amount held else 0) m Hsub) as H.
    etrans; [|exact H]. apply N.eq_le_incl, map_sum_ext. intros d. destruct (m !! d) as [p|] eqn:E; [|done].
    cbn. unfold intent_path. by destruct (Hin d p E) as [_ ->].
Qed.
End fits.

(** ** A compacted log is never refused *)

(** Records that are applied in any state, and the pairs of an intent and its commit. *)
Definition harmless (r : LogRecord) : Prop :=
  match r with
  | LogBoot b => br_format_revision b = format_revision /\ br_product b = product_name
  | LogPolicy p => policy_wf p
  | LogCommit _ => False
  | _ => True
  end.

Inductive acceptable : list LogRecord -> Prop :=
  | acceptable_nil : acceptable []
  | acceptable_cons r rs : harmless r -> acceptable rs -> acceptable (r :: rs)
  | acceptable_pair s p r rs :
      pr_decision p = dr_decision r -> acceptable rs -> acceptable (LogPrepare s p :: LogCommit r :: rs).

Lemma acceptable_app (rs rs' : list LogRecord) : acceptable rs -> acceptable rs' -> acceptable (rs ++ rs').
Proof. intros H H'. induction H; cbn; [done|by constructor|by constructor]. Qed.

Lemma acceptable_strip (rs : list LogRecord) : acceptable (strip <$> rs) -> acceptable rs.
Proof.
  intros H. remember (strip <$> rs) as rs0 eqn:E. revert rs E.
  induction H as [|r rs0 Hr _ IH|s p r rs0 Hd _ IH]; intros rs E.
  - destruct rs; [constructor|done].
  - destruct rs as [|r' rs]; [done|]. injection E as -> E. constructor; [by destruct r'|by apply IH].
  - destruct rs as [|r1 [|r2 rs]]; [discriminate E..|]. injection E as E1 E2 E.
    destruct r1; try discriminate E1. destruct r2; try discriminate E2. injection E1 as _ <-. injection E2 as <-.
    constructor; [done|by apply IH].
Qed.

Lemma acceptable_applies (rs : list LogRecord) :
  acceptable rs -> forall lc k, exists lc' k', apply_all rs lc k = Some (lc', k').
Proof.
  induction 1 as [|r rs Hr _ IH|s p r rs Hd _ IH]; intros lc k; [by exists lc, k| |].
  - cbn [apply_all]. destruct r as [b|p|s p|r|r|r|v|m|]; cbn [apply_log]; try apply IH; [| |done].
    + unfold replay_boot. destruct Hr as [-> ->]. rewrite N.eqb_refl, bool_decide_true by done. apply IH.
    + apply validate_policy_spec in Hr. unfold replay_policy. rewrite Hr. apply IH.
  - cbn [apply_all apply_log]. unfold replay_prepare, replay_commit. cbn [rp_pending set_field].
    rewrite Hd, lookup_insert_eq. rewrite (bool_decide_false (Some _ = None)) by done. rewrite andb_false_r. apply IH.
Qed.

Lemma compact_acceptable (k : EngineCore) :
  (forall p, ek_policy k = Some p -> policy_wf p) -> acceptable (compact_log k).
Proof.
  intros Hp. unfold compact_log. apply acceptable_app; [by repeat constructor|].
  apply acceptable_app; [|apply acceptable_app; [|by repeat constructor]].
  - destruct (ek_policy k) as [p|]; [|constructor]. constructor; [by apply Hp|constructor].
  - induction (in_audit_order (ek_history k)) as [|r l IH]; [constructor|]. cbn [mbind list_bind].
    apply acceptable_app; [|done]. unfold compact_record_log.
    destruct (_ !! _); [destruct (is_admitting _)|]; by repeat constructor.
Qed.

(** The epoch a replay of the log arrives at is that of its boot record. *)
Lemma apply_all_epoch (rs : list LogRecord) (lc lc' : Replay) (k k' : EngineCore) :
  (forall b, LogBoot b ∉ rs) -> apply_all rs lc k = Some (lc', k') -> rp_epoch lc' = rp_epoch lc.
Proof.
  revert lc k. induction rs as [|r rs IH]; intros lc k Hb; cbn [apply_all]; [by intros [= <- <-]|].
  destruct (apply_log r lc k) as [lc1 k1|] eqn:E; [|done]. intros Hrun.
  apply IH in Hrun; [|intros b H; apply (Hb b); by right]. rewrite Hrun. cbn [rp_epoch set_field].
  destruct r as [b|p|s p|r|r|r|v|m|]; cbn in E.
  { exfalso. apply (Hb b). left. }
  all: revert E; unfold replay_policy, replay_prepare, replay_commit, replay_refused, replay_release,
    replay_revocation, replay_mark, restore_record; repeat case_match; try done; by intros [= <- <-].
Qed.

Lemma classify_accepts (report : RecoveryReport) : classify_recovery report <> RecoveryRefused.
Proof. unfold classify_recovery. by repeat case_match. Qed.

Lemma restore_ledger_state (released : list AdmissionDecisionId) (cs : list (N * PrepareRecord)) (k : EngineCore) :
  exists l, (restore_ledger released cs k).2 = k <| ek_ledger := l |>.
Proof.
  revert k. induction cs as [|[d p] cs IH]; intros k; cbn [restore_ledger].
  - exists (ek_ledger k). by destruct k.
  - unfold mbind, M_bind, get. destruct (still_live k released p).
    + rewrite on_ledger_run. destruct (reserve_prepared p (ek_ledger k)) as [[u|s] l1]; cbn [fst snd]; [|by exists l1].
      destruct (IH (k <| ek_ledger := l1 |>)) as [l2 E]. exists l2. by rewrite E.
    + apply IH.
Qed.

(** A readable log that is applied, and whose intents fit, is recovered. *)
Lemma recover_succeeds (frames : list JournalFrame) (report : RecoveryReport) (k k1 : EngineCore)
    (rs : list LogRecord) (lc : Replay) (next : FabricEpoch) :
  read_all frames rs -> apply_all rs Replay_new k = Some (lc, k1) ->
  restorable (ek_ledger k)
    (filter (fun c => still_live k1 (rp_released_ids lc) c.2 = true) (items (rp_committed lc))) ->
  next_epoch (rp_epoch lc) (ec_epoch (ek_config k)) = Val next ->
  (forall k2, ek_journal k2 = ek_journal k -> ek_journal_ready k2 = ek_journal_ready k ->
     ek_faults k2 = ek_faults k -> (write_boot k2).1 = Val tt) ->
  rr_outcome (recover_from frames report k).1 <> RecoveryRefused.
Proof.
  intros Hread Happ Hfit Hn Hboot. unfold recover_from.
  rewrite (proj2 (replay_frames_log frames Replay_new lc k k1) (ex_intro _ rs (conj Hread Happ))).
  destruct (apply_all_only _ _ _ _ _ Happ) as (p & h & a & Hk1).
  assert (Hsame : ek_ledger k1 = ek_ledger k /\ ek_config k1 = ek_config k /\ ek_journal k1 = ek_journal k /\
    ek_journal_ready k1 = ek_journal_ready k /\ ek_faults k1 = ek_faults k) by (by rewrite Hk1).
  destruct Hsame as (El & Ec & Ej & Er & Ef). rewrite <- El in Hfit. rewrite <- Ej, <- Er, <- Ef in Hboot.
  pose proof (restore_succeeds (rp_released_ids lc) (items (rp_committed lc)) k1 Hfit) as Hres.
  destruct (restore_ledger_state (rp_released_ids lc) (items (rp_committed lc)) k1) as [l Hl].
  destruct (restore_ledger _ _ k1) as [r k2]. cbn [fst snd] in Hres, Hl. subst r k2.
  rewrite trim_history_run. unfold finish_recovery. cbn [ek_config set_field].
  replace (ec_epoch _) with (ec_epoch (ek_config k)) by (by rewrite <- Ec). rewrite Hn.
  match goal with |- context [write_boot ?k0] => pose proof (Hboot k0 eq_refl eq_refl eq_refl) as Hb;
    destruct (write_boot k0) as [[u|s] k3]; [|done] end.
  cbn [fst rr_outcome set_field]. apply classify_accepts.
Qed.

Lemma boot_size (epoch incarnation : N) : sizeN (encode_boot (make_boot_record epoch incarnation)) = 52.
Proof.
  unfold encode_boot, make_boot_record, w_u16, w_u64, sizeN. cbn [br_format_revision br_product br_epoch br_boot_nonce br_incarnation].
  rewrite !length_app, !le_bytes_length. by vm_compute.
Qed.

Lemma write_boot_succeeds (k : EngineCore) (j : Journal) :
  ek_journal k = Some j -> jn_script j = [] -> jn_file_open j = true -> 52 <= jo_max_payload (jn_options j) ->
  ft_fail_next_journal_append (ek_faults k) = false -> (write_boot k).1 = Val tt.
Proof.
  intros Hj Hs Ho Hp Hf. unfold write_boot, write_record, mbind, M_bind, gets.
  destruct (has_journal k); [|done]. cbn [negb]. rewrite Hf. unfold on_journal. rewrite Hj.
  pose proof (append_outcome j JK_BootEpoch (encode_boot (make_boot_record (ek_epoch k) (ek_incarnation k))) Hs Ho) as H.
  rewrite boot_size in H. specialize (H Hp). unfold wp in H. destruct (journal_append _ _ j) as [r j'].
  cbn in H |- *. by destruct H as [-> _].
Qed.

(** A boot record fits any journal: it is written, unless the file system goes. *)
Lemma write_boot_logs (o : JournalOptions) (k : EngineCore) (rs : list LogRecord) :
  logged o k rs -> boot_storable (make_boot_record (ek_epoch k) (ek_incarnation k)) -> 52 <= jo_max_payload o ->
  let boot := LogBoot (make_boot_record (ek_epoch k) (ek_incarnation k)) in
  wp write_boot (fun r k' => if has_value r then logged o k' (rs ++ [boot]) else cut o k' rs [boot]) k.
Proof.
  intros (fs & Hh & Hrs) Hb Hp boot. unfold write_boot. apply wp_bind, wp_gets.
  set (payload := encode_boot _). assert (Hread : forall s, read_all (fs ++ [mkJournalFrame JK_BootEpoch s payload]) (rs ++ [boot])).
  { intros s. apply Forall2_app; [done|]. constructor; [|constructor].
    by apply (read_encoded JK_BootEpoch s _ _ _ _ LogBoot). }
  eapply wp_mono; [by apply (write_record_outcome o JK_BootEpoch payload k fs)|]. intros [[]|e] k' H; cbn [has_value].
  - destruct H as [s H]. exists (fs ++ [mkJournalFrame JK_BootEpoch s payload]). by split.
  - destruct H as [[Hbig _]|[H|[s H]]].
    + unfold payload in Hbig. rewrite boot_size in Hbig. lia.
    + exists []. split; [apply prefix_nil|]. rewrite app_nil_r. by exists fs.
    + exists [boot]. split; [done|]. exists (fs ++ [mkJournalFrame JK_BootEpoch s payload]). by split.
Qed.

(** ** Compaction, crash, restart *)

(** A new process opens a journal. *)
Definition opened_on (config : EngineConfig) (j : Journal) : RecoveryReport * EngineCore :=
  open_durable (attach_journal j (AdmissionEngine_new config)).2.

(** What a new process finds: the journal's file, and nothing else. *)
Definition journal_file (j : Journal) (data : list N) : Journal :=
  (Journal_new (jn_path j) (jn_options j)) <| jn_data := data |> <| jn_exists := true |>.
Definition restarted_on (config : EngineConfig) (j : Journal) : RecoveryReport * EngineCore :=
  opened_on config (journal_file j (jn_data j)).

(** The engine a journal was opened for, before recovery. *)
Definition attached (config : EngineConfig) (j : Journal) : EngineCore :=
  (AdmissionEngine_new config) <| ek_journal := Some j |> <| ek_journal_ready := true |>.

(** Opening a file of whole frames, and part of one after them, reads the whole ones and
    hands them to recovery. *)
Lemma opened_torn (j : Journal) (fs : list JournalFrame) (f : JournalFrame) (n : nat) (config : EngineConfig) :
  jo_max_payload (jn_options j) < two32 -> Forall (frame_ok (jo_max_payload (jn_options j))) fs ->
  frame_ok (jo_max_payload (jn_options j)) f -> (n < length (frame_bytes f))%nat ->
  jn_script j = [] -> jn_data j = encode_all fs ++ take n (frame_bytes f) ->
  sizeN (jn_data j) <= jo_max_file_bytes (jn_options j) -> sizeN fs <= max_journal_records ->
  exists j1 report, opened_on config j = recover_from fs report (attached config j1) /\
    jn_script j1 = [] /\ jn_file_open j1 = true /\ jn_options j1 = jn_options j.
Proof.
  intros Hm Hok Hf Hn Hs Hd Hb Hr. pose proof (open_outcome j fs f n Hs Hm Hok Hf Hn Hd Hb) as H.
  apply wp_runs in H as (r & j1 & E & -> & Hd1 & Ho1 & Hs1 & Hopt & _).
  pose proof (replay_outcome j1 fs max_journal_records Hs1 Ho1) as Hrep. rewrite Hopt, Hd1 in Hrep.
  rewrite Hd, sizeN_app in Hb. specialize (Hrep Hm Hok eq_refl ltac:(lia) Hr).
  unfold opened_on, open_durable, attach_journal, mbind, M_bind, get, modify. cbn.
  unfold on_journal. cbn. rewrite E. cbn. rewrite Hopt, Hrep. exists j1. by eexists.
Qed.

(** Opening a file of whole frames, as [opened_torn]. *)
Lemma opened_whole (j : Journal) (fs : list JournalFrame) (config : EngineConfig) :
  jo_max_payload (jn_options j) < two32 -> Forall (frame_ok (jo_max_payload (jn_options j))) fs ->
  jn_script j = [] -> jn_data j = encode_all fs -> sizeN (jn_data j) <= jo_max_file_bytes (jn_options j) ->
  sizeN fs <= max_journal_records ->
  exists j1 report, opened_on config j = recover_from fs report (attached config j1) /\
    jn_script j1 = [] /\ jn_file_open j1 = true /\ jn_options j1 = jn_options j.
Proof.
  intros Hm Hok Hs Hd Hb Hr.
  apply (opened_torn j fs (mkJournalFrame JK_BootEpoch 1 []) 0); try done; [|by vm_compute; lia|by rewrite app_nil_r].
  constructor; [done|done|apply N.le_0_l].
Qed.

(** A start that recovery did not refuse, under a file system that may go: the file was
    read as it is, and the journal is open on it. *)
Lemma opened_steady (j : Journal) (fs : list JournalFrame) (config : EngineConfig) :
  jo_max_payload (jn_options j) < two32 -> Forall (frame_ok (jo_max_payload (jn_options j))) fs ->
  steady (jn_script j) -> jn_data j = encode_all fs -> sizeN (jn_data j) <= jo_max_file_bytes (jn_options j) ->
  sizeN fs <= max_journal_records -> rr_outcome (opened_on config j).1 <> RecoveryRefused ->
  exists j1 report, opened_on config j = recover_from fs report (attached config j1) /\
    holding (jn_options j) j1 fs.
Proof.
  intros Hm Hok Hs0 Hd Hb Hr. pose proof (open_whole j fs Hm Hok Hd Hb) as H.
  apply wp_runs in H as (r & j1 & E & Hd1 & Hopt & _ & Hs & Hv). specialize (Hs Hs0).
  unfold opened_on, open_durable, attach_journal, mbind, M_bind, get, modify. cbn.
  unfold on_journal. cbn. rewrite E. destruct r as [[]|e]; cbn; [|by intros []]. cbn in Hs.
  destruct (Hv eq_refl) as (Ho & Hcnt & Hseq). rewrite Hopt.
  pose proof (replay_whole j1 fs max_journal_records Ho) as Hrep. rewrite Hopt, Hd1, <- Hd in Hrep.
  specialize (Hrep Hm Hok eq_refl Hb Hr). apply wp_runs in Hrep as (r & j2 & E2 & s & -> & Hval & Hst).
  rewrite E2. specialize (Hst Hs). destruct r as [l|e]; cbn in Hval, Hst |- *; [|by intros []].
  injection (Hval eq_refl) as ->. intros _. exists (j1 <| jn_script := s |>). eexists. split; [reflexivity|].
  constructor; cbn; try done; [rewrite Hseq; apply wrap64_u64|].
  rewrite Hcnt. symmetry. apply N.mod_small. unfold max_journal_records, two64 in *. lia.
Qed.

(** A restart on the file of a compacted journal. *)
Lemma restarted_reads (k : EngineCore) (j : Journal) (config : EngineConfig) :
  compactable (jn_options j) k -> jn_data j = encode_all (numbered 1 (body <$> compact_frames k)) ->
  exists j1 report, restarted_on config j =
    recover_from (numbered 1 (body <$> compact_frames k)) report (attached config j1) /\
    jn_script j1 = [] /\ jn_file_open j1 = true /\ jn_options j1 = jn_options j.
Proof.
  intros Hc Hd. pose proof (compact_frames_ok (jn_options j) k Hc) as Hok. destruct Hc as [[_ Hm] _ Hr Hb].
  apply (opened_whole (journal_file j (jn_data j))); try done; [by cbn; rewrite Hd|].
  rewrite numbered_length. unfold sizeN in *. by rewrite length_fmap.
Qed.

(** What holds of the log that compaction writes for [k]. *)
Record resumable (k : EngineCore) : Prop := {
  ru_wf : engine_wf k;
  ru_storable : journalable k;
  ru_policy : forall p, ek_policy k = Some p -> policy_wf p;
  ru_paths : forall q, path_demand k q < two64;
  ru_epoch : ek_epoch k < u64_max;
}.

Lemma compact_boot (k : EngineCore) (rs : list LogRecord) :
  strip <$> rs = compact_log k -> exists rs', rs = LogBoot (make_boot_record (ek_epoch k) (ek_incarnation k)) :: rs' /\
    forall b, LogBoot b ∉ rs'.
Proof.
  intros E. unfold compact_log in E. destruct rs as [|r rs']; [discriminate E|]. cbn in E. injection E as Er E.
  exists rs'. split; [by destruct r; try discriminate Er; injection Er as ->|]. intros b Hb.
  assert (H : LogBoot b ∈ strip <$> rs') by (by apply strip_elem). rewrite E in H. clear E Er Hb.
  rewrite !elem_of_app, list_elem_of_bind, list_elem_of_singleton in H. destruct H as [H|[(r' & H & _)|H]]; [| |discriminate H].
  - destruct (ek_policy k); [apply list_elem_of_singleton in H; discriminate H|by apply not_elem_of_nil in H].
  - unfold compact_record_log in H. destruct (_ !! _); [destruct (is_admitting _)|];
      repeat (apply elem_of_cons in H as [H|H]; [discriminate H|]); by apply not_elem_of_nil in H.
Qed.

Lemma compact_next_epoch (k k0 k1 : EngineCore) (rs : list LogRecord) (lc : Replay) (configured : FabricEpoch) :
  ek_epoch k < u64_max -> (configured = 0 \/ ek_epoch k <= configured) ->
  strip <$> rs = compact_log k -> apply_all rs Replay_new k0 = Some (lc, k1) ->
  exists next, next_epoch (rp_epoch lc) configured = Val next /\ ek_epoch k < next.
Proof.
  intros He Hc Ers Happ. destruct (compact_boot k rs Ers) as (rs' & -> & Hb).
  cbn [apply_all apply_log] in Happ. unfold replay_boot in Happ. cbn [br_format_revision br_product make_boot_record] in Happ.
  rewrite N.eqb_refl, bool_decide_true in Happ by done. cbn [negb] in Happ.
  apply (apply_all_epoch rs' _ _ _ _ Hb) in Happ. cbn [rp_epoch set_field Replay_new br_epoch make_boot_record] in Happ.
  assert (rp_epoch lc = ek_epoch k) as -> by (rewrite Happ; destruct (N.ltb_spec 0 (ek_epoch k)); lia).
  unfold next_epoch, epoch_is_none, epoch_well_formed, unknown_epoch.
  destruct (N.eqb_spec (ek_epoch k) 0) as [E0|E0].
  - cbn [negb andb]. destruct (N.eqb_spec configured 0); cbn [negb]; eexists; (split; [reflexivity|]); [rewrite E0; reflexivity|lia].
  - cbn [negb andb]. replace (negb (configured =? 0) && (configured <? ek_epoch k)) with false.
    2: { symmetry. apply andb_false_iff. destruct Hc as [->|Hc]; [by left|right; by apply N.ltb_ge]. }
    rewrite w_add_exact by (unfold u64_max, two64 in *; lia).
    destruct (N.eqb_spec (ek_epoch k + 1) 0); [lia|]. cbn [negb]. eexists. split; [reflexivity|lia].
Qed.

(** Recovering the compacted frames of a resumable engine into a fresh one. *)
Lemma recover_compacted (k k0 : EngineCore) (frames : list JournalFrame) (report : RecoveryReport) :
  resumable k -> body <$> frames = body <$> compact_frames k ->
  ek_ledger k0 = Ledger_new -> hi_records (ek_history k0) = ∅ ->
  (ec_epoch (ek_config k0) = 0 \/ ek_epoch k <= ec_epoch (ek_config k0)) ->
  (forall k2, ek_journal k2 = ek_journal k0 -> ek_journal_ready k2 = ek_journal_ready k0 ->
     ek_faults k2 = ek_faults k0 -> (write_boot k2).1 = Val tt) ->
  let '(report', k') := recover_from frames report k0 in
  rr_outcome report' <> RecoveryRefused /\ same_grants k k' /\ ledger_wf (ek_ledger k') /\ ek_epoch k < ek_epoch k'.
Proof.
  intros [Hk Hj Hpol Hpath He] Eb Hl Hh Hcfg Hboot.
  destruct (read_all_exists (compact_frames k) frames (compact_log k)) as [rs Hread]; [done|by apply read_compact|].
  pose proof (read_renumbered k frames rs Hj Eb Hread) as Ers.
  destruct (acceptable_applies rs) with Replay_new k0 as (lc & k1 & Happ).
  { apply acceptable_strip. rewrite Ers. by apply compact_acceptable. }
  destruct (compact_next_epoch k k0 k1 rs lc (ec_epoch (ek_config k0)) He Hcfg Ers Happ) as (next & Hn & Hlt).
  pose proof (apply_all_log _ [] _ _ _ _ (log_start k0 Hh) Happ) as Hlog. cbn [app] in Hlog.
  assert (Hfit : restorable Ledger_new (items (rp_committed lc))).
  { apply (compact_restorable k Hk Hj); [|done]. intros d p Hp.
    destruct (rl_committed_in _ _ _ Hlog d p Hp) as [(s & Hs & Hd) _]. split; [done|].
    rewrite <- Ers. by eapply strip_prepare. }
  pose proof (recover_succeeds frames report k0 k1 rs lc next Hread Happ) as Hok. rewrite Hl in Hok.
  specialize (Hok (restorable_filter _ _ _ Hfit) Hn Hboot). destruct (recover_from frames report k0) as [report' k'] eqn:Hrun. cbn [fst] in Hok.
  destruct (recover_outcome _ _ _ _ _ Hrun Hok) as (rs2 & lc2 & k2 & l & next2 & [Hread2 Happ2 Hres Hn2 (j & f & Ek')]).
  assert (rs2 = rs) as -> by (by eapply read_all_det).
  assert (lc2 = lc /\ k2 = k1) as [-> ->] by (rewrite Happ in Happ2; by injection Happ2 as -> ->).
  assert (next2 = next) as -> by congruence.
  split; [done|]. split; [|split].
  - eapply (compacted_log_restores k k0 k1 frames rs lc l); try done. by rewrite Ek'.
  - rewrite Ek'. apply set_flags_wf, (rs_wf _ _ _ _ _ Hres); [|rewrite Hl; exact ledger_new_wf].
    eapply Forall_impl; [exact (re_intents _ _ Hfit)|]. by intros c [].
  - by rewrite Ek'.
Qed.

(** Two well-formed ledgers that hold the same grants admit the same load. *)
Lemma same_grants_load (k k' : EngineCore) (r : ResourceId) :
  ledger_wf (ek_ledger k) -> ledger_wf (ek_ledger k') -> same_grants k k' ->
  (forall d, holds (ek_ledger k) d = true -> stands_still k d) -> admitted (ek_ledger k') r = admitted (ek_ledger k) r.
Proof.
  intros Hk Hk' [Hh Hes] Hall. rewrite !lwf_totals by done.
  rewrite !(all_entries_sum (load r)) by (done || (intros; apply load_app)). apply map_sum_ext. intros d.
  destruct (lg_by_decision (ek_ledger k') !! d) as [es'|] eqn:E'.
  - destruct (Hes d es' E') as (es & -> & Hp). cbn. f_equal. unfold load. by rewrite Hp.
  - destruct (lg_by_decision (ek_ledger k) !! d) as [es|] eqn:E; [|done].
    assert (H : holds (ek_ledger k') d = true) by (apply Hh, Hall, holds_iff; by exists es).
    apply holds_iff in H as [es' H]. congruence.
Qed.


(** The example: the engine that granted 50, with a journal attached. *)
Definition with_journal (j : Journal) (k : EngineCore) : EngineCore :=
  k <| ek_journal := Some j |> <| ek_journal_ready := true |>.
Definition journaled_engine : EngineCore := with_journal sample_open_journal granted_engine.

Lemma with_journal_wf (j : Journal) (k : EngineCore) : engine_wf k -> engine_wf (with_journal j k).
Proof. intros [[] ? ? ? ? ? ?]. by constructor. Qed.

Lemma with_journal_storable (j : Journal) (k : EngineCore) : journalable k -> journalable (with_journal j k).
Proof. intros []. by constructor. Qed.

Lemma journaled_paths (q : PathId) : path_demand journaled_engine q < two64.
Proof.
  unfold path_demand, map_sum.
  assert (E : map_to_list (live_amounts (ek_ledger journaled_engine)) = [(1, [(1, 50)])]) by (by vm_compute).
  rewrite E. cbn. by destruct (decide _).
Qed.

Lemma journaled_resumable : resumable journaled_engine.
Proof.
  constructor.
  - apply with_journal_wf, granted_engine_wf.
  - apply with_journal_storable, granted_journalable.
  - intros p Hp. change (ek_policy granted_engine = Some p) in Hp. rewrite granted_policy in Hp. injection Hp as <-.
    apply validate_policy_spec. by vm_compute.
  - exact journaled_paths.
  - by vm_compute.
Qed.

Lemma payloads_bounded (bound : N) (l : list JournalFrame) :
  forallb (fun f => sizeN (jf_payload f) <=? bound) l = true -> Forall (fun f => sizeN (jf_payload f) <= bound) l.
Proof.
  induction l as [|f l IH]; cbn; [constructor|]. intros [Hf Hl]%andb_true_iff. constructor; [by apply N.leb_le|by apply IH].
Qed.

Lemma journaled_compactable : compactable (jn_options sample_open_journal) journaled_engine.
Proof.
  constructor.
  - by split; vm_compute.
  - apply payloads_bounded. by vm_compute.
  - by vm_compute.
  - by vm_compute.
Qed.

Lemma journaled_stands : stands_still journaled_engine 1.
Proof.
  split; [by vm_compute|].
  destruct (history_find 1 (ek_history journaled_engine)) as [r|] eqn:E; [exists r|by vm_compute in E].
  assert (Hs : dr_state <$> history_find 1 (ek_history journaled_engine) = Some RS_Fresh) by (by vm_compute).
  rewrite E in Hs. injection Hs as Hs. split; [reflexivity|]. rewrite Hs. split; discriminate.
Qed.

