(* ===== verification/Mirror.v ===== *)
(** * Mirror: a log that tells the grants of an engine

    When the records of a log account for the grants of an engine, how they go on doing
    so as records are appended, and that recovery from such a log brings back exactly
    those grants. *)

From S2P Require Import Prelude Checked Identity Hash State Policy Request Authority.
From S2P Require Import Decision Ledger History Bytes Records Journal Engine Log Recovery.
From S2P Require Import Admission.
From S2P Require Import Capacity Frames Grant Safety Api Enforce Restart Compaction.
From S2P Require Import Continuity.
Local Open Scope N_scope.
Local Open Scope naf_scope.

(** ** Appending to a log *)

(** The decision a record speaks about. *)
Definition concerns (r : LogRecord) (d : AdmissionDecisionId) : Prop :=
  match r with
  | LogPrepare _ p => pr_decision p = d
  | LogCommit x | LogRefused x => dr_decision x = d
  | LogRelease x => rl_decision x = d
  | LogRevocation v => rvr_decision v = d
  | LogBoot _ | LogPolicy _ | LogMark _ | LogIgnored => False
  end.

Lemma word_app (d : AdmissionDecisionId) (rs new : list LogRecord) :
  word_on d (rs ++ new) = foldl (last_word d) (word_on d rs) new.
Proof. unfold word_on. by rewrite foldl_app. Qed.

Section unconcerned.
Context (d : AdmissionDecisionId) (rs new : list LogRecord) (Hnew : forall r, r ∈ new -> ~ concerns r d).

Lemma unconcerned_word : word_on d (rs ++ new) = word_on d rs.
Proof.
  rewrite word_app. generalize (word_on d rs). revert Hnew.
  induction new as [|r l IH]; intros Hl acc; [done|]. cbn [foldl].
  rewrite IH by (intros x Hx; apply Hl; by right). specialize (Hl r ltac:(by left)).
  destruct r; cbn in *; try done; by rewrite (proj2 (N.eqb_neq _ _) Hl).
Qed.

Lemma unconcerned_released : released_in d (rs ++ new) <-> released_in d rs.
Proof.
  unfold released_in. setoid_rewrite elem_of_app. split; [|naive_solver].
  intros (r & [Hr|Hr] & Hd); [eauto|]. by destruct (Hnew _ Hr).
Qed.

Lemma unconcerned_committed : committed_in d (rs ++ new) <-> committed_in d rs.
Proof.
  unfold committed_in. setoid_rewrite elem_of_app. split; [|naive_solver].
  intros (r & [Hr|Hr] & Hd); [eauto|]. by destruct (Hnew _ Hr).
Qed.

Lemma unconcerned_prepared (p : PrepareRecord) : prepared_in d p (rs ++ new) <-> prepared_in d p rs.
Proof.
  unfold prepared_in. setoid_rewrite elem_of_app. split; [|naive_solver].
  intros (s & [Hr|Hr] & Hd); [eauto|]. by destruct (Hnew _ Hr).
Qed.

Lemma unconcerned_stands : stands_in_log d (rs ++ new) <-> stands_in_log d rs.
Proof. unfold stands_in_log. by rewrite unconcerned_word, unconcerned_released. Qed.
End unconcerned.

Lemma word_unmentioned (d : AdmissionDecisionId) (rs : list LogRecord) :
  (forall r, r ∈ rs -> ~ concerns r d) -> word_on d rs = None.
Proof. intros H. by rewrite <- (app_nil_l rs), unconcerned_word. Qed.

(** ** The grants a log tells *)

(** An intent the engine could have logged. *)
Record intent_wf (p : PrepareRecord) : Prop := {
  iw_known : pr_decision p <> 0;
  iw_shape : prepare_ok p;
  iw_amounts : pr_amounts p <> [];
  iw_resources : Forall (fun a => a.1 <> 0) (pr_amounts p);
}.

(** [rs] tells the grants [grants], on the paths [path]; decision identities from [next]
    on are unheard of, and [epoch] is the last epoch. *)
Record tells (rs : list LogRecord) (grants : gmap N (list (ResourceId * Rate))) (path : N -> PathId)
    (next : N) (epoch : FabricEpoch) : Prop := {
  tl_next : forall r d, r ∈ rs -> concerns r d -> d < next;
  tl_intents : forall s p, LogPrepare s p ∈ rs -> intent_wf p;
  tl_same : forall s p s' p', LogPrepare s p ∈ rs -> LogPrepare s' p' ∈ rs ->
    pr_decision p = pr_decision p' -> p = p';
  tl_commits : forall x, LogCommit x ∈ rs -> is_admitting (dr_outcome x) = true;
  tl_told : forall d held, grants !! d = Some held -> committed_in d rs /\ stands_in_log d rs /\
    forall p, prepared_in d p rs -> pr_amounts p ≡ₚ held /\ pr_path p = path d;
  tl_only : forall d, committed_in d rs -> stands_in_log d rs -> is_Some (grants !! d);
  tl_acceptable : acceptable rs;
  tl_epoch : forall b, LogBoot b ∈ rs -> br_epoch b <= epoch;
  tl_boot : exists b, LogBoot b ∈ rs /\ br_epoch b = epoch;
}.

Section tells.
Context (rs : list LogRecord) (grants : gmap N (list (ResourceId * Rate))) (path : N -> PathId)
  (next : N) (epoch : FabricEpoch) (H : tells rs grants path next epoch).

Lemma tells_below (d : AdmissionDecisionId) : is_Some (grants !! d) -> d < next.
Proof.
  intros [held Hd]. destruct (tl_told _ _ _ _ _ H d held Hd) as ((x & Hx & <-) & _).
  by apply (tl_next _ _ _ _ _ H (LogCommit x)).
Qed.

(** New records about a single decision [d0]. *)
Lemma tells_app (new : list LogRecord) (grants' : gmap N (list (ResourceId * Rate))) (path' : N -> PathId)
    (next' : N) (epoch' : FabricEpoch) (d0 : AdmissionDecisionId) :
  next <= next' -> epoch <= epoch' ->
  (forall r d, r ∈ new -> concerns r d -> d = d0 /\ d < next') ->
  (forall s p, LogPrepare s p ∈ new -> next <= d0 /\ intent_wf p) ->
  (forall s p s' p', LogPrepare s p ∈ new -> LogPrepare s' p' ∈ new -> p = p') ->
  (forall x, LogCommit x ∈ new -> is_admitting (dr_outcome x) = true) ->
  (forall d, d <> d0 -> grants' !! d = grants !! d) ->
  (forall d, d <> d0 -> is_Some (grants !! d) -> path' d = path d) ->
  (forall held, grants' !! d0 = Some held -> committed_in d0 (rs ++ new) /\ stands_in_log d0 (rs ++ new) /\
     forall p, prepared_in d0 p (rs ++ new) -> pr_amounts p ≡ₚ held /\ pr_path p = path' d0) ->
  (committed_in d0 (rs ++ new) -> stands_in_log d0 (rs ++ new) -> is_Some (grants' !! d0)) ->
  acceptable new ->
  (forall b, LogBoot b ∈ new -> br_epoch b <= epoch') ->
  ((exists b, LogBoot b ∈ new /\ br_epoch b = epoch') \/ epoch' = epoch) ->
  tells (rs ++ new) grants' path' next' epoch'.
Proof.
  intros Hn He Hcon Hint Hsame Hcom Hg Hpath Hheld Honly Hacc Hb Hboot.
  assert (Hfar : forall d, d <> d0 -> forall r, r ∈ new -> ~ concerns r d).
  { intros d Hd r Hr Hc. by destruct (Hcon r d Hr Hc). }
  destruct H as [T1 T2 T3 T4 T5 T6 T7 T8 T9]. constructor.
  - intros r d [Hr|Hr]%elem_of_app Hc; [specialize (T1 r d Hr Hc); lia|by eapply Hcon].
  - intros s p [Hp|Hp]%elem_of_app; [by eapply T2|by eapply Hint].
  - assert (Hold : forall s p s' p', LogPrepare s p ∈ rs -> LogPrepare s' p' ∈ new -> pr_decision p <> pr_decision p').
    { intros s p s' p' Hp Hp' E. destruct (Hint s' p' Hp') as [Hle _]. destruct (Hcon _ (pr_decision p') Hp' eq_refl) as [Ed _].
      specialize (T1 _ (pr_decision p) Hp eq_refl). lia. }
    intros s p s' p' [Hp|Hp]%elem_of_app [Hp'|Hp']%elem_of_app E; [by eapply T3|..|by eapply Hsame].
    + by destruct (Hold s p s' p').
    + by destruct (Hold s' p' s p).
  - intros x [Hx|Hx]%elem_of_app; [by apply T4|by apply Hcom].
  - intros d held Hd. destruct (decide (d = d0)) as [->|Hne]; [by apply Hheld|]. rewrite Hg in Hd by done.
    rewrite unconcerned_committed, unconcerned_stands by auto. setoid_rewrite unconcerned_prepared; [|auto].
    rewrite Hpath by (done || by eexists). by apply T5.
  - intros d. destruct (decide (d = d0)) as [->|Hne]; [done|].
    rewrite unconcerned_committed, unconcerned_stands, Hg by auto. apply T6.
  - by apply acceptable_app.
  - intros b [Hin|Hin]%elem_of_app; [specialize (T8 b Hin); lia|by apply Hb].
  - destruct Hboot as [(b & Hin & E)| ->]; [|destruct T9 as (b & Hin & E)];
      exists b; (split; [rewrite elem_of_app; by auto|done]).
Qed.

(** A decision identity the log has not heard of. *)
Lemma tells_fresh (d : AdmissionDecisionId) :
  next <= d -> word_on d rs = None /\ ~ released_in d rs /\ ~ committed_in d rs /\ forall p, ~ prepared_in d p rs.
Proof.
  intros Hd. assert (Hfar : forall r, r ∈ rs -> ~ concerns r d).
  { intros r Hr Hc. apply (tl_next _ _ _ _ _ H) in Hc; [lia|done]. }
  split_and!; [by apply word_unmentioned|..].
  - intros (r & Hr & E). by apply (Hfar _ Hr).
  - intros (r & Hr & E). by apply (Hfar _ Hr).
  - intros p (s & Hr & E). by apply (Hfar _ Hr).
Qed.

Lemma tells_fresh_grant (d : AdmissionDecisionId) : next <= d -> grants !! d = None.
Proof.
  intros Hd. destruct (grants !! d) as [held|] eqn:E; [|done].
  assert (d < next) by (apply tells_below; by exists held). lia.
Qed.

(** Identities may be used up, and paths of other decisions may change. *)
Lemma tells_weaken (path' : N -> PathId) (next' : N) :
  next <= next' -> (forall d, is_Some (grants !! d) -> path' d = path d) -> tells rs grants path' next' epoch.
Proof.
  intros Hn Hp. destruct H as [T1 T2 T3 T4 T5 T6 T7 T8 T9]. constructor; try done.
  - intros r d Hr Hc. specialize (T1 r d Hr Hc). lia.
  - intros d held Hd. rewrite Hp by (by eexists). by apply T5.
Qed.

(** A record that speaks about no decision. *)
Lemma tells_plain (r : LogRecord) (epoch' : FabricEpoch) :
  (forall d, ~ concerns r d) -> harmless r ->
  match r with LogBoot b => epoch <= epoch' /\ br_epoch b = epoch' | _ => epoch' = epoch end ->
  tells (rs ++ [r]) grants path next epoch'.
Proof.
  intros Hr Hh He. destruct (tells_fresh next) as (_ & _ & Hc & _); [done|].
  assert (Hnew : forall r0, r0 ∈ [r] -> ~ concerns r0 next) by (intros r0 ->%list_elem_of_singleton; apply Hr).
  apply (tells_app [r] grants path next epoch' next); try done.
  - destruct r as [b| | | | | | | |]; [apply He|by rewrite He..].
  - intros r0 d ->%list_elem_of_singleton Hd. by destruct (Hr d).
  - intros s p E%list_elem_of_singleton. rewrite <- E in Hr. by destruct (Hr (pr_decision p)).
  - intros s p s' p' E%list_elem_of_singleton. rewrite <- E in Hr. by destruct (Hr (pr_decision p)).
  - intros x E%list_elem_of_singleton. rewrite <- E in Hr. by destruct (Hr (dr_decision x)).
  - by rewrite tells_fresh_grant.
  - by rewrite unconcerned_committed.
  - by repeat constructor.
  - intros b E%list_elem_of_singleton. rewrite <- E in He. lia.
  - destruct r; try (by right). left. exists boot. split; [left|apply He].
Qed.

(** A refusal under a fresh identity. *)
Lemma tells_refusal (x : DecisionRecord) (path' : N -> PathId) (next' : N) :
  dr_decision x = next -> next < next' -> (forall d, is_Some (grants !! d) -> path' d = path d) ->
  tells (rs ++ [LogRefused x]) grants path' next' epoch.
Proof.
  intros Hx Hn Hp. destruct (tells_fresh next) as (_ & _ & Hc & _); [done|].
  assert (Hnone : ~ committed_in next (rs ++ [LogRefused x])).
  { intros (y & [Hy|Hy]%elem_of_snoc & E); [apply Hc; by exists y|done]. }
  apply (tells_app [LogRefused x] grants path' next' epoch next); try done; try lia.
  - intros r d ->%list_elem_of_singleton E. cbn in E. split; [congruence|lia].
  - by intros s p ?%list_elem_of_singleton.
  - by intros s p s' p' ?%list_elem_of_singleton.
  - by intros y ?%list_elem_of_singleton.
  - intros d _. apply Hp.
  - by rewrite tells_fresh_grant.
  - by repeat constructor.
  - by intros b ?%list_elem_of_singleton.
Qed.

(** An intent under a fresh identity, without its commit. *)
Lemma tells_intent (s : N) (p : PrepareRecord) (path' : N -> PathId) (next' : N) :
  intent_wf p -> pr_decision p = next -> next < next' -> (forall d, is_Some (grants !! d) -> path' d = path d) ->
  tells (rs ++ [LogPrepare s p]) grants path' next' epoch.
Proof.
  intros Hi Hd Hn Hp. destruct (tells_fresh next) as (_ & _ & Hc & _); [done|].
  assert (Hnone : ~ committed_in next (rs ++ [LogPrepare s p])).
  { intros (y & [Hy|Hy]%elem_of_snoc & E); [apply Hc; by exists y|done]. }
  apply (tells_app [LogPrepare s p] grants path' next' epoch next); try done; try lia.
  - intros r d ->%list_elem_of_singleton E. cbn in E. split; [congruence|lia].
  - intros s' p' [= -> ->]%list_elem_of_singleton. done.
  - intros s1 p1 s2 p2 [= -> ->]%list_elem_of_singleton [= -> ->]%list_elem_of_singleton. done.
  - by intros y ?%list_elem_of_singleton.
  - intros d _. apply Hp.
  - by rewrite tells_fresh_grant.
  - by repeat constructor.
  - by intros b ?%list_elem_of_singleton.
Qed.

(** An intent and its commit: a new grant. *)
Lemma tells_grant (s : N) (p : PrepareRecord) (x : DecisionRecord) (path' : N -> PathId) (next' : N) :
  intent_wf p -> pr_decision p = next -> dr_decision x = next -> next < next' ->
  is_admitting (dr_outcome x) = true -> dr_state x <> RS_Revoked -> dr_state x <> RS_Expired ->
  (forall d, is_Some (grants !! d) -> path' d = path d) -> path' next = pr_path p ->
  tells (rs ++ [LogPrepare s p; LogCommit x]) (<[next := pr_amounts p]> grants) path' next' epoch.
Proof.
  intros Hi Hd Hx Hn Ha H1 H2 Hp Hpp. destruct (tells_fresh next) as (Hw & Hr & Hc & Hpn); [done|].
  assert (Hword : word_on next (rs ++ [LogPrepare s p; LogCommit x]) = Some (dr_outcome x, dr_state x)).
  { rewrite word_app. cbn. by rewrite Hx, N.eqb_refl. }
  apply (tells_app [LogPrepare s p; LogCommit x] _ path' next' epoch next); try done; try lia.
  - intros r d [-> | ->%list_elem_of_singleton]%elem_of_cons E; cbn in E; (split; [congruence|lia]).
  - intros s' p' [[= -> ->]|?%list_elem_of_singleton]%elem_of_cons; done.
  - intros s1 p1 s2 p2 [[= -> ->]|?%list_elem_of_singleton]%elem_of_cons [[= -> ->]|?%list_elem_of_singleton]%elem_of_cons; done.
  - intros y [?|[= ->]%list_elem_of_singleton]%elem_of_cons; done.
  - intros d Hne. by rewrite lookup_insert_ne.
  - intros d _. apply Hp.
  - intros held. rewrite lookup_insert_eq. intros [= <-]. split_and!.
    + exists x. split; [|done]. rewrite elem_of_app. right. right. by apply list_elem_of_singleton.
    + split; [by exists (dr_outcome x), (dr_state x)|]. intros (y & Hy & E). apply elem_of_app in Hy as [Hy|Hy].
      * apply Hr. by exists y.
      * apply elem_of_cons in Hy as [Hy|Hy%list_elem_of_singleton]; done.
    + intros q (s' & Hq & E). apply elem_of_app in Hq as [Hq|[[= -> ->]|?%list_elem_of_singleton]%elem_of_cons]; [|done|done].
      destruct (Hpn q). by exists s'.
  - intros _ _. rewrite lookup_insert_eq. by eexists.
  - constructor; [congruence|constructor].
  - by intros b [?|?%list_elem_of_singleton]%elem_of_cons.
Qed.

(** A release takes its grant away. *)
Lemma tells_release (x : ReleaseRecord) :
  rl_decision x < next -> tells (rs ++ [LogRelease x]) (delete (rl_decision x) grants) path next epoch.
Proof.
  intros Hx. apply (tells_app [LogRelease x] _ path next epoch (rl_decision x)); try done; try lia.
  - intros r d ->%list_elem_of_singleton E. cbn in E. by subst d.
  - by intros s p ?%list_elem_of_singleton.
  - by intros s p s' p' ?%list_elem_of_singleton.
  - by intros y ?%list_elem_of_singleton.
  - intros d Hne. by rewrite lookup_delete_ne.
  - by rewrite lookup_delete_eq.
  - intros _ [_ Hr]. destruct Hr. exists x. by rewrite elem_of_snoc; auto.
  - by repeat constructor.
  - by intros b ?%list_elem_of_singleton.
Qed.

(** A change of state: the grant stands on, or there is none. *)
Lemma tells_revocation (v : RevocationRecord) :
  rvr_decision v < next ->
  (rvr_state v <> RS_Revoked /\ rvr_state v <> RS_Expired) \/ grants !! rvr_decision v = None ->
  (grants !! rvr_decision v = None -> rvr_state v = RS_Revoked \/ released_in (rvr_decision v) rs) ->
  tells (rs ++ [LogRevocation v]) grants path next epoch.
Proof.
  intros Hv Hs Hgone. set (d := rvr_decision v) in *.
  assert (Hrel : released_in d (rs ++ [LogRevocation v]) <-> released_in d rs).
  { unfold released_in. setoid_rewrite elem_of_snoc. naive_solver. }
  assert (Hcom : committed_in d (rs ++ [LogRevocation v]) <-> committed_in d rs).
  { unfold committed_in. setoid_rewrite elem_of_snoc. naive_solver. }
  assert (Hword : word_on d (rs ++ [LogRevocation v]) = (fun w => (w.1, rvr_state v)) <$> word_on d rs).
  { rewrite word_snoc. cbn. by rewrite N.eqb_refl. }
  apply (tells_app [LogRevocation v] _ path next epoch d); try done; try lia.
  - intros r d' ->%list_elem_of_singleton E. cbn in E. by subst d'.
  - by intros s p ?%list_elem_of_singleton.
  - by intros s p s' p' ?%list_elem_of_singleton.
  - by intros y ?%list_elem_of_singleton.
  - intros held Hd. destruct Hs as [[H1 H2]|Hs]; [|congruence].
    destruct (tl_told _ _ _ _ _ H d held Hd) as (Hc & [(o & st & Hw & Ha & _) Hr] & Hp). split_and!; [by rewrite Hcom| |].
    + split; [|by rewrite Hrel]. exists o, (rvr_state v). by rewrite Hword, Hw.
    + intros p (s & [Hq|?]%elem_of_snoc & E); [|done]. apply Hp. by exists s.
  - rewrite Hcom. intros Hc [(o & st & Hw & Ha & H1 & H2) Hr]. rewrite Hrel in Hr.
    destruct (grants !! d) as [held|] eqn:E; [by eexists|]. rewrite Hword in Hw.
    destruct (Hgone eq_refl) as [Hgs|]; [|done]. destruct (word_on d rs) as [w|]; [|done]. injection Hw as <- <-. done.
  - by repeat constructor.
  - by intros b ?%list_elem_of_singleton.
Qed.
End tells.

(** The first record of a log: the boot of the first incarnation. *)
Lemma tells_first (b : BootRecord) (path : N -> PathId) (next : N) :
  harmless (LogBoot b) -> tells [LogBoot b] ∅ path next (br_epoch b).
Proof.
  intros Hb. constructor.
  - by intros r d ->%list_elem_of_singleton.
  - by intros s p ?%list_elem_of_singleton.
  - by intros s p s' p' ?%list_elem_of_singleton.
  - by intros x ?%list_elem_of_singleton.
  - intros d held. by rewrite lookup_empty.
  - by intros d (x & ?%list_elem_of_singleton & _).
  - by apply acceptable_cons; [|constructor].
  - by intros b' [= ->]%list_elem_of_singleton.
  - exists b. by rewrite list_elem_of_singleton.
Qed.

(** ** The log that compaction writes *)

(** What the engine keeps about its grants: they stand, on resources that exist. *)
Record grants_kept_well (k : EngineCore) : Prop := {
  gk_standing : forall d, holds (ek_ledger k) d = true -> stands_still k d;
  gk_resources : forall d es, lg_by_decision (ek_ledger k) !! d = Some es ->
    sizeN es <= max_resource_bindings /\ Forall (fun e => u64 (le_resource e) /\ u64 (le_amount e)) es;
}.

Section compact.
Context (k : EngineCore) (Hk : engine_wf k) (Hg : grants_kept_well k)
  (Hpol : forall p, ek_policy k = Some p -> policy_wf p) (rs : list LogRecord) (Hrs : strip <$> rs = compact_log k).

Lemma compacted_prepare (s : N) (p : PrepareRecord) :
  LogPrepare s p ∈ rs -> pr_path p = path_of k (pr_decision p) /\
    exists es, lg_by_decision (ek_ledger k) !! pr_decision p = Some es /\ pr_amounts p ≡ₚ entry_amount <$> es.
Proof.
  intros Hp%strip_prepare. rewrite Hrs in Hp. apply (compact_prepared k Hk) in Hp as (Hl & r & Hr & Ep).
  split; [unfold path_of; by rewrite Hr|].
  by destruct (live_amounts_spec (ek_ledger k) (pr_decision p) (ew_ledger k Hk)) as [Hlive _]; apply Hlive.
Qed.

Lemma compacted_commit (r : DecisionRecord) :
  LogCommit r ∈ rs <-> history_find (dr_decision r) (ek_history k) = Some r /\ is_admitting (dr_outcome r) = true /\
    holds (ek_ledger k) (dr_decision r) = true.
Proof.
  rewrite <- (strip_elem (LogCommit r) rs) by done. rewrite Hrs, (compact_committed k Hk). rewrite holds_iff.
  destruct (live_amounts_spec (ek_ledger k) (dr_decision r) (ew_ledger k Hk)) as [Hlive Hnone].
  split; intros (Hr & Ha & x & Hx); (split; [done|]); (split; [done|]).
  - destruct (Hlive x Hx) as (es & He & _). by exists es.
  - destruct (live_amounts (ek_ledger k) !! dr_decision r) as [held|] eqn:E; [by exists held|].
    rewrite (proj1 Hnone eq_refl) in Hx. done.
Qed.

Lemma compacted_word (d : AdmissionDecisionId) :
  word_on d rs = (fun r => (dr_outcome r, dr_state r)) <$> history_find d (ek_history k).
Proof. by rewrite <- strip_word, Hrs, compact_word. Qed.

Lemma compacted_concerns (r : LogRecord) (d : AdmissionDecisionId) :
  r ∈ rs -> concerns r d -> exists x, history_find d (ek_history k) = Some x.
Proof.
  intros Hr Hc. assert (Hr' : strip r ∈ compact_log k) by (rewrite <- Hrs; by apply list_elem_of_fmap_2).
  apply (compact_elem k) in Hr' as [(x & Hx & Hin)|[[b E]|[[p E]|[m E]]]]; [|by destruct r..].
  exists x. apply (records_found k Hk) in Hx. unfold compact_record_log in Hin.
  assert (dr_decision x = d) as <-; [|done].
  destruct (live_amounts _ !! _); [destruct (is_admitting _)|]; destruct r; cbn in *;
    repeat (apply elem_of_cons in Hin as [Hin|Hin]; [simplify_eq; cbn in *; congruence|]); by apply not_elem_of_nil in Hin.
Qed.

Lemma compacted_unique (s : N) (p : PrepareRecord) (s' : N) (p' : PrepareRecord) :
  LogPrepare s p ∈ rs -> LogPrepare s' p' ∈ rs -> pr_decision p = pr_decision p' -> p = p'.
Proof.
  assert (Hsrc : forall s p, LogPrepare s p ∈ rs -> exists x, x ∈ in_audit_order (ek_history k) /\
    LogPrepare 0 p ∈ compact_record_log (live_amounts (ek_ledger k)) x).
  { intros t q Hq%strip_prepare. rewrite Hrs in Hq.
    by apply (compact_elem k) in Hq as [|[[? ?]|[[? ?]|[? ?]]]]. }
  assert (Hone : forall x q, LogPrepare 0 q ∈ compact_record_log (live_amounts (ek_ledger k)) x ->
    pr_decision q = dr_decision x /\ forall q', LogPrepare 0 q' ∈ compact_record_log (live_amounts (ek_ledger k)) x -> q' = q).
  { intros x q. unfold compact_record_log. destruct (live_amounts _ !! _); [destruct (is_admitting _)|]; set_solver. }
  intros (x & Hx & Hp)%Hsrc (x' & Hx' & Hp')%Hsrc E. apply (records_found k Hk) in Hx, Hx'.
  destruct (Hone x p Hp) as [Ed Hq]. destruct (Hone x' p' Hp') as [Ed' _].
  assert (x' = x) as -> by congruence. symmetry. by apply Hq.
Qed.

Lemma compact_tells : tells rs (grants_of (ek_ledger k)) (path_of k) (ek_next_decision_sequence k) (ek_epoch k).
Proof.
  assert (Hgo : forall d, is_Some (grants_of (ek_ledger k) !! d) <-> holds (ek_ledger k) d = true).
  { intros d. rewrite holds_iff. unfold grants_of. rewrite lookup_fmap, fmap_is_Some. done. }
  constructor.
  - intros r d Hr Hc. destruct (compacted_concerns r d Hr Hc) as [x Hx]. by apply (ew_ids k Hk) in Hx as [? _].
  - intros s p (_ & es & He & Hp)%compacted_prepare.
    destruct (lwf_decisions _ (ew_ledger k Hk) _ es He) as [H0 Hne Hok Hnd].
    destruct (gk_resources k Hg _ es He) as [Hsz Hres]. constructor; [done| | |].
    + split_and!.
      * rewrite Hp, <- list_fmap_compose. exact Hnd.
      * rewrite Hp. apply Forall_fmap. eapply Forall_impl; [exact Hres|]. by intros e [].
      * rewrite Hp. unfold sizeN, max_resource_bindings, ptrdiff_max in *. rewrite length_fmap. lia.
    + intros E. rewrite E in Hp. apply Permutation_nil in Hp. by destruct es.
    + rewrite Hp. apply Forall_fmap. eapply Forall_impl; [exact Hok|]. by intros e [].
  - exact compacted_unique.
  - by intros x (_ & ? & _)%compacted_commit.
  - intros d held Hd. assert (Hh : holds (ek_ledger k) d = true) by (apply Hgo; by eexists).
    destruct (gk_standing k Hg d Hh) as (_ & r & Hr & H1 & H2). destruct (ew_held k Hk d Hh) as (r' & Hr' & Ha).
    assert (r' = r) as -> by congruence. destruct (records_known k Hk d r Hr) as (Ed & _ & _). split_and!.
    + exists r. split; [|done]. apply compacted_commit. by rewrite Ed.
    + split; [exists (dr_outcome r), (dr_state r); by rewrite compacted_word, Hr|].
      intros (x & Hx & E). apply (compact_released k Hk d). exists x. split; [|done]. rewrite <- Hrs. by apply strip_elem.
    + intros p (s & Hp & Ep). destruct (compacted_prepare s p Hp) as (Hpath & es & He & Hperm).
      rewrite Ep in *. split; [|done]. unfold grants_of in Hd. rewrite lookup_fmap, He in Hd. injection Hd as <-. exact Hperm.
  - intros d (x & Hx & <-) _. apply Hgo. by apply compacted_commit in Hx as (_ & _ & ?).
  - apply acceptable_strip. rewrite Hrs. by apply compact_acceptable.
  - intros b Hb. destruct (compact_boot k rs Hrs) as (rs' & E & Hno). rewrite E in Hb.
    apply elem_of_cons in Hb as [[= ->]|Hb]; [done|by destruct (Hno b)].
  - destruct (compact_boot k rs Hrs) as (rs' & E & _). rewrite E. eexists. split; [left|done].
Qed.
End compact.

(** ** Recovery from a log that tells the grants *)

(** The greatest amount of a grant; the engine grants the same on every resource. *)
Definition peak (held : list (ResourceId * Rate)) : Rate := foldr N.max 0 held.*2.

#[export] Instance peak_perm : Proper ((≡ₚ) ==> eq) peak.
Proof.
  intros l l' E. unfold peak. apply (foldr_permutation eq N.max 0); [|by rewrite E]. intros. lia.
Qed.

Lemma path_amount_peak (held : list (ResourceId * Rate)) : path_amount held <= peak held.
Proof. unfold path_amount, peak. destruct held as [|[r a] l]; cbn; lia. Qed.

(** The grants fit a ledger together. *)
Record fits_ledger (grants : gmap N (list (ResourceId * Rate))) (path : N -> PathId) : Prop := {
  fl_count : map_sum (fun _ held => sizeN held) grants <= max_ledger_entries;
  fl_loads : forall r, map_sum (fun _ held => amount_of r held) grants < two64;
  fl_paths : forall q, map_sum (fun d held => if decide (path d = q) then peak held else 0) grants < two64;
}.

Lemma map_sum_le {A B} (f : N -> A -> N) (g : N -> B -> N) (m : gmap N A) (n : gmap N B) :
  (forall d a, m !! d = Some a -> exists b, n !! d = Some b /\ f d a <= g d b) -> map_sum f m <= map_sum g n.
Proof.
  revert n. induction m as [|d a m Hd IH] using map_ind; intros n H; [rewrite map_sum_empty; lia|].
  destruct (H d a) as (b & Hb & Hle); [apply lookup_insert_eq|].
  rewrite <- (insert_delete_id n d b Hb), !map_sum_insert by (done || apply lookup_delete_eq).
  apply N.add_le_mono; [done|]. apply IH. intros d' a' Ha'.
  assert (d <> d') by congruence. rewrite lookup_delete_ne by done. apply H. by rewrite lookup_insert_ne.
Qed.

Section recover.
Context (frames : list JournalFrame) (rs : list LogRecord) (grants : gmap N (list (ResourceId * Rate)))
  (path : N -> PathId) (next : N) (epoch : FabricEpoch) (k : EngineCore)
  (Hread : read_all frames rs) (Ht : tells rs grants path next epoch)
  (Hl : ek_ledger k = Ledger_new) (Hh : hi_records (ek_history k) = ∅).

Section replayed.
Context (lc : Replay) (k1 : EngineCore) (Happ : apply_all rs Replay_new k = Some (lc, k1)).
Let live (c : N * PrepareRecord) : Prop := still_live k1 (rp_released_ids lc) c.2 = true.

Lemma tells_log : replayed_log rs lc k1.
Proof. exact (apply_all_log rs [] _ _ _ _ (log_start k Hh) Happ). Qed.

(** A committed intent that is still live is the intent of a grant. *)
Lemma live_intent (d : AdmissionDecisionId) (p : PrepareRecord) :
  rp_committed lc !! d = Some p -> live (d, p) ->
  pr_decision p = d /\ intent_wf p /\ pr_path p = path d /\
  exists held, grants !! d = Some held /\ pr_amounts p ≡ₚ held.
Proof.
  intros Hp Hlive. destruct (rl_committed_in _ _ _ tells_log d p Hp) as [(s & Hs & Hd) Hc].
  pose proof (tl_intents _ _ _ _ _ Ht s p Hs) as Hi. split_and!; [done|done|..].
  all: apply (still_live_log rs lc k1 p tells_log (iw_known p Hi)) in Hlive; rewrite Hd in Hlive;
    destruct (tl_only _ _ _ _ _ Ht d Hc Hlive) as [held Hg];
    destruct (tl_told _ _ _ _ _ Ht d held Hg) as (_ & _ & Hamt);
    destruct (Hamt p) as [H1 H2]; [by exists s|].
  - done.
  - by exists held.
Qed.

Lemma live_perm :
  filter live (items (rp_committed lc)) ≡ₚ map_to_list (filter live (rp_committed lc)).
Proof.
  rewrite map_items_perm, map_filter_alt. symmetry. apply map_to_list_to_map.
  clear. generalize (NoDup_fst_map_to_list (rp_committed lc)).
  induction (map_to_list (rp_committed lc)) as [|[d p] cs IH]; intros Hd; [done|].
  apply NoDup_cons in Hd as [Hn Hd]. rewrite filter_cons. destruct (decide _); [|by apply IH].
  apply NoDup_cons. split; [|by apply IH]. contradict Hn.
  apply list_elem_of_fmap in Hn as (c & -> & [_ Hc]%list_elem_of_filter). by apply list_elem_of_fmap_2.
Qed.

Lemma live_summed (f : N -> PrepareRecord -> N) :
  summed f (filter live (items (rp_committed lc))) = map_sum f (filter live (rp_committed lc)).
Proof. unfold summed, map_sum. by rewrite live_perm. Qed.

Lemma live_sum_le (f : N -> PrepareRecord -> N) (g : N -> list (ResourceId * Rate) -> N) :
  (forall d p held, pr_path p = path d -> pr_amounts p ≡ₚ held -> f d p <= g d held) ->
  summed f (filter live (items (rp_committed lc))) <= map_sum g grants.
Proof.
  intros Hfg. rewrite live_summed. apply map_sum_le. intros d p [Hp Hlive]%map_lookup_filter_Some.
  destruct (live_intent d p Hp Hlive) as (_ & _ & Hpath & held & Hg & Hperm). exists held. auto.
Qed.

Lemma live_restorable : fits_ledger grants path -> restorable (ek_ledger k) (filter live (items (rp_committed lc))).
Proof.
  intros [F1 F2 F3]. rewrite Hl. constructor.
  - exact ledger_new_wf.
  - rewrite live_perm. apply NoDup_fst_map_to_list.
  - apply Forall_forall. intros [d p] [Hlive Hp%elem_of_map_items]%list_elem_of_filter.
    destruct (live_intent d p Hp Hlive) as (Hd & [Hk Hs Ha Hr] & _). cbn [fst snd]. by constructor; [|congruence|..].
  - cbn. pose proof (live_sum_le intent_size (fun _ held => sizeN held)) as H. rewrite N.add_0_l.
    etrans; [apply H|done]. intros d p held _ E. unfold intent_size. by rewrite E.
  - intros r. pose proof (live_sum_le (intent_load r) (fun _ held => amount_of r held)) as H.
    change (admitted Ledger_new r) with 0. rewrite N.add_0_l. eapply N.le_lt_trans; [apply H|apply F2].
    intros d p held _ E. unfold intent_load. by rewrite E.
  - intros q. change (total_of _ q) with 0. rewrite N.add_0_l.
    eapply N.le_lt_trans; [apply (live_sum_le (intent_path q) (fun d held => if decide (path d = q) then peak held else 0))|apply F3].
    intros d p held Hpath E. unfold intent_path. rewrite Hpath. destruct (decide _); [|done].
    rewrite <- E. apply path_amount_peak.
Qed.
End replayed.

Lemma tells_next_epoch (lc : Replay) (k1 : EngineCore) (configured : FabricEpoch) :
  apply_all rs Replay_new k = Some (lc, k1) -> epoch < u64_max -> (configured = 0 \/ epoch <= configured) ->
  exists n, next_epoch (rp_epoch lc) configured = Val n /\ epoch < n.
Proof.
  intros Happ He Hc. pose proof (apply_all_maxima rs [] _ _ _ _ Happ maxima_start) as [MB _ MS]. cbn [app] in *.
  destruct (tl_boot _ _ _ _ _ Ht) as (b & Hb & Eb). pose proof (MB b Hb) as Hle.
  assert (E : rp_epoch lc = epoch).
  { destruct MS as [MS|(b' & Hb' & MS)]; [lia|]. pose proof (tl_epoch _ _ _ _ _ Ht b' Hb'). lia. }
  rewrite E. unfold next_epoch, epoch_is_none, epoch_well_formed, unknown_epoch.
  destruct (N.eqb_spec epoch 0) as [E0|E0]; cbn [negb andb].
  - destruct (N.eqb_spec configured 0); cbn [negb]; eexists; (split; [done|]); unfold first_epoch; lia.
  - assert (En : epoch +w 1 = epoch + 1) by (apply w_add_exact; unfold u64_max, two64 in *; lia).
    rewrite En. destruct (N.eqb_spec configured 0) as [|]; cbn [negb andb].
    + destruct (N.eqb_spec (epoch + 1) 0); [lia|]. eexists. split; [done|lia].
    + destruct (N.ltb_spec configured epoch); [lia|]. destruct (N.eqb_spec (epoch + 1) 0); [lia|]. eexists. split; [done|lia].
Qed.

(** Recovery from a readable log that tells grants that fit: it is not refused, and
    exactly these grants hold load again. *)
Lemma recover_tells (report : RecoveryReport) :
  fits_ledger grants path -> epoch < u64_max ->
  (ec_epoch (ek_config k) = 0 \/ epoch <= ec_epoch (ek_config k)) ->
  (forall k2, ek_journal k2 = ek_journal k -> ek_journal_ready k2 = ek_journal_ready k ->
     ek_faults k2 = ek_faults k -> (write_boot k2).1 = Val tt) ->
  let '(report', k') := recover_from frames report k in
  rr_outcome report' <> RecoveryRefused /\ epoch < ek_epoch k' /\ ledger_wf (ek_ledger k') /\
  (forall d, holds (ek_ledger k') d = true <-> is_Some (grants !! d)) /\
  (forall d es, lg_by_decision (ek_ledger k') !! d = Some es ->
     exists held, grants !! d = Some held /\ entry_amount <$> es ≡ₚ held).
Proof.
  intros Hfit He Hcfg Hboot.
  destruct (acceptable_applies rs (tl_acceptable _ _ _ _ _ Ht) Replay_new k) as (lc & k1 & Happ).
  destruct (tells_next_epoch lc k1 _ Happ He Hcfg) as (n & Hn & Hlt).
  pose proof (recover_succeeds frames report k k1 rs lc n Hread Happ (live_restorable lc k1 Happ Hfit) Hn Hboot) as Hok.
  destruct (recover_from frames report k) as [report' k'] eqn:Hrun. cbn [fst] in Hok. split; [done|].
  destruct (recover_outcome _ _ _ _ _ Hrun Hok) as (rs2 & lc2 & k2 & l & n2 & [Hread2 Happ2 Hres Hn2 (j & f & Ek')]).
  assert (rs2 = rs) as -> by (by eapply read_all_det).
  assert (lc2 = lc /\ k2 = k1) as [-> ->] by (rewrite Happ in Happ2; by injection Happ2 as -> ->).
  assert (n2 = n) as -> by congruence.
  pose proof (tells_log lc k1 Happ) as Hlog. destruct (restored_load rs lc k k1 l Hl Hlog Hres) as [Hheld Hback].
  rewrite Ek'. cbn [ek_ledger ek_epoch set_field] in *. split_and!; [done| | |].
  - apply set_flags_wf, (rs_wf _ _ _ _ _ Hres); [|rewrite Hl; exact ledger_new_wf].
    apply Forall_forall. intros [d p] Hc%elem_of_map_items. apply (rl_committed_in _ _ _ Hlog) in Hc as [(s & Hp & _) _].
    by apply (iw_shape p), (tl_intents _ _ _ _ _ Ht s).
  - intros d. rewrite holds_iff. split.
    + intros [es Hes]. destruct (Hheld d es Hes) as (Hs & Hc & _). by apply (tl_only _ _ _ _ _ Ht).
    + intros [held Hg]. destruct (tl_told _ _ _ _ _ Ht d held Hg) as ((x & Hx & Ed) & Hs & _). rewrite <- Ed in Hs |- *.
      apply holds_iff, Hback; [done|by apply (tl_commits _ _ _ _ _ Ht)| |done].
      destruct Hs as [(o & st & Hw & _) _]. destruct (rl_committed_all _ _ _ Hlog x Hx (tl_commits _ _ _ _ _ Ht x Hx)) as [p Hp].
      apply (rl_committed_in _ _ _ Hlog) in Hp as [(s & Hp & Ep) _]. rewrite <- Ep.
      by apply (iw_known p), (tl_intents _ _ _ _ _ Ht s).
  - intros d es Hes. destruct (Hheld d es Hes) as (Hs & Hc & (p & Hp & Hamt) & _).
    destruct (tl_only _ _ _ _ _ Ht d Hc Hs) as [held Hg]. exists held. split; [done|]. rewrite Hamt.
    by destruct (tl_told _ _ _ _ _ Ht d held Hg) as (_ & _ & H); apply H.
Qed.
End recover.
