(* ===== verification/Report.v ===== *)
(** * Diagnostic text

    The texts operators read: provenance, quantities, readiness, triggers and the
    recovery report (src/src/core/identity.cpp, src/src/model/quantity.cpp,
    src/src/engine/engine.cpp). *)

From S2P Require Import Prelude Checked Identity Hash State Policy Request Authority.
From S2P Require Import Decision.
From S2P Require Import Ledger History Bytes Records Journal Engine Recovery.
Local Open Scope N_scope.
Local Open Scope naf_scope.

Definition origin_to_string (kind : OriginKind) : string :=
  match kind with
  | InProcess => "in_process"
  | Claimant => "claimant"
  | Operator => "operator"
  | Identity.Recovery => "recovery"
  | Replay_ => "replay"
  end.

Definition render_provenance (p : Provenance) : string :=
  let out := "origin=" +:+ origin_to_string (prov_origin p) +:+ " publisher=" in
  let out := append_u64 out (prov_publisher p) +:+ " boot=" in
  let out := append_u64 out (prov_boot p) +:+ " incarnation=" in
  let out := append_u64 out (prov_incarnation p) +:+ " epoch=" in
  let out := append_u64 out (prov_epoch p) +:+ " attempt=" in
  let out := append_u64 out (prov_attempt p) +:+ " seq=" in
  append_u64 out (prov_sequence p).

Definition render_rate (rate : Rate) : string := append_u64 "" rate +:+ " bps".
Definition render_latency (latency : Latency) : string := append_u64 "" latency +:+ " us".

Definition readiness_to_string (readiness : EngineReadiness) : string :=
  match readiness with
  | AwaitingPolicy => "awaiting_policy"
  | AwaitingCapacity => "awaiting_capacity"
  | AwaitingReservations => "awaiting_reservations"
  | AwaitingCatalogs => "awaiting_catalogs"
  | AwaitingPaths => "awaiting_paths"
  | WaitingForReconciliation => "waiting_for_reconciliation"
  | Ready => "ready"
  end.

Definition trigger_to_string (trigger : EnforcementTrigger) : string :=
  match trigger with
  | TriggerNone => "none"
  | CapacityPublication => "capacity_publication"
  | ReservationPublication => "reservation_publication"
  | PolicyPublication => "policy_publication"
  | RestartRecovery => "restart_recovery"
  end.

Definition recovery_outcome_to_string (outcome : RecoveryOutcome) : string :=
  match outcome with
  | FreshStart => "fresh_start"
  | Recovered => "recovered"
  | RecoveredWithAmbiguity => "recovered_with_ambiguity"
  | RepairedTornTail => "repaired_torn_tail"
  | RecoveryRefused => "refused"
  end.

Definition render_recovery (r : RecoveryReport) : string :=
  "recovery=" +:+ recovery_outcome_to_string (rr_outcome r) +:+
  " frames=" +:+ std_to_string (rr_frames_scanned r) +:+
  " replayed=" +:+ std_to_string (rr_frames_replayed r) +:+
  " epoch=" +:+ std_to_string (rr_recovered_epoch r) +:+
  " audit=" +:+ std_to_string (rr_audit_sequence r) +:+
  " live_ledger=" +:+ std_to_string (sizeN (rr_live_ledger r)) +:+
  " history=" +:+ std_to_string (sizeN (rr_history r)) +:+
  " ambiguous=" +:+ std_to_string (sizeN (rr_ambiguous r)) +:+
  " discarded_bytes=" +:+ std_to_string (rr_trailing_bytes_discarded r) +:+
  (if is_ok (rr_status r) then "" else " status=" +:+ status_to_string (rr_status r)).
