(* ===== verification/Protocol.v ===== *)
(** * The wire protocol's payloads
    (src/include/naf/ipc/protocol.hpp, src/src/ipc/protocol.cpp)

    The nine message codecs.  Six of them, and the status reply, carry everything
    they are given; decisions and revalidations carry an explanation and an
    authority vector, of which the reader rebuilds a part. *)

From S2P Require Import Prelude Checked Identity Hash State Policy Request Authority.
From S2P Require Import Decision.
From S2P Require Import Ledger History Bytes Records Journal Engine Admission Api.
Local Open Scope N_scope.
Local Open Scope naf_scope.

Definition protocol_version : N := format_revision.
Definition max_frame_bytes : N := 1048576.
Definition min_frame_bytes : N := 24.

(** ** Messages *)

Record HelloMessage := mkHelloMessage {
  hm_protocol_version : N;
  hm_publisher : PublisherId;
  hm_boot : BootId;
  hm_max_frame : N;
  hm_client_nonce : N;
}.

Record WelcomeMessage := mkWelcomeMessage {
  wm_accepted : bool;
  wm_epoch : FabricEpoch;
  wm_incarnation : CoordinatorIncarnation;
  wm_session : SessionNonce;
  wm_reason : string;
}.
Definition WelcomeMessage_new : WelcomeMessage := mkWelcomeMessage false 0 0 0 "".

Record AdmitMessage := mkAdmitMessage { am_claim : ClaimContext; am_request : AdmissionRequest }.
Record RevalidateMessage := mkRevalidateMessage {
  rvm_claim : ClaimContext;
  rvm_decision : AdmissionDecisionId;
}.
Record RevokeMessage := mkRevokeMessage {
  rkm_claim : ClaimContext;
  rkm_decision : AdmissionDecisionId;
  rkm_reason : RevocationReason;
}.
Record ErrorMessage := mkErrorMessage { em_code : N; em_text : string }.

(** ** Enumerators read from a byte *)

Definition OriginKind_of_N (n : N) : option OriginKind :=
  [InProcess; Claimant; Operator; Recovery; Replay_] !! N.to_nat n.
Definition ContentionPreference_of_N (n : N) : option ContentionPreference :=
  [ContentionInheritPolicy; ContentionDefer; ContentionReject] !! N.to_nat n.
Definition DegradePreference_of_N (n : N) : option DegradePreference :=
  [DegradeInheritPolicy; DegradeNever; DegradeDownToMinimum] !! N.to_nat n.
Definition BindingConstraintKind_of_N (n : N) : option BindingConstraintKind :=
  [BC_None; BC_RequestContract; BC_Fence; BC_IdentityConflict; BC_UnknownEvidence;
   BC_StaleGeneration; BC_Policy; BC_QoSClass; BC_PriorityClass; BC_Path; BC_Capacity; BC_Headroom;
   BC_Obligation; BC_AdmittedLoad; BC_Degradation; BC_Durability] !! N.to_nat n.
Definition AuthorityKind_of_N (n : N) : option AuthorityKind :=
  [AK_FabricEpoch; AK_CoordinatorIncarnation; AK_CapacitySnapshot; AK_ReservationSnapshot;
   AK_PathAuthority; AK_Policy; AK_QoSClassCatalog; AK_PriorityClassCatalog; AK_ResourceCapacity;
   AK_Path; AK_Reservation; AK_QoSClass; AK_PriorityClass] !! N.to_nat n.
Definition EngineReadiness_to_N (r : EngineReadiness) : N :=
  match r with
  | AwaitingPolicy => 0 | AwaitingCapacity => 1 | AwaitingReservations => 2
  | AwaitingCatalogs => 3 | AwaitingPaths => 4 | WaitingForReconciliation => 5 | Ready => 6
  end.
Definition EngineReadiness_of_N (n : N) : option EngineReadiness :=
  [AwaitingPolicy; AwaitingCapacity; AwaitingReservations; AwaitingCatalogs; AwaitingPaths;
   WaitingForReconciliation; Ready] !! N.to_nat n.

#[export] Instance OriginKind_enum : Enum OriginKind_to_N OriginKind_of_N.
Proof. solve_enum OriginKind_of_N. Qed.
#[export] Instance ContentionPreference_enum : Enum ContentionPreference_to_N ContentionPreference_of_N.
Proof. solve_enum ContentionPreference_of_N. Qed.
#[export] Instance DegradePreference_enum : Enum DegradePreference_to_N DegradePreference_of_N.
Proof. solve_enum DegradePreference_of_N. Qed.
#[export] Instance BindingConstraintKind_enum : Enum BindingConstraintKind_to_N BindingConstraintKind_of_N.
Proof. solve_enum BindingConstraintKind_of_N. Qed.
#[export] Instance AuthorityKind_enum : Enum AuthorityKind_to_N AuthorityKind_of_N.
Proof. solve_enum AuthorityKind_of_N. Qed.
#[export] Instance EngineReadiness_enum : Enum EngineReadiness_to_N EngineReadiness_of_N.
Proof. solve_enum EngineReadiness_of_N. Qed.

(** ** Reads that are checked after the fact *)

(** [if (!r.read(x)) return truncated; if (!ok(x)) return invalid;] *)
Definition need_when {A} (m : M ByteReader A) (ok : A -> bool) (invalid : Status) : M ByteReader A :=
  a ← m; if ok a then mret a else lift (Err invalid).

(** Bytes read first and converted together. *)
Definition need_map {A B} (m : M ByteReader A) (f : A -> Expected B) : M ByteReader B :=
  a ← m; lift (f a).

Definition enum_or {A} (of_N : N -> option A) (invalid : Status) (v : N) : Expected A :=
  match of_N v with Some a => Val a | None => Err invalid end.

#[export] Instance when_decodes {A} (m : M ByteReader A) (w : A -> list N) (P : A -> Prop)
    (ok : A -> bool) (s : Status) `{!Decodes m w P} :
  Decodes (need_when m ok s) w (fun a => ok a = true /\ P a).
Proof.
  constructor.
  - intros a rest [Hok Hp]. unfold need_when. eapply bind_complete; [apply _|done|]. by rewrite Hok.
  - intros bs a rest Hb H. unfold need_when in H.
    apply (bind_sound _ _ _ _ _ _ _ Hb) in H as (a' & mid & -> & Ha & Hm & H).
    destruct (ok a') eqn:Hok; [|done]. injection H as <- <-. by split_and!.
Qed.

Lemma map_decodes {A B} (m : M ByteReader A) (w : A -> list N) (P : A -> Prop)
    (f : A -> Expected B) (g : B -> A) `{!Decodes m w P} :
  (forall b, f (g b) = Val b /\ P (g b)) -> (forall a b, f a = Val b -> g b = a) ->
  Decodes (need_map m f) (fun b => w (g b)) (fun _ => True).
Proof.
  intros Hf Hg. constructor.
  - intros b rest _. destruct (Hf b) as [Hb Hp]. unfold need_map.
    eapply bind_complete; [apply _|done|]. unfold lift. by rewrite Hb.
  - intros bs b rest Hb H. unfold need_map in H.
    apply (bind_sound _ _ _ _ _ _ _ Hb) in H as (a & mid & -> & Ha & Hm & H).
    unfold lift in H. destruct (f a) as [b'|] eqn:E; [|done]. injection H as <- <-.
    by rewrite (Hg _ _ E).
Qed.

Definition read_u8_pair (truncated : Status) : M ByteReader (N * N) :=
  a ← need r_u8 truncated; b ← need r_u8 truncated; mret (a, b).
Definition w_u8_pair (v : N * N) : list N := w_u8 v.1 ++ w_u8 v.2.
#[export] Instance u8_pair_decodes s :
  Decodes (read_u8_pair s) w_u8_pair (fun v => v.1 < 256 /\ v.2 < 256).
Proof.
  constructor.
  - intros [a b] rest Hab. unfold read_u8_pair, w_u8_pair. rewrite <- app_assoc. read_fields.
  - intros bs [a b] rest Hb H. unfold read_u8_pair in H. recover_fields H Hb. injection H as <- <- <-.
    unfold w_u8_pair. rewrite <- app_assoc. by split_and!.
Qed.

Definition read_u8_triple (truncated : Status) : M ByteReader (N * N * N) :=
  a ← need r_u8 truncated; b ← need r_u8 truncated; c ← need r_u8 truncated; mret (a, b, c).
Definition w_u8_triple (v : N * N * N) : list N := w_u8 v.1.1 ++ w_u8 v.1.2 ++ w_u8 v.2.
#[export] Instance u8_triple_decodes s :
  Decodes (read_u8_triple s) w_u8_triple (fun v => v.1.1 < 256 /\ v.1.2 < 256 /\ v.2 < 256).
Proof.
  constructor.
  - intros [[a b] c] rest Habc. unfold read_u8_triple, w_u8_triple. rewrite <- !app_assoc. read_fields.
  - intros bs [[a b] c] rest Hb H. unfold read_u8_triple in H. recover_fields H Hb.
    injection H as <- <- <- <-. unfold w_u8_triple. rewrite <- !app_assoc. by split_and!.
Qed.

(** ** Claims *)

Definition write_claim (c : ClaimContext) : list N :=
  w_enum OriginKind_to_N (cc_origin c) ++ w_u64 (cc_publisher c) ++ w_u64 (cc_boot c) ++
  w_u64 (cc_session c) ++ w_u64 (cc_incarnation c) ++ w_u64 (cc_epoch c) ++
  w_u64 (cc_attempt c) ++ w_u64 (cc_trace c) ++ w_u64 (cc_sequence c).

Definition read_claim : M ByteReader ClaimContext :=
  let truncated := malformed_s "claim is truncated" in
  origin ← need_enum OriginKind_of_N truncated (malformed_s "claim origin is invalid");
  publisher ← need r_u64 truncated;
  boot ← need r_u64 truncated;
  session ← need r_u64 truncated;
  incarnation ← need r_u64 truncated;
  epoch ← need r_u64 truncated;
  attempt ← need r_u64 truncated;
  trace ← need r_u64 truncated;
  sequence ← need r_u64 truncated;
  mret (mkClaimContext origin publisher boot session incarnation epoch attempt trace sequence).

Definition claim_sendable (c : ClaimContext) : Prop :=
  u64 (cc_publisher c) /\ u64 (cc_boot c) /\ u64 (cc_session c) /\ u64 (cc_incarnation c) /\
  u64 (cc_epoch c) /\ u64 (cc_attempt c) /\ u64 (cc_trace c) /\ u64 (cc_sequence c).
#[export] Instance claim_decodes : Decodes read_claim write_claim claim_sendable.
Proof. solve_decodes write_claim read_claim claim_sendable. Qed.

Definition finish_payload : M ByteReader unit :=
  finish (malformed_s "protocol payload has trailing bytes").

(** ** Hello and welcome *)

Definition encode_hello (m : HelloMessage) : list N :=
  w_u16 (hm_protocol_version m) ++ w_u64 (hm_publisher m) ++ w_u64 (hm_boot m) ++
  w_u32 (hm_max_frame m) ++ w_u64 (hm_client_nonce m).

Definition read_hello : M ByteReader HelloMessage :=
  let truncated := malformed_s "hello is truncated" in
  version ← need_when (need r_u16 truncated) (fun v => v =? protocol_version)
    (status_error Unsupported "protocol version mismatch");
  publisher ← need r_u64 truncated;
  boot ← need r_u64 truncated;
  max_frame ← need_when (need r_u32 truncated) (fun v => v <=? max_frame_bytes)
    (oversized_s "hello frame bound is too large");
  client_nonce ← need r_u64 truncated;
  finish_payload ;;
  mret (mkHelloMessage version publisher boot max_frame client_nonce).
Definition decode_hello (bytes : list N) : Expected HelloMessage := run_decoder read_hello bytes.

Definition encode_welcome (m : WelcomeMessage) : list N :=
  w_boolean (wm_accepted m) ++ w_u64 (wm_epoch m) ++ w_u64 (wm_incarnation m) ++
  w_u64 (wm_session m) ++ w_text (wm_reason m).

Definition read_welcome : M ByteReader WelcomeMessage :=
  let truncated := malformed_s "welcome is truncated" in
  accepted ← need r_boolean truncated;
  epoch ← need r_u64 truncated;
  incarnation ← need r_u64 truncated;
  session ← need r_u64 truncated;
  reason ← need r_text (malformed_s "welcome reason is invalid");
  finish_payload ;;
  mret (mkWelcomeMessage accepted epoch incarnation session reason).
Definition decode_welcome (bytes : list N) : Expected WelcomeMessage := run_decoder read_welcome bytes.

(** ** Admit *)

Definition w_binding (b : ResourceBinding) : list N := w_u64 (rb_resource b) ++ w_u64 (rb_generation b).
Definition w_candidate (c : PathCandidate) : list N :=
  w_u64 (pcd_path c) ++ w_u64 (pcd_path_authority_generation c).
Definition w_reservation_ref (r : ReservationRef) : list N :=
  w_u64 (rr_reservation r) ++ w_u64 (rr_generation r).

Definition write_expected (e : AuthorityExpectation) : list N :=
  w_u64 (ex_capacity_snapshot e) ++ w_u64 (ex_capacity_generation e) ++
  w_u64 (ex_reservation_snapshot e) ++ w_u64 (ex_reservation_generation e) ++
  w_u64 (ex_path_authority_generation e) ++ w_u64 (ex_policy_generation e) ++
  w_u64 (ex_qos_catalog_generation e) ++ w_u64 (ex_priority_catalog_generation e).

Definition write_provenance (p : Provenance) : list N :=
  w_enum OriginKind_to_N (prov_origin p) ++ w_u64 (prov_publisher p) ++ w_u64 (prov_boot p) ++
  w_u64 (prov_incarnation p) ++ w_u64 (prov_epoch p) ++ w_u64 (prov_attempt p) ++
  w_u64 (prov_trace p) ++ w_u64 (prov_sequence p).

Definition write_preferences (v : ContentionPreference * DegradePreference) : list N :=
  w_u8_pair (ContentionPreference_to_N v.1, DegradePreference_to_N v.2).

Definition write_rate (r : RateBounds) : list N :=
  w_u64 (minimum r) ++ w_u64 (desired r) ++ w_u64 (maximum r).

Definition write_request (r : AdmissionRequest) : list N :=
  w_u64 (rq_request r) ++ w_u64 (rq_demand r) ++ w_u64 (rq_demand_generation r) ++
  w_u64 (rq_attempt r) ++ write_rate (rq_rate r) ++ w_u64 (rq_qos r) ++ w_u64 (rq_qos_generation r) ++
  w_u64 (rq_priority r) ++ w_u64 (rq_priority_generation r) ++ w_u64 (rq_maximum_latency r) ++
  w_list w_binding (rq_resource_bindings r) ++ w_list w_candidate (rq_path_candidates r) ++
  w_u64 (rq_required_path r) ++ w_list w_reservation_ref (rq_reservation_refs r) ++
  w_u64 (rq_fairness_group r) ++ w_u64 (rq_tenant r) ++ w_boolean (rq_preemptible r) ++
  w_boolean (rq_requests_obligation_preemption r) ++ w_boolean (rq_allow_path_substitution r) ++
  write_preferences (rq_contention r, rq_degradation r) ++
  w_u64 (rq_deadline_ticks r) ++ w_u64 (rq_effective_tick r) ++ w_u64 (rq_effective_interval r) ++
  write_expected (rq_expected r) ++ write_provenance (rq_provenance r).

Definition encode_admit (m : AdmitMessage) : list N :=
  write_claim (am_claim m) ++ write_request (am_request m).

Definition admit_truncated : Status := malformed_s "admit is truncated".

Definition read_binding : M ByteReader ResourceBinding :=
  resource ← need r_u64 admit_truncated; generation ← need r_u64 admit_truncated;
  mret (mkResourceBinding resource generation).
Definition read_candidate : M ByteReader PathCandidate :=
  path ← need r_u64 admit_truncated; generation ← need r_u64 admit_truncated;
  mret (mkPathCandidate path generation).
Definition read_reservation_ref : M ByteReader ReservationRef :=
  reservation ← need r_u64 admit_truncated; generation ← need r_u64 admit_truncated;
  mret (mkReservationRef reservation generation).

(** Both bytes are read before either is checked. *)
Definition preferences_of (v : N * N) : Expected (ContentionPreference * DegradePreference) :=
  contention ← enum_or ContentionPreference_of_N (malformed_s "contention preference is invalid") v.1;
  degradation ← enum_or DegradePreference_of_N (malformed_s "degradation preference is invalid") v.2;
  mret (contention, degradation).
Definition read_preferences : M ByteReader (ContentionPreference * DegradePreference) :=
  need_map (read_u8_pair admit_truncated) preferences_of.

(** The three reads share one condition. *)
Definition read_rate : M ByteReader RateBounds :=
  minimum ← need r_u64 admit_truncated;
  desired ← need r_u64 admit_truncated;
  maximum ← need r_u64 admit_truncated;
  mret (mkRateBounds minimum desired maximum).

Definition read_expected : M ByteReader AuthorityExpectation :=
  capacity_snapshot ← need r_u64 admit_truncated;
  capacity_generation ← need r_u64 admit_truncated;
  reservation_snapshot ← need r_u64 admit_truncated;
  reservation_generation ← need r_u64 admit_truncated;
  path_authority_generation ← need r_u64 admit_truncated;
  policy_generation ← need r_u64 admit_truncated;
  qos_catalog_generation ← need r_u64 admit_truncated;
  priority_catalog_generation ← need r_u64 admit_truncated;
  mret (mkAuthorityExpectation capacity_snapshot capacity_generation reservation_snapshot
    reservation_generation path_authority_generation policy_generation qos_catalog_generation
    priority_catalog_generation).

Definition read_provenance : M ByteReader Provenance :=
  origin ← need_enum OriginKind_of_N admit_truncated (malformed_s "origin is invalid");
  publisher ← need r_u64 admit_truncated;
  boot ← need r_u64 admit_truncated;
  incarnation ← need r_u64 admit_truncated;
  epoch ← need r_u64 admit_truncated;
  attempt ← need r_u64 admit_truncated;
  trace ← need r_u64 admit_truncated;
  sequence ← need r_u64 admit_truncated;
  mret (mkProvenance publisher boot incarnation epoch attempt trace sequence origin).

Definition read_request : M ByteReader AdmissionRequest :=
  let truncated := admit_truncated in
  request ← need r_u64 truncated;
  demand ← need r_u64 truncated;
  demand_generation ← need r_u64 truncated;
  attempt ← need r_u64 truncated;
  rate ← read_rate;
  qos ← need r_u64 truncated;
  qos_generation ← need r_u64 truncated;
  priority ← need r_u64 truncated;
  priority_generation ← need r_u64 truncated;
  maximum_latency ← need r_u64 truncated;
  resource_bindings ← need_list max_resource_bindings read_binding truncated
    (oversized_s "too many resource bindings");
  path_candidates ← need_list max_path_candidates read_candidate truncated
    (oversized_s "too many path candidates");
  required_path ← need r_u64 truncated;
  reservation_refs ← need_list max_reservation_refs read_reservation_ref truncated
    (oversized_s "too many reservation references");
  fairness_group ← need r_u64 truncated;
  tenant ← need r_u64 truncated;
  preemptible ← need r_boolean truncated;
  requests_obligation_preemption ← need r_boolean truncated;
  allow_path_substitution ← need r_boolean truncated;
  preferences ← read_preferences;
  deadline_ticks ← need r_u64 truncated;
  effective_tick ← need r_u64 truncated;
  effective_interval ← need r_u64 truncated;
  expected ← read_expected;
  provenance ← read_provenance;
  mret (mkAdmissionRequest request demand demand_generation attempt
    rate qos qos_generation priority priority_generation
    maximum_latency resource_bindings path_candidates required_path reservation_refs
    fairness_group tenant preemptible requests_obligation_preemption allow_path_substitution
    preferences.1 preferences.2 deadline_ticks effective_tick effective_interval expected
    provenance).

Definition read_admit : M ByteReader AdmitMessage :=
  claim ← read_claim;
  request ← read_request;
  finish_payload ;;
  mret (mkAdmitMessage claim request).
Definition decode_admit (bytes : list N) : Expected AdmitMessage := run_decoder read_admit bytes.

(** ** Revalidate, revoke, error *)

Definition encode_revalidate (m : RevalidateMessage) : list N :=
  write_claim (rvm_claim m) ++ w_u64 (rvm_decision m).
Definition read_revalidate : M ByteReader RevalidateMessage :=
  claim ← read_claim;
  decision ← need r_u64 (malformed_s "revalidate is truncated");
  finish_payload ;;
  mret (mkRevalidateMessage claim decision).
Definition decode_revalidate (bytes : list N) : Expected RevalidateMessage :=
  run_decoder read_revalidate bytes.

Definition encode_revoke (m : RevokeMessage) : list N :=
  write_claim (rkm_claim m) ++ w_u64 (rkm_decision m) ++ w_enum RevocationReason_to_N (rkm_reason m).
Definition read_revoke : M ByteReader RevokeMessage :=
  claim ← read_claim;
  decision ← need r_u64 (malformed_s "revoke is truncated");
  reason ← need_enum RevocationReason_of_N (malformed_s "revoke is truncated")
    (malformed_s "revocation reason is invalid");
  finish_payload ;;
  mret (mkRevokeMessage claim decision reason).
Definition decode_revoke (bytes : list N) : Expected RevokeMessage := run_decoder read_revoke bytes.

Definition encode_error (m : ErrorMessage) : list N := w_u16 (em_code m) ++ w_text (em_text m).
Definition read_error : M ByteReader ErrorMessage :=
  code ← need r_u16 (malformed_s "error is truncated");
  text ← need r_text (malformed_s "error text is invalid");
  finish_payload ;;
  mret (mkErrorMessage code text).
Definition decode_error (bytes : list N) : Expected ErrorMessage := run_decoder read_error bytes.

(** ** Explanations and authority vectors *)

Definition BindingConstraint_new : BindingConstraint := mkBindingConstraint BC_None "" 0 0 0 0 0 "".

(** What is written for a constraint, and whether writing goes on after it: a text
    longer than 96 bytes is not written and ends the explanation at once. *)
Definition write_constraint (c : BindingConstraint) : list N * bool :=
  let out := w_enum BindingConstraintKind_to_N (bc_kind c) in
  if negb (writable_text (bc_subject c)) then (out, false)
  else
    let out := out ++ w_text (bc_subject c) ++ w_u64 (bc_subject_id c) ++ w_u64 (bc_required c) ++
      w_u64 (bc_available c) ++ w_u64 (bc_observed c) ++ w_u64 (bc_authoritative c) in
    if negb (writable_text (bc_detail c)) then (out, false)
    else (out ++ w_text (bc_detail c), true).

Fixpoint write_constraints (l : list BindingConstraint) : list N * bool :=
  match l with
  | [] => ([], true)
  | c :: l' =>
      let '(out, ok) := write_constraint c in
      if ok then let '(rest, ok) := write_constraints l' in (out ++ rest, ok) else (out, false)
  end.

(** The caller ignores the returned status, so only the bytes matter. *)
Definition write_explanation (x : Explanation) : list N :=
  let '(out, ok) := write_constraints (x_constraints x) in
  w_u32 (sizeN (x_constraints x)) ++ out ++
  (if ok then w_boolean (x_truncated x) ++ w_u32 (x_omitted x) else []).

Definition explanation_truncated : Status := malformed_s "explanation is truncated".

Definition read_constraint : M ByteReader BindingConstraint :=
  let truncated := explanation_truncated in
  kind ← need_enum BindingConstraintKind_of_N truncated
    (malformed_s "explanation constraint kind is invalid");
  subject ← need r_text (malformed_s "explanation subject is invalid");
  subject_id ← need r_u64 truncated;
  required ← need r_u64 truncated;
  available ← need r_u64 truncated;
  observed ← need r_u64 truncated;
  authoritative ← need r_u64 truncated;
  detail ← need r_text (malformed_s "explanation detail is invalid");
  mret (mkBindingConstraint kind subject subject_id required available observed authoritative detail).

(** The constraints are added to the receiver's own explanation, in order; the
    truncation flag adds an empty constraint; the count of omissions is dropped. *)
Definition read_explanation (explanation : Explanation) : M ByteReader Explanation :=
  constraints ← need_list max_explanation_constraints_limit read_constraint explanation_truncated
    (oversized_s "explanation has too many constraints");
  truncated ← need r_boolean explanation_truncated;
  omitted ← need r_u32 explanation_truncated;
  let explanation := foldl (fun x c => x_add c x) explanation constraints in
  mret (if (truncated : bool) then x_add BindingConstraint_new explanation else explanation).

Definition write_ref (r : AuthorityRef) : list N :=
  w_enum AuthorityKind_to_N (ar_kind r) ++ w_u64 (ar_subject r) ++ w_u64 (ar_generation r) ++
  w_u64 (ar_epoch r).
Definition write_authority (v : AuthorityVector) : list N :=
  w_list write_ref (av_refs v) ++ w_boolean (av_truncated v).

Definition authority_truncated : Status := malformed_s "authority vector is truncated".
Definition read_ref : M ByteReader AuthorityRef :=
  kind ← need_enum AuthorityKind_of_N authority_truncated (malformed_s "authority kind is invalid");
  subject ← need r_u64 authority_truncated;
  generation ← need r_u64 authority_truncated;
  epoch ← need r_u64 authority_truncated;
  mret (mkAuthorityRef kind subject generation epoch).

(** The references are added one by one; the truncation flag is dropped. *)
Definition read_authority (vector : AuthorityVector) : M ByteReader AuthorityVector :=
  refs ← need_list max_authority_refs read_ref authority_truncated
    (oversized_s "authority vector is too large");
  truncated ← need r_boolean authority_truncated;
  mret (foldl (fun v r => av_add (ar_kind r) (ar_subject r) (ar_generation r) (ar_epoch r) v)
          vector refs).

(** The explanation a reader starts from. *)
Definition receiving_explanation : Explanation :=
  Explanation_configure max_explanation_constraints_limit max_explanation_bytes_limit Explanation_new.

(** ** Decisions *)

Definition w_effective (e : EffectiveResource) : list N :=
  w_u64 (er_resource e) ++ w_u64 (er_generation e) ++ w_u64 (er_usable e) ++
  w_u64 (er_headroom e) ++ w_u64 (er_obligations e) ++ w_u64 (er_admitted e) ++
  w_u64 (er_available_for_new e).

Definition write_decision (d : AdmissionDecision) : list N :=
  w_u64 (ad_decision d) ++ w_u64 (ad_audit d) ++ w_enum AdmissionOutcome_to_N (ad_outcome d) ++
  w_u64 (ad_request d) ++ w_u64 (ad_demand d) ++ w_u64 (ad_demand_generation d) ++
  w_u64 (ad_attempt d) ++ w_u64 (ad_trace d) ++ w_u64 (ad_epoch d) ++ w_u64 (ad_incarnation d) ++
  w_u64 (ad_decided_tick d) ++ w_u64 (ad_selected_path d) ++ w_u64 (ad_selected_path_generation d) ++
  w_u64 (ad_granted d) ++ w_u64 (ad_minimum_guaranteed d) ++ w_u64 (ad_desired d) ++
  w_u64 (ad_maximum d) ++ w_u64 (ad_holding_interval d) ++ w_u64 (ad_bound_capacity_generation d) ++
  w_boolean (ad_revalidation_required d) ++ w_boolean (ad_idempotent_replay d) ++
  w_u64 (ad_request_fingerprint d) ++ w_list w_effective (ad_effective d) ++
  w_boolean (ad_effective_truncated d).
Definition encode_decision (d : AdmissionDecision) : list N :=
  write_decision d ++ write_explanation (ad_explanation d) ++ write_authority (ad_authority d).

Definition decision_truncated : Status := malformed_s "decision is truncated".
Definition read_effective : M ByteReader EffectiveResource :=
  let truncated := decision_truncated in
  resource ← need r_u64 truncated;
  generation ← need r_u64 truncated;
  usable ← need r_u64 truncated;
  headroom ← need r_u64 truncated;
  obligations ← need r_u64 truncated;
  admitted ← need r_u64 truncated;
  available ← need r_u64 truncated;
  mret (mkEffectiveResource resource generation usable headroom obligations admitted available).

(** The fields before the explanation. *)
Definition read_decision_fields : M ByteReader AdmissionDecision :=
  let truncated := decision_truncated in
  decision ← need r_u64 truncated;
  audit ← need r_u64 truncated;
  outcome ← need_enum AdmissionOutcome_of_N truncated (malformed_s "decision outcome is invalid");
  request ← need r_u64 truncated;
  demand ← need r_u64 truncated;
  demand_generation ← need r_u64 truncated;
  attempt ← need r_u64 truncated;
  trace ← need r_u64 truncated;
  epoch ← need r_u64 truncated;
  incarnation ← need r_u64 truncated;
  decided_tick ← need r_u64 truncated;
  selected_path ← need r_u64 truncated;
  selected_path_generation ← need r_u64 truncated;
  granted ← need r_u64 truncated;
  minimum_guaranteed ← need r_u64 truncated;
  desired ← need r_u64 truncated;
  maximum ← need r_u64 truncated;
  holding_interval ← need r_u64 truncated;
  bound_capacity_generation ← need r_u64 truncated;
  revalidation_required ← need r_boolean truncated;
  idempotent_replay ← need r_boolean truncated;
  request_fingerprint ← need r_u64 truncated;
  effective ← need_list max_effective_resources_limit read_effective truncated
    (oversized_s "decision effective list is too large");
  effective_truncated ← need r_boolean truncated;
  mret (mkAdmissionDecision decision audit outcome request demand demand_generation attempt trace
    epoch incarnation decided_tick selected_path selected_path_generation granted
    minimum_guaranteed desired maximum holding_interval bound_capacity_generation
    revalidation_required AuthorityVector_empty effective effective_truncated receiving_explanation
    idempotent_replay request_fingerprint).

Definition read_decision : M ByteReader AdmissionDecision :=
  out ← read_decision_fields;
  explanation ← read_explanation (ad_explanation out);
  authority ← read_authority (ad_authority out);
  finish_payload ;;
  mret (out <| ad_explanation := explanation |> <| ad_authority := authority |>).
Definition decode_decision (bytes : list N) : Expected AdmissionDecision := run_decoder read_decision bytes.

(** ** Revalidations *)

Definition write_verdict (v : AdmissionOutcome * RevalidationState * RevocationReason) : list N :=
  w_u8_triple (AdmissionOutcome_to_N v.1.1, RevalidationState_to_N v.1.2, RevocationReason_to_N v.2).

(** All three bytes are read before any is checked. *)
Definition make_verdict (v : N * N * N) : Expected (AdmissionOutcome * RevalidationState * RevocationReason) :=
  outcome ← enum_or AdmissionOutcome_of_N (malformed_s "revalidation outcome is invalid") v.1.1;
  state ← enum_or RevalidationState_of_N (malformed_s "revalidation state is invalid") v.1.2;
  reason ← enum_or RevocationReason_of_N (malformed_s "revalidation reason is invalid") v.2;
  mret (outcome, state, reason).
Definition revalidation_truncated : Status := malformed_s "revalidation is truncated".
Definition read_verdict : M ByteReader (AdmissionOutcome * RevalidationState * RevocationReason) :=
  need_map (read_u8_triple revalidation_truncated) make_verdict.

Definition write_revalidation (r : RevalidationResult) : list N :=
  w_u64 (rv_decision r) ++ write_verdict (rv_original_outcome r, rv_state r, rv_reason r) ++
  w_u64 (rv_granted r) ++ w_u64 (rv_tick r) ++ w_boolean (rv_ledger_released r).
Definition encode_revalidation (r : RevalidationResult) : list N :=
  write_revalidation r ++ write_explanation (rv_explanation r) ++ write_authority (rv_authority r).

Definition read_revalidation_fields : M ByteReader RevalidationResult :=
  let truncated := revalidation_truncated in
  decision ← need r_u64 truncated;
  verdict ← read_verdict;
  granted ← need r_u64 truncated;
  tick ← need r_u64 truncated;
  ledger_released ← need r_boolean truncated;
  mret (mkRevalidationResult decision verdict.1.1 verdict.1.2 verdict.2 granted tick ledger_released
    AuthorityVector_empty receiving_explanation).

Definition read_revalidation : M ByteReader RevalidationResult :=
  out ← read_revalidation_fields;
  explanation ← read_explanation (rv_explanation out);
  authority ← read_authority (rv_authority out);
  finish_payload ;;
  mret (out <| rv_explanation := explanation |> <| rv_authority := authority |>).
Definition decode_revalidation (bytes : list N) : Expected RevalidationResult :=
  run_decoder read_revalidation bytes.

(** ** Status *)

(** The infeasible resources are not sent. *)
Definition encode_status (s : FabricStatus) : list N :=
  w_enum EngineReadiness_to_N (fs_readiness s) ++ w_u64 (fs_epoch s) ++ w_u64 (fs_incarnation s) ++
  w_u64 (fs_tick s) ++ w_boolean (fs_has_policy s) ++ w_boolean (fs_has_capacity s) ++
  w_boolean (fs_has_reservations s) ++ w_boolean (fs_has_paths s) ++ w_boolean (fs_has_qos s) ++
  w_boolean (fs_has_priority s) ++ w_u64 (fs_policy_generation s) ++
  w_u64 (fs_capacity_generation s) ++ w_u64 (fs_reservation_generation s) ++
  w_u64 (fs_path_generation s) ++ w_u64 (fs_qos_generation s) ++ w_u64 (fs_priority_generation s) ++
  w_u64 (fs_capacity_snapshot s) ++ w_u64 (fs_reservation_snapshot s) ++
  w_u64 (fs_audit_sequence s) ++ w_u64 (fs_decisions s) ++ w_u64 (fs_admissions s) ++
  w_u64 (fs_refusals s) ++ w_u64 (fs_deferrals s) ++ w_u64 (fs_idempotent_replays s) ++
  w_u64 (fs_conflicts s) ++ w_u64 (fs_fences s) ++ w_u64 (fs_stale_refusals s) ++
  w_u32 (fs_ledger_entries s) ++ w_u32 (fs_live_decisions s) ++ w_u32 (fs_live_sessions s) ++
  w_u64 (fs_total_admitted s) ++ w_boolean (fs_durable s) ++ w_boolean (fs_reconciled s).

Definition read_status : M ByteReader FabricStatus :=
  let truncated := malformed_s "status is truncated" in
  readiness ← need_enum EngineReadiness_of_N truncated (malformed_s "status readiness is invalid");
  epoch ← need r_u64 truncated;
  incarnation ← need r_u64 truncated;
  tick ← need r_u64 truncated;
  has_policy ← need r_boolean truncated;
  has_capacity ← need r_boolean truncated;
  has_reservations ← need r_boolean truncated;
  has_paths ← need r_boolean truncated;
  has_qos ← need r_boolean truncated;
  has_priority ← need r_boolean truncated;
  policy_generation ← need r_u64 truncated;
  capacity_generation ← need r_u64 truncated;
  reservation_generation ← need r_u64 truncated;
  path_generation ← need r_u64 truncated;
  qos_generation ← need r_u64 truncated;
  priority_generation ← need r_u64 truncated;
  capacity_snapshot ← need r_u64 truncated;
  reservation_snapshot ← need r_u64 truncated;
  audit_sequence ← need r_u64 truncated;
  decisions ← need r_u64 truncated;
  admissions ← need r_u64 truncated;
  refusals ← need r_u64 truncated;
  deferrals ← need r_u64 truncated;
  idempotent_replays ← need r_u64 truncated;
  conflicts ← need r_u64 truncated;
  fences ← need r_u64 truncated;
  stale_refusals ← need r_u64 truncated;
  ledger_entries ← need r_u32 truncated;
  live_decisions ← need r_u32 truncated;
  live_sessions ← need r_u32 truncated;
  total_admitted ← need r_u64 truncated;
  durable ← need r_boolean truncated;
  reconciled ← need r_boolean truncated;
  finish_payload ;;
  mret (mkFabricStatus readiness epoch incarnation tick has_policy has_capacity has_reservations
    has_paths has_qos has_priority policy_generation capacity_generation reservation_generation
    path_generation qos_generation priority_generation capacity_snapshot reservation_snapshot
    audit_sequence decisions admissions refusals deferrals idempotent_replays conflicts fences
    stale_refusals ledger_entries live_decisions live_sessions total_admitted 0 durable reconciled).
Definition decode_status (bytes : list N) : Expected FabricStatus := run_decoder read_status bytes.

(** ** What can be sent

    The values whose fields fit their encoded widths, whose texts fit 96 bytes and
    whose lists are within the reader's bounds. *)

Definition hello_sendable (m : HelloMessage) : Prop :=
  ((hm_protocol_version m =? protocol_version) = true /\ hm_protocol_version m < two16) /\
  u64 (hm_publisher m) /\ u64 (hm_boot m) /\
  ((hm_max_frame m <=? max_frame_bytes) = true /\ hm_max_frame m < two32) /\ u64 (hm_client_nonce m).
Definition welcome_sendable (m : WelcomeMessage) : Prop :=
  u64 (wm_epoch m) /\ u64 (wm_incarnation m) /\ u64 (wm_session m) /\
  N.of_nat (String.length (wm_reason m)) <= 96.
Definition binding_sendable (b : ResourceBinding) : Prop := u64 (rb_resource b) /\ u64 (rb_generation b).
Definition candidate_sendable (c : PathCandidate) : Prop :=
  u64 (pcd_path c) /\ u64 (pcd_path_authority_generation c).
Definition reservation_ref_sendable (r : ReservationRef) : Prop :=
  u64 (rr_reservation r) /\ u64 (rr_generation r).
Definition expected_sendable (e : AuthorityExpectation) : Prop :=
  u64 (ex_capacity_snapshot e) /\ u64 (ex_capacity_generation e) /\ u64 (ex_reservation_snapshot e) /\
  u64 (ex_reservation_generation e) /\ u64 (ex_path_authority_generation e) /\
  u64 (ex_policy_generation e) /\ u64 (ex_qos_catalog_generation e) /\
  u64 (ex_priority_catalog_generation e).
Definition provenance_sendable (p : Provenance) : Prop :=
  u64 (prov_publisher p) /\ u64 (prov_boot p) /\ u64 (prov_incarnation p) /\ u64 (prov_epoch p) /\
  u64 (prov_attempt p) /\ u64 (prov_trace p) /\ u64 (prov_sequence p).
Definition rate_sendable (r : RateBounds) : Prop :=
  u64 (minimum r) /\ u64 (desired r) /\ u64 (maximum r).
Definition request_sendable (r : AdmissionRequest) : Prop :=
  u64 (rq_request r) /\ u64 (rq_demand r) /\ u64 (rq_demand_generation r) /\ u64 (rq_attempt r) /\
  rate_sendable (rq_rate r) /\
  u64 (rq_qos r) /\ u64 (rq_qos_generation r) /\ u64 (rq_priority r) /\ u64 (rq_priority_generation r) /\
  u64 (rq_maximum_latency r) /\
  (sizeN (rq_resource_bindings r) <= max_resource_bindings /\
   Forall binding_sendable (rq_resource_bindings r)) /\
  (sizeN (rq_path_candidates r) <= max_path_candidates /\
   Forall candidate_sendable (rq_path_candidates r)) /\
  u64 (rq_required_path r) /\
  (sizeN (rq_reservation_refs r) <= max_reservation_refs /\
   Forall reservation_ref_sendable (rq_reservation_refs r)) /\
  u64 (rq_fairness_group r) /\ u64 (rq_tenant r) /\ u64 (rq_deadline_ticks r) /\
  u64 (rq_effective_tick r) /\ u64 (rq_effective_interval r) /\
  expected_sendable (rq_expected r) /\ provenance_sendable (rq_provenance r).
Definition admit_sendable (m : AdmitMessage) : Prop :=
  claim_sendable (am_claim m) /\ request_sendable (am_request m).
Definition revalidate_sendable (m : RevalidateMessage) : Prop :=
  claim_sendable (rvm_claim m) /\ u64 (rvm_decision m).
Definition revoke_sendable (m : RevokeMessage) : Prop :=
  claim_sendable (rkm_claim m) /\ u64 (rkm_decision m).
Definition error_sendable (m : ErrorMessage) : Prop :=
  em_code m < two16 /\ N.of_nat (String.length (em_text m)) <= 96.

#[export] Instance binding_decodes : Decodes read_binding w_binding binding_sendable.
Proof. solve_decodes w_binding read_binding binding_sendable. Qed.
#[export] Instance candidate_decodes : Decodes read_candidate w_candidate candidate_sendable.
Proof. solve_decodes w_candidate read_candidate candidate_sendable. Qed.
#[export] Instance reservation_ref_decodes :
  Decodes read_reservation_ref w_reservation_ref reservation_ref_sendable.
Proof. solve_decodes w_reservation_ref read_reservation_ref reservation_ref_sendable. Qed.
#[export] Instance rate_decodes : Decodes read_rate write_rate rate_sendable.
Proof. solve_decodes write_rate read_rate rate_sendable. Qed.
#[export] Instance expected_decodes : Decodes read_expected write_expected expected_sendable.
Proof. solve_decodes write_expected read_expected expected_sendable. Qed.
#[export] Instance provenance_decodes : Decodes read_provenance write_provenance provenance_sendable.
Proof. solve_decodes write_provenance read_provenance provenance_sendable. Qed.

Lemma enum_or_val {A} (to_N : A -> N) (of_N : N -> option A) `{!Enum to_N of_N} (s : Status)
    (v : N) (a : A) :
  enum_or of_N s v = Val a <-> v = to_N a.
Proof.
  unfold enum_or. split.
  - destruct (of_N v) as [a'|] eqn:E; [|done]. intros [= <-].
    by rewrite (enum_to_of (to_N := to_N) v a' E).
  - intros ->. by rewrite enum_of_to.
Qed.

#[export] Instance preferences_decodes :
  Decodes read_preferences write_preferences (fun _ => True).
Proof.
  apply (map_decodes (read_u8_pair admit_truncated) w_u8_pair _ preferences_of
    (fun v => (ContentionPreference_to_N v.1, DegradePreference_to_N v.2))).
  - intros [c d]. split; [by destruct c, d|]. by destruct c, d.
  - intros [x y] [c d] H. unfold preferences_of in H.
    apply expected_bind_val in H as (c' & Hc & H). apply expected_bind_val in H as (d' & Hd & H).
    rewrite (enum_or_val ContentionPreference_to_N ContentionPreference_of_N) in Hc. rewrite (enum_or_val DegradePreference_to_N DegradePreference_of_N) in Hd.
    injection H as -> ->. cbn in *. by subst.
Qed.

#[export] Instance verdict_decodes : Decodes read_verdict write_verdict (fun _ => True).
Proof.
  apply (map_decodes (read_u8_triple revalidation_truncated) w_u8_triple _ make_verdict
    (fun v => (AdmissionOutcome_to_N v.1.1, RevalidationState_to_N v.1.2, RevocationReason_to_N v.2))).
  - intros [[o s] r]. split; [by destruct o, s, r|]. cbn. by destruct o, s, r.
  - intros [[x y] z] [[o s] r] H. unfold make_verdict in H.
    apply expected_bind_val in H as (o' & Ho & H). apply expected_bind_val in H as (s' & Hs & H).
    apply expected_bind_val in H as (r' & Hr & H). rewrite (enum_or_val AdmissionOutcome_to_N AdmissionOutcome_of_N) in Ho.
    rewrite (enum_or_val RevalidationState_to_N RevalidationState_of_N) in Hs. rewrite (enum_or_val RevocationReason_to_N RevocationReason_of_N) in Hr.
    injection H as -> -> ->. cbn in *. by subst.
Qed.

#[export] Instance request_decodes : Decodes read_request write_request request_sendable.
Proof. solve_decodes write_request read_request request_sendable. Qed.

#[export] Instance hello_codec : Codec encode_hello decode_hello hello_sendable.
Proof. solve_codec encode_hello decode_hello read_hello hello_sendable. Qed.
#[export] Instance welcome_codec : Codec encode_welcome decode_welcome welcome_sendable.
Proof. solve_codec encode_welcome decode_welcome read_welcome welcome_sendable. Qed.
#[export] Instance admit_codec : Codec encode_admit decode_admit admit_sendable.
Proof. solve_codec encode_admit decode_admit read_admit admit_sendable. Qed.
#[export] Instance revalidate_codec : Codec encode_revalidate decode_revalidate revalidate_sendable.
Proof. solve_codec encode_revalidate decode_revalidate read_revalidate revalidate_sendable. Qed.
#[export] Instance revoke_codec : Codec encode_revoke decode_revoke revoke_sendable.
Proof. solve_codec encode_revoke decode_revoke read_revoke revoke_sendable. Qed.
#[export] Instance error_codec : Codec encode_error decode_error error_sendable.
Proof. solve_codec encode_error decode_error read_error error_sendable. Qed.

(** ** Status, decisions, revalidations *)

Ltac destruct_conjs_all := repeat match goal with H : _ /\ _ |- _ => destruct H end.

(** [solve_codec] for records with fields that are not sent. *)
Ltac solve_fields enc rd wf :=
  constructor;
    [ let a := fresh "a" in let rest := fresh "rest" in let Ha := fresh "Ha" in
      intros a rest Ha; unfold rd, enc; unfold wf in Ha; cbn zeta; rewrite <- ?app_assoc;
      read_fields; destruct a; cbn in *; destruct_conjs_all; subst; reflexivity
    | let bs := fresh "bs" in let a := fresh "a" in let rest := fresh "rest" in
      let Hb := fresh "Hb" in let H := fresh "H" in
      intros bs a rest Hb H; unfold rd in H; cbn zeta in H; recover_fields H Hb;
      injection H as <- <-; unfold enc, wf; split_pairs; rewrite <- ?app_assoc;
      split_and!; [reflexivity|cbn; intuition..] ].

Definition status_sendable (s : FabricStatus) : Prop :=
  u64 (fs_epoch s) /\ u64 (fs_incarnation s) /\ u64 (fs_tick s) /\ u64 (fs_policy_generation s) /\
  u64 (fs_capacity_generation s) /\ u64 (fs_reservation_generation s) /\ u64 (fs_path_generation s) /\
  u64 (fs_qos_generation s) /\ u64 (fs_priority_generation s) /\ u64 (fs_capacity_snapshot s) /\
  u64 (fs_reservation_snapshot s) /\ u64 (fs_audit_sequence s) /\ u64 (fs_decisions s) /\
  u64 (fs_admissions s) /\ u64 (fs_refusals s) /\ u64 (fs_deferrals s) /\
  u64 (fs_idempotent_replays s) /\ u64 (fs_conflicts s) /\ u64 (fs_fences s) /\
  u64 (fs_stale_refusals s) /\ fs_ledger_entries s < two32 /\ fs_live_decisions s < two32 /\
  fs_live_sessions s < two32 /\ u64 (fs_total_admitted s).

(** What arrives: everything but the infeasible resources. *)
Definition received_status (s : FabricStatus) : FabricStatus :=
  mkFabricStatus (fs_readiness s) (fs_epoch s) (fs_incarnation s) (fs_tick s) (fs_has_policy s)
    (fs_has_capacity s) (fs_has_reservations s) (fs_has_paths s) (fs_has_qos s) (fs_has_priority s)
    (fs_policy_generation s) (fs_capacity_generation s) (fs_reservation_generation s)
    (fs_path_generation s) (fs_qos_generation s) (fs_priority_generation s) (fs_capacity_snapshot s)
    (fs_reservation_snapshot s) (fs_audit_sequence s) (fs_decisions s) (fs_admissions s)
    (fs_refusals s) (fs_deferrals s) (fs_idempotent_replays s) (fs_conflicts s) (fs_fences s)
    (fs_stale_refusals s) (fs_ledger_entries s) (fs_live_decisions s) (fs_live_sessions s)
    (fs_total_admitted s) 0 (fs_durable s) (fs_reconciled s).

Lemma status_received (s : FabricStatus) :
  status_sendable s -> decode_status (encode_status s) = Val (received_status s).
Proof.
  intros Hs. unfold decode_status, run_decoder, read_status. unfold status_sendable in Hs. cbn zeta.
  rewrite <- (app_nil_r (encode_status s)). unfold encode_status. rewrite <- ?app_assoc.
  match goal with |- (?m ?bs).1 = ?v => enough (m bs = (v, [])) as -> by reflexivity end.
  read_fields.
Qed.

Definition effective_sendable (e : EffectiveResource) : Prop :=
  u64 (er_resource e) /\ u64 (er_generation e) /\ u64 (er_usable e) /\ u64 (er_headroom e) /\
  u64 (er_obligations e) /\ u64 (er_admitted e) /\ u64 (er_available_for_new e).
Definition ref_sendable (r : AuthorityRef) : Prop :=
  u64 (ar_subject r) /\ u64 (ar_generation r) /\ u64 (ar_epoch r).
Definition constraint_sendable (c : BindingConstraint) : Prop :=
  N.of_nat (String.length (bc_subject c)) <= 96 /\ u64 (bc_subject_id c) /\ u64 (bc_required c) /\
  u64 (bc_available c) /\ u64 (bc_observed c) /\ u64 (bc_authoritative c) /\
  N.of_nat (String.length (bc_detail c)) <= 96.
Definition explanation_sendable (x : Explanation) : Prop :=
  explanation_wf x /\ Forall constraint_sendable (x_constraints x).
Definition authority_sendable (v : AuthorityVector) : Prop :=
  authority_wf v /\ Forall ref_sendable (av_refs v).

(** A constraint that is written in full. *)
Definition w_constraint (c : BindingConstraint) : list N :=
  w_enum BindingConstraintKind_to_N (bc_kind c) ++ w_text (bc_subject c) ++ w_u64 (bc_subject_id c) ++
  w_u64 (bc_required c) ++ w_u64 (bc_available c) ++ w_u64 (bc_observed c) ++
  w_u64 (bc_authoritative c) ++ w_text (bc_detail c).

#[export] Instance constraint_decodes : Decodes read_constraint w_constraint constraint_sendable.
Proof. solve_decodes w_constraint read_constraint constraint_sendable. Qed.
#[export] Instance ref_decodes : Decodes read_ref write_ref ref_sendable.
Proof. solve_decodes write_ref read_ref ref_sendable. Qed.
#[export] Instance effective_decodes : Decodes read_effective w_effective effective_sendable.
Proof. solve_decodes w_effective read_effective effective_sendable. Qed.

Lemma write_constraint_full (c : BindingConstraint) :
  constraint_sendable c -> write_constraint c = (w_constraint c, true).
Proof.
  intros (Hs & _ & _ & _ & _ & _ & Hd). unfold write_constraint, writable_text, max_string_bytes.
  apply N.leb_le in Hs as ->. apply N.leb_le in Hd as ->. cbn [negb]. unfold w_constraint.
  by rewrite <- !app_assoc.
Qed.

Lemma write_constraints_full (l : list BindingConstraint) :
  Forall constraint_sendable l -> write_constraints l = (l ≫= w_constraint, true).
Proof.
  induction 1 as [|c l Hc _ IH]; [done|]. cbn [write_constraints].
  by rewrite write_constraint_full, IH.
Qed.

(** The explanation a reader rebuilds. *)
Definition received_explanation (x : Explanation) : Explanation :=
  let y := mkExplanation (x_constraints x) 48 8192 (x_bytes x) 0 false in
  if x_truncated x then x_add BindingConstraint_new y else y.

Lemma replay_constraints (pre l : list BindingConstraint) :
  sizeN (pre ++ l) <= 48 -> sumN (constraint_cost <$> (pre ++ l)) <= 8192 ->
  Forall (fun c => string_size (bc_subject c) <= 96 /\ string_size (bc_detail c) <= 192) l ->
  foldl (fun x c => x_add c x) (mkExplanation pre 48 8192 (sumN (constraint_cost <$> pre)) 0 false) l =
  mkExplanation (pre ++ l) 48 8192 (sumN (constraint_cost <$> (pre ++ l))) 0 false.
Proof.
  revert pre. induction l as [|c l IH]; intros pre Hn Hb Hs; cbn [foldl].
  - by rewrite app_nil_r.
  - apply Forall_cons in Hs as [[Hs Hd] Hl].
    assert (Ec : bounded_constraint c = c) by (unfold bounded_constraint; rewrite !bounded_id by done; by destruct c).
    rewrite cons_middle, app_assoc in Hn, Hb. rewrite cons_middle, app_assoc, <- IH by done. f_equal.
    unfold x_add, Explanation_add. rewrite Ec. cbn [x_max_constraints x_constraints x_bytes x_max_bytes].
    assert (Hsum : sumN (constraint_cost <$> (pre ++ [c])) = sumN (constraint_cost <$> pre) + constraint_cost c)
      by (rewrite fmap_app, sumN_app; unfold sumN; cbn; lia).
    assert (Hpre : sumN (constraint_cost <$> (pre ++ [c])) <= 8192)
      by (rewrite fmap_app, sumN_app in Hb; lia).
    assert (Hlen : sizeN pre < 48) by (unfold sizeN in *; rewrite !length_app in Hn; cbn in Hn; lia).
    rewrite Hsum in Hpre |- *. rewrite w_add_exact by (unfold two64; lia).
    apply N.leb_gt in Hlen as ->. apply N.ltb_ge in Hpre as ->. done.
Qed.

Lemma explanation_received (x : Explanation) (rest : list N) :
  explanation_sendable x ->
  read_explanation receiving_explanation (write_explanation x ++ rest) = (Val (received_explanation x), rest).
Proof.
  intros [Hwf Hs]. unfold read_explanation, write_explanation.
  rewrite write_constraints_full by done.
  assert (Hn : sizeN (x_constraints x) <= 48) by (destruct Hwf; lia).
  rewrite <- !app_assoc. rewrite app_assoc.
  eapply (bind_complete _ (w_list w_constraint)); [apply _|by split|]. cbn beta.
  eapply bind_complete; [apply _|done|].
  eapply bind_complete; [apply _|destruct Hwf; unfold u32_max, two32 in *; lia|].
  unfold received_explanation. rewrite (xwf_bytes x Hwf).
  change receiving_explanation with (mkExplanation [] 48 8192 (sumN (constraint_cost <$> [])) 0 false).
  rewrite (replay_constraints [] (x_constraints x)); [done|done| |apply Hwf].
  rewrite app_nil_l, <- (xwf_bytes x Hwf). destruct Hwf. lia.
Qed.

(** References with distinct subjects are rebuilt as they were. *)
Lemma replay_refs (pre l : list AuthorityRef) :
  NoDup (ar_key <$> (pre ++ l)) -> sizeN (pre ++ l) <= max_authority_refs ->
  foldl (fun v r => av_add (ar_kind r) (ar_subject r) (ar_generation r) (ar_epoch r) v)
    (mkAuthorityVector pre false) l = mkAuthorityVector (pre ++ l) false.
Proof.
  revert pre. induction l as [|r l IH]; intros pre Hn Hb; cbn [foldl].
  - by rewrite app_nil_r.
  - rewrite cons_middle, app_assoc in Hn, Hb. rewrite cons_middle, app_assoc, <- IH by done. f_equal.
    rewrite fmap_app in Hn. apply NoDup_app in Hn as (Hn & _ & _). rewrite fmap_app in Hn.
    apply NoDup_app in Hn as (Hpre & Hd & _).
    assert (Hnew : ar_key r ∉ ar_key <$> pre) by (intros Hin; apply (Hd _ Hin); apply list_elem_of_here).
    assert (Hlen : sizeN pre < max_authority_refs)
      by (unfold sizeN in *; rewrite !length_app in Hb; cbn in Hb; lia).
    unfold av_add. rewrite add_scan by (constructor; [done|cbn; lia]). cbn [av_refs av_truncated]. cbn zeta.
    rewrite (proj2 (merge_first_None _ _)) by done. apply N.leb_gt in Hlen as ->. by destruct r.
Qed.

(** The authority vector a reader rebuilds: the flag is not restored. *)
Definition received_authority (v : AuthorityVector) : AuthorityVector := mkAuthorityVector (av_refs v) false.

Lemma authority_received (v : AuthorityVector) (rest : list N) :
  authority_sendable v ->
  read_authority AuthorityVector_empty (write_authority v ++ rest) = (Val (received_authority v), rest).
Proof.
  intros [[Hn Hb] Hs]. unfold read_authority, write_authority. rewrite <- app_assoc.
  eapply bind_complete; [apply _|by split|]. cbn beta. eapply bind_complete; [apply _|done|].
  unfold AuthorityVector_empty. by rewrite replay_refs.
Qed.

Definition decision_fields_sendable (d : AdmissionDecision) : Prop :=
  u64 (ad_decision d) /\ u64 (ad_audit d) /\ u64 (ad_request d) /\ u64 (ad_demand d) /\
  u64 (ad_demand_generation d) /\ u64 (ad_attempt d) /\ u64 (ad_trace d) /\ u64 (ad_epoch d) /\
  u64 (ad_incarnation d) /\ u64 (ad_decided_tick d) /\ u64 (ad_selected_path d) /\
  u64 (ad_selected_path_generation d) /\ u64 (ad_granted d) /\ u64 (ad_minimum_guaranteed d) /\
  u64 (ad_desired d) /\ u64 (ad_maximum d) /\ u64 (ad_holding_interval d) /\
  u64 (ad_bound_capacity_generation d) /\ u64 (ad_request_fingerprint d) /\
  (sizeN (ad_effective d) <= max_effective_resources_limit /\ Forall effective_sendable (ad_effective d)).
Definition decision_sendable (d : AdmissionDecision) : Prop :=
  decision_fields_sendable d /\ explanation_sendable (ad_explanation d) /\
  authority_sendable (ad_authority d).
Definition received_decision (d : AdmissionDecision) : AdmissionDecision :=
  d <| ad_explanation := received_explanation (ad_explanation d) |>
    <| ad_authority := received_authority (ad_authority d) |>.

Definition revalidation_fields_sendable (r : RevalidationResult) : Prop :=
  u64 (rv_decision r) /\ u64 (rv_granted r) /\ u64 (rv_tick r).
Definition revalidation_sendable (r : RevalidationResult) : Prop :=
  revalidation_fields_sendable r /\ explanation_sendable (rv_explanation r) /\
  authority_sendable (rv_authority r).
Definition received_revalidation (r : RevalidationResult) : RevalidationResult :=
  r <| rv_explanation := received_explanation (rv_explanation r) |>
    <| rv_authority := received_authority (rv_authority r) |>.

Lemma decision_fields_received (d : AdmissionDecision) (rest : list N) :
  decision_fields_sendable d ->
  read_decision_fields (write_decision d ++ rest) =
  (Val (d <| ad_explanation := receiving_explanation |> <| ad_authority := AuthorityVector_empty |>), rest).
Proof.
  intros Hd. unfold read_decision_fields, write_decision, decision_fields_sendable in *. cbn zeta.
  rewrite <- ?app_assoc. read_fields.
Qed.

Lemma revalidation_fields_received (r : RevalidationResult) (rest : list N) :
  revalidation_fields_sendable r ->
  read_revalidation_fields (write_revalidation r ++ rest) =
  (Val (r <| rv_explanation := receiving_explanation |> <| rv_authority := AuthorityVector_empty |>), rest).
Proof.
  intros Hr. unfold read_revalidation_fields, write_revalidation, revalidation_fields_sendable in *. cbn zeta.
  rewrite <- ?app_assoc. read_fields.
Qed.

Lemma decision_received (d : AdmissionDecision) :
  decision_sendable d -> decode_decision (encode_decision d) = Val (received_decision d).
Proof.
  intros (Hf & Hx & Hv). unfold decode_decision, run_decoder, read_decision, encode_decision.
  rewrite (bind_run _ _ _ _ _ (decision_fields_received d _ Hf)).
  erewrite bind_run; [|by apply explanation_received].
  rewrite <- (app_nil_r (write_authority _)).
  erewrite bind_run; [|by apply authority_received]. reflexivity.
Qed.

Lemma revalidation_received (r : RevalidationResult) :
  revalidation_sendable r -> decode_revalidation (encode_revalidation r) = Val (received_revalidation r).
Proof.
  intros (Hf & Hx & Hv). unfold decode_revalidation, run_decoder, read_revalidation, encode_revalidation.
  rewrite (bind_run _ _ _ _ _ (revalidation_fields_received r _ Hf)).
  erewrite bind_run; [|by apply explanation_received].
  rewrite <- (app_nil_r (write_authority _)).
  erewrite bind_run; [|by apply authority_received]. reflexivity.
Qed.

(** ** Properties *)

(** C21: the requests and control messages of the wire protocol survive it.  Decoding
    the encoding of a hello, welcome, admit, revalidate, revoke or error message
    whose fields fit their widths, whose texts fit 96 bytes and whose lists fit the
    reader's bounds gives the message back; and each decoder accepts nothing but
    encodings of such messages, so that a reader never gets a protocol version
    other than its own, an unlisted enumerator, an oversized list or text, or a
    payload with trailing bytes. *)
Theorem messages_roundtrip (h : HelloMessage) (w : WelcomeMessage) (a : AdmitMessage)
    (v : RevalidateMessage) (k : RevokeMessage) (e : ErrorMessage) (bs : list N)
    (Hb : Forall is_byte bs) :
  (hello_sendable h -> decode_hello (encode_hello h) = Val h) /\
  (welcome_sendable w -> decode_welcome (encode_welcome w) = Val w) /\
  (admit_sendable a -> decode_admit (encode_admit a) = Val a) /\
  (revalidate_sendable v -> decode_revalidate (encode_revalidate v) = Val v) /\
  (revoke_sendable k -> decode_revoke (encode_revoke k) = Val k) /\
  (error_sendable e -> decode_error (encode_error e) = Val e) /\
  (decode_hello bs = Val h -> encode_hello h = bs /\ hello_sendable h) /\
  (decode_welcome bs = Val w -> encode_welcome w = bs /\ welcome_sendable w) /\
  (decode_admit bs = Val a -> encode_admit a = bs /\ admit_sendable a) /\
  (decode_revalidate bs = Val v -> encode_revalidate v = bs /\ revalidate_sendable v) /\
  (decode_revoke bs = Val k -> encode_revoke k = bs /\ revoke_sendable k) /\
  (decode_error bs = Val e -> encode_error e = bs /\ error_sendable e).
Proof. split_and!; intros H; first [by apply codec_roundtrip|by apply codec_canonical]. Qed.

Definition sample_admit : AdmitMessage :=
  mkAdmitMessage (mkClaimContext Claimant 7 3 1 9 2 5 0 1) (sample_request 5 3).
Definition sample_hello : HelloMessage := mkHelloMessage 1 7 3 4096 3.

Ltac sendable :=
  unfold hello_sendable, admit_sendable, claim_sendable, request_sendable, rate_sendable,
    expected_sendable, provenance_sendable; cbn; split_and!; try done; repeat constructor.

Lemma messages_roundtrip_witness :
  decode_admit (encode_admit sample_admit) = Val sample_admit /\
  decode_hello (encode_hello sample_hello) = Val sample_hello.
Proof.
  destruct (messages_roundtrip sample_hello WelcomeMessage_new sample_admit
    (mkRevalidateMessage (am_claim sample_admit) 1)
    (mkRevokeMessage (am_claim sample_admit) 1 OperatorRequest) (mkErrorMessage 1 "") []
    (List.Forall_nil _)) as (Hh & _ & Ha & _).
  split; [apply Ha; sendable|apply Hh; sendable].
Defined.

(** What a claimant learns from the replies.  A decision or a revalidation whose
    fields fit arrives with every field as it was sent, but for the explanation,
    which keeps its constraints under the reader's limits, and the authority vector,
    which keeps its references; when neither was truncated, the constraints, the
    count of omissions, the references and both flags are those that were sent.  A
    status reply arrives but for the number of infeasible resources. *)
Theorem replies_received (d : AdmissionDecision) (r : RevalidationResult) (s : FabricStatus)
    (Hd : decision_sendable d) (Hr : revalidation_sendable r) (Hs : status_sendable s) :
  decode_decision (encode_decision d) = Val (received_decision d) /\
  decode_revalidation (encode_revalidation r) = Val (received_revalidation r) /\
  decode_status (encode_status s) = Val (received_status s) /\
  (forall x, x_truncated x = false -> explanation_wf x ->
     x_constraints (received_explanation x) = x_constraints x /\
     x_truncated (received_explanation x) = x_truncated x /\
     x_omitted (received_explanation x) = x_omitted x) /\
  (av_truncated (ad_authority d) = false -> ad_authority (received_decision d) = ad_authority d) /\
  (received_decision d) <| ad_explanation := ad_explanation d |> <| ad_authority := ad_authority d |> = d /\
  (received_revalidation r) <| rv_explanation := rv_explanation r |> <| rv_authority := rv_authority r |> = r.
Proof.
  split; [by apply decision_received|]. split; [by apply revalidation_received|].
  split; [by apply status_received|]. split_and!.
  - intros x Hx [_ _ _ _ _ _ Ht _]. unfold received_explanation. rewrite Hx. cbn. split_and!; [done..|].
    destruct (N.eq_dec (x_omitted x) 0) as [->|Ho]; [done|]. apply Ht in Ho. congruence.
  - intros Ht. cbn. destruct (ad_authority d) as [refs t]; cbn in *. by subst.
  - by destruct d.
  - by destruct r.
Qed.

Definition sample_reply : AdmissionDecision :=
  AdmissionDecision_new <| ad_decision := 4 |> <| ad_outcome := Admit |> <| ad_granted := 50 |>
    <| ad_explanation := x_add sample_constraint Explanation_new |>
    <| ad_authority := av_add AK_Policy 0 3 1 AuthorityVector_empty |>.

Lemma sample_reply_sendable : decision_sendable sample_reply.
Proof.
  split; [|split]; [|split|split].
  - unfold decision_fields_sendable. cbn. split_and!; done.
  - apply x_add_wf, explanation_wf_new.
  - cbn. repeat constructor; done.
  - apply av_add_wf, authority_wf_empty.
  - cbn. repeat constructor; done.
Qed.
Lemma sample_verdict_sendable : revalidation_sendable RevalidationResult_new.
Proof.
  split; [done|]. split; split;
    [apply explanation_wf_new|constructor|apply authority_wf_empty|constructor].
Qed.

Lemma replies_received_witness :
  decode_decision (encode_decision sample_reply) = Val (received_decision sample_reply) /\
  x_constraints (ad_explanation (received_decision sample_reply)) = [sample_constraint].
Proof.
  destruct (replies_received sample_reply RevalidationResult_new
    (status_locked (AdmissionEngine_new EngineConfig_new)) sample_reply_sendable sample_verdict_sendable)
    as (H & _ & _ & Hx & _).
  - unfold status_sendable. cbn. split_and!; done.
  - split; [exact H|]. apply (Hx (ad_explanation sample_reply)); [reflexivity|].
    apply x_add_wf, explanation_wf_new.
Defined.

(** A truncated explanation does not arrive as one.  The reader drops the count of
    omissions and answers the flag by adding an empty constraint, which usually
    fits: the claimant sees a constraint that was never stated and no sign that
    others are missing.  The authority vector's flag is dropped as well. *)
Theorem truncation_not_transmitted :
  let x := x_add sample_constraint (x_add sample_constraint (Explanation_configure 1 4096 Explanation_new)) in
  let d := sample_reply <| ad_explanation := x |> <| ad_authority := mkAuthorityVector [] true |> in
  x_truncated x = true /\ x_omitted x = 1 /\ x_constraints x = [sample_constraint] /\
  (let y := ad_explanation (received_decision d) in
   decode_decision (encode_decision d) = Val (received_decision d) /\
   x_truncated y = false /\ x_omitted y = 0 /\ x_constraints y = [sample_constraint; BindingConstraint_new] /\
   av_truncated (ad_authority (received_decision d)) = false).
Proof. cbn zeta. split_and!; by vm_compute. Qed.

(** A constraint whose detail has between 97 and 192 bytes is a legal constraint of an
    explanation, but writing it stops in the middle and the status saying so is
    ignored: the decision that carries it cannot be read. *)
Definition long_detail : string :=
  "admitted load plus obligations and headroom exceeds authoritative usable capacity; revoking newest first".
Theorem long_detail_unreadable :
  let c := mkBindingConstraint BC_Capacity "resource" 7 100 40 0 0 long_detail in
  let d := sample_reply <| ad_explanation := x_add c Explanation_new |> in
  x_constraints (ad_explanation d) = [c] /\
  decode_decision (encode_decision d) = Err (malformed_s "protocol payload has trailing bytes").
Proof. cbn zeta. split; by vm_compute. Qed.
