(* ===== verification/Durable.v ===== *)
(** * Durability: the journal tells the grants

    While the journal is healthy, every public call leaves a log that tells exactly the
    grants the engine holds, so that a process started on the file at any time between
    calls carries the same load. *)

From S2P Require Import Prelude Checked Identity Hash State Policy Request Authority.
From S2P Require Import Decision Ledger History Bytes Records Journal Engine Log Recovery.
From S2P Require Import Admission.
From S2P Require Import Capacity Frames Grant Safety Api Enforce Reach Restart Compaction.
From S2P Require Import Continuity Mirror Protocol.
Local Open Scope N_scope.
Local Open Scope naf_scope.

(** ** Figures that fit their widths *)

Definition capacity_words (s : CapacitySnapshot) : Prop :=
  u64 (cs_generation s) /\ u64 (cs_observed_tick s) /\
  Forall (fun e => u64 (rc_resource e) /\ u64 (rc_usable e)) (cs_resources s).
Definition reservation_words (s : ReservationSnapshot) : Prop :=
  u64 (rs_generation s) /\ u64 (rs_observed_tick s) /\ Forall (fun o => u64 (po_reserved o)) (rs_obligations s).
Definition path_words (c : PathCatalog) : Prop :=
  u64 (pc_path_authority_generation c) /\ u64 (pc_observed_tick c) /\
  Forall (fun f => u64 (pf_path f) /\ u64 (pf_path_usable_capacity f)) (pc_paths c).
Definition qos_words (c : QoSClassCatalog) : Prop := u64 (qc_generation c) /\ u64 (qc_observed_tick c).
Definition priority_words (c : PriorityClassCatalog) : Prop := u64 (prc_generation c) /\ u64 (prc_observed_tick c).

(** What an engine that was only given words holds, as far as it is ever recorded. *)
Record words (k : EngineCore) : Prop := {
  wd_context : u64 (ek_epoch k) /\ u64 (ek_incarnation k) /\ u64 (ek_tick k);
  wd_sequences : u64 (ek_next_decision_sequence k) /\ u64 (ek_audit k);
  wd_policy : forall p, ek_policy k = Some p -> policy_storable p /\ policy_wf p;
  wd_capacity : forall s, ek_capacity k = Some s -> capacity_words s;
  wd_reservations : forall s, ek_reservations k = Some s -> reservation_words s;
  wd_paths : forall c, ek_paths k = Some c -> path_words c;
  wd_qos : forall c, ek_qos k = Some c -> qos_words c;
  wd_priorities : forall c, ek_priorities k = Some c -> priority_words c;
  wd_records : forall d r, history_find d (ek_history k) = Some r -> decision_storable r;
  wd_entries : forall d es, lg_by_decision (ek_ledger k) !! d = Some es ->
    sizeN es <= max_resource_bindings /\ Forall (fun e => entry_storable e /\ le_amount e <> 0) es;
}.

Lemma marked_storable (r r' : DecisionRecord) : marked r r' -> decision_storable r -> decision_storable r'.
Proof. by intros (s & c & b & ->). Qed.

Lemma words_lowered (k k' : EngineCore) : lowered k k' -> words k -> words k'.
Proof.
  intros Hl [W1 W2 W3 W4 W5 W6 W7 W8 W9 W10]. pose proof (lo_held _ _ Hl) as Hheld.
  pose proof (an_records _ _ (lo_history _ _ Hl)) as Hrec. destruct (lo_shape _ _ Hl) as (j & f & l & h & c & E).
  constructor; rewrite E; try done; cbn [ek_history ek_ledger set_field] in *.
  - intros d r Hr. specialize (Hrec d). rewrite E in Hrec. cbn [ek_history set_field] in Hrec. rewrite Hr in Hrec.
    inversion Hrec as [r0 r1 Hm E1 E2|]; subst. by eapply marked_storable, W9.
  - intros d es Hd. apply (W10 d). rewrite E in Hheld. by eapply lookup_weaken.
Qed.

Lemma path_lowered (k k' : EngineCore) (d : AdmissionDecisionId) : lowered k k' -> path_of k' d = path_of k d.
Proof.
  intros Hl. pose proof (an_records _ _ (lo_history _ _ Hl) d) as Hrec. unfold path_of.
  by destruct Hrec as [r r' (s & c & b & ->)|].
Qed.

(** Entries held, in the order the release record lists them. *)
Lemma held_words (k : EngineCore) (d : AdmissionDecisionId) (es : list LedgerEntry) :
  ledger_wf (ek_ledger k) -> words k -> lg_by_decision (ek_ledger k) !! d = Some es ->
  sizeN (held_entries (ek_ledger k) d) <= max_resource_bindings /\
  Forall entry_storable (held_entries (ek_ledger k) d).
Proof.
  intros Hw Hk Hd. rewrite (held_entries_perm _ Hw d), Hd. cbn [default].
  destruct (wd_entries k Hk d es Hd) as [Hs He]. split; [done|]. eapply Forall_impl; [exact He|]. by intros e [].
Qed.

Lemma wp_state {A} (m : M EngineCore A) (P : EngineCore -> Prop) (k : EngineCore) :
  wp m (fun _ k' => P k') k -> P (m k).2.
Proof. done. Qed.

Section durable.
Context (o : JournalOptions).

(** ** A log that is true *)

(** The log tells the grants of the engine. *)
Definition told (k : EngineCore) (rs : list LogRecord) : Prop :=
  tells rs (grants_of (ek_ledger k)) (path_of k) (ek_next_decision_sequence k) (ek_epoch k).

Record durable (k : EngineCore) : Prop := {
  du_wf : engine_wf k;
  du_words : words k;
  du_standing : forall d, holds (ek_ledger k) d = true -> stands_still k d;
  du_options : 52 <= jo_max_payload o < two32;
  du_log : exists rs, logged o k rs /\ told k rs;
}.

Lemma grants_holds (l : AdmittedLoadLedger) (d : AdmissionDecisionId) :
  is_Some (grants_of l !! d) <-> holds l d = true.
Proof. rewrite holds_iff. unfold grants_of. by rewrite lookup_fmap, fmap_is_Some. Qed.

(** ** What a call that decides nothing does to the grants *)

(** [keep] is the set of decisions the call must not touch. *)
Section keep.
Context (keep : AdmissionDecisionId -> Prop).

(** No grant is new, and those in [keep] are there still. *)
Record spared (l l' : AdmittedLoadLedger) : Prop := {
  sp_old : grants_of l' ⊆ grants_of l;
  sp_kept : forall d held, grants_of l !! d = Some held -> keep d -> grants_of l' !! d = Some held;
}.

(** The file system went during a call that began in [k]: what is left of the file tells
    grants of [k], in an epoch of the call. *)
Definition doomed (k k' : EngineCore) : Prop :=
  exists rs l e, gone o k' rs /\ ledger_wf l /\ spared (ek_ledger k) l /\
    tells rs (grants_of l) (path_of k) (ek_next_decision_sequence k) e /\ ek_epoch k <= e <= ek_epoch k'.

Record shrinks (k k' : EngineCore) : Prop := {
  sk_spared : spared (ek_ledger k) (ek_ledger k');
  sk_next : ek_next_decision_sequence k' = ek_next_decision_sequence k;
  sk_epoch : ek_epoch k <= ek_epoch k';
  sk_paths : forall d, is_Some (grants_of (ek_ledger k') !! d) -> path_of k' d = path_of k d;
}.

(** How a step ends: the log is true again, or the file system went and the step failed. *)
Definition after {A} (k : EngineCore) (r : Expected A) (k' : EngineCore) : Prop :=
  (durable k' /\ shrinks k k') \/ (has_value r = false /\ doomed k k').

Definition durably {A} (m : M EngineCore A) : Prop := forall k, durable k -> wp m (after k) k.

#[export] Instance spared_refl : Reflexive spared.
Proof. by intros l. Qed.
#[export] Instance spared_trans : Transitive spared.
Proof. intros l1 l2 l3 [H1 H2] [H3 H4]. constructor; [by etrans|auto]. Qed.
#[export] Instance shrinks_refl : Reflexive shrinks.
Proof. by intros k. Qed.
#[export] Instance shrinks_trans : Transitive shrinks.
Proof.
  intros k1 k2 k3 [S1 N1 E1 P1] [S2 N2 E2 P2]. constructor; [by etrans|congruence|lia|].
  intros d Hd. rewrite P2 by done. apply P1. destruct Hd as [held Hd]. exists held.
  by eapply lookup_weaken, (sp_old _ _ S2).
Qed.

Lemma shrinks_doomed (k1 k2 k3 : EngineCore) : shrinks k1 k2 -> doomed k2 k3 -> doomed k1 k3.
Proof.
  intros [S1 N1 E1 P1] (rs & l & e & Hg & Hw & S2 & Ht & He). exists rs, l, e. split_and!; [done|done|by etrans| |lia|lia].
  rewrite N1 in Ht. apply (tells_weaken _ _ _ _ _ Ht); [done|]. intros d [held Hd]. symmetry. apply P1.
  exists held. by eapply lookup_weaken, (sp_old _ _ S2).
Qed.

Lemma after_same {A} (k : EngineCore) (r : Expected A) : durable k -> after k r k.
Proof. by left. Qed.

Lemma after_durable {A} (k k' : EngineCore) (a : A) : after k (Val a) k' -> durable k'.
Proof. by intros [[? _]|[? _]]. Qed.

Lemma after_trans {A} (k1 k2 k3 : EngineCore) (r : Expected A) : shrinks k1 k2 -> after k2 r k3 -> after k1 r k3.
Proof.
  intros Hs [[Hd Hs']|[Hr Hd]]; [left; split; [done|by etrans]|right]. split; [done|by eapply shrinks_doomed].
Qed.

(** A step may go on only where the log is true. *)
Lemma wp_durable {A B} (m : M EngineCore A) (f : A -> M EngineCore B) (k : EngineCore) :
  wp m (after k) k -> (forall a k', durable k' -> shrinks k k' -> m k = (Val a, k') -> wp (f a) (after k') k') ->
  wp (m ≫= f) (after k) k.
Proof.
  intros Hm Hf. apply wp_bind. unfold wp in *. destruct (m k) as [[a|e] k1]; cbn [fst snd] in *.
  - destruct Hm as [[Hk1 Hs]|[? _]]; [|done]. apply (after_trans k k1); [done|]. by apply Hf.
  - destruct Hm as [[Hk1 Hs]|[_ Hd]]; [by left|by right].
Qed.
Lemma durably_bind {A B} (m : M EngineCore A) (f : A -> M EngineCore B) :
  durably m -> (forall a, durably (f a)) -> durably (m ≫= f).
Proof. intros Hm Hf k Hk. apply wp_durable; [by apply Hm|]. intros a k' Hk' _ _. by apply Hf. Qed.
Lemma durably_get {A} (f : EngineCore -> M EngineCore A) :
  (forall k, durable k -> wp (f k) (after k) k) -> durably (get ≫= f).
Proof. intros H k Hk. by apply wp_bind, wp_get, H. Qed.
Lemma durably_ret {A} (a : A) : durably (mret a).
Proof. intros k Hk. by apply wp_ret, after_same. Qed.
Lemma durably_lift {A} (e : Expected A) : durably (lift e).
Proof. intros k Hk. by apply wp_lift, after_same. Qed.
Lemma durably_fail {A} (c : StatusCode) (msg : string) : durably (fail (A := A) c msg).
Proof. apply durably_lift. Qed.
Lemma durably_run {A} (m : M EngineCore A) (k : EngineCore) : durably m -> durable k -> wp m (after k) k.
Proof. intros H. apply H. Qed.

(** The log does not depend on anything but grants, paths, identities and the epoch. *)
Lemma told_same (k k' : EngineCore) (rs : list LogRecord) :
  grants_of (ek_ledger k') = grants_of (ek_ledger k) ->
  ek_next_decision_sequence k <= ek_next_decision_sequence k' -> ek_epoch k' = ek_epoch k ->
  (forall d, holds (ek_ledger k) d = true -> path_of k' d = path_of k d) -> told k rs -> told k' rs.
Proof.
  intros Eg En Ee Hp Ht. unfold told in *. rewrite Eg, Ee. apply (tells_weaken _ _ _ _ _ Ht); [done|].
  intros d Hd. by apply Hp, grants_holds.
Qed.

Lemma stands_same (k k' : EngineCore) :
  grants_of (ek_ledger k') = grants_of (ek_ledger k) -> ek_history k' = ek_history k ->
  (forall d, holds (ek_ledger k) d = true -> stands_still k d) ->
  forall d, holds (ek_ledger k') d = true -> stands_still k' d.
Proof.
  intros Eg Eh Hs d Hd. assert (Hd' : holds (ek_ledger k) d = true) by (apply grants_holds; rewrite <- Eg; by apply grants_holds).
  destruct (Hs d Hd') as (_ & r & Hr & H). split; [done|]. exists r. by rewrite Eh.
Qed.

Lemma same_shrinks (k k' : EngineCore) :
  grants_of (ek_ledger k') = grants_of (ek_ledger k) -> ek_history k' = ek_history k ->
  ek_next_decision_sequence k' = ek_next_decision_sequence k -> ek_epoch k <= ek_epoch k' -> shrinks k k'.
Proof.
  intros Eg Eh En Ee. constructor; [constructor; by rewrite Eg|done|done|]. intros d _. unfold path_of. by rewrite Eh.
Qed.

(** A change of what neither the grants nor the journal depend on. *)
Lemma durable_frame {A} (k k' : EngineCore) (r : Expected A) :
  durable k -> engine_wf k' -> words k' -> grants_of (ek_ledger k') = grants_of (ek_ledger k) ->
  ek_history k' = ek_history k -> ek_next_decision_sequence k' = ek_next_decision_sequence k ->
  ek_epoch k' = ek_epoch k -> ek_journal k' = ek_journal k -> ek_journal_ready k' = ek_journal_ready k ->
  ek_faults k' = ek_faults k -> after k r k'.
Proof.
  intros [Hw _ Hs Ho (rs & Hl & Ht)] Hw' Hwd' Eg Eh En Ee Ej Er Ef.
  left. split; [|apply same_shrinks; [done..|by rewrite Ee]]. constructor; [done|done| |done|].
  - by eapply stands_same.
  - exists rs. split; [by apply (logged_same _ _ Ej Er Ef)|]. apply (told_same k); [done|by rewrite En|done| |done].
    intros d _. unfold path_of. by rewrite Eh.
Qed.

(** The grants stand, and the log tells them. *)
Definition truthful (k : EngineCore) : Prop :=
  (forall d, holds (ek_ledger k) d = true -> stands_still k d) /\ exists rs, logged o k rs /\ told k rs.

Lemma durable_truthful (k : EngineCore) : durable k -> truthful k.
Proof. intros [_ _ Hs _ Hl]. by split. Qed.

(** How a step that only gives back ends. *)
Definition exits {A} (k : EngineCore) (r : Expected A) (k' : EngineCore) : Prop :=
  (truthful k' /\ forall d held, grants_of (ek_ledger k) !! d = Some held -> keep d -> grants_of (ek_ledger k') !! d = Some held) \/
  (has_value r = false /\ doomed k k').

(** A step that only gives back, and says so in the log. *)
Lemma after_lowered {A} (k k' : EngineCore) (r : Expected A) : durable k -> lowered k k' -> exits k r k' -> after k r k'.
Proof.
  intros [Hw Hwd _ Ho _] Hl [[[Hs Hlog] Hk]|H]; [left|by right]. split.
  - constructor; [by eapply lowered_wf|by eapply words_lowered|done|done|done].
  - constructor; [constructor; [|exact Hk]| | |].
    + unfold grants_of. by apply map_fmap_mono, (lo_held _ _ Hl).
    + by destruct (lo_shape _ _ Hl) as (j & f & l & h & c & ->).
    + by destruct (lo_shape _ _ Hl) as (j & f & l & h & c & ->).
    + intros d _. by apply path_lowered.
Qed.

Lemma wp_lowered {A} (m : M EngineCore A) (k : EngineCore) :
  durable k -> lowered k (m k).2 -> wp m (exits k) k -> wp m (after k) k.
Proof. intros Hk Hl H. by apply after_lowered. Qed.

(** One record was cut off: it is in the file, or it is not. *)
Lemma cut_one (k' : EngineCore) (rs : list LogRecord) (r : LogRecord) :
  cut o k' rs [r] -> gone o k' rs \/ gone o k' (rs ++ [r]).
Proof.
  intros (pre & Hpre & Hg). destruct pre as [|r' pre]; [left; by rewrite app_nil_r in Hg|right].
  apply prefix_cons_inv_1 in Hpre as Er. apply prefix_cons_inv_2, prefix_nil_inv in Hpre as ->. by subst r'.
Qed.

(** The file tells the grants that are there. *)
Lemma doomed_told (k k' : EngineCore) (rs : list LogRecord) :
  ledger_wf (ek_ledger k) -> gone o k' rs -> told k rs -> ek_epoch k' = ek_epoch k -> doomed k k'.
Proof. intros Hw Hg Ht He. exists rs, (ek_ledger k), (ek_epoch k). by rewrite He. Qed.

Lemma doomed_cut (k k' : EngineCore) (rs : list LogRecord) (r : LogRecord) :
  ledger_wf (ek_ledger k) -> cut o k' rs [r] -> told k rs -> told k (rs ++ [r]) -> ek_epoch k' = ek_epoch k -> doomed k k'.
Proof. intros Hw [H|H]%cut_one H1 H2 He; by eapply doomed_told. Qed.

(** ** Releasing a grant *)

Lemma durable_known (k : EngineCore) (d : AdmissionDecisionId) :
  durable k -> holds (ek_ledger k) d = true -> d < ek_next_decision_sequence k /\ u64 d.
Proof.
  intros Hk Hd. destruct (ew_held k (du_wf k Hk) d Hd) as (r & Hr & _). apply (ew_ids k (du_wf k Hk)) in Hr as [Hlt _].
  split; [done|]. destruct (wd_sequences k (du_words k Hk)) as [Hn _]. unfold u64 in *. lia.
Qed.

Lemma held_release_storable (k : EngineCore) (d : AdmissionDecisionId) (reason : RevocationReason) :
  durable k -> holds (ek_ledger k) d = true ->
  release_storable (mkReleaseRecord d (ek_epoch k) reason (held_entries (ek_ledger k) d)).
Proof.
  intros Hk Hd. destruct (durable_known k d Hk Hd) as [_ Hw]. apply holds_iff in Hd as [es Hes].
  split; [done|]. split; [apply (wd_context k (du_words k Hk))|].
  by apply (held_words k d es (ew_ledger k (du_wf k Hk)) (du_words k Hk)).
Qed.

Lemma released_grants (k : EngineCore) (d : AdmissionDecisionId) (es : list LedgerEntry) (l : AdmittedLoadLedger) :
  released d es (ek_ledger k) l -> grants_of l = delete d (grants_of (ek_ledger k)).
Proof. intros (_ & E & _). unfold grants_of. by rewrite E, fmap_delete. Qed.

(** After the release record and the release itself: the grant is gone in both. *)
Lemma told_released (k k1 : EngineCore) (d : AdmissionDecisionId) (rs : list LogRecord) (rl : ReleaseRecord) :
  told k rs -> rl_decision rl = d -> d < ek_next_decision_sequence k ->
  grants_of (ek_ledger k1) = delete d (grants_of (ek_ledger k)) ->
  ek_next_decision_sequence k1 = ek_next_decision_sequence k -> ek_epoch k1 = ek_epoch k ->
  (forall d', d' <> d -> path_of k1 d' = path_of k d') -> told k1 (rs ++ [LogRelease rl]).
Proof.
  intros Ht Ed Hd Eg En Ee Hp. pose proof (tells_release _ _ _ _ _ Ht rl ltac:(by rewrite Ed)) as H. rewrite Ed in H.
  unfold told. rewrite Eg, En, Ee. apply (tells_weaken _ _ _ _ _ H); [done|].
  intros d' [held Hd']. apply lookup_delete_Some in Hd' as [Hne _]. apply Hp. congruence.
Qed.

Lemma told_revoked (k k1 : EngineCore) (d : AdmissionDecisionId) (rs : list LogRecord) (v : RevocationRecord) :
  told k rs -> rvr_decision v = d -> rvr_state v = RS_Revoked -> d < ek_next_decision_sequence k ->
  holds (ek_ledger k) d = false -> grants_of (ek_ledger k1) = grants_of (ek_ledger k) ->
  ek_next_decision_sequence k1 = ek_next_decision_sequence k -> ek_epoch k1 = ek_epoch k ->
  (forall d', d' <> d -> path_of k1 d' = path_of k d') -> told k1 (rs ++ [LogRevocation v]).
Proof.
  intros Ht Ed Es Hd Hh Eg En Ee Hp.
  assert (Hn : grants_of (ek_ledger k) !! d = None).
  { apply eq_None_not_Some. rewrite grants_holds. congruence. }
  pose proof (tells_revocation _ _ _ _ _ Ht v ltac:(by rewrite Ed) ltac:(right; by rewrite Ed) ltac:(by left)) as H.
  unfold told. rewrite Eg, En, Ee. apply (tells_weaken _ _ _ _ _ H); [done|].
  intros d' Hd'. apply Hp. intros ->. rewrite Hn in Hd'. by destruct Hd'.
Qed.

Lemma released_standing (k k' : EngineCore) (d : AdmissionDecisionId) :
  (forall d', holds (ek_ledger k) d' = true -> stands_still k d') ->
  (forall d', holds (ek_ledger k') d' = true -> d' <> d /\ holds (ek_ledger k) d' = true) ->
  (forall d', d' <> d -> history_find d' (ek_history k') = history_find d' (ek_history k)) ->
  forall d', holds (ek_ledger k') d' = true -> stands_still k' d'.
Proof.
  intros Hs Hh He d' Hd'. destruct (Hh d' Hd') as [Hne Hd]. destruct (Hs d' Hd) as (_ & r & Hr & H).
  split; [done|]. exists r. by rewrite He.
Qed.

Lemma spared_delete (l l' : AdmittedLoadLedger) (d : AdmissionDecisionId) :
  grants_of l' = delete d (grants_of l) -> ~ keep d -> spared l l'.
Proof.
  intros E Hd. constructor; rewrite E; [apply delete_subseteq|]. intros d' held Hg Hk.
  rewrite lookup_delete_ne; [done|]. by intros ->.
Qed.

(** Once the release record is in the file, the grant is gone from it. *)
Lemma doomed_released (k k' : EngineCore) (d : AdmissionDecisionId) (es : list LedgerEntry) (l : AdmittedLoadLedger)
    (rs : list LogRecord) (rl : ReleaseRecord) :
  durable k -> lg_by_decision (ek_ledger k) !! d = Some es -> released d es (ek_ledger k) l -> ~ keep d ->
  told k rs -> rl_decision rl = d -> cut o k' rs [LogRelease rl] -> ek_epoch k' = ek_epoch k -> doomed k k'.
Proof.
  intros Hk Hes Hrel Hd Ht Ed [Hg|Hg]%cut_one He; [by apply (doomed_told k k' rs); [apply Hk|..]|].
  assert (Hlt : d < ek_next_decision_sequence k) by (apply durable_known; [done|]; apply holds_iff; by exists es).
  exists (rs ++ [LogRelease rl]), l, (ek_epoch k). rewrite He. split_and!; [done| | | |done|done].
  - eapply released_wf; [apply Hk|exact Hes|exact Hrel].
  - apply (spared_delete _ _ d); [by eapply released_grants|done].
  - rewrite (released_grants k d es l Hrel), <- Ed. apply tells_release; [exact Ht|by rewrite Ed].
Qed.

Lemma release_decision_exit (k : EngineCore) (d : AdmissionDecisionId) (reason : RevocationReason) (x : Explanation) :
  ~ keep d -> durable k -> wp (release_decision_locked d reason RS_Revoked x) (exits k) k.
Proof.
  intros Hkeep Hk. pose proof Hk as [Hw Hwd Hs _ (rs & Hl & Ht)].
  unfold release_decision_locked. apply wp_bind, wp_get. destruct (holds (ek_ledger k) d) eqn:Hh; cbn [negb].
  2: { left. by split; [apply durable_truthful|]. }
  destruct (durable_known k d Hk Hh) as [Hlt Hu]. set (rl := mkReleaseRecord _ _ _ _).
  assert (Hrl : release_storable rl) by (by apply held_release_storable).
  apply holds_iff in Hh as [es Hes]. destruct (wd_entries k Hwd d es Hes) as [_ Hpos].
  destruct (positive_release k d es Hw Hes) as (l & El & Hrel).
  { eapply Forall_impl; [exact Hpos|]. by intros e []. }
  apply wp_bind. eapply wp_writes; [apply silent_write_release|intros o'; apply release_writes|].
  intros [[]|s] j f Hwr; specialize (Hwr o rs Hrl Hl).
  2: { destruct Hwr as [Hl'|[_ Hcut]]; [left; by split; [split; [|by exists rs]|]|right].
       split; [done|]. by apply (doomed_released k _ d es l rs rl). }
  destruct Hwr as [_ Hl1]. set (k1 := _ <| ek_faults := f |>) in *.
  rewrite on_ledger_run in El. injection El as El1 El2.
  apply wp_bind. unfold wp at 1. rewrite on_ledger_run. cbn [fst snd]. change (ek_ledger k1) with (ek_ledger k).
  rewrite El1, El2. set (k2 := k1 <| ek_ledger := l |>).
  assert (Eg : grants_of l = delete d (grants_of (ek_ledger k))) by exact (released_grants k d es l Hrel).
  assert (Hsp : spared (ek_ledger k) l) by (by apply (spared_delete _ _ d)).
  assert (Hh2 : forall d', holds l d' = true -> d' <> d /\ holds (ek_ledger k) d' = true).
  { intros d'. rewrite <- !grants_holds, Eg. intros [held H]. apply lookup_delete_Some in H as [? ?].
    split; [congruence|by exists held]. }
  assert (Hgone : holds l d = false) by (apply not_true_is_false; intros H; by destruct (Hh2 d H)).
  assert (Ht2 : told k2 (rs ++ [LogRelease rl])) by (by apply (told_released k k2 d)).
  assert (Hl2 : logged o k2 (rs ++ [LogRelease rl])) by exact Hl1.
  assert (Hs2 : forall d', holds (ek_ledger k2) d' = true -> stands_still k2 d') by (by apply (released_standing k k2 d)).
  apply wp_bind, wp_get, wp_bind. set (v := mkRevocationRecord _ _ _ _ _).
  assert (Hv : revocation_storable v) by (split_and!; [done|apply Hwd|apply Hwd]).
  eapply wp_writes; [apply silent_write_revocation|intros o'; apply revocation_writes|].
  intros [[]|s] j' f' Hwr; specialize (Hwr o _ Hv Hl2).
  2: { destruct Hwr as [Hl'|[_ Hcut]]; [left; split; [split; [exact Hs2|by eexists]|apply Hsp]|right]. split; [done|].
       apply (shrinks_doomed k k2); [by constructor|]. eapply doomed_cut; [|exact Hcut|exact Ht2| |done].
       - eapply released_wf; [exact (ew_ledger k Hw)|exact Hes|exact Hrel].
       - by apply (told_revoked k2 k2 d). }
  destruct Hwr as [_ Hl3]. set (k3 := _ <| ek_faults := f' |>) in *.
  apply wp_bind, wp_update_record; [done|]. intros h Hhd Hho. apply wp_bind, wp_modify.
  unfold forget_cached. apply wp_bind, wp_modify, wp_ret. left. split; [|apply Hsp]. split.
  - apply (released_standing k2 _ d); [exact Hs2| |exact Hho]. exact (fun d' H => conj (proj1 (Hh2 d' H)) H).
  - exists ((rs ++ [LogRelease rl]) ++ [LogRevocation v]). split; [exact Hl3|].
    apply (told_revoked k2 _ d); try done. intros d' Hne. unfold path_of. f_equal. exact (Hho d' Hne).
Qed.

Lemma durably_release (d : AdmissionDecisionId) (reason : RevocationReason) (x : Explanation) :
  ~ keep d -> durably (release_decision_locked d reason RS_Revoked x).
Proof.
  intros Hd k Hk. apply wp_lowered; [done|by apply lowers_release_decision, Hk|by apply release_decision_exit].
Qed.

(** ** Revalidation and revocation *)

Lemma durably_withdraw (d : AdmissionDecisionId) (reason : RevocationReason) (c : BindingConstraint)
    (result : RevalidationResult) : ~ keep d -> durably (withdraw d reason c result).
Proof.
  intros Hd. unfold withdraw. cbv zeta. apply durably_bind; [by apply durably_release|intros x; apply durably_ret].
Qed.

(** Marking a grant that stands as invalidated. *)
Lemma invalidated_exit (k : EngineCore) (d : AdmissionDecisionId) (reason : RevocationReason) :
  durable k -> holds (ek_ledger k) d = true ->
  wp (write_revocation (mkRevocationRecord d (ek_epoch k) (ek_audit k) reason RS_Invalidated) ;;
      update_record d (fun r => r <| dr_state := RS_Invalidated |> <| dr_reason := reason |>)) (exits k) k.
Proof.
  intros Hk Hh. pose proof Hk as [Hw Hwd Hs _ (rs & Hl & Ht)]. destruct (durable_known k d Hk Hh) as [Hlt Hu].
  set (v := mkRevocationRecord _ _ _ _ _).
  assert (Hv : revocation_storable v) by (split_and!; [done|apply Hwd|apply Hwd]).
  pose proof (proj2 (grants_holds _ _) Hh) as [held Hg].
  assert (Htv : told k (rs ++ [LogRevocation v])).
  { apply (tells_revocation _ _ _ _ _ Ht v Hlt); [by left|]. cbn. congruence. }
  apply wp_bind. eapply wp_writes; [apply silent_write_revocation|intros o'; apply revocation_writes|].
  intros [[]|s] j f Hwr; specialize (Hwr o _ Hv Hl).
  2: { destruct Hwr as [Hl'|[_ Hcut]]; [left; by split; [split; [|by exists rs]|]|right].
       split; [done|]. eapply doomed_cut; [exact (ew_ledger k Hw)|exact Hcut|done..]. }
  destruct Hwr as [_ Hl1]. apply wp_update_record; [done|]. intros h Hhd Hho. left. split; [split|done].
  - intros d' Hd'. destruct (Hs d' Hd') as (_ & r & Hr & H1 & H2). split; [done|].
    destruct (decide (d' = d)) as [->|Hne]; [|exists r; split; [|done]; by etrans; [apply Hho|]].
    eexists. split; [etrans; [exact Hhd|by cbn; rewrite Hr]|done].
  - exists (rs ++ [LogRevocation v]). split; [exact Hl1|].
    apply (tells_weaken _ _ _ _ _ Htv); [done|]. intros d' _. unfold path_of.
    destruct (decide (d' = d)) as [->|Hne]; [|f_equal; exact (Hho d' Hne)].
    cbn [ek_history set_field] in *. rewrite Hhd. by destruct (history_find d (ek_history k)).
Qed.

Lemma durable_conclude (d : AdmissionDecisionId) (b : bool) (r : RevalidationResult) (k : EngineCore) :
  durable k -> holds (ek_ledger k) d = true -> wp (conclude d b r) (after k) k.
Proof.
  intros Hk Hh. apply wp_lowered; [done|apply lowers_conclude, Hk|]. unfold conclude. apply wp_bind.
  destruct b; [|apply wp_ret, wp_ret; left; by split; [apply durable_truthful|]].
  apply wp_bind, wp_get. eapply wp_mono; [by apply invalidated_exit|]. by intros [[]|s] k' H; [apply wp_ret|].
Qed.

(** The record of a decision that holds nothing may change. *)
Lemma unheld_update (k : EngineCore) (d : AdmissionDecisionId) (f : DecisionRecord -> DecisionRecord) :
  durable k -> holds (ek_ledger k) d = false -> (forall r, dr_audit (f r) = dr_audit r) ->
  wp (update_record d f) (exits k) k.
Proof.
  intros Hk Hh Hf. apply wp_update_record; [done|]. intros h Hhd Hho. left. split; [|done].
  destruct (durable_truthful k Hk) as [Hs (rs & Hl & Ht)].
  assert (Hne : forall d', holds (ek_ledger k) d' = true -> d' <> d) by (intros d' Hd' ->; congruence). split.
  - intros d' Hd'. destruct (Hs d' Hd') as (_ & r & Hr' & H). split; [done|]. exists r. split; [|done].
    etrans; [by apply Hho, Hne|done].
  - exists rs. split; [exact Hl|]. apply (told_same k); try done. intros d' Hd'. unfold path_of.
    f_equal. by apply Hho, Hne.
Qed.

Lemma durably_revalidate (d : AdmissionDecisionId) : ~ keep d -> durably (revalidate_locked d).
Proof.
  intros Hkeep. unfold revalidate_locked. apply durably_get. intros k Hk.
  destruct (history_find d (ek_history k)) as [record|] eqn:Hr; [|by apply durably_lift].
  destruct (negb _); [by apply durably_lift|]. destruct (already_released record); [by apply durably_ret|].
  destruct (holds (ek_ledger k) d) eqn:Hh; cbn [negb].
  2: { apply wp_lowered; [done| |].
       - apply lowers_run; [|apply Hk]. lowers_steps.
       - apply wp_bind. eapply wp_mono; [by apply unheld_update|]. by intros [[]|s] k' H; [apply wp_ret|]. }
  destruct (negb _ || negb _); [by apply durably_withdraw|]. destruct (existsb _ _); [by apply durably_lift|].
  unfold revalidate_grant.
  repeat case_match; try (by apply durably_withdraw). by apply durable_conclude.
Qed.

Lemma durably_revoke (d : AdmissionDecisionId) (reason : RevocationReason) : ~ keep d -> durably (revoke_locked d reason).
Proof.
  intros Hkeep. unfold revoke_locked. apply durably_get. intros k Hk.
  destruct (history_find d (ek_history k)) as [record|]; [|by apply durably_lift].
  destruct (negb _); [by apply durably_lift|]. destruct (already_released record || _); [by apply durably_ret|]. cbv zeta.
  apply durably_run; [|done]. apply durably_bind; [by apply durably_release|intros ?; apply durably_ret].
Qed.

(** ** Enforcement *)

Lemma told_plain (k : EngineCore) (rs : list LogRecord) (r : LogRecord) :
  told k rs -> (forall d, ~ concerns r d) -> harmless r -> (forall b, r <> LogBoot b) -> told k (rs ++ [r]).
Proof. intros Ht Hr Hh Hb. apply (tells_plain _ _ _ _ _ Ht); [done|done|]. destruct r; try done. by destruct (Hb boot). Qed.

(** A record that speaks about no decision was written, or nothing, or the file system
    went. *)
Lemma after_noted {A} (k k' : EngineCore) (res : Expected A) (rs : list LogRecord) (r : LogRecord) :
  durable k -> quiet k k' -> told k rs -> told k (rs ++ [r]) ->
  (if has_value res then logged o k' (rs ++ [r]) else logged o k' rs \/ cut o k' rs [r]) -> after k res k'.
Proof.
  intros Hk Hq Ht Htr H. apply after_lowered; [done|by apply quiet_lowered|].
  assert (Htrue : forall rs', logged o k' rs' -> told k rs' -> exits k res k').
  { intros rs' Hl Ht'. left. destruct Hq as (j & f & ->). split; [split; [apply Hk|by exists rs']|done]. }
  destruct (has_value res) eqn:E; [by apply (Htrue (rs ++ [r]))|]. destruct H as [H|H]; [by apply (Htrue rs)|].
  right. split; [done|]. eapply doomed_cut; [apply Hk|exact H|done|done|]. by destruct Hq as (j & f & ->).
Qed.

Lemma durably_mark : durably write_audit_mark.
Proof.
  intros k Hk. pose proof Hk as [Hw Hwd _ _ (rs & Hl & Ht)]. pose proof (silent_write_audit_mark k) as Hq.
  pose proof (audit_mark_logs o k rs Hl (proj2 (wd_sequences k Hwd)) (proj1 (wd_context k Hwd))) as Hlog.
  assert (Hm : forall m, told k (rs ++ [LogMark m])) by (intros m; apply told_plain; [done|by intros d []|done|done]).
  unfold wp. destruct (write_audit_mark k) as [[u|s] k']; cbn [fst snd] in *.
  - destruct Hlog as [m Hlog]. by apply (after_noted k k' _ rs (LogMark m)).
  - destruct Hlog as [Hlog|[m Hlog]]; [apply (after_noted k k' _ rs (LogMark (mkAuditMarkRecord 0 0 0)))|
      apply (after_noted k k' _ rs (LogMark m))]; try done; [by left|by right].
Qed.

(** Enforcement may touch any decision. *)
Section enforcement.
Context (Hany : forall d, ~ keep d).

Lemma durably_enforce_record (reason : RevocationReason) (st : PassState) (r : DecisionRecord) :
  durably (enforce_record reason st r).
Proof.
  unfold enforce_record. apply durably_get. intros k Hk. destruct (negb _); [by apply durably_ret|].
  destruct (st.2 !! dr_decision r) as [held|]; [|by apply durably_ret].
  destruct (revoke_note k held) as [note|]; [|by apply durably_ret].
  apply durably_run; [|done]. unfold revoke_in_pass. apply durably_get. intros k' Hk'. destruct st as [report held_by].
  apply durably_run; [|done]. apply durably_bind; [by apply durably_release|intros ?; apply durably_ret].
Qed.

Lemma durably_enforce_loop (reason : RevocationReason) (l : list DecisionRecord) :
  forall st, durably (enforce_loop reason st l).
Proof.
  induction l as [|r l IH]; intros st; cbn [enforce_loop]; [apply durably_ret|].
  apply durably_bind; [apply durably_enforce_record|exact IH].
Qed.

Lemma durably_reconciled (report : EngineCore -> ReconciliationReport) :
  durably (modify (fun k => k <| ek_ledger := clear_revalidation_flags (ek_ledger k) |>
                              <| ek_pending_reconciliation := false |> <| ek_reconciliation := report k |>)).
Proof.
  intros k Hk. apply wp_modify, (durable_frame k); try done.
  - apply (reconciled_wf k _ (report k)); [|apply Hk]. by exists (ek_journal k), (ek_faults k).
  - destruct Hk as [_ [W1 W2 W3 W4 W5 W6 W7 W8 W9 W10] _ _ _]. constructor; try done.
    intros d es. cbn. rewrite lookup_fmap. intros (es0 & He & ->)%fmap_Some. destruct (W10 d es0 He) as [Hn Hf]. split.
    + unfold set_flag, sizeN in *. by rewrite length_map.
    + unfold set_flag. apply Forall_map. eapply Forall_impl; [exact Hf|]. by intros [].
  - apply grants_flags.
Qed.

Lemma durably_report (report : ReconciliationReport) :
  durably (modify (fun k => k <| ek_reconciliation := report |>)).
Proof.
  intros k Hk. apply wp_modify, (durable_frame k); try done.
  - apply (inputs_replaced_wf k); [apply Hk| |done..]. destruct (ew_inputs k (du_wf k Hk)). by constructor.
  - by destruct (du_words k Hk).
Qed.

Lemma durably_enforce (trigger : EnforcementTrigger) : durably (enforce_accounting_locked trigger).
Proof.
  unfold enforce_accounting_locked. apply durably_get. intros k Hk.
  assert (Hf : ek_faults k = FaultInjection_new) by (by destruct (du_log k Hk) as (rs & (fs & (_ & ? & _) & _) & _)).
  rewrite Hf. cbn [ft_fail_reconciliation FaultInjection_new]. destruct (ek_capacity k) as [capacity|].
  2: { by apply (durably_report (ReconciliationReport_new <| rp_trigger := trigger |>)). }
  apply durably_run; [|done]. unfold enforce_with. apply durably_get. intros k' Hk'. apply durably_run; [|done].
  apply durably_bind; [apply durably_enforce_loop|]. intros st. apply durably_bind; [|intros _].
  - apply (durably_reconciled (fun k => (st.1 : ReconciliationReport)
      <| rp_infeasible_resources := infeasible_resources k capacity |> <| rp_retained := live_decisions (ek_ledger k) |>)).
  - destruct (negb _); [apply durably_mark|apply durably_ret].
Qed.

End enforcement.

(** ** Publication *)

(** A step that changes nothing. *)
Lemma durably_still {A} (m : M EngineCore A) : (forall k, (m k).2 = k) -> durably m.
Proof. intros H k Hk. unfold wp. rewrite H. by apply after_same. Qed.

Lemma durably_validated {A} (v : Expected unit) (m : M EngineCore A) :
  (v = Val tt -> durably m) -> durably (lift v ;; m).
Proof. intros H. destruct v as [[]|s]; [exact (H eq_refl)|by apply durably_still]. Qed.
Lemma durably_require_epoch : durably require_epoch.
Proof. by apply durably_still. Qed.
Lemma durably_same_epoch (e : FabricEpoch) (s : string) : durably (require_same_epoch e s).
Proof. by apply durably_still. Qed.
Lemma durably_publish (p : Publication) (install : M EngineCore unit) :
  durably install -> durably (publish_if p install).
Proof. intros H. destruct p; [done|by apply durably_still..]. Qed.

(** A newer observation time, and one authority replaced. *)
Lemma words_observed (k k' : EngineCore) (t : N) :
  words k -> u64 t -> ek_epoch k' = ek_epoch k -> ek_incarnation k' = ek_incarnation k ->
  ek_tick k' = N.max (ek_tick k) t -> u64 (ek_epoch k') /\ u64 (ek_incarnation k') /\ u64 (ek_tick k').
Proof.
  intros Hk Ht -> -> ->. destruct (wd_context k Hk) as (? & ? & ?). split_and!; [done|done|]. unfold u64 in *. lia.
Qed.

Ltac words_replaced Hwd Ht :=
  pose proof Hwd as [W1 W2 W3 W4 W5 W6 W7 W8 W9 W10]; constructor;
  [by eapply words_observed; [exact Hwd|exact Ht|..]|done|try done; try by intros ? [= <-]..].

Lemma durably_write_policy (p : AdmissionPolicy) : policy_storable p -> policy_wf p -> durably (write_policy_record p).
Proof.
  intros Hp Hv k Hk. pose proof Hk as [Hw Hwd _ _ (rs & Hl & Ht)].
  pose proof (silent_write_policy p k) as Hq. pose proof (policy_writes o p k rs Hp Hl) as Hlog.
  apply (after_noted k _ _ rs (LogPolicy p)); [done|done|done|by apply told_plain; [done|intros d []|exact Hv|done]|].
  destruct (write_policy_record p k) as [[u|s] k1]; cbn [fst snd has_value] in *; [by destruct Hlog|].
  destruct Hlog as [H|[_ H]]; [by left|by right].
Qed.

Lemma durably_install_policy (p : AdmissionPolicy) (t : N) :
  policy_storable p -> policy_wf p -> u64 t ->
  durably (modify (fun k => observe_tick t (k <| ek_policy := Some p |>))).
Proof.
  intros Hp Hv Ht k Hk. pose proof Hk as [Hw Hwd _ _ _]. apply wp_modify, (durable_frame k); try done.
  - by apply policy_replaced_wf.
  - words_replaced Hwd Ht.
Qed.

Lemma durably_publish_policy (p : AdmissionPolicy) :
  policy_storable p -> (forall d, ~ keep d) -> durably (publish_policy p).
Proof.
  intros Hp Hany. unfold publish_policy. apply durably_validated. intros Hv%validate_policy_spec.
  apply durably_bind; [apply durably_require_epoch|intros _]. apply durably_bind; [apply durably_same_epoch|intros _].
  apply durably_get. intros k Hk. apply durably_run; [|done]. apply durably_publish.
  apply durably_bind; [by apply durably_write_policy|intros _].
  apply durably_bind; [by apply durably_install_policy; [..|apply Hp]|intros _; by apply durably_enforce].
Qed.

Lemma durably_publish_capacity (s : CapacitySnapshot) : 
  capacity_words s -> (forall d, ~ keep d) -> durably (publish_capacity s).
Proof.
  intros Hs Hany. unfold publish_capacity. apply durably_validated. intros Hv%validate_capacity_spec.
  apply durably_bind; [apply durably_require_epoch|intros _]. apply durably_bind; [apply durably_same_epoch|intros _].
  apply durably_get. intros k0 Hk0. apply durably_run; [|done]. apply durably_publish.
  apply durably_bind; [|intros _; by apply durably_enforce].
  intros k Hk. pose proof Hk as [Hw Hwd _ _ _]. pose proof Hs as (_ & Htick & Hr). apply wp_modify, (durable_frame k); try done.
  - apply capacity_observed_wf; [done..|]. eapply Forall_impl; [exact Hr|]. by intros e [].
  - words_replaced Hwd Htick.
Qed.

Lemma durably_publish_reservations (s : ReservationSnapshot) : 
  reservation_words s -> (forall d, ~ keep d) -> durably (publish_reservations s).
Proof.
  intros Hs Hany. unfold publish_reservations. apply durably_validated. intros Hv.
  pose proof Hs as (_ & Htick & Hu). apply validate_reservations_spec in Hv; [|done..].
  apply durably_bind; [apply durably_require_epoch|intros _].
  apply durably_get. intros k0 Hk0. apply durably_run; [|done]. apply durably_publish.
  apply durably_bind; [|intros _; by apply durably_enforce].
  intros k Hk. pose proof Hk as [Hw Hwd _ _ _]. apply wp_modify, (durable_frame k); try done.
  - by apply reservations_replaced_wf.
  - words_replaced Hwd Htick.
Qed.

Lemma durably_publish_paths (c : PathCatalog) : path_words c -> durably (publish_paths c).
Proof.
  intros Hs. unfold publish_paths. apply durably_validated. intros Hv%validate_paths_spec.
  pose proof Hs as (_ & Htick & Hu). apply durably_bind; [apply durably_require_epoch|intros _].
  apply durably_get. intros k0 Hk0. apply durably_run; [|done]. apply durably_publish.
  intros k Hk. pose proof Hk as [Hw Hwd _ _ _]. apply wp_modify, (durable_frame k); try done.
  - apply paths_replaced_wf; [done..|]. eapply Forall_impl; [exact Hu|]. by intros f [].
  - words_replaced Hwd Htick.
Qed.

Lemma durably_publish_qos (c : QoSClassCatalog) : qos_words c -> durably (publish_qos_catalog c).
Proof.
  intros Hs. unfold publish_qos_catalog. apply durably_validated. intros _. pose proof Hs as [_ Htick].
  apply durably_bind; [apply durably_require_epoch|intros _].
  apply durably_get. intros k0 Hk0. apply durably_run; [|done]. apply durably_publish.
  intros k Hk. pose proof Hk as [Hw Hwd _ _ _]. apply wp_modify, (durable_frame k); try done.
  - apply (inputs_replaced_wf k); [done| |done..]. destruct (ew_inputs k Hw). by constructor.
  - words_replaced Hwd Htick.
Qed.

Lemma durably_publish_priorities (c : PriorityClassCatalog) : priority_words c -> durably (publish_priority_catalog c).
Proof.
  intros Hs. unfold publish_priority_catalog. apply durably_validated. intros _. pose proof Hs as [_ Htick].
  apply durably_bind; [apply durably_require_epoch|intros _].
  apply durably_get. intros k0 Hk0. apply durably_run; [|done]. apply durably_publish.
  intros k Hk. pose proof Hk as [Hw Hwd _ _ _]. apply wp_modify, (durable_frame k); try done.
  - apply (inputs_replaced_wf k); [done| |done..]. destruct (ew_inputs k Hw). by constructor.
  - words_replaced Hwd Htick.
Qed.

Lemma durably_invalidate_capacity : durably invalidate_capacity.
Proof.
  intros k Hk. apply wp_modify, (durable_frame k); try done.
  - apply (safe_invalidate_capacity k (du_wf k Hk)).
  - by destruct (du_words k Hk).
Qed.
Lemma durably_invalidate_paths : durably invalidate_paths.
Proof.
  intros k Hk. apply wp_modify, (durable_frame k); try done.
  - apply (safe_invalidate_paths k (du_wf k Hk)).
  - by destruct (du_words k Hk).
Qed.

(** ** Sessions, time, incarnations *)

Lemma durably_register (p : PublisherId) (b : BootId) : durably (register_session p b).
Proof.
  unfold register_session. apply durably_get. intros k0 Hk0. apply durably_run; [|done].
  apply durably_validated. intros _. apply durably_bind; [apply durably_require_epoch|intros _].
  apply durably_validated. intros _. cbv zeta. apply durably_bind; [|intros _; apply durably_ret].
  intros k Hk. apply wp_modify, (durable_frame k); try done.
  - exact (ss_wf _ _ _ (safe_sessions k _ _ (du_wf k Hk))).
  - by destruct (du_words k Hk).
Qed.

Lemma durably_retire (n : SessionNonce) : durably (retire_session n).
Proof.
  unfold retire_session. apply durably_get. intros k Hk. destruct (_ !! n); [|by apply durably_lift]. apply wp_modify, (durable_frame k); try done.
  - apply (inputs_replaced_wf k); [apply Hk| |done..]. destruct (ew_inputs k (du_wf k Hk)). by constructor.
  - by destruct (du_words k Hk).
Qed.

Lemma epoch_well_formed_later (e : FabricEpoch) : u64 e -> epoch_well_formed (e +w 1) = true -> e <= e +w 1.
Proof.
  unfold epoch_well_formed, unknown_epoch. intros He Ewf%negb_true_iff%N.eqb_neq.
  unfold w_add, wrap64, u64, two64 in *.
  destruct (N.eq_dec (e + 1) 18446744073709551616) as [E|]; [by rewrite E in Ewf|]. rewrite N.mod_small by lia. lia.
Qed.

Lemma durably_tick (t : N) : u64 t -> durably (advance_tick t).
Proof.
  intros Ht k Hk. destruct (wd_context k (du_words k Hk)) as (He & Hi & Hu).
  apply wp_modify, (durable_frame k); try done.
  - apply (inputs_replaced_wf k); [apply Hk| |done..]. destruct (ew_inputs k (du_wf k Hk)). by constructor.
  - destruct (du_words k Hk). constructor; try done. split_and!; [done|done|]. cbn. rewrite sat_add_spec by done.
    unfold u64, u64_max, two64 in *. lia.
Qed.

(** The boot record of a new epoch is written, or the file system went. *)
Lemma durably_incarnation (i : CoordinatorIncarnation) : u64 i -> durably (begin_new_incarnation i).
Proof.
  intros Hi. unfold begin_new_incarnation. apply durably_get. intros k Hk.
  destruct (epoch_well_formed (ek_epoch k +w 1)) eqn:Ewf; cbn [negb]; [|by apply durably_lift].
  pose proof Hk as [Hw Hwd Hs Ho (rs & Hl & Ht)]. apply wp_bind, wp_modify.
  set (k1 := k <| ek_epoch := _ |> <| ek_incarnation := _ |> <| ek_sessions := _ |> <| ek_next_session_nonce := _ |>).
  assert (Hle : ek_epoch k <= ek_epoch k1).
  { change (ek_epoch k <= ek_epoch k +w 1). apply epoch_well_formed_later; [|done]. apply (wd_context k Hwd). }
  assert (Hb : boot_storable (make_boot_record (ek_epoch k1) (ek_incarnation k1)))
    by (split_and!; [done|done|apply wrap64_u64|exact Hi|exact Hi]).
  set (boot := LogBoot (make_boot_record (ek_epoch k1) (ek_incarnation k1))).
  assert (Htb : tells (rs ++ [boot]) (grants_of (ek_ledger k)) (path_of k) (ek_next_decision_sequence k) (ek_epoch k1))
    by (apply (tells_plain _ _ _ _ _ Ht); [by intros d []|done|done]).
  pose proof (write_boot_logs o k1 rs Hl Hb (proj1 Ho)) as Hlog. pose proof (silent_write_boot k1) as Hq.
  unfold wp in *. destruct (write_boot k1) as [[u|s] k2]; cbn [fst snd has_value] in *; destruct Hq as (j & f & ->).
  - assert (Hw1 : engine_wf k1) by (apply (inputs_replaced_wf k); [done| |done..]; destruct (ew_inputs k Hw); by constructor).
    assert (Hwd1 : words k1) by (destruct Hwd as [(_ & _ & ?) ? ? ? ? ? ? ? ? ?]; constructor; try done; split_and!; [apply wrap64_u64|done|done]).
    assert (Hlow : lowered k1 (k1 <| ek_journal := j |> <| ek_faults := f |>)) by (apply quiet_lowered; by exists j, f).
    left. split; [|by apply same_shrinks]. constructor; [by eapply lowered_wf|by eapply words_lowered|exact Hs|done|].
    by exists (rs ++ [boot]).
  - right. split; [done|]. apply cut_one in Hlog as [Hg|Hg].
    + exists rs, (ek_ledger k), (ek_epoch k). split_and!; [done|apply Hw|done|exact Ht|done|exact Hle].
    + exists (rs ++ [boot]), (ek_ledger k), (ek_epoch k1). split_and!; [done|apply Hw|done|exact Htb|exact Hle|done].
Qed.

(** ** Compaction *)

Lemma journalable_words (k : EngineCore) :
  engine_wf k -> words k -> compactable o k -> journalable k.
Proof.
  intros Hw Hwd Hc. destruct (wd_context k Hwd) as (He & Hi & _). constructor.
  - split_and!; done.
  - intros p Hp. by apply (wd_policy k Hwd).
  - apply Forall_forall. intros r Hr. apply (records_found k Hw) in Hr. by apply (wd_records k Hwd) in Hr.
  - intros d held Hd. destruct (live_amounts_spec (ek_ledger k) d (ew_ledger k Hw)) as [Hlive _].
    destruct (Hlive held Hd) as (es & Hes & ->). destruct (wd_entries k Hwd d es Hes) as [Hn Hf]. split.
    + unfold sizeN in *. by rewrite length_fmap.
    + apply Forall_fmap. eapply Forall_impl; [exact Hf|]. intros e [(_ & _ & ? & ? & _) _]. by split.
  - split; [apply (wd_sequences k Hwd)|]. pose proof (cp_records o k Hc). unfold max_journal_records, u64, two64 in *. lia.
Qed.

(** What compaction writes tells the grants. *)
Lemma compact_reads (k : EngineCore) :
  engine_wf k -> words k -> (forall d, holds (ek_ledger k) d = true -> stands_still k d) -> compactable o k ->
  exists rs, read_all (numbered 1 (body <$> compact_frames k)) rs /\ told k rs.
Proof.
  intros Hw Hwd Hs Hc. pose proof (journalable_words k Hw Hwd Hc) as Hj.
  destruct (read_all_exists (compact_frames k) (numbered 1 (body <$> compact_frames k)) (compact_log k)) as [rs Hrs];
    [by rewrite numbered_bodies|by apply read_compact|].
  pose proof (read_renumbered k _ rs Hj (numbered_bodies _ _) Hrs) as Hstrip. exists rs. split; [done|].
  apply (compact_tells k Hw); [|intros p Hp; by apply (wd_policy k Hwd)|done].
  constructor; [done|]. intros d es Hd. destruct (wd_entries k Hwd d es Hd) as [Hn Hf]. split; [done|].
  eapply Forall_impl; [exact Hf|]. intros e [(_ & _ & ? & ? & _) _]. by split.
Qed.

Lemma durable_compact (k : EngineCore) : durable k -> compactable o k -> wp compact_journal (after k) k.
Proof.
  intros Hk Hc. pose proof Hk as [Hw Hwd Hs Ho (rs & Hl & Ht)].
  pose proof (compact_compacts o k rs Hl Hc) as H. pose proof (silent_compact k) as Hq.
  apply after_lowered; [done|by apply quiet_lowered|]. unfold compact_journal. unfold wp in H.
  destruct (compact_reads k Hw Hwd Hs Hc) as (rs' & Hr' & Ht').
  destruct (compact_locked k) as [[u|e] k']; cbn [fst snd has_value] in *; destruct Hq as (j & f & ->).
  - left. split; [|done]. split; [exact Hs|]. exists rs'. split; [|exact Ht'].
    eexists. split; [exact H|exact Hr'].
  - right. split; [done|]. destruct H as [Hg|Hg]; [by apply (doomed_told k _ rs); [apply Hw|..]|].
    apply (doomed_told k _ rs'); [apply Hw| |done|done]. eexists. split; [exact Hg|exact Hr'].
Qed.
End keep.
End durable.
