(* ===== verification/Survival.v ===== *)
(** * Survival: the grants of any run outlive the process

    Admission keeps the journal telling the grants, so every run of public calls does;
    a process restarted on the file carries the engine's grants, and those a call in
    progress did not take back when the process died in the middle of it. *)

From S2P Require Import Prelude Checked Identity Hash State Policy Request Authority.
From S2P Require Import Decision Ledger History Bytes Records Journal Engine Log Recovery.
From S2P Require Import Admission.
From S2P Require Import Capacity Frames Grant Safety Api Enforce Reach Restart Compaction.
From S2P Require Import Continuity Mirror Protocol Durable.
Local Open Scope N_scope.
Local Open Scope naf_scope.

(** ** The records of an admission can be stored *)

Lemma fp_bytes_word (bs : list N) (f : N) : u64 f -> u64 (fp_bytes bs f).
Proof. revert f. induction bs as [|b bs IH]; intros f Hf; [done|]. apply IH, wrap64_u64. Qed.

Lemma fingerprint_word (r : AdmissionRequest) : u64 (fingerprint r).
Proof. unfold fingerprint. rewrite fp_stream. by apply fp_bytes_word. Qed.

Lemma from_option_word {A} (f : A -> N) (x : option A) : (forall a, x = Some a -> u64 (f a)) -> u64 (from_option f 0 x).
Proof. intros H. destruct x as [a|]; [by apply H|done]. Qed.

Section storable.
Context (k : EngineCore) (Hk : words k) (request : AdmissionRequest) (Hr : request_sendable request).

Lemma issued_words (outcome : AdmissionOutcome) (d : AdmissionDecision) :
  issued k request outcome d ->
  u64 (ad_selected_path d) /\ u64 (ad_bound_capacity_generation d).
Proof.
  intros [_ _ _ _ _ _ Hp Hb]. split.
  - destruct Hp as [->|[f (c & Hc & Hin & <-)%find_path_some]]; [done|].
    destruct (wd_paths k Hk c Hc) as (_ & _ & Hf). rewrite Forall_forall in Hf. by apply Hf.
  - destruct Hb as [-> | ->]; [done|]. apply from_option_word. intros s Hs. by apply (wd_capacity k Hk s Hs).
Qed.

Lemma issued_storable (outcome : AdmissionOutcome) (d : AdmissionDecision) :
  issued k request outcome d -> u64 (ad_granted d) -> decision_storable (to_record k d).
Proof.
  intros Hd Hg. destruct (issued_words outcome d Hd) as [Hp Hb].
  destruct Hd as [E1 E2 _ E4 _ (E5 & E6 & E7 & E8 & E9 & E10 & E11) _ _].
  destruct (wd_context k Hk) as (? & ? & ?). destruct (wd_sequences k Hk) as [? ?].
  destruct Hr as (? & ? & ? & ? & _). unfold decision_storable. cbn [to_record set_field dr_decision dr_audit dr_request].
  cbn. rewrite E1, E2, E4, E5, E6, E7, E8, E9, E10, E11. split_and!; try done.
  - apply fingerprint_word.
  - apply from_option_word. intros p Hp'. by destruct (wd_policy k Hk p Hp') as [(_ & ? & _) _].
  - apply from_option_word. intros c Hc. by destruct (wd_qos k Hk c Hc).
  - apply from_option_word. intros c Hc. by destruct (wd_priorities k Hk c Hc).
  - apply from_option_word. intros c Hc. by destruct (wd_paths k Hk c Hc).
  - apply from_option_word. intros c Hc. by destruct (wd_reservations k Hk c Hc).
Qed.
End storable.

Lemma live_same_words (r : DecisionRecord) (b : bool) :
  decision_storable r -> decision_storable (r <| dr_ledger_live := b |>).
Proof. by destruct r. Qed.

Lemma reserved_grants (d demand e g p : N) (amounts : list (ResourceId * Rate)) (l l' : AdmittedLoadLedger) :
  reserved d demand e g p amounts l l' -> grants_of l' = <[d := amounts]> (grants_of l).
Proof.
  intros (_ & _ & E & _). unfold grants_of. rewrite E, fmap_insert. f_equal. rewrite <- list_fmap_compose.
  etrans; [|apply list_fmap_id]. apply list_fmap_ext. by intros ? [r a] _.
Qed.

(** A request whose targets fit one record, for a rate that is not zero. *)
Record admissible (request : AdmissionRequest) : Prop := {
  as_sendable : request_sendable request;
  as_positive : 0 < minimum (rq_rate request);
  as_size : sizeN (rq_resource_bindings request) + max_path_resources <= max_resource_bindings;
}.

Section intent.
Context (k : EngineCore) (Hw : engine_wf k) (Hwd : words k) (request : AdmissionRequest) (Hr : admissible request)
  (targets : list ResourceId) (d : AdmissionDecision)
  (Hd : issued k request (ad_outcome d) d) (Hj : justified k request targets d).

Lemma granted_word : u64 (ad_granted d) /\ ad_granted d <> 0.
Proof.
  destruct (as_sendable request Hr) as (_ & _ & _ & _ & (_ & _ & Hm) & _).
  pose proof (as_positive request Hr). pose proof (ju_minimum _ _ _ _ Hj). pose proof (ju_maximum _ _ _ _ Hj).
  unfold u64 in *. lia.
Qed.

Lemma target_words : Forall (fun r => r <> 0 /\ u64 r) targets.
Proof.
  eapply Forall_impl; [exact (ju_room _ _ _ _ Hj)|]. intros r [(e & He & _)%has_capacity_iff _].
  apply find_capacity_some in He as (c & Hc & Hin & <-).
  destruct (in_capacity k (ew_inputs k Hw) c Hc) as [[_ _ _ _ Hok _] _]. destruct (wd_capacity k Hwd c Hc) as (_ & _ & Hu).
  rewrite Forall_forall in Hok, Hu. split; [by apply Hok|by apply Hu].
Qed.

Lemma intent_size : sizeN ((fun r => (r, ad_granted d)) <$> targets) <= max_resource_bindings.
Proof.
  pose proof (ju_size _ _ _ _ Hj). pose proof (as_size request Hr). unfold sizeN in *. rewrite length_fmap. lia.
Qed.

Lemma intent_storable : prepare_storable (intent_of k targets d).
Proof.
  destruct (issued_words k Hwd request (ad_outcome d) d Hd) as [Hp Hb].
  destruct Hd as [E1 _ _ E4 _ (E5 & E6 & E7 & E8 & _) _ _]. destruct (as_sendable request Hr) as (? & ? & ? & ? & _).
  unfold prepare_storable. cbn. rewrite E1, E4, E6, E8. split_and!; try done.
  - apply (wd_sequences k Hwd).
  - apply fingerprint_word.
  - apply (wd_context k Hwd).
  - apply intent_size.
  - apply Forall_fmap. eapply Forall_impl; [exact target_words|]. intros r [_ Hu]. split; [done|apply granted_word].
Qed.

Lemma intent_known : intent_wf (intent_of k targets d).
Proof.
  destruct (ju_targets _ _ _ _ Hj) as [Hne Hnd]. constructor; cbn.
  - rewrite (iss_decision _ _ _ _ Hd). apply (ew_next k Hw).
  - split_and!; cbn; [by rewrite amounts_keys|..].
    + apply Forall_fmap, Forall_true. intros r. apply granted_word.
    + pose proof intent_size. unfold max_resource_bindings, ptrdiff_max in *. lia.
  - by intros ?%fmap_nil_inv.
  - apply Forall_fmap. eapply Forall_impl; [exact target_words|]. by intros r [].
Qed.

Lemma live_storable : decision_storable (live_record k d).
Proof. apply live_same_words, (issued_storable k Hwd request (as_sendable _ Hr) _ d Hd), granted_word. Qed.
End intent.

(** ** Admission *)

Lemma words_next (k k' : EngineCore) :
  words k -> same_inputs k k' -> u64 (ek_next_decision_sequence k') -> u64 (ek_audit k') ->
  (forall d r, history_find d (ek_history k') = Some r -> decision_storable r) ->
  (forall d es, lg_by_decision (ek_ledger k') !! d = Some es ->
     sizeN es <= max_resource_bindings /\ Forall (fun e => entry_storable e /\ le_amount e <> 0) es) -> words k'.
Proof.
  intros [W1 W2 W3 W4 W5 W6 W7 W8 _ _] [S1 S2 S3 S4 S5 S6 S7 S8 S9 S10 _ _ _] Hn Ha Hrec Hent.
  constructor; rewrite ?S2, ?S3, ?S4, ?S5, ?S6, ?S7, ?S8, ?S9, ?S10; done.
Qed.

Lemma consumed_words (k : EngineCore) :
  u64 (ek_next_decision_sequence (consumed k)) /\ u64 (ek_audit (consumed k)).
Proof. split; apply wrap64_u64. Qed.

(** What the history says once the record of a fresh decision is filed: the record, or
    what it said before. *)
Section fresh.
Context (k : EngineCore) (Hw : engine_wf k) (Hs : sequences_left k) (record : DecisionRecord)
  (Hd : dr_decision record = ek_next_decision_sequence k) (Ha : dr_audit record = ek_audit k)
  (ledger : AdmittedLoadLedger).
Let h' := trimmed ledger (history_insert record (ek_history k)).

Lemma fresh_found (d : AdmissionDecisionId) (r : DecisionRecord) :
  history_find d h' = Some r -> r = record \/ history_find d (ek_history k) = Some r.
Proof.
  intros Hf. destruct (insert_fresh_wf k record ledger Hw Hs Hd Ha) as (_ & _ & Hids & _).
  assert (Hknown : dr_decision record <> 0) by (rewrite Hd; apply Hw).
  assert (Hh : history_wf (history_insert record (ek_history k))).
  { apply history_insert_wf; [apply Hw|]. intros key (r' & Hr' & Hra)%(hwf_index _ (ew_history k Hw)).
    apply (ew_ids k Hw) in Hr' as [_ Hlt]. lia. }
  assert (Hsub : hi_records h' ⊆ hi_records (history_insert record (ek_history k))).
  { apply (trimmed_retires ledger _ Hh). rewrite insert_retired. apply Hw. }
  unfold history_find in Hf. eapply lookup_weaken in Hf; [|exact Hsub].
  change (history_find d (history_insert record (ek_history k)) = Some r) in Hf. rewrite insert_find in Hf by done.
  case_decide; [left; congruence|by right].
Qed.

Lemma fresh_held (d : AdmissionDecisionId) (r : DecisionRecord) :
  holds ledger d = true ->
  (if decide (d = dr_decision record) then Some record else history_find d (ek_history k)) = Some r ->
  history_find d h' = Some r.
Proof. by apply (insert_fresh_wf k record ledger Hw Hs Hd Ha). Qed.
End fresh.

(** ** What a crash may leave *)

(** What grants weigh on a path, each at its greatest amount. *)
Definition weight (grants : gmap N (list (ResourceId * Rate))) (path : N -> PathId) (q : PathId) : N :=
  map_sum (fun d held => if decide (path d = q) then peak held else 0) grants.
Definition path_weight (k : EngineCore) : PathId -> N := weight (grants_of (ek_ledger k)) (path_of k).

(** Grants after a call that began in [k]: those of [k], and perhaps the one being decided;
    all in [keep] are there, and no path weighs more than [rate] above what it did. *)
Record carried (keep : AdmissionDecisionId -> Prop) (rate : Rate) (k : EngineCore) (l : AdmittedLoadLedger)
    (path : N -> PathId) : Prop := {
  ca_kept : forall d held, grants_of (ek_ledger k) !! d = Some held -> keep d -> grants_of l !! d = Some held;
  ca_old : forall d held, grants_of l !! d = Some held ->
    grants_of (ek_ledger k) !! d = Some held \/ (d = ek_next_decision_sequence k /\ forall r, amount_of r held <= rate);
  ca_paths : forall q, weight (grants_of l) path q <= path_weight k q + rate;
}.

(** The log is true after the call. *)
Definition fared (o : JournalOptions) (keep : AdmissionDecisionId -> Prop) (rate : Rate) (k k' : EngineCore) : Prop :=
  durable o k' /\ ek_epoch k <= ek_epoch k' /\ carried keep rate k (ek_ledger k') (path_of k').

(** The file system went during the call: the file tells such grants, in an epoch of the
    call. *)
Definition wreck (o : JournalOptions) (keep : AdmissionDecisionId -> Prop) (rate : Rate) (k k' : EngineCore) : Prop :=
  exists rs l path next e, gone o k' rs /\ ledger_wf l /\ tells rs (grants_of l) path next e /\
    ek_epoch k <= e <= ek_epoch k' /\ carried keep rate k l path.

Lemma weight_ext (grants : gmap N (list (ResourceId * Rate))) (path path' : N -> PathId) (q : PathId) :
  (forall d, is_Some (grants !! d) -> path' d = path d) -> weight grants path' q <= weight grants path q.
Proof. intros Hp. apply map_sum_le. intros d h Hd. exists h. split; [done|]. by rewrite Hp by (by eexists). Qed.

Section carried.
Context (keep : AdmissionDecisionId -> Prop) (rate : Rate) (k : EngineCore).

Lemma carried_spared (l : AdmittedLoadLedger) (path : N -> PathId) :
  spared keep (ek_ledger k) l -> (forall d, is_Some (grants_of l !! d) -> path d = path_of k d) -> carried keep rate k l path.
Proof.
  intros [Hold Hkept] Hp. constructor; [done|intros d held Hd; left; by eapply lookup_weaken|].
  intros q. etrans; [by apply weight_ext|]. apply N.le_trans with (path_weight k q); [|lia]. by apply map_sum_subseteq.
Qed.

Lemma carried_same (l : AdmittedLoadLedger) (path : N -> PathId) :
  grants_of l = grants_of (ek_ledger k) ->
  (forall d, holds (ek_ledger k) d = true -> path d = path_of k d) -> carried keep rate k l path.
Proof.
  intros E Hp. apply carried_spared; [constructor; by rewrite E|]. intros d. rewrite E, grants_holds. apply Hp.
Qed.
End carried.

Lemma doomed_wreck (o : JournalOptions) (keep : AdmissionDecisionId -> Prop) (k k' : EngineCore) (rate : Rate) :
  doomed o keep k k' -> wreck o keep rate k k'.
Proof.
  intros (rs & l & e & Hg & Hw & Hsp & Ht & He). exists rs, l, (path_of k), (ek_next_decision_sequence k), e.
  split_and!; try done; [lia..|]. by apply carried_spared.
Qed.

Lemma shrinks_fared (o : JournalOptions) (keep : AdmissionDecisionId -> Prop) (k k' : EngineCore) (rate : Rate) :
  durable o k' -> shrinks keep k k' -> fared o keep rate k k'.
Proof. intros Hk [Hsp _ He Hp]. split_and!; [done|done|]. by apply carried_spared. Qed.

Lemma weight_insert (grants : gmap N (list (ResourceId * Rate))) (path path' : N -> PathId) (next : N)
    (held : list (ResourceId * Rate)) (q : PathId) :
  grants !! next = None -> (forall d, is_Some (grants !! d) -> path' d = path d) ->
  weight (<[next := held]> grants) path' q <= weight grants path q + peak held.
Proof.
  intros Hn Hp. unfold weight. rewrite map_sum_insert by done.
  pose proof (weight_ext grants path path' q Hp) as H. unfold weight in H.
  destruct (decide (path' next = q)); lia.
Qed.

Lemma peak_uniform (targets : list ResourceId) (g : Rate) : peak ((fun r => (r, g)) <$> targets) <= g.
Proof. unfold peak. induction targets as [|r l IH]; cbn in *; lia. Qed.

Section admission.
Context (o : JournalOptions) (request : AdmissionRequest) (Hr : admissible request).

(** An admission may lose no grant, and makes at most one, within the maximum requested. *)
Let wrecked := wreck o (fun _ => True) (maximum (rq_rate request)).
Let grown := fared o (fun _ => True) (maximum (rq_rate request)).

(** The file tells the grants that are there. *)
Lemma wrecked_same (k k' : EngineCore) (rs : list LogRecord) (next : N) :
  ledger_wf (ek_ledger k) -> gone o k' rs -> ek_epoch k' = ek_epoch k ->
  tells rs (grants_of (ek_ledger k)) (path_of k) next (ek_epoch k) -> wrecked k k'.
Proof.
  intros Hw Hg He Ht. exists rs, (ek_ledger k), (path_of k), next, (ek_epoch k).
  split_and!; try done; [by rewrite He|]. by apply carried_same.
Qed.

(** A new grant. *)
Lemma carried_grant (k : EngineCore) (l : AdmittedLoadLedger) (path : N -> PathId) (targets : list ResourceId)
    (d : AdmissionDecision) :
  durable o k -> justified k request targets d ->
  grants_of l = <[ek_next_decision_sequence k := pr_amounts (intent_of k targets d)]> (grants_of (ek_ledger k)) ->
  (forall d', is_Some (grants_of (ek_ledger k) !! d') -> path d' = path_of k d') ->
  carried (fun _ => True) (maximum (rq_rate request)) k l path.
Proof.
  intros Hk Hj El Hp. pose proof (du_log o k Hk) as (rs0 & _ & Ht0).
  pose proof (tells_fresh_grant _ _ _ _ _ Ht0 _ (N.le_refl _)) as Hfresh. constructor.
  - intros d' held Hd' _. rewrite El, lookup_insert_ne; [done|congruence].
  - intros d' held. rewrite El. intros [[<- <-]|[_ ?]]%lookup_insert_Some; [right|by left].
    split; [done|]. intros r. cbn [intent_of pr_amounts]. rewrite amount_of_targets by apply (ju_targets _ _ _ _ Hj).
    pose proof (ju_maximum _ _ _ _ Hj). case_decide; [done|apply N.le_0_l].
  - intros q. rewrite El. etrans; [by apply (weight_insert _ (path_of k))|]. unfold path_weight. cbn [intent_of pr_amounts].
    pose proof (peak_uniform targets (ad_granted d)). pose proof (ju_maximum _ _ _ _ Hj). lia.
Qed.

(** The file tells a new grant as well. *)
Lemma wrecked_grant (k k' : EngineCore) (rs : list LogRecord) (l : AdmittedLoadLedger) (path : N -> PathId)
    (next : N) (targets : list ResourceId) (d : AdmissionDecision) :
  durable o k -> justified k request targets d -> ledger_wf l -> gone o k' rs -> ek_epoch k' = ek_epoch k ->
  grants_of l = <[ek_next_decision_sequence k := pr_amounts (intent_of k targets d)]> (grants_of (ek_ledger k)) ->
  (forall d', is_Some (grants_of (ek_ledger k) !! d') -> path d' = path_of k d') ->
  tells rs (grants_of l) path next (ek_epoch k) -> wrecked k k'.
Proof.
  intros Hk Hj Hw Hg He El Hp Ht. exists rs, l, path, next, (ek_epoch k).
  split_and!; try done; [by rewrite He|]. by eapply carried_grant.
Qed.

(** Nothing was admitted, and the log still tells what is there. *)
Lemma durable_voided (k k' : EngineCore) (rs : list LogRecord) :
  durable o k -> sequences_left k -> voided k k' -> logged o k' rs ->
  tells rs (grants_of (ek_ledger k)) (path_of k) (ek_next_decision_sequence k + 1) (ek_epoch k) -> grown k k'.
Proof.
  intros Hk Hs Hv Hl Ht. pose proof Hk as [Hw Hwd Hst Ho _].
  pose proof (voided_wf k k' Hw Hs Hv) as Hw'. destruct Hv as [Hin Hn Ha Hled Hh _ _].
  destruct (consumed_ids k Hs) as [En _].
  assert (Eg : grants_of (ek_ledger k') = grants_of (ek_ledger k)) by (unfold grants_of; by rewrite (proj1 (proj2 Hled))).
  split_and!; [|by rewrite (si_epoch _ _ Hin)|apply carried_same; [done|]; intros d _; unfold path_of; by rewrite Hh].
  constructor; [done| |by eapply stands_same|done|].
  - apply (words_next k); [done|done|rewrite Hn; apply consumed_words|rewrite Ha; apply consumed_words|..].
    + rewrite Hh. apply (wd_records k Hwd).
    + rewrite (proj1 (proj2 Hled)). apply (wd_entries k Hwd).
  - exists rs. split; [done|]. unfold told. rewrite Eg, (si_epoch _ _ Hin), Hn, En.
    apply (tells_weaken _ _ _ _ _ Ht); [done|]. intros d _. unfold path_of. by rewrite Hh.
Qed.

(** A failed admission: at most an intent without its commit is in the log; or the file
    system went, perhaps with the commit in the file. *)
Section unsettled.
Context (k k' : EngineCore) (Hk : durable o k) (Hs : sequences_left k) (Hv : voided k k').
Let Hw := du_wf o k Hk.
Let Hwd := du_words o k Hk.
Let He : ek_epoch k' = ek_epoch k := si_epoch _ _ (vo_inputs _ _ Hv).

Lemma refusal_unsettled (oc : AdmissionOutcome) (d : AdmissionDecision) (rs : list LogRecord) :
  issued k request oc d -> ad_granted d = 0 -> told k rs ->
  logged o k' rs \/ cut o k' rs [LogRefused (to_record k d)] -> grown k k' \/ wrecked k k'.
Proof.
  intros Hi Hg Ht H.
  assert (Ht1 : tells rs (grants_of (ek_ledger k)) (path_of k) (ek_next_decision_sequence k + 1) (ek_epoch k))
    by (apply (tells_weaken _ _ _ _ _ Ht); [lia|done]).
  destruct H as [H|[H|H]%cut_one]; [left; by apply (durable_voided k k' rs)|right..].
  - eapply wrecked_same; [apply Hw|exact H|done|exact Ht].
  - eapply (wrecked_same k k' _ (ek_next_decision_sequence k + 1)); [apply Hw|exact H|done|]. apply (tells_refusal _ _ _ _ _ Ht); [apply Hi|lia|done].
Qed.

Lemma intent_unsettled (targets : list ResourceId) (d : AdmissionDecision) (rs : list LogRecord) :
  issued k request (ad_outcome d) d -> justified k request targets d -> logged o k rs -> told k rs ->
  half_logged k targets d k' -> grown k k' \/ wrecked k k'.
Proof.
  intros Hi Hj Hl Ht H.
  pose proof (intent_storable k Hw Hwd request Hr targets d Hi Hj) as Hps.
  pose proof (live_storable k Hwd request Hr targets d Hi Hj) as Hls.
  pose proof (intent_known k Hw Hwd request Hr targets d Hi Hj) as Hik.
  pose proof (iss_decision _ _ _ _ Hi) as Ei.
  assert (Hlt : ek_next_decision_sequence k < ek_next_decision_sequence k + 1) by lia.
  assert (Ht1 : tells rs (grants_of (ek_ledger k)) (path_of k) (ek_next_decision_sequence k + 1) (ek_epoch k))
    by (apply (tells_weaken _ _ _ _ _ Ht); [lia|done]).
  assert (Htp : forall s, tells (rs ++ [LogPrepare s (intent_of k targets d)]) (grants_of (ek_ledger k)) (path_of k)
    (ek_next_decision_sequence k + 1) (ek_epoch k)) by (intros s; by apply (tells_intent _ _ _ _ _ Ht)).
  destruct (H o rs Hps Hls Hl) as [H'|(s & [H'|[[H'|H']%cut_one|[(pre & [suf Epre] & H') (l & Hwl & Hres)]]])];
    [left; by apply (durable_voided k k' rs)|left; by eapply durable_voided|right..].
  - eapply wrecked_same; [apply Hw|exact H'|done|exact Ht].
  - eapply wrecked_same; [apply Hw|exact H'|done|exact (Htp s)].
  - destruct pre as [|r1 [|r2 pre]]; [rewrite app_nil_r in H'|injection Epre as <- _|injection Epre as <- <- [-> _]%symmetry%app_nil].
    + eapply wrecked_same; [apply Hw|exact H'|done|exact Ht].
    + eapply wrecked_same; [apply Hw|exact H'|done|exact (Htp s)].
    + assert (El : grants_of l = <[ek_next_decision_sequence k := pr_amounts (intent_of k targets d)]> (grants_of (ek_ledger k)))
        by (rewrite <- (iss_decision _ _ _ _ Hi); by eapply reserved_grants).
      set (path d' := if decide (d' = ek_next_decision_sequence k) then ad_selected_path d else path_of k d').
      assert (Hp : forall d', is_Some (grants_of (ek_ledger k) !! d') -> path d' = path_of k d').
      { intros d' Hd'. apply (tells_below _ _ _ _ _ Ht) in Hd'. unfold path. rewrite decide_False by lia. done. }
      eapply (wrecked_grant k k' _ l path _ targets d); [done|done|done|exact H'|done|done|done|]. rewrite El.
      apply (tells_grant _ _ _ _ _ Ht); try done; [by eapply justified_admits|]. unfold path. by rewrite decide_True.
Qed.

Lemma durable_unsettled : unsettled k request k' -> grown k k' \/ wrecked k k'.
Proof.
  intros Hu. pose proof (du_log o k Hk) as (rs & Hl & Ht). destruct Hu as [oc d Hi Hg Hlog|targets d Hi Hj Hlog].
  - apply (refusal_unsettled oc d rs); [done..|]. apply Hlog; [|done].
    apply (issued_storable k Hwd request (as_sendable _ Hr) oc d Hi). by rewrite Hg.
  - by eapply intent_unsettled.
Qed.
End unsettled.

(** A refusal was decided: its record is in the log and in the history. *)
Lemma durable_refused (k k' : EngineCore) (b : bool) (oc : AdmissionOutcome) (d : AdmissionDecision) :
  durable o k -> sequences_left k -> issued k request oc d -> ad_granted d = 0 ->
  stored d request b ((to_record (consumed k) d) <| dr_state := RS_Fresh |>) (consumed k) k' -> grown k k'.
Proof.
  rewrite to_record_fresh. change (to_record (consumed k) d) with (to_record k d).
  intros Hk Hs Hi Hg Hst. pose proof Hk as [Hw Hwd Hsd Ho (rs & Hl & Ht)]. destruct (consumed_ids k Hs) as [En _].
  assert (Hrec : decision_storable (to_record k d)).
  { apply (issued_storable k Hwd request (as_sendable _ Hr) oc d Hi). by rewrite Hg. }
  pose proof (stored_refusal_wf k k' request b oc d Hw Hs Hi) as Hw'. rewrite to_record_fresh in Hw'. specialize (Hw' Hst).
  destruct Hst as [[Hin Hled Hn Ha Hh _ _] Hlog].
  change (ek_ledger (consumed k)) with (ek_ledger k) in *. change (ek_history (consumed k)) with (ek_history k) in *.
  assert (Hin' : same_inputs k k') by (etrans; [|exact Hin]; by constructor).
  assert (Ed : dr_decision (to_record k d) = ek_next_decision_sequence k) by apply Hi.
  assert (Ea : dr_audit (to_record k d) = ek_audit k) by apply Hi.
  assert (Hheld : forall d' r, holds (ek_ledger k) d' = true -> history_find d' (ek_history k) = Some r ->
    history_find d' (ek_history k') = Some r).
  { intros d' r Hh' Hf. rewrite Hh. apply (fresh_held k Hw Hs _ Ed Ea); [done|].
    apply (ew_ids k Hw) in Hf as Hlt. rewrite decide_False by lia. done. }
  assert (Hp : forall d', holds (ek_ledger k) d' = true -> path_of k' d' = path_of k d').
  { intros d' Hd'. destruct (Hsd d' Hd') as (_ & r & Hr' & _). unfold path_of. by rewrite Hr', (Hheld d' r). }
  split_and!; [|by rewrite (si_epoch _ _ Hin')|by apply carried_same; [by rewrite Hled|]].
  constructor; [done| | |done|].
  - apply (words_next k); [done|done|rewrite Hn; apply consumed_words|rewrite Ha; apply consumed_words|..].
    + intros d' r. rewrite Hh. intros [->|Hf]%(fresh_found k Hw Hs _ Ed Ea); [done|by apply (wd_records k Hwd) in Hf].
    + rewrite Hled. apply (wd_entries k Hwd).
  - intros d'. rewrite Hled. intros Hd'. destruct (Hsd d' Hd') as (_ & r & Hr' & H). unfold stands_still. rewrite Hled.
    split; [done|]. exists r. split; [by apply Hheld|done].
  - exists (rs ++ [LogRefused (to_record k d)]). split; [by apply Hlog|]. unfold told.
    rewrite Hled, (si_epoch _ _ Hin'), Hn, En. apply (tells_refusal _ _ _ _ _ Ht); [done|lia|].
    intros d' Hd'%grants_holds. by apply Hp.
Qed.

(** A grant was installed: its intent and its commit are in the log, or the journal
    has just been compacted. *)
Section installed.
Context (k k' : EngineCore) (targets : list ResourceId) (d : AdmissionDecision) (Hk : durable o k)
  (Hs : sequences_left k) (Hj : justified k request targets d) (Hins : installed k request targets d k').
Let Hw := du_wf o k Hk.
Let Hwd := du_words o k Hk.
Let Hi := ins_issued _ _ _ _ _ Hins.
Let next := ek_next_decision_sequence k.

Let Ed : dr_decision (live_record k d) = next.
Proof. exact (iss_decision _ _ _ _ Hi). Qed.
Let Ea : dr_audit (live_record k d) = ek_audit k.
Proof. exact (iss_audit _ _ _ _ Hi). Qed.

Lemma installed_held (d' : AdmissionDecisionId) :
  holds (ek_ledger k') d' = true ->
  (d' = next /\ history_find d' (ek_history k') = Some (live_record k d)) \/
  (d' <> next /\ holds (ek_ledger k) d' = true /\
   history_find d' (ek_history k') = history_find d' (ek_history k)).
Proof.
  intros Hd'. destruct (decide (d' = next)) as [->|Hne]; [left|right].
  - split; [done|]. rewrite (ins_history _ _ _ _ _ Hins).
    apply (fresh_held k Hw Hs _ Ed Ea); [done|]. by rewrite Ed, decide_True.
  - destruct (held_reserved _ _ _ _ _ _ _ _ _ (ins_ledger _ _ _ _ _ Hins) Hd') as [E|Hd].
    { rewrite (iss_decision _ _ _ _ Hi) in E. by destruct Hne. }
    split_and!; [done|done|]. destruct (du_standing o k Hk d' Hd) as (_ & r & Hr' & _).
    rewrite Hr', (ins_history _ _ _ _ _ Hins). apply (fresh_held k Hw Hs _ Ed Ea); [done|]. by rewrite Ed, decide_False.
Qed.

Lemma installed_standing (d' : AdmissionDecisionId) : holds (ek_ledger k') d' = true -> stands_still k' d'.
Proof.
  intros Hd'. split; [done|]. destruct (installed_held d' Hd') as [[-> Hf]|(Hne & Hd & ->)]; [by eexists|].
  by destruct (du_standing o k Hk d' Hd) as (_ & r & Hr' & H); exists r.
Qed.

Lemma installed_words : words k'.
Proof.
  pose proof (live_storable k Hwd request Hr targets d Hi Hj) as Hls.
  pose proof (intent_storable k Hw Hwd request Hr targets d Hi Hj) as (P1 & P2 & _ & _ & P5 & P6 & P7 & P8 & P9).
  change (Forall amount_storable ((fun r => (r, ad_granted d)) <$> targets)) in P9. rewrite Forall_fmap in P9.
  apply (words_next k); [done|apply Hins|rewrite (ins_next _ _ _ _ _ Hins); apply consumed_words
                        |rewrite (ins_audit _ _ _ _ _ Hins); apply consumed_words|..].
  - intros d' r. rewrite (ins_history _ _ _ _ _ Hins).
    intros [->|Hf]%(fresh_found k Hw Hs _ Ed Ea); [done|by apply (wd_records k Hwd) in Hf].
  - intros d' es. destruct (ins_ledger _ _ _ _ _ Hins) as (_ & _ & -> & _).
    intros [[<- <-]|[_ Hes]]%lookup_insert_Some; [|by apply (wd_entries k Hwd d')].
    split; [unfold sizeN in *; by rewrite length_fmap|].
    apply Forall_fmap, Forall_fmap. eapply Forall_impl; [exact P9|]. intros r [Q1 Q2].
    split; [done|]. by apply (granted_word k request Hr targets).
Qed.

Lemma installed_grants :
  grants_of (ek_ledger k') = <[next := pr_amounts (intent_of k targets d)]> (grants_of (ek_ledger k)).
Proof.
  destruct (ins_ledger _ _ _ _ _ Hins) as (_ & _ & E & _). unfold grants_of.
  rewrite E, fmap_insert, (iss_decision _ _ _ _ Hi). f_equal. cbn. rewrite <- !list_fmap_compose. by apply list_fmap_ext.
Qed.

Lemma installed_path (d' : AdmissionDecisionId) :
  is_Some (grants_of (ek_ledger k) !! d') \/ d' = next ->
  path_of k' d' = if decide (d' = next) then ad_selected_path d else path_of k d'.
Proof.
  intros Hd. assert (Hd' : holds (ek_ledger k') d' = true).
  { apply grants_holds. rewrite installed_grants. destruct (decide (d' = next)) as [->|Hne].
    - rewrite lookup_insert_eq. by eexists.
    - rewrite lookup_insert_ne by done. by destruct Hd. }
  unfold path_of. destruct (installed_held d' Hd') as [[-> ->]|(Hne & _ & ->)]; by case_decide.
Qed.

Lemma installed_told (rs : list LogRecord) (s : N) :
  told k rs -> told k' (rs ++ [LogPrepare s (intent_of k targets d); LogCommit (live_record k d)]).
Proof.
  intros Ht. destruct (consumed_ids k Hs) as [En _]. unfold told.
  rewrite (si_epoch _ _ (ins_inputs _ _ _ _ _ Hins)), (ins_next _ _ _ _ _ Hins), En, installed_grants.
  apply (tells_grant _ _ _ _ _ Ht); try done.
  - by apply (intent_known k Hw Hwd request Hr).
  - lia.
  - by eapply justified_admits.
  - intros d' Hd'. rewrite installed_path by (by left). rewrite decide_False; [done|]. intros ->.
    pose proof (tells_below _ _ _ _ _ Ht _ Hd'). unfold next in *. lia.
  - rewrite installed_path by (by right). by rewrite decide_True.
Qed.

Lemma durable_installed : compactable o k' -> grown k k' \/ wrecked k k'.
Proof.
  intros Hfit. pose proof Hk as [_ _ _ Ho (rs & Hl & Ht)].
  pose proof (installed_wf k k' request targets d Hw Hs (justified_admits _ _ _ _ Hj) Hins) as Hw'.
  pose proof installed_words as Hwd'. pose proof installed_standing as Hst'.
  pose proof (intent_storable k Hw Hwd request Hr targets d Hi Hj) as Hps.
  pose proof (live_storable k Hwd request Hr targets d Hi Hj) as Hls.
  assert (Hpath : forall d', is_Some (grants_of (ek_ledger k) !! d') -> path_of k' d' = path_of k d').
  { intros d' Hd'. rewrite installed_path by (by left). rewrite decide_False; [done|]. intros ->.
    pose proof (tells_below _ _ _ _ _ Ht _ Hd'). unfold next in *. lia. }
  assert (Hlive : forall rs', logged o k' rs' -> told k' rs' -> grown k k').
  { intros rs' Hl' Ht'. split_and!; [constructor; [done..|by eexists]|by rewrite (si_epoch _ _ (ins_inputs _ _ _ _ _ Hins))|].
    by apply (carried_grant k _ _ targets d); [done|done|exact installed_grants|]. }
  assert (Hgone : forall rs', gone o k' rs' -> told k' rs' -> wrecked k k').
  { intros rs' Hg Ht'. unfold told in Ht'. rewrite (si_epoch _ _ (ins_inputs _ _ _ _ _ Hins)) in Ht'.
    eapply (wrecked_grant k k' rs' (ek_ledger k') (path_of k')); [done|done|apply Hw'|done|apply Hins|exact installed_grants|done|exact Ht']. }
  destruct (ins_log _ _ _ _ _ Hins o rs Hps Hls Hl Hfit) as [(s & [H|H])|H].
  - left. eapply Hlive; [exact H|by apply installed_told].
  - right. eapply Hgone; [exact H|by apply installed_told].
  - destruct (compact_reads o k' Hw' Hwd' Hst' Hfit) as (rs' & Hrd & Ht').
    destruct H as [H|H]; [left; apply (Hlive rs'); [|done]|right; apply (Hgone rs'); [|done]]; eexists; (split; [exact H|exact Hrd]).
Qed.
End installed.

(** Every admission keeps the log true, if the journal could be compacted after it; or
    the file system went. *)
Lemma durable_admit (claim : ClaimContext) (k : EngineCore) :
  durable o k -> sequences_left k -> compactable o (admit_locked request claim k).2 ->
  grown k (admit_locked request claim k).2 \/ wrecked k (admit_locked request claim k).2.
Proof.
  intros Hk Hs. destruct (admit_locked request claim k) as [res k'] eqn:E. cbn [snd]. intros Hfit.
  pose proof (admit_runs k k' request claim res (du_wf o k Hk) E) as Ha.
  assert (Hrc : forall k0, replay_counted k k0 -> grown k k0 /\ durable o k0 /\ sequences_left k0 /\
    (grown k0 k' -> grown k k') /\ (wrecked k0 k' -> wrecked k k')).
  { intros k0 H. pose proof (replay_counted_wf k k0 (du_wf o k Hk) H) as Hw0. destruct H as [c ->].
    assert (Hca : forall keep rate l path, carried keep rate (k <| ek_counters := c |>) l path -> carried keep rate k l path)
      by (intros keep rate l path []; by constructor).
    enough (Hk0 : durable o (k <| ek_counters := c |>)).
    { split_and!; [by apply shrinks_fared|done|done| |].
      - intros (? & ? & H). split_and!; [done|done|by apply Hca].
      - intros (rs & l & path & n & e & ? & ? & ? & ? & H). exists rs, l, path, n, e.
        split; [done|]. split; [done|]. split; [done|]. split; [done|by apply Hca]. }
    apply (after_durable o (fun _ => True) k _ tt), durable_frame; try done. by destruct (du_words o k Hk). }
  destruct Ha as [b oc d k0 k' Hc Ho Hi Hg _ _ Hst|s k0 k' Hc Hv Hu|d k' Hc _|res k' _ Hpl].
  - destruct (Hrc k0 Hc) as (_ & Hk0 & Hs0 & Hgr & _). left. apply Hgr, (durable_refused k0 k' b oc d); try done.
    destruct Hc as [c ->]. destruct Hi. by constructor.
  - destruct (Hrc k0 Hc) as (_ & Hk0 & Hs0 & Hgr & Hwr).
    destruct (durable_unsettled k0 k' Hk0 Hs0 Hv Hu) as [H|H]; [left; by apply Hgr|right; by apply Hwr].
  - left. by apply Hrc.
  - destruct Hpl as [oc d k' Ho Hi Hg Hst|targets d res k' Hj Hi Hres|s k' Hv Hu].
    + left. by apply (durable_refused k k' true oc d).
    + by apply (durable_installed k k' targets d).
    + by apply durable_unsettled.
Qed.
End admission.

(** ** The first start *)

Definition config_words (config : EngineConfig) : Prop :=
  u64 (ec_epoch config) /\ u64 (ec_incarnation config) /\ u64 (ec_initial_tick config).

(** The engine of a first start, before its boot record is written. *)
Definition first_engine (config : EngineConfig) (j : Journal) (epoch : FabricEpoch) : EngineCore :=
  (attached config j) <| ek_epoch := epoch |> <| ek_audit := rp_audit Replay_new |>
    <| ek_next_decision_sequence := rp_max_decision Replay_new +w 1 |>.

Lemma trimmed_new (ledger : AdmittedLoadLedger) (capacity : N) :
  trimmed ledger (DecisionHistory_new capacity) = DecisionHistory_new capacity.
Proof.
  unfold trimmed. replace (needs_trim (DecisionHistory_new capacity)) with false; [done|].
  symmetry. apply N.ltb_ge. change (history_size (DecisionHistory_new capacity)) with 0. lia.
Qed.

Definition start_epoch (config : EngineConfig) : FabricEpoch :=
  if ec_epoch config =? 0 then first_epoch else ec_epoch config.

Lemma first_recovery (config : EngineConfig) (j : Journal) (report : RecoveryReport) :
  rr_outcome (recover_from [] report (attached config j)).1 <> RecoveryRefused ->
  exists k', write_boot (first_engine config j (start_epoch config)) = (Val tt, k') /\
    (recover_from [] report (attached config j)).2 = k' <| ek_pending_reconciliation := false |>.
Proof.
  unfold recover_from. cbn [replay_frames]. change (items (rp_committed Replay_new)) with (@nil (N * PrepareRecord)).
  cbn [restore_ledger]. unfold mret, M_ret. rewrite trim_history_run.
  match goal with |- context [trimmed ?l ?h] => change h with (DecisionHistory_new (ec_history_capacity config)) end.
  rewrite trimmed_new. set (k1 := _ <| ek_history := _ |>). unfold finish_recovery.
  assert (En : next_epoch (rp_epoch Replay_new) (ec_epoch (ek_config k1)) = Val (start_epoch config)).
  { unfold next_epoch, start_epoch, epoch_is_none, unknown_epoch. cbn. by destruct (ec_epoch config =? 0). }
  rewrite En. match goal with |- context [write_boot ?k0] =>
    change k0 with (first_engine config j (start_epoch config)) end.
  pose proof (silent_write_boot (first_engine config j (start_epoch config))) as Hq.
  destruct (write_boot _) as [[[]|e] k']; [|by intros []]. intros _. exists k'. split; [done|].
  cbn [fst snd] in *. by destruct Hq as (? & ? & ->).
Qed.

Section first.
Context (config : EngineConfig) (Hc : config_words config).

Lemma start_epoch_word : u64 (start_epoch config).
Proof. unfold start_epoch. by destruct (_ =? 0); [|apply Hc]. Qed.

Lemma first_engine_wf (j : Journal) : engine_wf (first_engine config j (start_epoch config)).
Proof. destruct (new_engine_wf config) as [[] ? ? ? ? ? ?]. by constructor. Qed.

Lemma first_engine_words (j : Journal) : words (first_engine config j (start_epoch config)).
Proof.
  destruct Hc as (_ & ? & ?). constructor; try done. split_and!; [apply start_epoch_word|done|done].
Qed.

(** A first start on an empty file that is not refused: the log is the boot record, and
    there are no grants. *)
Lemma first_start_durable (j : Journal) :
  steady (jn_script j) -> jn_data j = [] -> 52 <= jo_max_payload (jn_options j) < two32 ->
  rr_outcome (opened_on config j).1 <> RecoveryRefused -> durable (jn_options j) (opened_on config j).2.
Proof.
  intros Hs Hd Ho Hout.
  destruct (opened_steady j [] config) as (j1 & report & E & Hh); [apply Ho|done|done|done|by rewrite Hd; apply N.le_0_l|apply N.le_0_l|done|].
  rewrite E in Hout |- *. destruct (first_recovery config j1 report Hout) as (k2 & Eboot & ->).
  set (k1 := first_engine config j1 (start_epoch config)) in *.
  assert (Hl : logged (jn_options j) k1 []) by (exists []; split; [|constructor]; split_and!; [done|done|by exists j1]).
  assert (Hb : boot_storable (make_boot_record (ek_epoch k1) (ek_incarnation k1)))
    by (split_and!; [done|done|apply start_epoch_word|apply Hc|apply Hc]).
  pose proof (write_boot_logs _ k1 [] Hl Hb (proj1 Ho)) as Hlog. pose proof (silent_write_boot k1) as Hq.
  unfold wp in Hlog. rewrite Eboot in Hlog, Hq. cbn [fst snd has_value app] in *.
  apply quiet_lowered in Hq as Hlow. pose proof (lowered_wf _ _ (first_engine_wf j1) Hlow) as Hw2.
  pose proof (words_lowered _ _ Hlow (first_engine_words j1)) as Hwd2.
  assert (Hled : ek_ledger k2 = Ledger_new) by (by destruct Hq as (? & ? & ->)).
  assert (Hw : engine_wf (k2 <| ek_pending_reconciliation := false |>)).
  { apply (inputs_replaced_wf k2); [done| |done..]. destruct (ew_inputs k2 Hw2). by constructor. }
  constructor; [done|by destruct Hwd2| |done|].
  - intros d. cbn [ek_ledger set_field]. rewrite Hled. intros [es Hes]%holds_iff. cbn in Hes. by rewrite lookup_empty in Hes.
  - exists [LogBoot (make_boot_record (ek_epoch k1) (ek_incarnation k1))]. split; [exact Hlog|].
    destruct Hq as (j2 & f2 & ->). unfold told. cbn [ek_ledger ek_epoch set_field].
    replace (grants_of _) with (∅ : gmap N (list (ResourceId * Rate))) by reflexivity.
    exact (tells_first (make_boot_record (start_epoch config) (ec_incarnation config)) _ _ ltac:(done)).
Qed.
End first.

(** ** Runs *)

(** The public calls of an engine that has its journal. *)
Inductive Call :=
  | CallAdmit (request : AdmissionRequest) (claim : ClaimContext)
  | CallRevalidate (d : AdmissionDecisionId)
  | CallRevoke (d : AdmissionDecisionId) (reason : RevocationReason)
  | CallPolicy (p : AdmissionPolicy)
  | CallCapacity (s : CapacitySnapshot)
  | CallReservations (s : ReservationSnapshot)
  | CallPaths (c : PathCatalog)
  | CallQos (c : QoSClassCatalog)
  | CallPriorities (c : PriorityClassCatalog)
  | CallInvalidateCapacity
  | CallInvalidatePaths
  | CallRegister (p : PublisherId) (b : BootId)
  | CallRetire (n : SessionNonce)
  | CallIncarnation (i : CoordinatorIncarnation)
  | CallTick (t : N)
  | CallAttach (j : Journal)
  | CallCompact.

Definition perform (c : Call) (k : EngineCore) : EngineCore :=
  match c with
  | CallAdmit request claim => (admit_locked request claim k).2
  | CallRevalidate d => (revalidate_locked d k).2
  | CallRevoke d reason => (revoke_locked d reason k).2
  | CallPolicy p => (publish_policy p k).2
  | CallCapacity s => (publish_capacity s k).2
  | CallReservations s => (publish_reservations s k).2
  | CallPaths c => (publish_paths c k).2
  | CallQos c => (publish_qos_catalog c k).2
  | CallPriorities c => (publish_priority_catalog c k).2
  | CallInvalidateCapacity => (invalidate_capacity k).2
  | CallInvalidatePaths => (invalidate_paths k).2
  | CallRegister p b => (register_session p b k).2
  | CallRetire n => (retire_session n k).2
  | CallIncarnation i => (begin_new_incarnation i k).2
  | CallTick t => (advance_tick t k).2
  | CallAttach j => (attach_journal j k).2
  | CallCompact => (compact_journal k).2
  end.

(** The figures of a call fit their types.  An admission leaves a state the journal could be
    compacted to, and neither sequence wraps. *)
Definition call_ok (o : JournalOptions) (c : Call) (k : EngineCore) : Prop :=
  match c with
  | CallAdmit request _ => admissible request /\ sequences_left k /\ compactable o (perform c k)
  | CallPolicy p => policy_storable p
  | CallCapacity s => capacity_words s
  | CallReservations s => reservation_words s
  | CallPaths c => path_words c
  | CallQos c => qos_words c
  | CallPriorities c => priority_words c
  | CallIncarnation i => u64 i
  | CallTick t => u64 t
  | CallCompact => compactable o k
  | _ => True
  end.

(** The grants a call never takes back: a policy or a new supply may end any of them. *)
Definition spares (c : Call) (d : AdmissionDecisionId) : Prop :=
  match c with
  | CallRevalidate d' | CallRevoke d' _ => d <> d'
  | CallPolicy _ | CallCapacity _ | CallReservations _ => False
  | _ => True
  end.

(** The most a call may add to the load of a path. *)
Definition rate_of (c : Call) : Rate :=
  match c with CallAdmit request _ => maximum (rq_rate request) | _ => 0 end.

(** The file system has not gone. *)
Definition up (k : EngineCore) : Prop :=
  match ek_journal k with Some j => jn_script j <> [IoGone 0] | None => False end.

(** A call during which the file system does not go. *)
Definition live_call (o : JournalOptions) (k k' : EngineCore) : Prop :=
  exists c, call_ok o c k /\ k' = perform c k /\ up k'.

Section runs.
Context (o : JournalOptions).

(** A second journal is refused. *)
Lemma durably_attach (keep : AdmissionDecisionId -> Prop) (j : Journal) : durably o keep (attach_journal j).
Proof.
  intros k Hk. pose proof (du_log o k Hk) as (rs & (fs & (Hr & _) & _) & _).
  unfold attach_journal. apply wp_bind, wp_get. rewrite Hr. by apply durably_fail.
Qed.

(** How a call ends. *)
Definition ended (c : Call) (k k' : EngineCore) : Prop :=
  fared o (spares c) (rate_of c) k k' \/ wreck o (spares c) (rate_of c) k k'.

Lemma after_ended {A} (c : Call) (m : M EngineCore A) (k : EngineCore) :
  wp m (after o (spares c) k) k -> ended c k (m k).2.
Proof. intros [[Hd Hs]|[_ Hd]]; [left; by apply shrinks_fared|right; by apply doomed_wreck]. Qed.

Lemma call_ends (c : Call) (k : EngineCore) : durable o k -> call_ok o c k -> ended c k (perform c k).
Proof.
  intros Hk Hc. destruct c; cbn [perform call_ok] in *; [|apply after_ended..].
  - destruct Hc as (Ha & Hs & Hfit). by apply durable_admit.
  - apply durably_revalidate; [cbn; tauto|done].
  - apply durably_revoke; [cbn; tauto|done].
  - apply durably_publish_policy; (done || by intros ? []).
  - apply durably_publish_capacity; (done || by intros ? []).
  - apply durably_publish_reservations; (done || by intros ? []).
  - by apply durably_publish_paths.
  - by apply durably_publish_qos.
  - by apply durably_publish_priorities.
  - by apply durably_invalidate_capacity.
  - by apply durably_invalidate_paths.
  - by apply durably_register.
  - by apply durably_retire.
  - by apply durably_incarnation.
  - by apply durably_tick.
  - by apply durably_attach.
  - by apply durable_compact.
Qed.

Lemma wreck_down (c : Call) (k k' : EngineCore) : wreck o (spares c) (rate_of c) k k' -> ~ up k'.
Proof.
  intros (rs & l & path & n & e & (fs & (j & Hj & Hg) & _) & _) Hup. unfold up in Hup. rewrite Hj in Hup.
  by apply Hup, Hg.
Qed.

Lemma durable_run (k k' : EngineCore) : rtc (live_call o) k k' -> durable o k -> durable o k'.
Proof.
  induction 1 as [|k k1 k2 (c & Hc & -> & Hup) _ IH]; [done|]. intros Hk. apply IH.
  destruct (call_ends c k Hk Hc) as [[H _]|H]; [done|]. by apply wreck_down in H.
Qed.
End runs.

(** ** Restart *)

Lemma grants_sum (l : AdmittedLoadLedger) (f : list (ResourceId * Rate) -> N) :
  f [] = 0 -> (forall a b, f (a ++ b) = f a + f b) ->
  map_sum (fun _ held => f held) (grants_of l) = f (entry_amount <$> all_entries (lg_by_decision l)).
Proof.
  intros H0 Happ. rewrite (all_entries_sum (fun es => f (entry_amount <$> es))) by (done || (intros; by rewrite fmap_app)).
  apply map_sum_ext. intros d. unfold grants_of. rewrite lookup_fmap. by destruct (lg_by_decision l !! d).
Qed.

(** The grants of a well-formed ledger fit another one. *)
Lemma wf_fits (l : AdmittedLoadLedger) (path : N -> PathId) :
  ledger_wf l -> (forall q, weight (grants_of l) path q < two64) -> fits_ledger (grants_of l) path.
Proof.
  intros Hw Hp. constructor; [| |exact Hp].
  - rewrite (grants_sum _ sizeN); [|done|intros a b; unfold sizeN; rewrite length_app; lia].
    unfold sizeN. rewrite length_fmap. change (sizeN (all_entries (lg_by_decision l)) <= max_ledger_entries).
    rewrite <- (lwf_count _ Hw). apply Hw.
  - intros r. rewrite (grants_sum _ (amount_of r)); [|done|intros; apply amount_of_app].
    change (load r (all_entries (lg_by_decision l)) < two64). rewrite <- (lwf_totals _ Hw). apply Hw.
Qed.

(** What a process that ends may leave behind: a file that can be read back, an epoch that
    can be followed, and paths whose grants can be added up, with what the last call may
    have added. *)
Record restartable (rate : Rate) (k k' : EngineCore) (j : Journal) : Prop := {
  rt_journal : ek_journal k' = Some j;
  rt_bytes : sizeN (jn_data j) <= jo_max_file_bytes (jn_options j) < two64;
  rt_frames : ss_frames (scan_file (jo_max_payload (jn_options j)) (jn_data j)) <= max_journal_records;
  rt_epoch : ek_epoch k' < u64_max;
  rt_paths : forall q, path_weight k q + rate < two64;
}.

(** A restart holds these grants. *)
Definition holds_grants (l : AdmittedLoadLedger) (e : FabricEpoch) (started : RecoveryReport * EngineCore) : Prop :=
  rr_outcome started.1 <> RecoveryRefused /\ e < ek_epoch started.2 /\ ledger_wf (ek_ledger started.2) /\
  (forall d, holds (ek_ledger started.2) d = true <-> is_Some (grants_of l !! d)) /\
  (forall d es, lg_by_decision (ek_ledger started.2) !! d = Some es ->
     exists held, grants_of l !! d = Some held /\ entry_amount <$> es ≡ₚ held).

(** A restart on a journal whose file can be read, and tells the grants of [l]. *)
Lemma torn_restart (o : JournalOptions) (j : Journal) (fs : list JournalFrame) (f : JournalFrame) (n : nat)
    (rs : list LogRecord) (l : AdmittedLoadLedger) (path : N -> PathId) (next e : N) (config : EngineConfig) :
  52 <= jo_max_payload o < two32 -> jn_options j = o -> Forall (frame_ok (jo_max_payload o)) fs ->
  frame_ok (jo_max_payload o) f -> (n < length (frame_bytes f))%nat -> jn_data j = encode_all fs ++ take n (frame_bytes f) ->
  sizeN (jn_data j) <= jo_max_file_bytes o -> ss_frames (scan_file (jo_max_payload o) (jn_data j)) <= max_journal_records ->
  read_all fs rs -> tells rs (grants_of l) path next e -> fits_ledger (grants_of l) path -> e < u64_max ->
  ec_epoch config = 0 \/ e <= ec_epoch config -> holds_grants l e (restarted_on config j).
Proof.
  intros Hp Ho Hfs Hf Hn Hd Hb Hfr Hrs Ht Hfit He Hcfg.
  rewrite Hd, (scan_file_torn _ ltac:(apply Hp) fs f n Hfs Hf Hn) in Hfr. cbn in Hfr.
  destruct (opened_torn (journal_file j (jn_data j)) fs f n config) as (j1 & report & E & Hs1 & Ho1 & Hopt1); try done.
  { cbn. rewrite Ho. apply Hp. }
  { cbn. by rewrite Ho. }
  { cbn. by rewrite Ho. }
  { cbn. by rewrite Ho. }
  unfold restarted_on. rewrite E. cbn in Hopt1.
  pose proof (recover_tells fs rs (grants_of l) path next e (attached config j1) Hrs Ht eq_refl eq_refl report Hfit He Hcfg) as H.
  destruct (recover_from _ _ _) as [report' k']. apply H.
  intros k2 E2 _ Ef. apply (write_boot_succeeds k2 j1); [done|done|done|rewrite Hopt1, Ho; apply Hp|by rewrite Ef].
Qed.

(** A restart on the journal of a durable engine. *)
Lemma durable_holds (o : JournalOptions) (k : EngineCore) (j : Journal) (config : EngineConfig) :
  durable o k -> restartable 0 k k j -> ec_epoch config = 0 \/ ek_epoch k <= ec_epoch config ->
  holds_grants (ek_ledger k) (ek_epoch k) (restarted_on config j).
Proof.
  intros [Hw _ _ Hp (rs & (fs & (_ & _ & j0 & Hj0 & [Ho _ _ Hfs Hd _ _]) & Hrs) & Ht)] [Hj Hb Hfr He Hq] Hcfg.
  assert (j0 = j) as -> by congruence. rewrite Ho in Hb, Hfr.
  apply (torn_restart o j fs (mkJournalFrame JK_BootEpoch 1 []) 0 rs _ (path_of k) (ek_next_decision_sequence k)); try done.
  - constructor; [done|done|apply N.le_0_l].
  - by vm_compute; lia.
  - by rewrite app_nil_r.
  - apply Hb.
  - apply wf_fits; [apply Hw|]. intros q. specialize (Hq q). unfold path_weight in Hq. lia.
Qed.

Lemma durable_restart (o : JournalOptions) (k : EngineCore) (j : Journal) (config : EngineConfig) :
  durable o k -> restartable 0 k k j -> ec_epoch config = 0 \/ ek_epoch k <= ec_epoch config ->
  let '(report, k') := restarted_on config j in
  rr_outcome report <> RecoveryRefused /\ ek_epoch k < ek_epoch k' /\ ledger_wf (ek_ledger k') /\ same_grants k k'.
Proof.
  intros Hk Hr Hcfg. pose proof (durable_holds o k j config Hk Hr Hcfg) as H.
  destruct (restarted_on config j) as [report k']. destruct H as (Hout & Hep & Hwf & Hhold & Hes).
  split_and!; [done..|]. split.
  - intros d. rewrite Hhold, grants_holds. split; [apply Hk|by intros []].
  - intros d es' Hd'. destruct (Hes d es' Hd') as (held & Hg & Hperm). unfold grants_of in Hg.
    rewrite lookup_fmap in Hg. apply fmap_Some in Hg as (es & He1 & ->). by exists es.
Qed.

(** A restart on what a call left, whether it ended or the file system went. *)
Lemma ended_restart (o : JournalOptions) (c : Call) (k k' : EngineCore) (j : Journal) (config : EngineConfig) :
  52 <= jo_max_payload o < two32 -> ended o c k k' -> restartable (rate_of c) k k' j ->
  ec_epoch config = 0 \/ ek_epoch k' <= ec_epoch config ->
  exists l path e, carried (spares c) (rate_of c) k l path /\ ek_epoch k <= e /\ holds_grants l e (restarted_on config j).
Proof.
  intros Hp [(Hk & Hle & Hca)|(rs & l & path & n & e & Hg & Hw & Ht & [Hle Hge] & Hca)] [Hj Hb Hfr He Hq] Hcfg;
    pose proof (fun q => N.le_lt_trans _ _ _ (ca_paths _ _ _ _ _ Hca q) (Hq q)) as Hfit.
  - exists (ek_ledger k'), (path_of k'), (ek_epoch k'). split; [done|]. split; [done|].
    apply (durable_holds o); [done| |done]. constructor; [done..|]. intros q. unfold path_weight at 1. rewrite N.add_0_r.
    by apply Hfit.
  - destruct Hg as (fs & (j0 & Hj0 & [Ho _ Hfs (f & m & Hf & Hm & Hd)]) & Hrs).
    assert (j0 = j) as -> by congruence. rewrite Ho in Hb, Hfr. exists l, path, e. split; [done|]. split; [done|].
    apply (torn_restart o j fs f m rs l path n); try done; [apply Hb| |lia|lia]. apply wf_fits; [done|]. intros q. by apply Hfit.
Qed.

(** Grants of [k] and at most one more weigh on a resource what those of [k] do, and what
    that one may have. *)
Lemma carried_load (keep : AdmissionDecisionId -> Prop) (rate : Rate) (k : EngineCore) (l : AdmittedLoadLedger)
    (path : N -> PathId) (r : ResourceId) :
  carried keep rate k l path ->
  map_sum (fun _ held => amount_of r held) (grants_of l) <=
  map_sum (fun _ held => amount_of r held) (grants_of (ek_ledger k)) + rate.
Proof.
  intros [_ Hold _]. set (next := ek_next_decision_sequence k) in *.
  assert (Hrest : delete next (grants_of l) ⊆ grants_of (ek_ledger k)).
  { apply map_subseteq_spec. intros d held [Hne Hd]%lookup_delete_Some. by destruct (Hold d held Hd) as [?|[<- _]]. }
  pose proof (map_sum_subseteq (fun _ held => amount_of r held) _ _ Hrest) as Hle.
  destruct (grants_of l !! next) as [held|] eqn:E.
  - destruct (Hold next held E) as [Hk|[_ Hr]].
    + apply N.le_trans with (map_sum (fun _ held => amount_of r held) (grants_of (ek_ledger k))); [|lia].
      apply map_sum_subseteq, map_subseteq_spec. intros d h Hd. destruct (decide (d = next)) as [->|Hne]; [congruence|].
      by destruct (Hold d h Hd) as [?|[? _]].
    + rewrite <- (insert_delete_id _ _ _ E), map_sum_insert by apply lookup_delete_eq. specialize (Hr r). lia.
  - rewrite delete_id in Hle by done. lia.
Qed.

(** The load of a ledger that holds these grants. *)
Lemma load_of_grants (l l' : AdmittedLoadLedger) (r : ResourceId) :
  ledger_wf l' -> (forall d es, lg_by_decision l' !! d = Some es ->
    exists held, grants_of l !! d = Some held /\ entry_amount <$> es ≡ₚ held) ->
  admitted l' r <= map_sum (fun _ held => amount_of r held) (grants_of l).
Proof.
  intros Hw Hes. rewrite lwf_totals, (all_entries_sum (load r)) by (done || (intros; apply load_app)).
  apply map_sum_le. intros d es Hd. destruct (Hes d es Hd) as (held & Hg & Hp). exists held. split; [done|].
  unfold load. by rewrite Hp.
Qed.

(** ** The example: two grants, one of them revoked *)

Definition second_grant : AdmissionRequest := (sample_request 2 3) <| rq_request := 2 |>.
Definition life : list Call :=
  [CallPolicy sample_policy; CallCapacity sample_capacity; CallReservations sample_reservations; CallQos sample_qos;
   CallPriorities sample_priorities; CallAdmit (sample_request 1 3) in_process].

Definition performed (cs : list Call) (k : EngineCore) : EngineCore := foldl (fun k c => perform c k) k cs.
Definition lived (cs : list Call) (j : Journal) : EngineCore := performed cs (opened_on durable_config j).2.

Definition lived2 : EngineCore :=
  lived (life ++ [CallAdmit second_grant in_process; CallRevoke 2 OperatorRequest]) (on_disk []).
Definition left_behind : Journal := default (on_disk []) (ek_journal lived2).

(** Live calls, one after the other. *)
Fixpoint live_calls (o : JournalOptions) (cs : list Call) (k : EngineCore) : Prop :=
  match cs with
  | [] => True
  | c :: cs => call_ok o c k /\ up (perform c k) /\ live_calls o cs (perform c k)
  end.

Lemma live_calls_run (o : JournalOptions) (cs : list Call) (k : EngineCore) :
  live_calls o cs k -> rtc (live_call o) k (performed cs k).
Proof.
  revert k. induction cs as [|c cs IH]; intros k; [done|]. intros (Hc & Hup & Hcs).
  eapply rtc_l; [by exists c|by apply IH].
Qed.

Lemma compactable_reflect (o : JournalOptions) (k : EngineCore) :
  (52 <=? jo_max_payload o) && (jo_max_payload o <? two32) &&
  forallb (fun f => sizeN (jf_payload f) <=? jo_max_payload o) (compact_frames k) &&
  (sizeN (compact_frames k) <=? max_journal_records) &&
  (sizeN (encode_all (numbered 1 (body <$> compact_frames k))) <=? jo_max_file_bytes o) = true ->
  compactable o k.
Proof.
  rewrite !andb_true_iff, !N.leb_le, N.ltb_lt. intros ((([] & Hp%payloads_bounded) & Hr) & Hb). by constructor.
Qed.

Lemma second_grant_admissible : admissible second_grant /\ admissible (sample_request 1 3).
Proof. split; (constructor; [sendable|done|done]). Qed.

Ltac call_ok :=
  lazymatch goal with
  | |- call_ok _ (CallAdmit _ _) _ =>
      split_and!; [by apply second_grant_admissible|by vm_compute|apply compactable_reflect; by vm_compute]
  | |- call_ok _ (CallPolicy _) _ => cbn [call_ok]; storable
  | |- call_ok _ _ _ => cbn [call_ok]; by repeat (split || constructor)
  end.
Ltac live_calls := repeat (split; [call_ok|split; [by vm_compute|]]); exact I.

Lemma lived_run : rtc (live_call JournalOptions_new) (opened_on durable_config (on_disk [])).2 lived2.
Proof. apply live_calls_run. live_calls. Qed.

Lemma left_behind_restartable : restartable 0 lived2 lived2 left_behind.
Proof.
  constructor.
  - by vm_compute.
  - by split; vm_compute.
  - by vm_compute.
  - by vm_compute.
  - intros q. unfold path_weight, weight, map_sum.
    assert (E : map_to_list (grants_of (ek_ledger lived2)) = [(1, [(1, 50)])]) by (by vm_compute).
    rewrite E. cbn. by destruct (decide _).
Qed.



(** ** A crash in the middle of a call *)


(** The file system goes while the commit of the second grant is being written: ten bytes of
    it reach the file. *)
Definition dying : Journal := (on_disk []) <| jn_script := replicate 21 (IoDo IoOk) ++ [IoGone 10] |>.
Definition struck : EngineCore := lived life dying.
Definition torn_journal : Journal := default (on_disk []) (ek_journal (perform (CallAdmit second_grant in_process) struck)).

Lemma struck_run : rtc (live_call JournalOptions_new) (opened_on durable_config dying).2 struck.
Proof. apply live_calls_run. live_calls. Qed.

Lemma torn_restartable :
  restartable 50 struck (perform (CallAdmit second_grant in_process) struck) torn_journal.
Proof.
  constructor; [by vm_compute|by split; vm_compute|by vm_compute|by vm_compute|].
  intros q. unfold path_weight, weight, map_sum.
  assert (E : map_to_list (grants_of (ek_ledger struck)) = [(1, [(1, 50)])]) by (by vm_compute).
  rewrite E. cbn. by destruct (decide _).
Qed.


(** ** An epoch that the journal never heard of *)

(** The journal refuses the boot record of a new incarnation. *)
Definition unrecorded : Expected unit * EngineCore :=
  begin_new_incarnation 0 ((set_fault_injection (FaultInjection_new <| ft_fail_next_journal_append := true |>) lived2).2).

(** [begin_new_incarnation] moves to the new epoch before it writes the boot record and
    does not go back when the record is refused: the engine reports the error, serves the
    new epoch, and a process restarted on the journal is in that same epoch again. *)
Theorem unrecorded_epoch_reused :
  has_value unrecorded.1 = false /\ ek_epoch lived2 = 1 /\ ek_epoch unrecorded.2 = 2 /\
  (let grant := admit_locked ((sample_request 3 3) <| rq_request := 3 |>) in_process unrecorded.2 in
   ad_outcome <$> grant.1 = Val Admit /\
   let restarted := restarted_on durable_config (default (on_disk []) (ek_journal grant.2)) in
   rr_outcome restarted.1 = Recovered /\ ek_epoch restarted.2 = 2 /\
   holds (ek_ledger restarted.2) 1 = true /\ holds (ek_ledger restarted.2) 3 = true).
Proof. vm_compute. repeat split. Qed.
