(* ===== verification/Stream.v ===== *)
(** * Byte streams (src/include/naf/ipc/stream.hpp, src/src/ipc/stream.cpp)

    The interface [Stream], through which framing, server and client see a
    transport, and the in-memory implementation.  [ReliableStream] states what a
    transport promises when nothing fails: it may deliver bytes in pieces of any
    size, but in order and without loss. *)

From S2P Require Import Prelude Checked Identity Hash Bytes.
Local Open Scope N_scope.
Local Open Scope naf_scope.

(** The four virtual methods.  [read_some] is given the size of the caller's buffer
    and returns the bytes it put there. *)
Class Stream (S : Type) := {
  read_some : N -> M S (list N);
  write_all : list N -> M S unit;
  close : M S unit;
  is_open : S -> bool;
}.

Definition transport_failure (m : string) : Status := status_error TransportFailure m.

(** [incoming] is what the peer has sent and the reader has not seen, [written] what
    was sent.  An empty read means that nothing more will come; a write that fails may
    have sent any part of its data. *)
Class ReliableStream (S : Type) `{!Stream S} (incoming written : S -> list N) := {
  read_reliable : forall n s, is_open s = true -> 0 < n ->
    exists got s', read_some n s = (Val got, s') /\ sizeN got <= n /\
      incoming s = got ++ incoming s' /\ (got = [] -> incoming s = []) /\
      written s' = written s /\ is_open s' = true;
  write_reliable : forall data s r s', is_open s = true -> write_all data s = (r, s') ->
    incoming s' = incoming s /\ is_open s' = true /\
    (r = Val tt -> written s' = written s ++ data) /\
    exists sent unsent, data = sent ++ unsent /\ written s' = written s ++ sent;
  close_reliable : forall s, is_open (close s).2 = false /\ written (close s).2 = written s;
}.
#[global] Hint Mode ReliableStream ! - - - : typeclass_instances.

(** ** The in-memory stream *)

Record MemoryStream := mkMemoryStream {
  ms_incoming : list N;
  ms_outgoing : list N;
  ms_capacity : N;
  ms_open : bool;
  ms_peer_open : bool;
}.
#[export] Instance eta_MemoryStream : Eta MemoryStream := fun m =>
  mkMemoryStream (ms_incoming m) (ms_outgoing m) (ms_capacity m) (ms_open m) (ms_peer_open m).

Definition MemoryStream_new (capacity : N) : MemoryStream := mkMemoryStream [] [] capacity true true.
Definition default_capacity : N := 1048576.

Definition feed (data : list N) : M MemoryStream unit :=
  m ← get;
  if ms_capacity m <? sizeN (ms_incoming m) + sizeN data
  then fail OversizedInput "memory stream buffer bound exceeded"
  else modify (fun m => m <| ms_incoming := ms_incoming m ++ data |>).
Definition feed_text (text : string) : M MemoryStream unit := feed (chars_of text).

(** Both branches of the empty case return zero. *)
Definition memory_read_some (n : N) : M MemoryStream (list N) :=
  m ← get;
  if negb (ms_open m) then lift (Err (transport_failure "stream is closed"))
  else
    let count := N.min n (sizeN (ms_incoming m)) in
    modify (fun m => m <| ms_incoming := drop (N.to_nat count) (ms_incoming m) |>) ;;
    mret (take (N.to_nat count) (ms_incoming m)).

Definition memory_write_all (data : list N) : M MemoryStream unit :=
  m ← get;
  if negb (ms_open m) then lift (Err (transport_failure "stream is closed"))
  else if ms_capacity m <? sizeN (ms_outgoing m) + sizeN data
  then fail OversizedInput "memory stream write bound exceeded"
  else modify (fun m => m <| ms_outgoing := ms_outgoing m ++ data |>).

Definition memory_close : M MemoryStream unit :=
  modify (fun m => m <| ms_open := false |> <| ms_peer_open := false |>).

Definition pending (m : MemoryStream) : N := sizeN (ms_incoming m).
Definition close_peer : M MemoryStream unit := modify (fun m => m <| ms_peer_open := false |>).

#[export] Instance memory_stream : Stream MemoryStream := {
  read_some := memory_read_some;
  write_all := memory_write_all;
  close := memory_close;
  is_open := ms_open;
}.

#[export] Instance memory_reliable : ReliableStream MemoryStream ms_incoming ms_outgoing.
Proof.
  constructor.
  - intros n m Ho Hn. cbn in Ho |- *. unfold memory_read_some, mbind, M_bind, get, modify, mret, M_ret.
    rewrite Ho. cbn [negb]. eexists _, _. split; [reflexivity|]. cbn. split_and!; try done.
    + unfold sizeN. rewrite length_take. lia.
    + by rewrite take_drop.
    + intros Ht. apply (f_equal length) in Ht. rewrite length_take in Ht. unfold sizeN in Ht. cbn in Ht.
      destruct (ms_incoming m); [done|]. cbn in Ht. lia.
  - intros data m r m' Ho. cbn in Ho |- *. unfold memory_write_all, mbind, M_bind, get, modify, fail, lift.
    rewrite Ho. cbn [negb]. destruct (_ <? _); intros [= <- <-]; split_and!; try done.
    + exists [], data. by rewrite app_nil_r.
    + exists data, []. by rewrite app_nil_r.
  - done.
Qed.

(** A stream that hands out at most [chunk] bytes at a time, as a socket may. *)
Record SlowStream := mkSlowStream { ss_chunk : N; ss_memory : MemoryStream }.
Definition slow_read_some (n : N) : M SlowStream (list N) := fun s =>
  let '(r, m) := memory_read_some (N.min n (N.max 1 (ss_chunk s))) (ss_memory s) in
  (r, mkSlowStream (ss_chunk s) m).
Definition slow_write_all (data : list N) : M SlowStream unit := fun s =>
  let '(r, m) := memory_write_all data (ss_memory s) in (r, mkSlowStream (ss_chunk s) m).
Definition slow_close : M SlowStream unit := fun s =>
  let '(r, m) := memory_close (ss_memory s) in (r, mkSlowStream (ss_chunk s) m).
#[export] Instance slow_stream : Stream SlowStream := {
  read_some := slow_read_some;
  write_all := slow_write_all;
  close := slow_close;
  is_open s := ms_open (ss_memory s);
}.

#[export] Instance slow_reliable :
  ReliableStream SlowStream (fun s => ms_incoming (ss_memory s)) (fun s => ms_outgoing (ss_memory s)).
Proof.
  constructor.
  - intros n [c m] Ho Hn. cbn in *. unfold slow_read_some. cbn.
    destruct (read_reliable (ReliableStream := memory_reliable) (N.min n (N.max 1 c)) m Ho) as (got & m' & E & Hle & H); [lia|].
    change (read_some _ _) with (memory_read_some (N.min n (N.max 1 c)) m) in E. rewrite E.
    eexists _, _. split; [reflexivity|]. split; [lia|exact H].
  - intros data [c m] r s' Ho. cbn in *. unfold slow_write_all. cbn.
    destruct (memory_write_all data m) as [r' m'] eqn:E. intros [= <- <-].
    exact (write_reliable (ReliableStream := memory_reliable) data m r' m' Ho E).
  - done.
Qed.
