(* ===== verification/Stdio.v ===== *)
(** * Streams over C stdio handles (FileStream and StdioStream of src/src/ipc/stream.cpp)

    The C library's calls on a handle are parameters.  The library buffers: what a
    handle has accepted, and what it has delivered, are told apart. *)

From S2P Require Import Prelude.
From S2P Require Import Checked.
From S2P Require Import Identity.
From S2P Require Import Hash.
From S2P Require Import Bytes.
From S2P Require Import Stream.
Local Open Scope N_scope.
Local Open Scope naf_scope.

(** [W] is what the library and the operating system keep, [H] a [FILE *].  [fread]
    returns the bytes it put into the buffer, [fwrite] how many it accepted, [fflush]
    and [fclose] whether they succeeded. *)
Class StdC (H W : Type) := {
  fread : H -> N -> W -> list N * W;
  ferror : H -> W -> bool;
  fwrite : H -> list N -> W -> N * W;
  fflush : H -> W -> bool * W;
  fclose : H -> W -> bool * W;
}.
#[global] Hint Mode StdC - ! : typeclass_instances.

(** What the C standard promises of a handle that is read by [inbox] and written by
    [accepted], of which [delivered] has left the buffer. *)
Class StdCLaws (H W : Type) `{!StdC H W} (inbox accepted delivered : H -> W -> list N) := {
  law_fread : forall h n w got w', 0 < n -> fread h n w = (got, w') ->
    sizeN got <= n /\ inbox h w = got ++ inbox h w' /\
    (got = [] -> ferror h w' = false -> inbox h w = []) /\
    (forall h', accepted h' w' = accepted h' w);
  law_fwrite : forall h data w n w', fwrite h data w = (n, w') ->
    n <= sizeN data /\ accepted h w' = accepted h w ++ take (N.to_nat n) data /\
    (forall h', inbox h' w' = inbox h' w);
  law_fflush : forall h w ok w', fflush h w = (ok, w') ->
    accepted h w' = accepted h w /\ (forall h', inbox h' w' = inbox h' w) /\
    (ok = true -> delivered h w' = accepted h w');
  law_fclose : forall h w, accepted h (fclose h w).2 = accepted h w;
}.
#[global] Hint Mode StdCLaws - ! - - - - : typeclass_instances.

(** ** A stream over one handle *)

Record FileStream (H W : Type) := mkFileStream { fs_handle : option H; fs_owns : bool; fs_world : W }.
Arguments mkFileStream {_ _}.
Arguments fs_handle {_ _}.
Arguments fs_owns {_ _}.
Arguments fs_world {_ _}.

Section file_stream.
Context {H W : Type} {lib : StdC H W}.

Definition FileStream_new (handle : H) (owns : bool) (w : W) : FileStream H W := mkFileStream (Some handle) owns w.

Definition file_read_some (n : N) : M (FileStream H W) (list N) := fun s =>
  match fs_handle s with
  | None => (Err (transport_failure "stream is closed"), s)
  | Some h =>
      if n =? 0 then (Val [], s)
      else
        let '(got, w) := fread h n (fs_world s) in
        let s := mkFileStream (Some h) (fs_owns s) w in
        if exhausted got && ferror h w then (Err (transport_failure "read failed"), s) else (Val got, s)
  end.

Definition file_write_all (data : list N) : M (FileStream H W) unit := fun s =>
  match fs_handle s with
  | None => (Err (transport_failure "stream is closed"), s)
  | Some h =>
      if exhausted data then (Val tt, s)
      else
        let '(wrote, w) := fwrite h data (fs_world s) in
        if negb (wrote =? sizeN data) then
          (Err (transport_failure "write failed"), mkFileStream (Some h) (fs_owns s) w)
        else
          let '(flushed, w) := fflush h w in
          (if flushed then Val tt else Err (transport_failure "flush failed"), mkFileStream (Some h) (fs_owns s) w)
  end.

(** A handle of someone else is flushed, and let go only if that succeeds. *)
Definition file_close : M (FileStream H W) unit := fun s =>
  match fs_handle s with
  | None => (Val tt, s)
  | Some h =>
      if fs_owns s then
        let '(closed, w) := fclose h (fs_world s) in
        (if closed then Val tt else Err (transport_failure "close failed"), mkFileStream None (fs_owns s) w)
      else
        let '(flushed, w) := fflush h (fs_world s) in
        if flushed then (Val tt, mkFileStream None (fs_owns s) w)
        else (Err (transport_failure "flush failed"), mkFileStream (Some h) (fs_owns s) w)
  end.

Definition file_is_open (s : FileStream H W) : bool := bool_decide (is_Some (fs_handle s)).

(** The destructor. *)
Definition FileStream_drop (s : FileStream H W) : FileStream H W :=
  match fs_handle s with
  | Some h => if fs_owns s then mkFileStream None true (fclose h (fs_world s)).2 else s
  | None => s
  end.

#[export] Instance file_stream : Stream (FileStream H W) := {
  read_some := file_read_some;
  write_all := file_write_all;
  close := file_close;
  is_open := file_is_open;
}.
End file_stream.

(** ** The standard handles as one duplex stream *)

Record StdioStream (W : Type) := mkStdioStream { st_open : bool; st_world : W }.
Arguments mkStdioStream {_}.
Arguments st_open {_}.
Arguments st_world {_}.

Inductive StdHandle := StdIn | StdOut.

Section stdio_stream.
Context {W : Type} {lib : StdC StdHandle W}.

Definition stdio_read_some (n : N) : M (StdioStream W) (list N) := fun s =>
  if negb (st_open s) then (Err (transport_failure "stdio stream is closed"), s)
  else if n =? 0 then (Val [], s)
  else
    let '(got, w) := fread StdIn n (st_world s) in
    let s := mkStdioStream (st_open s) w in
    if exhausted got then
      if ferror StdIn w then (Err (transport_failure "stdin read failed"), s) else (Val [], s)
    else (Val got, s).

Definition stdio_write_all (data : list N) : M (StdioStream W) unit := fun s =>
  if negb (st_open s) then (Err (transport_failure "stdio stream is closed"), s)
  else if exhausted data then (Val tt, s)
  else
    let '(wrote, w) := fwrite StdOut data (st_world s) in
    if negb (wrote =? sizeN data) then
      (Err (transport_failure "stdout write failed"), mkStdioStream (st_open s) w)
    else
      let '(flushed, w) := fflush StdOut w in
      (if flushed then Val tt else Err (transport_failure "stdout flush failed"), mkStdioStream (st_open s) w).

Definition stdio_close : M (StdioStream W) unit := fun s =>
  if negb (st_open s) then (Val tt, s)
  else (Val tt, mkStdioStream false (fflush StdOut (st_world s)).2).

#[export] Instance stdio_stream : Stream (StdioStream W) := {
  read_some := stdio_read_some;
  write_all := stdio_write_all;
  close := stdio_close;
  is_open := st_open;
}.
End stdio_stream.

(** ** The standard handles are a reliable stream *)

Section laws.
Context {W : Type} {lib : StdC StdHandle W} {inbox accepted delivered : StdHandle -> W -> list N}.
Context {laws : StdCLaws StdHandle W inbox accepted delivered}.

Lemma stdio_write_spec (data : list N) (s s' : StdioStream W) (r : Expected unit) :
  st_open s = true -> stdio_write_all data s = (r, s') ->
  inbox StdIn (st_world s') = inbox StdIn (st_world s) /\ st_open s' = true /\
  (r = Val tt -> accepted StdOut (st_world s') = accepted StdOut (st_world s) ++ data) /\
  (exists sent unsent, data = sent ++ unsent /\
     accepted StdOut (st_world s') = accepted StdOut (st_world s) ++ sent) /\
  (r = Val tt -> data <> [] -> delivered StdOut (st_world s') = accepted StdOut (st_world s')).
Proof.
  intros Ho. unfold stdio_write_all. rewrite Ho. cbn [negb]. destruct data as [|b data]; cbn [exhausted].
  { intros [= <- <-]. split_and!; [done|done|by rewrite app_nil_r| |by intros _ []]. exists [], []. by rewrite !app_nil_r. }
  destruct (fwrite StdOut (b :: data) (st_world s)) as [n w1] eqn:E1.
  destruct (law_fwrite _ _ _ _ _ E1) as (Hn & Ha & Hi).
  destruct (N.eqb_spec n (sizeN (b :: data))) as [->|Hne]; cbn [negb].
  - rewrite (take_ge (b :: data)) in Ha by (unfold sizeN; lia).
    destruct (fflush StdOut w1) as [ok w2] eqn:E2. destruct (law_fflush _ _ _ _ E2) as (Ha2 & Hi2 & Hd).
    intros [= <- <-]. cbn. rewrite Hi2, Hi, Ha2, Ha. split_and!; [done|done|done| |].
    + exists (b :: data), []. by rewrite app_nil_r.
    + intros Hr _. rewrite <- Ha, <- Ha2. apply Hd. by destruct ok.
  - intros [= <- <-]. cbn. split_and!; [apply Hi|done|done| |done].
    exists (take (N.to_nat n) (b :: data)), (drop (N.to_nat n) (b :: data)). by rewrite take_drop.
Qed.

(** When no read fails, the coordinator's stdio mode is a transport as framing, server
    and client rely on. *)
Lemma stdio_reliable :
  (forall w : W, ferror StdIn w = false) ->
  ReliableStream (StdioStream W) (fun s => inbox StdIn (st_world s)) (fun s => accepted StdOut (st_world s)).
Proof.
  intros Herr. split.
  - intros n [op w] Ho Hn. cbn in Ho |- *. subst op. unfold stdio_read_some. cbn [st_open st_world negb].
    rewrite (proj2 (N.eqb_neq n 0)) by lia. destruct (fread StdIn n w) as [got w'] eqn:E.
    destruct (law_fread _ _ _ _ _ Hn E) as (Hs & Hi & Hend & Ha). exists got, (mkStdioStream true w').
    rewrite Herr. split; [by destruct got|]. cbn. split_and!; [done|done| |done|done]. intros Hg. by apply Hend.
  - intros data s r s' Ho E. cbn in Ho, E |- *. destruct (stdio_write_spec data s s' r Ho E) as (?&?&?&?&_). done.
  - intros [op w]. cbn. unfold stdio_close. cbn [st_open st_world]. destruct op; cbn; [|done]. split; [done|].
    destruct (fflush StdOut w) as [ok w'] eqn:E. by destruct (law_fflush _ _ _ _ E).
Qed.

(** What has been written has left the process: a successful write flushes everything
    the handle has accepted. *)
Theorem stdio_write_delivers (data : list N) (s s' : StdioStream W)
    (Ho : st_open s = true) (Hd : data <> []) (Hw : stdio_write_all data s = (Val tt, s')) :
  delivered StdOut (st_world s') = accepted StdOut (st_world s) ++ data.
Proof. destruct (stdio_write_spec data s s' _ Ho Hw) as (_ & _ & <- & _ & ->); done. Qed.
End laws.

(** Closing a stream over a borrowed handle that cannot be flushed leaves it open, with
    the error; a stream that owns its handle is closed whatever [fclose] reports. *)
Theorem file_close_outcome {H W : Type} {lib : StdC H W} (h : H) (owns : bool) (w : W) :
  let '(r, s') := file_close (FileStream_new h owns w) in
  file_is_open s' = negb owns && negb (has_value r).
Proof.
  unfold file_close, FileStream_new. cbn [fs_handle fs_owns fs_world].
  destruct owns; [by destruct (fclose h w)|]. destruct (fflush h w) as [[|] w']; done.
Qed.

(** A library that delivers on flushing, unless the disk behind it is full. *)
Record TestStdio := mkTestStdio { ts_in : list N; ts_accepted : list N; ts_delivered : list N; ts_full : bool }.
#[export] Instance test_stdio : StdC StdHandle TestStdio := {
  fread h n w :=
    match h with
    | StdIn => (take (N.to_nat n) (ts_in w), mkTestStdio (drop (N.to_nat n) (ts_in w)) (ts_accepted w) (ts_delivered w) (ts_full w))
    | StdOut => ([], w)
    end;
  ferror _ _ := false;
  fwrite h data w :=
    match h with
    | StdIn => (0, w)
    | StdOut => (sizeN data, mkTestStdio (ts_in w) (ts_accepted w ++ data) (ts_delivered w) (ts_full w))
    end;
  fflush h w := if ts_full w then (false, w) else (true, mkTestStdio (ts_in w) (ts_accepted w) (ts_accepted w) false);
  fclose h w := (negb (ts_full w), w);
}.

#[export] Instance test_stdio_laws : StdCLaws StdHandle TestStdio
  (fun h w => match h with StdIn => ts_in w | StdOut => [] end)
  (fun h w => match h with StdIn => [] | StdOut => ts_accepted w end)
  (fun h w => match h with StdIn => [] | StdOut => ts_delivered w end).
Proof.
  constructor.
  - intros [] n w got w' Hn; cbn; intros [= <- <-]; cbn; split_and!; try done.
    + unfold sizeN. rewrite length_take. lia.
    + by rewrite take_drop.
    + intros Ht _. destruct (ts_in w) as [|b l]; [done|]. apply (f_equal length) in Ht. rewrite length_take in Ht. cbn in Ht. lia.
    + apply N.le_0_l.
  - intros [] data w n w'; cbn; intros [= <- <-]; cbn; split_and!; try done; [apply N.le_0_l|].
    by rewrite take_ge by (unfold sizeN; lia).
  - intros h w ok w'. cbn. destruct (ts_full w); intros [= <- <-]; by destruct h.
  - by intros [] w.
Qed.

Lemma stdio_write_delivers_witness :
  ts_delivered (st_world (stdio_write_all [1; 2] (mkStdioStream true (mkTestStdio [] [9] [] false))).2) = [9; 1; 2].
Proof.
  exact (stdio_write_delivers (laws := test_stdio_laws) [1; 2] (mkStdioStream true (mkTestStdio [] [9] [] false))
    _ eq_refl ltac:(discriminate) eq_refl).
Defined.
