(* ===== verification/Wire.v ===== *)
(** * The framed transport (src/include/naf/ipc/frame.hpp, src/src/ipc/frame.cpp)

    One message per frame: a header of 20 bytes, a checksum and the payload. *)

From S2P Require Import Prelude Checked Identity Hash State Policy Authority Decision.
From S2P Require Import Ledger History.
From S2P Require Import Bytes Records Journal Stream.
Local Open Scope N_scope.
Local Open Scope naf_scope.

Inductive MessageKind :=
  | MK_Reserved | MK_Hello | MK_Welcome | MK_Admit | MK_Decision | MK_Revalidate | MK_Revalidation
  | MK_Revoke | MK_StatusRequest | MK_StatusReply | MK_Ping | MK_Pong | MK_Bye | MK_Error.
#[export] Instance MessageKind_eq_dec : EqDecision MessageKind.
Proof. solve_decision. Defined.

Definition MessageKind_to_N (k : MessageKind) : N :=
  match k with
  | MK_Reserved => 0 | MK_Hello => 1 | MK_Welcome => 2 | MK_Admit => 3 | MK_Decision => 4
  | MK_Revalidate => 5 | MK_Revalidation => 6 | MK_Revoke => 7 | MK_StatusRequest => 8
  | MK_StatusReply => 9 | MK_Ping => 10 | MK_Pong => 11 | MK_Bye => 12 | MK_Error => 13
  end.
Definition MessageKind_of_N (n : N) : option MessageKind :=
  [MK_Reserved; MK_Hello; MK_Welcome; MK_Admit; MK_Decision; MK_Revalidate; MK_Revalidation;
   MK_Revoke; MK_StatusRequest; MK_StatusReply; MK_Ping; MK_Pong; MK_Bye; MK_Error] !! N.to_nat n.
#[export] Instance MessageKind_enum : Enum MessageKind_to_N MessageKind_of_N.
Proof. solve_enum MessageKind_of_N. Qed.

Definition message_kind_to_string (kind : MessageKind) : string :=
  match kind with
  | MK_Reserved => "reserved" | MK_Hello => "hello" | MK_Welcome => "welcome" | MK_Admit => "admit"
  | MK_Decision => "decision" | MK_Revalidate => "revalidate" | MK_Revalidation => "revalidation"
  | MK_Revoke => "revoke" | MK_StatusRequest => "status_request" | MK_StatusReply => "status_reply"
  | MK_Ping => "ping" | MK_Pong => "pong" | MK_Bye => "bye" | MK_Error => "error"
  end.

Definition wire_magic : N := 0x3146414E.
Definition wire_header_bytes : N := 20.

Record WireFrame := mkWireFrame { wf_kind : MessageKind; wf_flags : N; wf_payload : list N }.
Record WireHeader := mkWireHeader {
  wh_kind : MessageKind;
  wh_flags : N;
  wh_length : N;
  wh_payload_crc : N;
}.

Definition wire_header (kind : MessageKind) (flags : N) (payload : list N) : list N :=
  w_u32 wire_magic ++ w_u16 format_revision ++ w_u16 (MessageKind_to_N kind) ++ w_u16 flags ++
  w_u16 0 ++ w_u32 (sizeN payload) ++ w_u32 (crc32c payload).
Definition encode_wire_frame (kind : MessageKind) (flags : N) (payload : list N) : list N :=
  wire_header kind flags payload ++ payload.

Definition decode_wire_header (header : list N) (max_frame : N) : option WireHeader :=
  if sizeN header <? wire_header_bytes then None
  else if negb (get_u32 header 0 =? wire_magic) then None
  else if negb (get_u16 header 4 =? format_revision) then None
  else
    match MessageKind_of_N (get_u16 header 6) with
    | None => None
    | Some kind =>
        if negb (get_u16 header 10 =? 0) then None
        else
          let length := get_u32 header 12 in
          if max_frame <? length then None
          else Some (mkWireHeader kind (get_u16 header 8) length (get_u32 header 16))
    end.

Section transport.
Context {T : Type} `{!Stream T}.

(** Reads until the buffer is full, the peer has gone or the stream is closed.
    Every turn but the last reads at least one byte, so [size] turns are enough. *)
Fixpoint read_full_loop (fuel : nat) (size : N) (out : list N) : M T (list N) :=
  if size <=? sizeN out then mret out
  else
    match fuel with
    | O => mret out
    | S fuel' =>
        got ← read_some (size - sizeN out);
        if exhausted got then
          open ← gets is_open;
          if negb open then lift (Err (transport_failure "stream closed while reading a frame"))
          else mret out
        else read_full_loop fuel' size (out ++ got)
    end.
Definition read_full (size : N) : M T (list N) := read_full_loop (N.to_nat size) size [].

Definition write_message (kind : MessageKind) (flags : N) (payload : list N) (max_frame : N) : M T unit :=
  if max_frame <? sizeN payload then
    fail OversizedFrame "outgoing payload exceeds the frame bound"
  else write_all (encode_wire_frame kind flags payload).

Definition read_message (max_frame : N) : M T WireFrame :=
  header_bytes ← read_full wire_header_bytes;
  if sizeN header_bytes =? 0 then lift (Err (transport_failure ""))
  else if negb (sizeN header_bytes =? wire_header_bytes) then
    fail TruncatedFrame "frame header is incomplete"
  else
    match decode_wire_header header_bytes max_frame with
    | None =>
        fail ProtocolViolation "frame header failed validation (magic, version, kind or length)"
    | Some header =>
        if wh_length header =? 0 then
          if negb (wh_payload_crc header =? crc32c []) then
            fail ProtocolViolation "empty frame checksum mismatch"
          else mret (mkWireFrame (wh_kind header) (wh_flags header) [])
        else
          payload ← read_full (wh_length header);
          if negb (sizeN payload =? wh_length header) then
            fail TruncatedFrame "frame payload is incomplete"
          else if negb (crc32c payload =? wh_payload_crc header) then
            fail CorruptJournal "frame payload checksum mismatch"
          else mret (mkWireFrame (wh_kind header) (wh_flags header) payload)
    end.
End transport.

(** ** Headers *)

Lemma kind_word (k : MessageKind) : MessageKind_to_N k < two16.
Proof. by destruct k. Qed.

(** The fields of a header lie where the reader looks for them. *)
Lemma get_u16_at (pre post : list N) (v off : N) :
  sizeN pre = off -> v < two16 -> get_u16 (pre ++ w_u16 v ++ post) off = v.
Proof.
  intros <- Hv. unfold get_u16, span, sizeN, w_u16. rewrite Nat2N.id, drop_app_length.
  change (N.to_nat 2) with 2%nat. rewrite take_app_length' by (symmetry; apply le_bytes_length). by apply (le_value_bytes 2).
Qed.
Lemma get_u32_at (pre post : list N) (v off : N) :
  sizeN pre = off -> v < two32 -> get_u32 (pre ++ w_u32 v ++ post) off = v.
Proof.
  intros <- Hv. unfold get_u32, span, sizeN, w_u32. rewrite Nat2N.id, drop_app_length.
  change (N.to_nat 4) with 4%nat. rewrite take_app_length' by (symmetry; apply le_bytes_length). by apply (le_value_bytes 4).
Qed.

(** The bytes of a header. *)
Definition header_bytes (hd : WireHeader) : list N :=
  w_u32 wire_magic ++ w_u16 format_revision ++ w_u16 (MessageKind_to_N (wh_kind hd)) ++
  w_u16 (wh_flags hd) ++ w_u16 0 ++ w_u32 (wh_length hd) ++ w_u32 (wh_payload_crc hd).

Lemma header_bytes_length (hd : WireHeader) : length (header_bytes hd) = 20%nat.
Proof. unfold header_bytes, w_u32, w_u16. by rewrite !length_app, !le_bytes_length. Qed.

Definition header_fits (hd : WireHeader) : Prop :=
  wh_flags hd < two16 /\ wh_length hd < two32 /\ wh_payload_crc hd < two32.

Lemma header_roundtrip (hd : WireHeader) (max_frame : N) :
  header_fits hd ->
  decode_wire_header (header_bytes hd) max_frame = if max_frame <? wh_length hd then None else Some hd.
Proof.
  intros (Hf & Hp & Hc). unfold decode_wire_header, sizeN at 1. rewrite header_bytes_length.
  change (_ <? wire_header_bytes) with false. cbv iota.
  set (m4 := w_u32 wire_magic ++ w_u16 format_revision). set (k := MessageKind_to_N (wh_kind hd)).
  assert (E0 : get_u32 (header_bytes hd) 0 = wire_magic) by (by apply (get_u32_at [])).
  assert (E4 : get_u16 (header_bytes hd) 4 = format_revision) by (by apply (get_u16_at (w_u32 wire_magic))).
  assert (E6 : get_u16 (header_bytes hd) 6 = k)
    by (unfold header_bytes; rewrite app_assoc; apply get_u16_at; [done|apply kind_word]).
  assert (E8 : get_u16 (header_bytes hd) 8 = wh_flags hd)
    by (unfold header_bytes; rewrite app_assoc, (app_assoc m4); by apply get_u16_at).
  assert (E10 : get_u16 (header_bytes hd) 10 = 0)
    by (unfold header_bytes; rewrite app_assoc, (app_assoc m4), (app_assoc (m4 ++ w_u16 k)); by apply get_u16_at).
  assert (E12 : get_u32 (header_bytes hd) 12 = wh_length hd).
  { unfold header_bytes. rewrite app_assoc, (app_assoc m4), (app_assoc (m4 ++ w_u16 k)),
      (app_assoc ((m4 ++ w_u16 k) ++ w_u16 (wh_flags hd))). by apply get_u32_at. }
  assert (E16 : get_u32 (header_bytes hd) 16 = wh_payload_crc hd).
  { unfold header_bytes. rewrite app_assoc, (app_assoc m4), (app_assoc (m4 ++ w_u16 k)),
      (app_assoc ((m4 ++ w_u16 k) ++ w_u16 (wh_flags hd))), app_assoc, <- (app_nil_r (w_u32 (wh_payload_crc hd))).
    by apply get_u32_at. }
  rewrite E0, E4, E6, E8, E10, E12, E16, !N.eqb_refl. unfold k. rewrite enum_of_to. by destruct hd.
Qed.

(** A header that passes is one that is written. *)
Lemma wire_header_sound (h : list N) (max_frame : N) (hd : WireHeader) :
  Forall is_byte h -> sizeN h = wire_header_bytes -> decode_wire_header h max_frame = Some hd ->
  h = header_bytes hd /\ wh_length hd <= max_frame /\ header_fits hd.
Proof.
  unfold header_bytes, header_fits.
  intros Hb Hl. unfold decode_wire_header. rewrite Hl. change (_ <? _) with false at 1. cbv iota.
  assert (H16 : forall o, o + 2 <= 20 -> w_u16 (get_u16 h o) = span o 2 h /\ get_u16 h o < two16).
  { intros o Ho. assert (Hs : length (span o 2 h) = 2%nat)
      by (unfold span, sizeN, wire_header_bytes in *; rewrite length_take, length_drop; lia).
    assert (Hsb : Forall is_byte (span o 2 h)) by (by apply Forall_take, Forall_drop).
    unfold get_u16, w_u16. rewrite <- Hs at 1. split; [by apply le_bytes_value|].
    pose proof (le_value_lt _ Hsb) as Hlt. by rewrite Hs in Hlt. }
  assert (H32 : forall o, o + 4 <= 20 -> w_u32 (get_u32 h o) = span o 4 h /\ get_u32 h o < two32).
  { intros o Ho. assert (Hs : length (span o 4 h) = 4%nat)
      by (unfold span, sizeN, wire_header_bytes in *; rewrite length_take, length_drop; lia).
    assert (Hsb : Forall is_byte (span o 4 h)) by (by apply Forall_take, Forall_drop).
    unfold get_u32, w_u32. rewrite <- Hs at 1. split; [by apply le_bytes_value|].
    pose proof (le_value_lt _ Hsb) as Hlt. by rewrite Hs in Hlt. }
  destruct (negb (get_u32 h 0 =? wire_magic)) eqn:E0; [done|].
  destruct (negb (get_u16 h 4 =? format_revision)) eqn:E4; [done|].
  destruct (MessageKind_of_N (get_u16 h 6)) as [k|] eqn:E6; [|done].
  destruct (negb (get_u16 h 10 =? 0)) eqn:E10; [done|].
  destruct (N.ltb_spec max_frame (get_u32 h 12)); [done|]. intros [= <-]. cbn [wh_kind wh_flags wh_length wh_payload_crc].
  apply negb_false_iff, N.eqb_eq in E0, E4, E10.
  assert (W10 : w_u16 0 = span 10 2 h) by (rewrite <- E10; apply H16; lia).
  rewrite W10, (enum_to_of (to_N := MessageKind_to_N) _ _ E6), <- E0, <- E4.
  destruct (H16 8 ltac:(lia)) as [_ H8]. destruct (H32 12 ltac:(lia)) as [_ H12].
  destruct (H32 16 ltac:(lia)) as [_ H16']. split; [|done].
  rewrite (proj1 (H32 0 ltac:(lia))), (proj1 (H16 4 ltac:(lia))), (proj1 (H16 6 ltac:(lia))),
    (proj1 (H16 8 ltac:(lia))), (proj1 (H32 12 ltac:(lia))), (proj1 (H32 16 ltac:(lia))).
  clear -Hl. unfold sizeN, wire_header_bytes in Hl.
  do 20 (destruct h as [|? h]; [done|]). destruct h; [done|]. cbn in Hl. lia.
Qed.

(** ** Frames over a reliable transport *)

Section delivery.
Context {T : Type} {stream : Stream T} {incoming written : T -> list N}
  {reliable : ReliableStream T incoming written}.

(** Reading [n] bytes leaves the stream [s] as [s']. *)
Definition took (s s' : T) (n : N) : Prop :=
  incoming s' = drop (N.to_nat n) (incoming s) /\ written s' = written s /\ is_open s' = true.

Lemma read_full_loop_spec (fuel : nat) (size : N) (out : list N) (s : T) :
  is_open s = true -> size <= sizeN out + N.of_nat fuel ->
  exists s', read_full_loop fuel size out s =
             (Val (out ++ take (N.to_nat (size - sizeN out)) (incoming s)), s') /\
             took s s' (size - sizeN out).
Proof.
  revert out s. induction fuel as [|fuel IH]; intros out s Ho Hf; cbn [read_full_loop].
  - destruct (N.leb_spec size (sizeN out)); [|lia]. replace (size - sizeN out) with 0 by lia.
    exists s. rewrite app_nil_r. by split.
  - destruct (N.leb_spec size (sizeN out)) as [|Hlt].
    { replace (size - sizeN out) with 0 by lia. exists s. rewrite app_nil_r. by split. }
    destruct (read_reliable (size - sizeN out) s Ho ltac:(lia)) as (got & s1 & E & Hle & Hin & Hnil & Hw & Ho1).
    rewrite (bind_run _ _ _ _ _ E). destruct got as [|b got]; cbn [exhausted].
    + unfold mbind, M_bind, gets. rewrite Ho1. cbn [negb]. exists s1.
      rewrite (Hnil eq_refl), take_nil, app_nil_r. split; [done|]. unfold took.
      rewrite (Hnil eq_refl), drop_nil in *. rewrite Hin in Hnil. by rewrite Hin in *.
    + destruct (IH (out ++ b :: got) s1 Ho1) as (s' & E' & Hc1 & Hc2 & Hc3).
      { unfold sizeN in *. rewrite length_app. cbn in *. lia. }
      exists s'. rewrite E'. unfold took. rewrite Hc1, Hc2, Hw, Hin.
      assert (Hs : size - sizeN (out ++ b :: got) = size - sizeN out - sizeN (b :: got))
        by (unfold sizeN; rewrite length_app; lia).
      assert (Hs' : N.to_nat (size - sizeN out) = (length (b :: got) + N.to_nat (size - sizeN (out ++ b :: got)))%nat)
        by (rewrite Hs; unfold sizeN in *; lia).
      rewrite Hs', take_app_add, drop_app_add, <- app_assoc. by split.
Qed.

Lemma read_full_spec (size : N) (s : T) :
  is_open s = true ->
  exists s', read_full size s = (Val (take (N.to_nat size) (incoming s)), s') /\ took s s' size.
Proof.
  intros Ho. unfold read_full.
  destruct (read_full_loop_spec (N.to_nat size) size [] s Ho) as (s' & E & Hc); [cbn; lia|].
  exists s'. unfold sizeN in *. cbn in *. rewrite N.sub_0_r in *. by split.
Qed.

(** Reading the payload that a header announces. *)
Lemma read_message_body (max_frame : N) (hd : WireHeader) (body : list N) (s : T) :
  is_open s = true -> incoming s = header_bytes hd ++ body -> wh_length hd <= max_frame -> header_fits hd ->
  exists s', took s s' (wire_header_bytes + wh_length hd) /\
    read_message max_frame s =
    (let payload := take (N.to_nat (wh_length hd)) body in
     if negb (sizeN payload =? wh_length hd) then error TruncatedFrame "frame payload is incomplete"
     else if crc32c payload =? wh_payload_crc hd then Val (mkWireFrame (wh_kind hd) (wh_flags hd) payload)
     else if wh_length hd =? 0 then error ProtocolViolation "empty frame checksum mismatch"
     else error CorruptJournal "frame payload checksum mismatch", s').
Proof.
  intros Ho Hin Hmax Hfit. unfold read_message.
  destruct (read_full_spec wire_header_bytes s Ho) as (s1 & E1 & Hi1 & Hw1 & Ho1).
  pose proof (header_bytes_length hd) as Hh.
  assert (Htake : take (N.to_nat wire_header_bytes) (incoming s) = header_bytes hd)
    by (rewrite Hin; apply take_app_length'; by rewrite Hh).
  assert (Hdrop : incoming s1 = body) by (rewrite Hi1, Hin; apply drop_app_length'; by rewrite Hh).
  rewrite Htake in E1. rewrite (bind_run _ _ _ _ _ E1). unfold sizeN at 1 2. rewrite Hh.
  change (N.of_nat 20 =? 0) with false. change (negb (N.of_nat 20 =? wire_header_bytes)) with false.
  cbv iota. rewrite header_roundtrip by done.
  apply N.ltb_ge in Hmax as ->. destruct (N.eqb_spec (wh_length hd) 0) as [E0|E0].
  - exists s1. rewrite E0, take_0. change (negb (sizeN [] =? 0)) with false. cbv zeta iota.
    split; [unfold took; rewrite N.add_0_r; by split_and!|].
    rewrite (N.eqb_sym (crc32c [])). by destruct (wh_payload_crc hd =? crc32c []).
  - destruct (read_full_spec (wh_length hd) s1 Ho1) as (s2 & E2 & Hi2 & Hw2 & Ho2).
    rewrite (bind_run _ _ _ _ _ E2), Hdrop. exists s2. split.
    + split_and!; [|congruence|done]. rewrite Hi2, Hi1, drop_drop. f_equal. unfold wire_header_bytes. lia.
    + cbv zeta. destruct (negb _); [done|]. by destruct (_ =? wh_payload_crc hd).
Qed.

(** No complete header. *)
Lemma read_message_short (max_frame : N) (s : T) :
  is_open s = true -> sizeN (incoming s) < wire_header_bytes ->
  (read_message max_frame s).1 =
  if sizeN (incoming s) =? 0 then Err (transport_failure "")
  else error TruncatedFrame "frame header is incomplete".
Proof.
  intros Ho Hs. unfold read_message.
  destruct (read_full_spec wire_header_bytes s Ho) as (s1 & E1 & _).
  rewrite take_ge in E1 by (unfold sizeN, wire_header_bytes in *; lia).
  rewrite (bind_run _ _ _ _ _ E1). destruct (N.eqb_spec (sizeN (incoming s)) 0); [done|].
  apply N.lt_neq, N.eqb_neq in Hs as ->. done.
Qed.

(** Every read ends in one of three ways. *)
Lemma read_message_cases (max_frame : N) (s : T) :
  is_open s = true -> Forall is_byte (incoming s) ->
  sizeN (incoming s) < wire_header_bytes \/
  (read_message max_frame s).1 =
    error ProtocolViolation "frame header failed validation (magic, version, kind or length)" \/
  exists hd body, incoming s = header_bytes hd ++ body /\ wh_length hd <= max_frame /\ header_fits hd.
Proof.
  intros Ho Hb. destruct (N.lt_ge_cases (sizeN (incoming s)) wire_header_bytes) as [|Hl]; [by left|right].
  set (h := take (N.to_nat wire_header_bytes) (incoming s)).
  assert (Hh : sizeN h = wire_header_bytes)
    by (unfold h, sizeN, wire_header_bytes in *; rewrite length_take; lia).
  destruct (decode_wire_header h max_frame) as [hd|] eqn:E.
  - right. apply wire_header_sound in E as (E & Hm & Hf); [|by apply Forall_take|done].
    exists hd, (drop (N.to_nat wire_header_bytes) (incoming s)). rewrite <- E. unfold h.
    by rewrite take_drop.
  - left. unfold read_message. destruct (read_full_spec wire_header_bytes s Ho) as (s1 & E1 & _).
    rewrite (bind_run _ _ _ _ _ E1). fold h. rewrite Hh, E. done.
Qed.

Lemma encoded_frame (k : MessageKind) (f : N) (p : list N) :
  encode_wire_frame k f p = header_bytes (mkWireHeader k f (sizeN p) (crc32c p)) ++ p.
Proof. done. Qed.

Lemma deliver_whole (s : T) (max_frame : N) (Ho : is_open s = true) (Hmax : max_frame < two32) :
  forall k f p rest, f < two16 -> sizeN p <= max_frame -> incoming s = encode_wire_frame k f p ++ rest ->
     exists s', read_message max_frame s = (Val (mkWireFrame k f p), s') /\
                incoming s' = rest /\ written s' = written s /\ is_open s' = true.
Proof.
  intros k f p rest Hf Hp Hin. rewrite encoded_frame, <- app_assoc in Hin.
  destruct (read_message_body max_frame _ _ s Ho Hin Hp) as (s' & (Hi & Hw & Ho') & E).
  { split_and!; [done|cbn; lia|apply crc32c_u32]. }
  exists s'. rewrite E. cbn [wh_length wh_payload_crc wh_kind wh_flags]. cbv zeta.
  assert (Ht : take (N.to_nat (sizeN p)) (p ++ rest) = p)
    by (unfold sizeN; rewrite Nat2N.id; apply take_app_length).
  rewrite Ht, !N.eqb_refl. split_and!; [done| |done|done].
  rewrite Hi, Hin, app_assoc. apply drop_app_length'. rewrite length_app, header_bytes_length.
  cbn [wh_length]. unfold sizeN, wire_header_bytes. lia.
Qed.

Lemma deliver_only_sent (s : T) (max_frame : N) (Ho : is_open s = true) (Hb : Forall is_byte (incoming s)) :
  forall m s', read_message max_frame s = (Val m, s') ->
     incoming s = encode_wire_frame (wf_kind m) (wf_flags m) (wf_payload m) ++ incoming s' /\
     sizeN (wf_payload m) <= max_frame /\ wf_flags m < two16 /\
     written s' = written s /\ is_open s' = true.
Proof.
  intros m s' E. destruct (read_message_cases max_frame s Ho Hb) as [Hs|[He|(hd & body & Hin & Hm & Hf)]].
  + apply (read_message_short max_frame s Ho) in Hs. rewrite E in Hs. by destruct (_ =? 0) in Hs.
  + by rewrite E in He.
  + destruct (read_message_body max_frame hd body s Ho Hin Hm Hf) as (s1 & (Hi & Hw & Ho') & E').
    rewrite E in E'. cbv zeta in E'. set (p := take (N.to_nat (wh_length hd)) body) in *.
    destruct (N.eqb_spec (sizeN p) (wh_length hd)) as [Hlen|]; cbn [negb] in E'; [|done].
    destruct (N.eqb_spec (crc32c p) (wh_payload_crc hd)) as [Hcrc|]; [|by destruct (_ =? 0) in E'].
    injection E' as -> <-. cbn [wf_kind wf_flags wf_payload].
    rewrite encoded_frame, Hlen, Hcrc, Hi, Hin. split_and!; [|lia|apply Hf|done|done].
    rewrite <- app_assoc. replace (mkWireHeader _ _ _ _) with hd by (by destruct hd). f_equal.
    rewrite drop_app_ge by (rewrite header_bytes_length; unfold wire_header_bytes; lia).
    rewrite header_bytes_length.
    replace (N.to_nat (wire_header_bytes + wh_length hd) - 20)%nat with (N.to_nat (wh_length hd))
      by (unfold wire_header_bytes; lia). unfold p. by rewrite take_drop.
Qed.

Lemma deliver_end (s : T) (max_frame : N) (Ho : is_open s = true) (Hb : Forall is_byte (incoming s)) :
  (read_message max_frame s).1 = Err (transport_failure "") <-> incoming s = [].
Proof.
  split.
  + intros E. destruct (read_message_cases max_frame s Ho Hb) as [Hs|[He|(hd & body & Hin & Hm & Hf)]].
    * apply (read_message_short max_frame s Ho) in Hs. rewrite E in Hs.
      destruct (N.eqb_spec (sizeN (incoming s)) 0) as [H0|]; [|done]. by destruct (incoming s).
    * by rewrite E in He.
    * destruct (read_message_body max_frame hd body s Ho Hin Hm Hf) as (s1 & _ & E').
      rewrite E' in E. cbv zeta in E. cbn [fst] in E. by repeat case_match.
  + intros E. by rewrite (read_message_short max_frame s Ho), E by (rewrite E; done).
Qed.

Lemma deliver_short (s : T) (max_frame : N) (Ho : is_open s = true) (Hmax : max_frame < two32) :
  forall k f p n, f < two16 -> sizeN p <= max_frame ->
     (0 < n < length (encode_wire_frame k f p))%nat -> incoming s = take n (encode_wire_frame k f p) ->
     exists m, (read_message max_frame s).1 = error TruncatedFrame m.
Proof.
  intros k f p n Hf Hp Hn Hin. destruct (N.lt_ge_cases (sizeN (incoming s)) wire_header_bytes) as [Hs|Hs].
  + rewrite (read_message_short max_frame s Ho Hs). exists "frame header is incomplete".
    destruct (N.eqb_spec (sizeN (incoming s)) 0) as [H0|]; [|done].
    rewrite Hin in H0. unfold sizeN in H0. rewrite length_take in H0. lia.
  + rewrite encoded_frame in Hin, Hn. set (hd := mkWireHeader _ _ _ _) in *.
    rewrite length_app, header_bytes_length in Hn.
    assert (H20 : (20 <= n)%nat)
      by (rewrite Hin in Hs; unfold sizeN, wire_header_bytes in Hs; rewrite length_take in Hs; lia).
    rewrite take_app_ge, header_bytes_length in Hin by (by rewrite header_bytes_length).
    destruct (read_message_body max_frame hd _ s Ho Hin Hp) as (s1 & _ & ->).
    { split_and!; [done|cbn; lia|apply crc32c_u32]. }
    exists "frame payload is incomplete". cbv zeta. cbn [fst].
    assert (Hne : (sizeN (take (N.to_nat (wh_length hd)) (take (n - 20) p)) =? wh_length hd) = false).
    { apply N.eqb_neq. cbn. unfold sizeN. rewrite !length_take. lia. }
    by rewrite Hne.
Qed.

Lemma deliver_damaged (s : T) (max_frame : N) (Ho : is_open s = true) (Hb : Forall is_byte (incoming s)) (Hmax : max_frame < two32) :
  forall k f pre post b1 b2 rest, f < two16 -> sizeN (pre ++ b1 :: post) <= max_frame ->
     is_byte b1 -> b1 <> b2 ->
     incoming s = wire_header k f (pre ++ b1 :: post) ++ (pre ++ b2 :: post) ++ rest ->
     (read_message max_frame s).1 = error CorruptJournal "frame payload checksum mismatch".
Proof.
  intros k f pre post b1 b2 rest Hf Hp Hb1 Hne Hin.
  set (p := pre ++ b1 :: post) in *. set (q := pre ++ b2 :: post) in *.
  assert (Hq : length q = length p) by (unfold p, q; by rewrite !length_app).
  change (wire_header k f p) with (header_bytes (mkWireHeader k f (sizeN p) (crc32c p))) in Hin.
  destruct (read_message_body max_frame _ _ s Ho Hin Hp) as (s1 & _ & ->).
  { split_and!; [done|cbn; lia|apply crc32c_u32]. }
  cbn [wh_length wh_payload_crc fst]. cbv zeta.
  assert (Ht : take (N.to_nat (sizeN p)) (q ++ rest) = q)
    by (unfold sizeN; rewrite Nat2N.id, <- Hq; apply take_app_length).
  rewrite Ht. unfold sizeN at 1 2. rewrite Hq, N.eqb_refl. cbn [negb].
  assert (Hb2 : is_byte b2).
  { rewrite Hin in Hb. apply Forall_app in Hb as [_ Hb]. apply Forall_app in Hb as [Hb _].
    unfold q in Hb. apply Forall_app in Hb as [_ Hb]. by apply Forall_cons in Hb as [? _]. }
  assert (Hcrc : crc32c q <> crc32c p) by (by apply crc32c_byte_change).
  apply N.eqb_neq in Hcrc as ->. destruct (N.eqb_spec (sizeN p) 0) as [H0|]; [|done].
  unfold p, sizeN in H0. rewrite length_app in H0. cbn in H0. lia.
Qed.

(** C20: framing delivers whole messages or none, over any reliable transport, however
    it cuts the bytes into pieces.  A frame that starts the incoming bytes is
    delivered exactly and consumed exactly.  Conversely whatever bytes come in, a
    delivered message is one whose frame the peer sent, within the agreed bound.
    An orderly end of the stream, and nothing else, is reported by the empty
    transport failure; a frame cut short, however short, is reported as truncated;
    and a changed payload byte is noticed. *)
Theorem message_delivery (s : T) (max_frame : N) (Ho : is_open s = true)
    (Hb : Forall is_byte (incoming s)) (Hmax : max_frame < two32) :
  (forall k f p rest, f < two16 -> sizeN p <= max_frame -> incoming s = encode_wire_frame k f p ++ rest ->
     exists s', read_message max_frame s = (Val (mkWireFrame k f p), s') /\
                incoming s' = rest /\ written s' = written s /\ is_open s' = true) /\
  (forall m s', read_message max_frame s = (Val m, s') ->
     incoming s = encode_wire_frame (wf_kind m) (wf_flags m) (wf_payload m) ++ incoming s' /\
     sizeN (wf_payload m) <= max_frame /\ wf_flags m < two16 /\
     written s' = written s /\ is_open s' = true) /\
  ((read_message max_frame s).1 = Err (transport_failure "") <-> incoming s = []) /\
  (forall k f p n, f < two16 -> sizeN p <= max_frame ->
     (0 < n < length (encode_wire_frame k f p))%nat -> incoming s = take n (encode_wire_frame k f p) ->
     exists m, (read_message max_frame s).1 = error TruncatedFrame m) /\
  (forall k f pre post b1 b2 rest, f < two16 -> sizeN (pre ++ b1 :: post) <= max_frame ->
     is_byte b1 -> b1 <> b2 ->
     incoming s = wire_header k f (pre ++ b1 :: post) ++ (pre ++ b2 :: post) ++ rest ->
     (read_message max_frame s).1 = error CorruptJournal "frame payload checksum mismatch").
Proof.
  split; [by apply deliver_whole|]. split; [by apply deliver_only_sent|].
  split; [by apply deliver_end|]. split; [by apply deliver_short|by apply deliver_damaged].
Qed.
End delivery.

(** A frame that arrives seven bytes at a time, and the same frame cut short. *)
Definition ping_frame : list N := encode_wire_frame MK_Ping 0 [1; 2; 3].
Definition slowly (bytes : list N) : SlowStream :=
  mkSlowStream 7 (mkMemoryStream bytes [] default_capacity true true).

Lemma message_delivery_witness :
  (read_message 64 (slowly (ping_frame ++ [9]))).1 = Val (mkWireFrame MK_Ping 0 [1; 2; 3]) /\
  (exists m, (read_message 64 (slowly (take 22 ping_frame))).1 = error TruncatedFrame m).
Proof.
  assert (Hb : Forall is_byte (ping_frame ++ [9]))
    by (apply (bool_decide_unpack _); vm_compute; exact I).
  destruct (message_delivery (reliable := slow_reliable) (slowly (ping_frame ++ [9])) 64 eq_refl Hb eq_refl) as (H1 & _).
  assert (Hb' : Forall is_byte (take 22 ping_frame))
    by (apply (bool_decide_unpack _); vm_compute; exact I).
  destruct (message_delivery (reliable := slow_reliable) (slowly (take 22 ping_frame)) 64 eq_refl Hb' eq_refl) as (_ & _ & _ & H2 & _).
  split.
  - destruct (H1 MK_Ping 0 [1; 2; 3] [9]) as (s' & E & _); [done|discriminate|reflexivity|].
    by rewrite E.
  - apply (H2 MK_Ping 0 [1; 2; 3] 22%nat); [done|discriminate|split; apply Nat.ltb_lt; reflexivity|reflexivity].
Defined.
