(* ===== verification/Server.v ===== *)
(** * The coordinator server (src/include/naf/ipc/server.hpp, src/src/ipc/server.cpp)

    One connection is served over one stream against the shared engine.  An engine
    call takes the engine's mutex for its whole run; a connection's stream is used
    by its own worker only.  What other threads do in the meantime enters as
    [observations], the values successive loads of the stop flag return. *)

From S2P Require Import Prelude Checked Identity Hash State Policy Request Authority.
From S2P Require Import Decision.
From S2P Require Import Ledger History Bytes Records Journal Engine Admission Api Recovery.
From S2P Require Import Protocol Stream Wire.
Local Open Scope N_scope.
Local Open Scope naf_scope.

Definition StatusCode_to_N (c : StatusCode) : N :=
  match c with
  | Ok => 0 | InvalidArgument => 1 | MalformedInput => 2 | OversizedInput => 3
  | UnknownResource => 4 | UnknownPath => 5 | DuplicateIdentity => 6 | ConflictIdentity => 7
  | StaleGenerationCode => 8 | EpochMismatch => 9 | Fenced => 10 | NotFound => 11
  | AlreadyExists => 12 | ArithmeticOverflow => 13 | ArithmeticUnderflow => 14
  | CapacityViolation => 15 | AuthorityViolation => 16 | DurableFailure => 17
  | CorruptJournal => 18 | TruncatedFrame => 19 | OversizedFrame => 20 | ProtocolViolation => 21
  | TransportFailure => 22 | Unsupported => 23 | ShuttingDown => 24 | Busy => 25 | Internal => 26
  end.

Record ServerConfig := mkServerConfig {
  sv_endpoint : string;
  sv_stdio : bool;
  sv_state_directory : string;
  sv_engine : EngineConfig;
  sv_max_frame : N;
  sv_max_connections : N;
}.
Definition ServerConfig_new : ServerConfig :=
  mkServerConfig "" false "" EngineConfig_new max_frame_bytes 8.

(** [(void)expr;] *)
Definition ignore {S A} (m : M S A) : M S unit := attempt m ;; mret tt.

(** A load of the stop flag; once the observations run out it stays unset. *)
Definition observe (observations : list bool) : bool * list bool :=
  match observations with
  | [] => (false, [])
  | stop :: rest => (stop, rest)
  end.

Section connection.
Context {T : Type} `{!Stream T}.

(** What a worker touches: its stream and the engine. *)
Definition Served : Type := T * EngineCore.
Definition on_stream {A} (m : M T A) : M Served A := fun s =>
  let '(r, t) := m s.1 in (r, (t, s.2)).
Definition on_engine {A} (m : M EngineCore A) : M Served A := fun s =>
  let '(r, k) := m s.2 in (r, (s.1, k)).

Definition send_error (config : ServerConfig) (code : StatusCode) (text : string) : M T unit :=
  let text := if max_string_bytes <? string_size text
              then String.substring 0 (N.to_nat max_string_bytes) text else text in
  write_message MK_Error 0 (encode_error (mkErrorMessage (StatusCode_to_N code) text))
    (sv_max_frame config).

Definition send_decision (config : ServerConfig) (decision : AdmissionDecision) : M T unit :=
  let payload := encode_decision decision in
  if sv_max_frame config <? sizeN payload then
    send_error config OversizedFrame "decision payload exceeds the frame bound"
  else write_message MK_Decision 0 payload (sv_max_frame config).

Definition send_revalidation (config : ServerConfig) (result : RevalidationResult) : M T unit :=
  let payload := encode_revalidation result in
  if sv_max_frame config <? sizeN payload then
    send_error config OversizedFrame "revalidation payload exceeds the frame bound"
  else write_message MK_Revalidation 0 payload (sv_max_frame config).

(** What the message loop does next. *)
Inductive Flow :=
  | NextMessage          (* [break] out of the switch *)
  | Return               (* [return] *)
  | Goodbye.             (* [registered = false; return] *)

(** Reporting a failed status and going on. *)
Definition report_error (config : ServerConfig) (status : Status) : M Served Flow :=
  ignore (on_stream (send_error config (code status) (message status))) ;; mret NextMessage.

(** [if (!send(...).is_ok()) return;] *)
Definition or_return (send : M T unit) : M Served Flow :=
  sent ← attempt (on_stream send);
  mret (if has_value (sent : Expected unit) then NextMessage else Return).

Definition handle_admit (config : ServerConfig) (payload : list N) : M Served Flow :=
  match decode_admit payload with
  | Err status => report_error config status
  | Val m =>
      decision ← attempt (on_engine (engine_admit (am_request m) (am_claim m)));
      match decision with
      | Err status => report_error config status
      | Val decision => or_return (send_decision config decision)
      end
  end.

Definition handle_revalidate (config : ServerConfig) (payload : list N) : M Served Flow :=
  match decode_revalidate payload with
  | Err status => report_error config status
  | Val m =>
      result ← attempt (on_engine (revalidate (rvm_decision m) (rvm_claim m)));
      match result with
      | Err status => report_error config status
      | Val result => or_return (send_revalidation config result)
      end
  end.

Definition handle_revoke (config : ServerConfig) (payload : list N) : M Served Flow :=
  match decode_revoke payload with
  | Err status => report_error config status
  | Val m =>
      result ← attempt (on_engine (revoke (rkm_decision m) (rkm_reason m) (rkm_claim m)));
      match result with
      | Err status => report_error config status
      | Val result => or_return (send_revalidation config result)
      end
  end.

Definition handle_status_request (config : ServerConfig) (payload : list N) : M Served Flow :=
  if negb (exhausted payload) then
    report_error config (status_error ProtocolViolation "status request must be empty")
  else
    status ← on_engine (gets engine_status);
    or_return (write_message MK_StatusReply 0 (encode_status status) (sv_max_frame config)).

(** The switch on the message kind. *)
Definition handle_frame (config : ServerConfig) (frame : WireFrame) : M Served Flow :=
  match wf_kind frame with
  | MK_Admit => handle_admit config (wf_payload frame)
  | MK_Revalidate => handle_revalidate config (wf_payload frame)
  | MK_Revoke => handle_revoke config (wf_payload frame)
  | MK_StatusRequest => handle_status_request config (wf_payload frame)
  | MK_Ping => or_return (write_message MK_Pong 0 [] (sv_max_frame config))
  | MK_Bye => mret Goodbye
  | kind =>
      ignore (on_stream (send_error config ProtocolViolation
                ("unexpected message " +:+ message_kind_to_string kind))) ;;
      mret Return
  end.

(** The message loop: the value of [registered] when it ends, or [None] when the
    fuel does not suffice. *)
Fixpoint handle_connection (fuel : nat) (config : ServerConfig) (observations : list bool)
    : M Served (option bool) :=
  match fuel with
  | O => mret None
  | S fuel' =>
      let '(stop, observations) := observe observations in
      if stop then mret (Some true)
      else
        frame ← attempt (on_stream (read_message (sv_max_frame config)));
        match frame with
        | Err status =>
            if String.eqb (message status) "" then mret (Some true)
            else
              let '(stop, _) := observe observations in
              if stop then mret (Some true)
              else
                ignore (on_stream (send_error config (code status) (message status))) ;;
                mret (Some true)
        | Val frame =>
            flow ← handle_frame config frame;
            match flow with
            | NextMessage => handle_connection fuel' config observations
            | Return => mret (Some true)
            | Goodbye => mret (Some false)
            end
        end
  end.

Definition close_stream : M Served unit := ignore (on_stream close).
Definition retire (session : SessionNonce) : M Served unit := ignore (on_engine (retire_session session)).

(** Under a session: the welcome, the messages, the end. *)
Definition serve_session (fuel : nat) (config : ServerConfig) (observations : list bool)
    (grant : SessionGrant) : M Served bool :=
  let welcome := mkWelcomeMessage true (sg_epoch grant) (sg_incarnation grant) (sg_session grant)
                   "session established" in
  sent ← attempt (on_stream (write_message MK_Welcome 0 (encode_welcome welcome) (sv_max_frame config)));
  if negb (has_value (sent : Expected unit)) then
    retire (sg_session grant) ;; close_stream ;; mret true
  else
    registered ← handle_connection fuel config observations;
    match registered with
    | None => mret false
    | Some registered =>
        (if (registered : bool) then retire (sg_session grant) else mret tt) ;;
        close_stream ;; mret true
    end.

(** After a hello has been accepted: a session, or a welcome that refuses one. *)
Definition serve_hello (fuel : nat) (config : ServerConfig) (observations : list bool)
    (hello : HelloMessage) : M Served bool :=
  grant ← attempt (on_engine (register_session (hm_publisher hello) (hm_boot hello)));
  match grant with
  | Err status =>
      k ← on_engine get;
      let welcome := mkWelcomeMessage false (engine_epoch k) (engine_incarnation k) 0 (message status) in
      ignore (on_stream (write_message MK_Welcome 0 (encode_welcome welcome) (sv_max_frame config))) ;;
      close_stream ;; mret true
  | Val grant => serve_session fuel config observations grant
  end.

(** A worker's run.  [false] only when the fuel did not suffice. *)
Definition serve (fuel : nat) (config : ServerConfig) (observations : list bool) : M Served bool :=
  frame ← attempt (on_stream (read_message (sv_max_frame config)));
  match frame with
  | Err _ => close_stream ;; mret true
  | Val frame =>
      if negb (bool_decide (wf_kind frame = MK_Hello)) then
        ignore (on_stream (send_error config ProtocolViolation "the first message must be Hello")) ;;
        close_stream ;; mret true
      else
        match decode_hello (wf_payload frame) with
        | Err status =>
            ignore (on_stream (send_error config (code status) (message status))) ;;
            close_stream ;; mret true
        | Val hello =>
            if hm_max_frame hello <? min_frame_bytes then
              ignore (on_stream (send_error config ProtocolViolation "client frame bound is too small")) ;;
              close_stream ;; mret true
            else serve_hello fuel config observations hello
        end
  end.
End connection.

(** ** Starting *)

(** A connection's worker; [done] is set when its [serve] has returned. *)
Record Worker := mkWorker { wk_id : N; wk_done : bool }.

Record CoordinatorServer := mkCoordinatorServer {
  cs_config : ServerConfig;
  cs_engine : EngineCore;
  cs_listening : bool;
  cs_running : bool;
  cs_stopping : bool;
  cs_connections : N;
  cs_workers : list Worker;
}.
#[export] Instance eta_CoordinatorServer : Eta CoordinatorServer := fun s =>
  mkCoordinatorServer (cs_config s) (cs_engine s) (cs_listening s) (cs_running s) (cs_stopping s)
    (cs_connections s) (cs_workers s).

Definition CoordinatorServer_new (config : ServerConfig) : CoordinatorServer :=
  mkCoordinatorServer config (AdmissionEngine_new (sv_engine config)) false false false 0 [].

(** The operating system's part of a start: the state directory, the listener. *)
Record Platform := mkPlatform {
  pf_ensure_directory : string -> Expected unit;
  pf_create_listener : string -> Expected unit;
}.

Definition refused_start (status : Status) : RecoveryReport :=
  RecoveryReport_new <| rr_status := status |> <| rr_outcome := RecoveryRefused |>.

Definition bind_transport (platform : Platform) (report : RecoveryReport) (s : CoordinatorServer)
    : RecoveryReport * CoordinatorServer :=
  let bound := s <| cs_stopping := false |> <| cs_running := true |> in
  if sv_stdio (cs_config s) then (report, bound)
  else
    match pf_create_listener platform (sv_endpoint (cs_config s)) with
    | Err status => (report <| rr_status := status |> <| rr_outcome := RecoveryRefused |>, s)
    | Val _ => (report, bound <| cs_listening := true |>)
    end.

(** [journal] is the journal over the state directory's file. *)
Definition start (platform : Platform) (journal : Journal) (s : CoordinatorServer)
    : RecoveryReport * CoordinatorServer :=
  if cs_running s then
    (refused_start (status_error AlreadyExists "server is already running"), s)
  else if negb (String.eqb (sv_state_directory (cs_config s)) "") then
    match pf_ensure_directory platform (sv_state_directory (cs_config s)) with
    | Err status => (refused_start status, s)
    | Val _ =>
        match attach_journal journal (cs_engine s) with
        | (Err status, k) => (refused_start status, s <| cs_engine := k |>)
        | (Val _, k) =>
            let '(report, k) := open_durable k in
            let s := s <| cs_engine := k |> in
            if negb (is_ok (rr_status report)) then (report, s) else bind_transport platform report s
        end
    end
  else
    bind_transport platform
      (RecoveryReport_new <| rr_outcome := FreshStart |>
         <| rr_recovered_epoch := ec_epoch (sv_engine (cs_config s)) |>
         <| rr_awaiting_authority_republish := true |> <| rr_status := status_ok |>) s.

(** ** Running and stopping *)

Definition reap_finished (s : CoordinatorServer) : CoordinatorServer :=
  s <| cs_workers := filter (fun w => wk_done w = false) (cs_workers s) |>.

(** Every stream is closed and every worker joined; the listener and the stdio
    stream are closed but kept. *)
Definition stop (s : CoordinatorServer) : CoordinatorServer :=
  s <| cs_stopping := true |> <| cs_workers := [] |> <| cs_running := false |>.

(** The workers in [ids] return from [serve]. *)
Definition mark_done (ids : list N) (s : CoordinatorServer) : CoordinatorServer :=
  s <| cs_workers := (fun w => if bool_decide (wk_id w ∈ ids) then mkWorker (wk_id w) true else w)
                       <$> cs_workers s |>.

Section running.
Context {T : Type} `{!Stream T}.

(** One accepted stream: a new worker, or, at the connection bound, an error message
    on a stream that is then closed. *)
Definition accept_connection (stream : T) (s : CoordinatorServer) : option T * CoordinatorServer :=
  let s := reap_finished s in
  if sv_max_connections (cs_config s) <=? sizeN (cs_workers s) then
    (Some ((ignore (send_error (cs_config s) Busy "server is at its connection bound") ;; ignore close) stream).2, s)
  else
    (None, s <| cs_workers := cs_workers s ++ [mkWorker (cs_connections s) false] |>
             <| cs_connections := cs_connections s +w 1 |>).

(** What a turn of the accept loop meets: the stop flag, what [accept] returns, the
    flag after a failure, and the workers that have finished by then. *)
Record Turn := mkTurn {
  tn_stopping : bool;
  tn_accepted : Expected T;
  tn_stopping_after : bool;
  tn_finished : list N;
}.

(** The loop over the turns; [None] when it has not ended after the last of them. *)
Fixpoint accept_loop (turns : list Turn) (s : CoordinatorServer) : option Status * CoordinatorServer :=
  match turns with
  | [] => (None, s)
  | turn :: turns =>
      if tn_stopping turn then (Some status_ok, stop s)
      else
        match tn_accepted turn with
        | Err status => (Some (if tn_stopping_after turn then status_ok else status), stop s)
        | Val stream => accept_loop turns (accept_connection stream (mark_done (tn_finished turn) s)).2
        end
  end.

Definition run_listening (turns : list Turn) (s : CoordinatorServer) : option Status * CoordinatorServer :=
  if negb (cs_running s) then (Some (status_error InvalidArgument "server has not been started"), s)
  else if negb (cs_listening s) then
    (Some (status_error InvalidArgument "no listener is bound"), s <| cs_running := false |>)
  else accept_loop turns s.

(** In stdio mode the one connection is served on the caller's thread. *)
Definition run_stdio (fuel : nat) (observations : list bool) (stream : T) (s : CoordinatorServer)
    : option Status * T * CoordinatorServer :=
  if negb (cs_running s) then
    (Some (status_error InvalidArgument "server has not been started"), stream, s)
  else
    let '(served, (stream, k)) := serve fuel (cs_config s) observations (stream, cs_engine s) in
    let s := s <| cs_engine := k |> in
    match served with
    | Val true => (Some status_ok, stream, s <| cs_running := false |>)
    | _ => (None, stream, s)
    end.
End running.
