(* ===== verification/Socket.v ===== *)
(** * Local sockets (the POSIX half of src/src/ipc/endpoint.cpp)

    The stream over a connected AF_UNIX socket and the listener.  The operating
    system's calls are parameters; a [Kernel] is what one connection sees of them. *)

From S2P Require Import Prelude.
From S2P Require Import Checked.
From S2P Require Import Identity.
From S2P Require Import Hash.
From S2P Require Import Decision.
From S2P Require Import Bytes.
From S2P Require Import Stream.
From S2P Require Import Wire.
From Stdlib Require Import ZArith.
Local Open Scope N_scope.
Local Open Scope naf_scope.

(** What a call returns: a value, -1 with [errno = EINTR], or -1 with another. *)
Inductive SysResult (A : Type) :=
  | SysOk (value : A)
  | SysInterrupted
  | SysFailed.
Arguments SysOk {_}.
Arguments SysInterrupted {_}.
Arguments SysFailed {_}.

(** [read] returns the bytes it put into the buffer, [write] how many it took.
    [signals] bounds the interruptions still to come. *)
Class Kernel (K : Type) := {
  sys_read : Z -> N -> K -> SysResult (list N) * K;
  sys_write : Z -> list N -> K -> SysResult N * K;
  sys_shutdown : Z -> K -> K;
  sys_close : Z -> K -> K;
  signals : K -> nat;
}.

(** POSIX's promises: bytes arrive in order, an empty read is the end of the file, a
    call that does not succeed moves nothing. *)
Class KernelLaws (K : Type) `{!Kernel K} (inbox outbox : K -> list N) := {
  law_read : forall fd n k got k', 0 < n -> sys_read fd n k = (SysOk got, k') ->
    sizeN got <= n /\ inbox k = got ++ inbox k' /\ (got = [] -> inbox k = []) /\
    outbox k' = outbox k /\ (signals k' <= signals k)%nat;
  law_read_interrupted : forall fd n k k', sys_read fd n k = (SysInterrupted, k') ->
    inbox k' = inbox k /\ outbox k' = outbox k /\ (signals k' < signals k)%nat;
  law_write : forall fd data k n k', sys_write fd data k = (SysOk n, k') ->
    n <= sizeN data /\ outbox k' = outbox k ++ take (N.to_nat n) data /\ inbox k' = inbox k /\
    (signals k' <= signals k)%nat;
  law_write_interrupted : forall fd data k k', sys_write fd data k = (SysInterrupted, k') ->
    outbox k' = outbox k /\ inbox k' = inbox k /\ (signals k' < signals k)%nat;
  law_write_failed : forall fd data k k', sys_write fd data k = (SysFailed, k') ->
    outbox k' = outbox k /\ inbox k' = inbox k;
  law_close : forall fd k, outbox (sys_close fd (sys_shutdown fd k)) = outbox k;
}.
#[global] Hint Mode KernelLaws ! - - - : typeclass_instances.

(** ** The stream *)

(** [sk_fd] is negative once the stream is closed. *)
Record SocketStream (K : Type) := mkSocketStream { sk_fd : Z; sk_kernel : K }.
Arguments mkSocketStream {_}.
Arguments sk_fd {_}.
Arguments sk_kernel {_}.

Definition socket_closed : Status := transport_failure "socket is closed".

Section socket.
Context {K : Type} {kernel : Kernel K}.

Definition socket_read_some (n : N) : M (SocketStream K) (list N) := fun s =>
  if (sk_fd s <? 0)%Z then (Err socket_closed, s)
  else if n =? 0 then (Val [], s)
  else
    let '(got, k) := sys_read (sk_fd s) n (sk_kernel s) in
    let s := mkSocketStream (sk_fd s) k in
    match got with
    | SysOk bytes => (Val bytes, s)
    | SysInterrupted => (Val [], s)
    | SysFailed => (Err (transport_failure "read failed"), s)
    end.

(** The loop of [write_all] on what is left; [None] when the fuel does not suffice. *)
Fixpoint socket_write_loop (fuel : nat) (fd : Z) (data : list N) (k : K) : option (Expected unit) * K :=
  if exhausted data then (Some (Val tt), k)
  else
    match fuel with
    | O => (None, k)
    | S fuel' =>
        match sys_write fd data k with
        | (SysOk wrote, k) =>
            if wrote =? 0 then (Some (Err (transport_failure "write failed")), k)
            else socket_write_loop fuel' fd (drop (N.to_nat wrote) data) k
        | (SysInterrupted, k) => socket_write_loop fuel' fd data k
        | (SysFailed, k) => (Some (Err (transport_failure "write failed")), k)
        end
    end.

(** Every turn sends a byte or uses up an interruption. *)
Definition write_fuel (data : list N) (k : K) : nat := length data + signals k.

Definition socket_write_all (data : list N) : M (SocketStream K) unit := fun s =>
  if (sk_fd s <? 0)%Z then (Err socket_closed, s)
  else
    let '(r, k) := socket_write_loop (write_fuel data (sk_kernel s)) (sk_fd s) data (sk_kernel s) in
    (default (Err (transport_failure "write failed")) r, mkSocketStream (sk_fd s) k).

Definition socket_close : M (SocketStream K) unit := fun s =>
  if (sk_fd s <? 0)%Z then (Val tt, s)
  else (Val tt, mkSocketStream (-1) (sys_close (sk_fd s) (sys_shutdown (sk_fd s) (sk_kernel s)))).

Definition socket_is_open (s : SocketStream K) : bool := (0 <=? sk_fd s)%Z.

#[export] Instance socket_stream : Stream (SocketStream K) := {
  read_some := socket_read_some;
  write_all := socket_write_all;
  close := socket_close;
  is_open := socket_is_open;
}.
End socket.

(** ** A connected socket is a reliable stream *)

Section laws.
Context {K : Type} {kernel : Kernel K} {inbox outbox : K -> list N} {laws : KernelLaws K inbox outbox}.

(** The loop ends within its fuel, whatever is interrupted, and sends all of the data
    or a part. *)
Lemma write_loop_spec (fuel : nat) (fd : Z) (data : list N) (k : K) :
  (length data + signals k <= fuel)%nat ->
  exists r k', socket_write_loop fuel fd data k = (Some r, k') /\ inbox k' = inbox k /\
    (r = Val tt -> outbox k' = outbox k ++ data) /\
    exists sent unsent, data = sent ++ unsent /\ outbox k' = outbox k ++ sent.
Proof.
  revert data k. induction fuel as [|fuel IH]; intros data k Hf.
  { destruct data; [|cbn in Hf; lia]. exists (Val tt), k. cbn. split_and!; [done|done|by rewrite app_nil_r|].
    exists [], []. by rewrite !app_nil_r. }
  destruct data as [|b data]; cbn [socket_write_loop exhausted].
  { exists (Val tt), k. split_and!; [done|done|by rewrite app_nil_r|]. exists [], []. by rewrite !app_nil_r. }
  assert (Hstop : forall k', outbox k' = outbox k ->
    exists sent unsent, b :: data = sent ++ unsent /\ outbox k' = outbox k ++ sent).
  { intros k' ->. exists [], (b :: data). by rewrite !app_nil_r. }
  destruct (sys_write fd (b :: data) k) as [[wrote| |] k'] eqn:E.
  - destruct (law_write _ _ _ _ _ E) as (Hn & Ho & Hi & Hs). destruct (N.eqb_spec wrote 0) as [->|Hw].
    + eexists _, k'. split_and!; [done|done|done|]. apply Hstop. by rewrite Ho, app_nil_r.
    + destruct (IH (drop (N.to_nat wrote) (b :: data)) k') as (r & k2 & E2 & Hi2 & Hok & sent & unsent & Hd & Ho2).
      { rewrite length_drop. cbn [length] in *. lia. }
      exists r, k2. split_and!; [done|congruence| |].
      * intros Hr. by rewrite (Hok Hr), Ho, <- app_assoc, take_drop.
      * exists (take (N.to_nat wrote) (b :: data) ++ sent), unsent.
        by rewrite <- app_assoc, <- Hd, take_drop, Ho2, Ho, <- app_assoc.
  - destruct (law_write_interrupted _ _ _ _ E) as (Ho & Hi & Hs).
    destruct (IH (b :: data) k') as (r & k2 & E2 & Hi2 & Hok & sent & unsent & Hd & Ho2); [cbn [length] in *; lia|].
    exists r, k2. rewrite <- Ho. split_and!; [done|congruence|done|by exists sent, unsent].
  - destruct (law_write_failed _ _ _ _ E) as (Ho & Hi). eexists _, k'. split_and!; [done|done|done|by apply Hstop].
Qed.

(** When no read fails or is interrupted, the socket keeps the promises framing,
    server and client rely on. *)
Lemma socket_reliable :
  (forall fd n k, exists got k', sys_read fd n k = (SysOk got, k')) ->
  ReliableStream (SocketStream K) (fun s => inbox (sk_kernel s)) (fun s => outbox (sk_kernel s)).
Proof.
  intros Hread. split.
  - intros n [fd k] Ho Hn. cbn in Ho |- *. unfold socket_read_some. cbn [sk_fd sk_kernel].
    unfold socket_is_open in Ho. cbn in Ho.
    rewrite (proj2 (Z.ltb_ge fd 0)), (proj2 (N.eqb_neq n 0)) by lia.
    destruct (Hread fd n k) as (got & k' & E). rewrite E.
    destruct (law_read _ _ _ _ _ Hn E) as (? & ? & ? & ? & _). by eexists _, _.
  - intros data [fd k] r s' Ho. cbn in Ho |- *. unfold socket_write_all. cbn [sk_fd sk_kernel].
    unfold socket_is_open in Ho. cbn in Ho. rewrite (proj2 (Z.ltb_ge fd 0)) by lia.
    destruct (write_loop_spec (write_fuel data k) fd data k) as (r' & k' & E & Hi & Hok & Hpart); [done|].
    rewrite E. intros [= <- <-]. cbn. by split_and!.
  - intros [fd k]. cbn. unfold socket_close, socket_is_open. cbn [sk_fd sk_kernel].
    destruct (Z.ltb_spec fd 0); cbn; [split; [lia|done]|]. split; [done|apply law_close].
Qed.
End laws.

(** ** A read that a signal interrupts *)

(** A read interrupted before the first byte of a frame looks like an orderly
    disconnection: [read_some] reports it as an empty read, and on an open stream an
    empty read ends [read_full].  The writer retries in the same case. *)
Theorem interrupted_read_disconnects {K : Type} {kernel : Kernel K} (s : SocketStream K) (k' : K)
    (max_frame : N) (Ho : socket_is_open s = true)
    (Hi : sys_read (sk_fd s) wire_header_bytes (sk_kernel s) = (SysInterrupted, k')) :
  read_message max_frame s = (Err (transport_failure ""), mkSocketStream (sk_fd s) k').
Proof.
  unfold socket_is_open in Ho. apply Z.leb_le in Ho.
  assert (Hfull : read_full wire_header_bytes s = (Val [], mkSocketStream (sk_fd s) k')).
  { unfold read_full. change (N.to_nat wire_header_bytes) with 20%nat. cbn [read_full_loop].
    change (wire_header_bytes <=? sizeN (@nil N)) with false. cbv iota.
    change (wire_header_bytes - sizeN (@nil N)) with wire_header_bytes.
    unfold mbind, M_bind, gets. cbn [read_some socket_stream]. unfold socket_read_some at 1.
    rewrite (proj2 (Z.ltb_ge _ _) Ho). change (wire_header_bytes =? 0) with false. cbv iota.
    rewrite Hi. cbn. unfold socket_is_open. cbn. by rewrite (proj2 (Z.leb_le _ _) Ho). }
  unfold read_message. rewrite (bind_run _ _ _ _ _ Hfull). reflexivity.
Qed.

(** A kernel that delivers what is in the inbox, at most [tk_chunk] bytes at a time,
    after interrupting [tk_signals] calls. *)
Record TestKernel := mkTestKernel { tk_inbox : list N; tk_outbox : list N; tk_chunk : N; tk_signals : nat }.
Definition test_read (fd : Z) (n : N) (k : TestKernel) : SysResult (list N) * TestKernel :=
  match tk_signals k with
  | S signals => (SysInterrupted, mkTestKernel (tk_inbox k) (tk_outbox k) (tk_chunk k) signals)
  | O =>
      let count := N.to_nat (N.min n (N.max 1 (tk_chunk k))) in
      (SysOk (take count (tk_inbox k)),
       mkTestKernel (drop count (tk_inbox k)) (tk_outbox k) (tk_chunk k) 0)
  end.
Definition test_write (fd : Z) (data : list N) (k : TestKernel) : SysResult N * TestKernel :=
  match tk_signals k with
  | S signals => (SysInterrupted, mkTestKernel (tk_inbox k) (tk_outbox k) (tk_chunk k) signals)
  | O =>
      let count := N.min (sizeN data) (N.max 1 (tk_chunk k)) in
      (SysOk count, mkTestKernel (tk_inbox k) (tk_outbox k ++ take (N.to_nat count) data) (tk_chunk k) 0)
  end.
#[export] Instance test_kernel : Kernel TestKernel := {
  sys_read := test_read;
  sys_write := test_write;
  sys_shutdown _ k := k;
  sys_close _ k := k;
  signals := tk_signals;
}.

#[export] Instance test_kernel_laws : KernelLaws TestKernel tk_inbox tk_outbox.
Proof.
  constructor.
  - intros fd n [i o c g] got k' Hn. cbn. unfold test_read. cbn. destruct g; [|done]. intros [= <- <-]. cbn.
    split_and!; [| |intros Ht|done|lia].
    + unfold sizeN. rewrite length_take. lia.
    + by rewrite take_drop.
    + destruct i as [|b i]; [done|]. apply (f_equal length) in Ht. rewrite length_take in Ht. cbn in Ht. lia.
  - intros fd n [i o c g] k'. cbn. unfold test_read. cbn. destruct g; [done|]. intros [= <-]. cbn. split_and!; [done..|lia].
  - intros fd data [i o c g] n k'. cbn. unfold test_write. cbn. destruct g; [|done]. intros [= <- <-]. cbn.
    split_and!; [lia|done..].
  - intros fd data [i o c g] k'. cbn. unfold test_write. cbn. destruct g; [done|]. intros [= <-]. cbn. split_and!; [done..|lia].
  - intros fd data [i o c g] k'. cbn. unfold test_write. cbn. by destruct g.
  - done.
Qed.

(** A whole frame is waiting, and one signal makes the reader miss it. *)
Lemma interrupted_read_disconnects_witness :
  (read_message 64 (mkSocketStream 5 (mkTestKernel ping_frame [] 7 1))).1 = Err (transport_failure "") /\
  (read_message 64 (mkSocketStream 5 (mkTestKernel ping_frame [] 7 0))).1 = Val (mkWireFrame MK_Ping 0 [1; 2; 3]).
Proof.
  split; [|vm_compute; reflexivity].
  rewrite (interrupted_read_disconnects (kernel := test_kernel) (mkSocketStream 5 (mkTestKernel ping_frame [] 7 1))
             (mkTestKernel ping_frame [] 7 0) 64); reflexivity.
Defined.

(** ** Listening and connecting

    The calls that set up a socket are known by their results; what matters of their
    effects is which descriptors are open and whether the endpoint's file exists. *)

Inductive SocketEvent := Opened (fd : Z) | ClosedFd (fd : Z) | Shutdown (fd : Z) | Unlinked (endpoint : string).

Record SocketCalls := mkSocketCalls {
  sc_socket : Z;                (* the descriptor, negative on failure *)
  sc_bind : bool;
  sc_listen : bool;
  sc_connect : bool;
  sc_sun_path : N;              (* [sizeof(sockaddr_un::sun_path)] *)
}.

Record SocketListener := mkSocketListener { sl_endpoint : string; sl_fd : Z; sl_closed : bool }.
#[export] Instance eta_SocketListener : Eta SocketListener := fun l =>
  mkSocketListener (sl_endpoint l) (sl_fd l) (sl_closed l).

Definition create_listener (calls : SocketCalls) (endpoint : string)
    : Expected SocketListener * list SocketEvent :=
  if String.eqb endpoint "" then (error InvalidArgument "endpoint name is empty", [])
  else
    let fd := sc_socket calls in
    if (fd <? 0)%Z then (Err (transport_failure "socket() failed"), [])
    else if sc_sun_path calls <=? string_size endpoint then
      (error InvalidArgument "endpoint path is too long", [Opened fd; ClosedFd fd])
    else if negb (sc_bind calls) then
      (Err (transport_failure "bind failed"), [Opened fd; Unlinked endpoint; ClosedFd fd])
    else if negb (sc_listen calls) then
      (Err (transport_failure "listen failed"), [Opened fd; Unlinked endpoint; ClosedFd fd])
    else (Val (mkSocketListener endpoint fd false), [Opened fd; Unlinked endpoint]).

Definition connect_endpoint {K} (calls : SocketCalls) (kernel : K) (endpoint : string)
    : Expected (SocketStream K) * list SocketEvent :=
  let fd := sc_socket calls in
  if (fd <? 0)%Z then (Err (transport_failure "socket() failed"), [])
  else if sc_sun_path calls <=? string_size endpoint then
    (error InvalidArgument "endpoint path is too long", [Opened fd; ClosedFd fd])
  else if negb (sc_connect calls) then
    (Err (transport_failure "connect failed"), [Opened fd; ClosedFd fd])
  else (Val (mkSocketStream fd kernel), [Opened fd]).

(** [client] is what [accept] returns, [closed] the flag when it has returned. *)
Definition accept {K} (client : Z) (closed : bool) (kernel : K) (l : SocketListener)
    : Expected (SocketStream K) * SocketListener * list SocketEvent :=
  let fd := sl_fd l in
  let now := l <| sl_closed := closed |> in
  if (fd <? 0)%Z then (Err (transport_failure "listener is closed"), l, [])
  else if (client <? 0)%Z then
    if closed then
      (Err (transport_failure "listener was closed during accept"), now <| sl_fd := (-1)%Z |>, [ClosedFd fd])
    else (Err (transport_failure "accept failed"), now, [])
  else if closed then
    (Err (transport_failure "listener was closed during accept"), now <| sl_fd := (-1)%Z |>,
     [Opened client; ClosedFd client; ClosedFd fd])
  else (Val (mkSocketStream client kernel), now, [Opened client]).

Definition close_listener (l : SocketListener) : SocketListener * list SocketEvent :=
  (l <| sl_closed := true |>,
   if (0 <=? sl_fd l)%Z then [Shutdown (sl_fd l); Unlinked (sl_endpoint l)] else []).

(** The descriptors a sequence of events leaves open. *)
Definition still_open (events : list SocketEvent) (before : list Z) : list Z :=
  foldl (fun fds e =>
    match e with
    | Opened fd => fd :: fds
    | ClosedFd fd => filter (fun x => x <> fd) fds
    | _ => fds
    end) before events.

(** Setting up a socket leaks nothing: a failure leaves no descriptor of its own open, a
    success exactly the one in the result. *)
Theorem socket_setup_leaks_nothing {K : Type} (calls : SocketCalls) (kernel : K) (endpoint : string) :
  (let '(r, events) := create_listener calls endpoint in
   still_open events [] = match r with Val l => [sl_fd l] | Err _ => [] end) /\
  (let '(r, events) := connect_endpoint calls kernel endpoint in
   still_open events [] = match r with Val s => [sk_fd s] | Err _ => [] end).
Proof.
  assert (Hclose : forall fd : Z, filter (fun x => x <> fd) [fd] = []).
  { intros fd. rewrite filter_cons_False by naive_solver. done. }
  split.
  - unfold create_listener. destruct (String.eqb _ _); [done|]. destruct (_ <? _)%Z; [done|].
    destruct (_ <=? _); [apply Hclose|]. destruct (sc_bind calls); [|apply Hclose].
    destruct (sc_listen calls); [done|apply Hclose].
  - unfold connect_endpoint. destruct (_ <? _)%Z; [done|]. destruct (_ <=? _); [apply Hclose|].
    destruct (sc_connect calls); [done|apply Hclose].
Qed.

(** Closing a listener while no [accept] waits leaves its descriptor open for good: only
    an accept that is pending then closes it. *)
Theorem closed_listener_keeps_descriptor (l : SocketListener) :
  let '(l', events) := close_listener l in
  still_open events [sl_fd l] = [sl_fd l] /\ sl_fd l' = sl_fd l.
Proof. unfold close_listener. by destruct (0 <=? sl_fd l)%Z. Qed.
