(* ===== verification/Client.v ===== *)
(** * The claimant's client (src/include/naf/ipc/client.hpp, src/src/ipc/client.cpp)

    Synchronous: every request is written, and its reply read, before the call
    returns. *)

From S2P Require Import Prelude Checked Identity Hash State Policy Request Authority.
From S2P Require Import Decision.
From S2P Require Import Ledger History Bytes Records Journal Engine Admission Api.
From S2P Require Import Protocol Stream Wire.
Local Open Scope N_scope.
Local Open Scope naf_scope.

Record ClientOptions := mkClientOptions {
  co_endpoint : string;
  co_publisher : PublisherId;
  co_boot : BootId;
  co_max_frame : N;
  co_connect_timeout_ms : N;
  co_origin : OriginKind;
}.

(** [override_] and [has_override_] are one optional claim. *)
Record Client (T : Type) := mkClient {
  cl_options : ClientOptions;
  cl_stream : option T;
  cl_welcome : WelcomeMessage;
  cl_override : option ClaimContext;
  cl_sequence : N;
}.
Arguments mkClient {_}.
Arguments cl_options {_}.
Arguments cl_stream {_}.
Arguments cl_welcome {_}.
Arguments cl_override {_}.
Arguments cl_sequence {_}.
#[export] Instance eta_Client T : Eta (Client T) := fun c =>
  mkClient (cl_options c) (cl_stream c) (cl_welcome c) (cl_override c) (cl_sequence c).

Section client.
Context {T : Type} `{!Stream T}.
(** What the cast makes of a number that is no enumerator. *)
Context (foreign_code : N -> StatusCode).

Definition Client_new (options : ClientOptions) : Client T :=
  mkClient options None WelcomeMessage_new None 0.

Definition not_connected : Status := transport_failure "client is not connected".

(** [connect_endpoint] is the operating system's. *)
Definition connect (connect_endpoint : string -> N -> Expected T) : M (Client T) unit :=
  c ← get;
  match cl_stream c with
  | Some _ => mret tt
  | None =>
      stream ← lift (connect_endpoint (co_endpoint (cl_options c)) (co_connect_timeout_ms (cl_options c)));
      modify (fun c => c <| cl_stream := Some stream |>)
  end.

(** A computation on the stream of a connected client. *)
Definition on_connection {A} (m : M T A) : M (Client T) A := fun c =>
  match cl_stream c with
  | None => (Err not_connected, c)
  | Some t => let '(r, t) := m t in (r, c <| cl_stream := Some t |>)
  end.

(** The code of an error reply becomes the status's code without a check. *)
Definition StatusCode_of_N (n : N) : StatusCode :=
  default (foreign_code n)
    ([Ok; InvalidArgument; MalformedInput; OversizedInput; UnknownResource; UnknownPath;
      DuplicateIdentity; ConflictIdentity; StaleGenerationCode; EpochMismatch; Fenced; NotFound;
      AlreadyExists; ArithmeticOverflow; ArithmeticUnderflow; CapacityViolation; AuthorityViolation;
      DurableFailure; CorruptJournal; TruncatedFrame; OversizedFrame; ProtocolViolation;
      TransportFailure; Unsupported; ShuttingDown; Busy; Internal] !! N.to_nat n).

Definition request (kind : MessageKind) (payload : list N) : M (Client T) WireFrame :=
  c ← get;
  match cl_stream c with
  | None => lift (Err not_connected)
  | Some _ =>
      let max_frame := co_max_frame (cl_options c) in
      on_connection (write_message kind 0 payload max_frame) ;;
      frame ← on_connection (read_message max_frame);
      if bool_decide (wf_kind frame = MK_Error) then
        message ← lift (decode_error (wf_payload frame));
        fail (StatusCode_of_N (em_code message)) (em_text message)
      else mret frame
  end.

(** A request whose reply must have a given kind. *)
Definition expect (kind : MessageKind) (what : string) (frame : WireFrame) : M (Client T) unit :=
  lift (refuse_if (negb (bool_decide (wf_kind frame = kind))) (error ProtocolViolation what)).

Definition hello : M (Client T) WelcomeMessage :=
  c ← get;
  let o := cl_options c in
  let message := mkHelloMessage protocol_version (co_publisher o) (co_boot o) (co_max_frame o) (co_boot o) in
  frame ← request MK_Hello (encode_hello message);
  expect MK_Welcome "expected a Welcome message" frame ;;
  welcome ← lift (decode_welcome (wf_payload frame));
  modify (fun c => c <| cl_welcome := welcome |>) ;;
  mret welcome.

Definition open (connect_endpoint : string -> N -> Expected T) : M (Client T) WelcomeMessage :=
  connect connect_endpoint ;; hello.

Definition build_claim (c : Client T) : ClaimContext :=
  let o := cl_options c in
  match cl_override c with
  | Some claim =>
      claim <| cc_origin := co_origin o |> <| cc_publisher := co_publisher o |>
            <| cc_boot := co_boot o |>
  | None =>
      mkClaimContext (co_origin o) (co_publisher o) (co_boot o) (wm_session (cl_welcome c))
        (wm_incarnation (cl_welcome c)) (wm_epoch (cl_welcome c)) 0 0 0
  end.

Definition admit_message (c : Client T) (value : AdmissionRequest) : AdmitMessage :=
  mkAdmitMessage ((build_claim c) <| cc_attempt := rq_attempt value |>
                    <| cc_trace := prov_trace (rq_provenance value) |>
                    <| cc_sequence := cl_sequence c |>) value.

Definition client_admit (value : AdmissionRequest) : M (Client T) AdmissionDecision :=
  modify (fun c => c <| cl_sequence := cl_sequence c +w 1 |>) ;;
  c ← get;
  frame ← request MK_Admit (encode_admit (admit_message c value));
  expect MK_Decision "expected a Decision message" frame ;;
  lift (decode_decision (wf_payload frame)).

Definition client_revalidate (decision : AdmissionDecisionId) : M (Client T) RevalidationResult :=
  c ← get;
  frame ← request MK_Revalidate (encode_revalidate (mkRevalidateMessage (build_claim c) decision));
  expect MK_Revalidation "expected a Revalidation message" frame ;;
  lift (decode_revalidation (wf_payload frame)).

Definition client_revoke (decision : AdmissionDecisionId) (reason : RevocationReason)
    : M (Client T) RevalidationResult :=
  c ← get;
  frame ← request MK_Revoke (encode_revoke (mkRevokeMessage (build_claim c) decision reason));
  expect MK_Revalidation "expected a Revalidation message" frame ;;
  lift (decode_revalidation (wf_payload frame)).

Definition client_status : M (Client T) FabricStatus :=
  frame ← request MK_StatusRequest [];
  expect MK_StatusReply "expected a StatusReply message" frame ;;
  lift (decode_status (wf_payload frame)).

Definition client_close : M (Client T) unit :=
  c ← get;
  match cl_stream c with
  | None => mret tt
  | Some t =>
      (if is_open t then attempt (on_connection (write_message MK_Bye 0 [] (co_max_frame (cl_options c)))) ;; mret tt
       else mret tt) ;;
      closed ← attempt (on_connection close);
      modify (fun c => c <| cl_stream := None |>) ;;
      lift closed
  end.

Definition set_claim_override (claim : ClaimContext) : M (Client T) unit :=
  modify (fun c => c <| cl_override := Some claim |>).
Definition clear_claim_override : M (Client T) unit := modify (fun c => c <| cl_override := None |>).
Definition client_is_open (c : Client T) : bool :=
  match cl_stream c with Some t => is_open t | None => false end.
End client.
