(* ===== verification/Tools.v ===== *)
(** * The command-line tools (src/tools/nafd.cpp, src/tools/nafctl.cpp)

    The arguments, what the coordinator's process sets up, and the calls the
    claimant's process makes.  What they print is not modelled. *)

From S2P Require Import Prelude.
From S2P Require Import Checked.
From S2P Require Import Identity.
From S2P Require Import Hash.
From S2P Require Import State.
From S2P Require Import Policy.
From S2P Require Import Request.
From S2P Require Import Authority.
From S2P Require Import Decision.
From S2P Require Import Ledger.
From S2P Require Import History.
From S2P Require Import Bytes.
From S2P Require Import Records.
From S2P Require Import Journal.
From S2P Require Import Engine.
From S2P Require Import Recovery.
From S2P Require Import Admission.
From S2P Require Import Api.
From S2P Require Import Protocol.
From S2P Require Import Stream.
From S2P Require Import Wire.
From S2P Require Import Server.
From S2P Require Import Client.
Local Open Scope N_scope.
Local Open Scope naf_scope.

(** ** Numbers *)

Definition is_space (c : N) : bool := (c =? 32) || ((9 <=? c) && (c <=? 13)).
Definition is_digit (c : N) : bool := (48 <=? c) && (c <=? 57).

Fixpoint skip_spaces (text : list N) : list N :=
  match text with
  | c :: text' => if is_space c then skip_spaces text' else text
  | [] => []
  end.

(** The longest run of digits, its value unbounded, and what follows. *)
Fixpoint read_digits (acc : N) (text : list N) : N * list N :=
  match text with
  | c :: text' => if is_digit c then read_digits (acc * 10 + (c - 48)) text' else (acc, text)
  | [] => (acc, [])
  end.

Definition sign_of (text : list N) : bool * list N :=
  match text with
  | 43 :: text' => (false, text')
  | 45 :: text' => (true, text')
  | _ => (false, text)
  end.

(** [std::strtoull(text, &end, 10)]: the value and the text from [end].  A value out of
    range becomes the greatest one, a negative value is negated modulo the word. *)
Definition strtoull (text : list N) : N * list N :=
  let '(negative, digits) := sign_of (skip_spaces text) in
  match digits with
  | c :: _ =>
      if is_digit c then
        let '(value, rest) := read_digits 0 digits in
        (if u64_max <? value then u64_max else if (negative : bool) then 0 -w value else value, rest)
      else (0, text)
  | [] => (0, text)
  end.

Definition parse_u64 (text : string) : option N :=
  if String.eqb text "" then None
  else let '(value, rest) := strtoull (chars_of text) in if exhausted rest then Some value else None.

(** ** nafd *)

Record DaemonOptions := mkDaemonOptions {
  do_endpoint : string;
  do_stdio : bool;
  do_state_directory : string;
  do_demo_profile : bool;
  do_resources : N;
  do_capacity_bps : N;
  do_headroom_permille : N;
  do_run_seconds : N;
  do_initial_tick : N;
  do_incarnation : N;
  do_quiet : bool;
}.
#[export] Instance eta_DaemonOptions : Eta DaemonOptions := fun o =>
  mkDaemonOptions (do_endpoint o) (do_stdio o) (do_state_directory o) (do_demo_profile o)
    (do_resources o) (do_capacity_bps o) (do_headroom_permille o) (do_run_seconds o)
    (do_initial_tick o) (do_incarnation o) (do_quiet o).
Definition DaemonOptions_new : DaemonOptions :=
  mkDaemonOptions "naf-coordinator" false "" false 4 1000000000 50 0 0 0 false.

(** How a command line is read: the options, the wish for help, or an error. *)
Inductive Parsed (O : Type) := ParsedOptions (options : O) | ParsedHelp | ParseError.
Arguments ParsedOptions {_}.
Arguments ParsedHelp {_}.
Arguments ParseError {_}.

Definition daemon_number (flag : string) (value : N) (o : DaemonOptions) : option DaemonOptions :=
  if String.eqb flag "--resources" then Some (o <| do_resources := value |>)
  else if String.eqb flag "--capacity" then Some (o <| do_capacity_bps := value |>)
  else if String.eqb flag "--headroom" then Some (o <| do_headroom_permille := value |>)
  else if String.eqb flag "--incarnation" then Some (o <| do_incarnation := value |>)
  else if String.eqb flag "--tick" then Some (o <| do_initial_tick := value |>)
  else if String.eqb flag "--run-seconds" then Some (o <| do_run_seconds := value |>)
  else None.

Definition is_daemon_number (flag : string) : bool :=
  existsb (String.eqb flag) ["--resources"; "--capacity"; "--headroom"; "--incarnation"; "--tick"; "--run-seconds"].

Fixpoint daemon_parse (args : list string) (o : DaemonOptions) : Parsed DaemonOptions :=
  match args with
  | [] => ParsedOptions o
  | arg :: args =>
      if String.eqb arg "--help" || String.eqb arg "-h" then ParsedHelp
      else if String.eqb arg "--endpoint" then
        match args with [] => ParseError | v :: args => daemon_parse args (o <| do_endpoint := v |>) end
      else if String.eqb arg "--stdio" then daemon_parse args (o <| do_stdio := true |>)
      else if String.eqb arg "--state-dir" then
        match args with [] => ParseError | v :: args => daemon_parse args (o <| do_state_directory := v |>) end
      else if String.eqb arg "--profile" then
        match args with
        | [] => ParseError
        | v :: args =>
            if String.eqb v "demo" then daemon_parse args (o <| do_demo_profile := true |>) else ParseError
        end
      else if is_daemon_number arg then
        match args with
        | [] => ParseError
        | v :: args =>
            match parse_u64 v with
            | None => ParseError
            | Some n => daemon_parse args (default o (daemon_number arg n o))
            end
        end
      else if String.eqb arg "--quiet" then daemon_parse args (o <| do_quiet := true |>)
      else ParseError
  end.

(** The numbers [1 .. n]. *)
Definition numbers (n : N) : list N := N.of_nat <$> seq 1 (N.to_nat n).

Definition demo_policy (epoch : FabricEpoch) (o : DaemonOptions) : AdmissionPolicy :=
  mkAdmissionPolicy 1 1 epoch 0 (do_headroom_permille o) 0 true true false false true ActionDefer [] []
    8 2048 8 100.
Definition demo_capacity (epoch : FabricEpoch) (o : DaemonOptions) : CapacitySnapshot :=
  mkCapacitySnapshot 1 1 epoch (do_initial_tick o)
    ((fun i => mkResourceCapacity i 1 EvidenceKnown (do_capacity_bps o) 0) <$> numbers (do_resources o)).
Definition demo_reservations (epoch : FabricEpoch) : ReservationSnapshot := mkReservationSnapshot 1 1 epoch 0 [].
Definition demo_paths (epoch : FabricEpoch) (o : DaemonOptions) : PathCatalog :=
  mkPathCatalog 1 epoch 0
    ((fun i => mkPathAdmissionFact i 1 PathUp (do_capacity_bps o) 0 [i]) <$> numbers (do_resources o)).
Definition demo_qos (epoch : FabricEpoch) : QoSClassCatalog :=
  mkQoSClassCatalog 1 epoch 0 [mkQoSClassFact 1 1 0 u64_max u64_max true].
Definition demo_priorities (epoch : FabricEpoch) : PriorityClassCatalog :=
  mkPriorityClassCatalog 1 epoch 0 [mkPriorityClassFact 1 1 1 true].

Definition publish_demo_profile (o : DaemonOptions) : M EngineCore unit :=
  k ← get;
  let epoch := engine_epoch k in
  lift (refuse_if (epoch_is_none epoch) (error EpochMismatch "engine has no fabric epoch")) ;;
  lift (refuse_if ((do_resources o =? 0) || (max_resources <? do_resources o))
          (error InvalidArgument "resource count is out of range")) ;;
  lift (refuse_if (1000 <? do_headroom_permille o)
          (error InvalidArgument "headroom permille exceeds 1000")) ;;
  publish_policy (demo_policy epoch o) ;;
  publish_capacity (demo_capacity epoch o) ;;
  publish_reservations (demo_reservations epoch) ;;
  publish_paths (demo_paths epoch o) ;;
  publish_qos_catalog (demo_qos epoch) ;;
  publish_priority_catalog (demo_priorities epoch).

(** [clock] is the steady clock's count. *)
Definition daemon_incarnation (clock : N) (o : DaemonOptions) : CoordinatorIncarnation :=
  if do_incarnation o =? 0 then
    let i := N.land clock 0x7FFFFFFF in if i =? 0 then 1 else i
  else do_incarnation o.

Definition daemon_config (clock : N) (o : DaemonOptions) : ServerConfig :=
  mkServerConfig (do_endpoint o) (do_stdio o) (do_state_directory o)
    (mkEngineConfig 0 (daemon_incarnation clock o) (do_initial_tick o) max_decision_records
       max_attempt_records max_ledger_entries max_session_records true)
    max_frame_bytes 8.

(** The part of [main] up to serving: the exit code it returns early with, if it does. *)
Definition daemon_setup (platform : Platform) (journal : Journal) (clock : N) (o : DaemonOptions)
    : option N * CoordinatorServer :=
  let '(report, server) := start platform journal (CoordinatorServer_new (daemon_config clock o)) in
  if negb (is_ok (rr_status report)) then (Some 1, server)
  else if do_demo_profile o then
    let '(published, k) := publish_demo_profile o (cs_engine server) in
    let server := server <| cs_engine := k |> in
    if has_value (published : Expected unit) then (None, server) else (Some 1, server)
  else (None, server).

(** ** nafctl *)

Record ControlOptions := mkControlOptions {
  co_ctl_endpoint : string;
  co_command : string;
  co_ctl_publisher : N;
  co_ctl_boot : N;
  co_demand : N;
  co_request_id : N;
  co_resource : N;
  co_path : N;
  co_decision : N;
  co_minimum : N;
  co_desired : N;
  co_maximum : N;
  co_attempt : N;
  co_latency : N;
  co_expected_epoch : N;
  co_expected_session : N;
  co_force_claim : bool;
  co_auto_authority : bool;
}.
#[export] Instance eta_ControlOptions : Eta ControlOptions := fun o =>
  mkControlOptions (co_ctl_endpoint o) (co_command o) (co_ctl_publisher o) (co_ctl_boot o) (co_demand o)
    (co_request_id o) (co_resource o) (co_path o) (co_decision o) (co_minimum o) (co_desired o)
    (co_maximum o) (co_attempt o) (co_latency o) (co_expected_epoch o) (co_expected_session o)
    (co_force_claim o) (co_auto_authority o).
Definition ControlOptions_new : ControlOptions :=
  mkControlOptions "naf-coordinator" "" 1 1 1 1 0 0 0 0 0 0 1 0 0 0 false true.

Definition control_number (flag : string) (value : N) (o : ControlOptions) : option ControlOptions :=
  if String.eqb flag "--publisher" then Some (o <| co_ctl_publisher := value |>)
  else if String.eqb flag "--boot" then Some (o <| co_ctl_boot := value |>)
  else if String.eqb flag "--min" then Some (o <| co_minimum := value |>)
  else if String.eqb flag "--desired" then Some (o <| co_desired := value |>)
  else if String.eqb flag "--max" then Some (o <| co_maximum := value |>)
  else if String.eqb flag "--resource" then Some (o <| co_resource := value |>)
  else if String.eqb flag "--path" then Some (o <| co_path := value |>)
  else if String.eqb flag "--demand" then Some (o <| co_demand := value |>)
  else if String.eqb flag "--request" then Some (o <| co_request_id := value |>)
  else if String.eqb flag "--attempt" then Some (o <| co_attempt := value |>)
  else if String.eqb flag "--decision" then Some (o <| co_decision := value |>)
  else if String.eqb flag "--latency" then Some (o <| co_latency := value |>)
  else if String.eqb flag "--epoch" then Some (o <| co_expected_epoch := value |>)
  else if String.eqb flag "--session" then Some (o <| co_expected_session := value |>)
  else None.

Definition is_control_number (flag : string) : bool :=
  existsb (String.eqb flag)
    ["--publisher"; "--boot"; "--min"; "--desired"; "--max"; "--resource"; "--path"; "--demand";
     "--request"; "--attempt"; "--decision"; "--latency"; "--epoch"; "--session"].

Fixpoint control_parse (args : list string) (o : ControlOptions) : Parsed ControlOptions :=
  match args with
  | [] => if String.eqb (co_command o) "" then ParseError else ParsedOptions o
  | arg :: args =>
      if String.eqb arg "--help" || String.eqb arg "-h" then ParsedHelp
      else if String.eqb arg "--endpoint" then
        match args with [] => ParseError | v :: args => control_parse args (o <| co_ctl_endpoint := v |>) end
      else if is_control_number arg then
        match args with
        | [] => ParseError
        | v :: args =>
            match parse_u64 v with
            | None => ParseError
            | Some n => control_parse args (default o (control_number arg n o))
            end
        end
      else if String.eqb arg "--force-claim" then control_parse args (o <| co_force_claim := true |>)
      else if String.eqb arg "--no-auto-authority" then control_parse args (o <| co_auto_authority := false |>)
      else if String.prefix "--" arg then ParseError
      else if String.eqb (co_command o) "" then control_parse args (o <| co_command := arg |>)
      else ParseError
  end.

Definition fill_expectation (status : FabricStatus) (request : AdmissionRequest) : AdmissionRequest :=
  request <| rq_expected :=
    mkAuthorityExpectation (fs_capacity_snapshot status) (fs_capacity_generation status)
      (fs_reservation_snapshot status) (fs_reservation_generation status) (fs_path_generation status)
      (fs_policy_generation status) (fs_qos_generation status) (fs_priority_generation status) |>.

(** The request before the authorities are filled in. *)
Definition control_request (o : ControlOptions) : AdmissionRequest :=
  mkAdmissionRequest (co_request_id o) (co_demand o) 1 (co_attempt o)
    (mkRateBounds (co_minimum o) (co_desired o) (co_maximum o)) 1 1 1 1 (co_latency o) [] [] 0 [] 0 0
    false false true ContentionInheritPolicy DegradeInheritPolicy 0 0 0
    (mkAuthorityExpectation 0 0 0 0 0 0 0 0)
    (mkProvenance (co_ctl_publisher o) (co_ctl_boot o) 0 0 (co_attempt o) 0 0 Claimant).

(** Both branches of the test on the status give the binding the same generation. *)
Definition bind_resource (status : option FabricStatus) (o : ControlOptions) (request : AdmissionRequest)
    : AdmissionRequest :=
  match status with
  | Some status =>
      let resource := if negb (co_resource o =? 0) then co_resource o else 1 in
      request <| rq_resource_bindings := [mkResourceBinding resource (fs_capacity_generation status)] |>
  | None =>
      if negb (co_resource o =? 0)
      then request <| rq_resource_bindings := [mkResourceBinding (co_resource o) 1] |>
      else request
  end.
Definition bind_path (o : ControlOptions) (request : AdmissionRequest) : AdmissionRequest :=
  if negb (co_path o =? 0) then request <| rq_path_candidates := [mkPathCandidate (co_path o) 1] |>
  else request.

Section control.
Context {T : Type} `{!Stream T} (foreign_code : N -> StatusCode).

Definition command_admit (o : ControlOptions) : M (Client T) AdmissionDecision :=
  if co_auto_authority o then
    status ← client_status foreign_code;
    client_admit foreign_code
      (bind_path o (bind_resource (Some status) o (fill_expectation status (control_request o))))
  else client_admit foreign_code (bind_path o (bind_resource None o (control_request o))).

Definition control_client (o : ControlOptions) : Client T :=
  Client_new (mkClientOptions (co_ctl_endpoint o) (co_ctl_publisher o) (co_ctl_boot o) max_frame_bytes 5000 Claimant).

Definition forced_claim (o : ControlOptions) : ClaimContext :=
  mkClaimContext Claimant (co_ctl_publisher o) (co_ctl_boot o) (co_expected_session o) 0 (co_expected_epoch o) 0 0 0.

(** A command's result is a code: its call succeeded or not. *)
Definition exit_code {A} (m : M (Client T) A) : M (Client T) N :=
  r ← attempt m; mret (if has_value (r : Expected A) then 0 else 1).

Definition run_command (o : ControlOptions) : M (Client T) N :=
  if String.eqb (co_command o) "status" then exit_code (client_status foreign_code)
  else if String.eqb (co_command o) "admit" then exit_code (command_admit o)
  else if String.eqb (co_command o) "revalidate" then exit_code (client_revalidate foreign_code (co_decision o))
  else if String.eqb (co_command o) "revoke" then
    exit_code (client_revoke foreign_code (co_decision o) OperatorRequest)
  else mret 2.

(** [main] after the arguments have been read.  The client closes on every way out:
    its destructor does where [main] does not. *)
Definition control_main (connect : string -> N -> Expected T) (o : ControlOptions) : M (Client T) N :=
  welcome ← attempt (open foreign_code connect);
  match welcome with
  | Err _ => attempt client_close ;; mret 1
  | Val welcome =>
      if negb (wm_accepted welcome) then attempt client_close ;; mret 1
      else
        (if co_force_claim o then set_claim_override (forced_claim o) else mret tt) ;;
        rc ← run_command o;
        closed ← attempt client_close;
        mret (if negb (has_value (closed : Expected unit)) && (rc =? 0) then 1 else rc)
  end.
End control.

(** ** Reading numbers *)

Lemma digit_char (n : N) : n < 10 -> N_of_ascii (digit n) = 48 + n.
Proof. intros. unfold digit. by rewrite N_ascii_embedding by lia. Qed.

Definition digit_chars (cs : list ascii) : Prop := Forall (fun c => is_digit (N_of_ascii c) = true) cs.

Lemma digit_loop_chars (room : nat) (value : N) : digit_chars (digit_loop room value).
Proof.
  revert value. induction room as [|room IH]; intros value; cbn [digit_loop]; constructor.
  - pose proof (N.mod_lt value 10 ltac:(done)). revert H. generalize (value mod 10). intros d Hd.
    rewrite digit_char by done. unfold is_digit. apply andb_true_iff. rewrite !N.leb_le. lia.
  - destruct (negb _); [apply IH|constructor].
Qed.

Lemma read_digits_rev (ds : list ascii) (acc : N) (rest : list N) :
  digit_chars ds ->
  read_digits acc ((N_of_ascii <$> rev ds) ++ rest) =
  read_digits (acc * 10 ^ N.of_nat (length ds) + digits_value ds) rest.
Proof.
  revert acc rest. induction ds as [|d ds IH]; intros acc rest Hd.
  - cbn [rev fmap list_fmap app length digits_value]. change (N.of_nat 0) with 0. f_equal. rewrite N.pow_0_r. lia.
  - apply Forall_cons in Hd as [Hd Hds]. cbn [rev]. rewrite fmap_app, <- app_assoc, IH by done.
    cbn [fmap list_fmap app read_digits]. rewrite Hd. f_equal. cbn [length digits_value].
    rewrite Nat2N.inj_succ, N.pow_succ_r'. lia.
Qed.

(** A digit is no space and no sign. *)
Lemma digit_first (c : N) (text : list N) :
  is_digit c = true -> skip_spaces (c :: text) = c :: text /\ sign_of (c :: text) = (false, c :: text).
Proof.
  intros Hd. unfold is_digit in Hd. apply andb_true_iff in Hd as [H1%N.leb_le H2%N.leb_le]. split.
  - cbn. unfold is_space. rewrite (proj2 (N.eqb_neq _ _)), (proj2 (N.leb_gt c 13)) by lia.
    by rewrite andb_false_r.
  - unfold sign_of. assert (Hc : c <> 43 /\ c <> 45) by lia. destruct Hc.
    destruct c as [|p]; [done|]. repeat (destruct p as [p|p|]; try done).
Qed.

Lemma exhausted_nil : exhausted (@nil N) = true.
Proof. done. Qed.

(** What the tools print they read back: the decimal text of every 64-bit word is
    parsed to that word.  The converse is wider than a reader expects: a minus sign is
    taken, a number out of range becomes the greatest. *)
Theorem parse_u64_decimal (n : N) (Hn : u64 n) :
  parse_u64 (append_u64 "" n) = Some n /\
  parse_u64 "-1" = Some u64_max /\ parse_u64 "18446744073709551616" = Some u64_max /\
  parse_u64 "1x" = None /\ parse_u64 "" = None.
Proof.
  split; [|split_and!; vm_compute; reflexivity].
  set (ds := digit_loop 20 n).
  assert (Hchars : chars_of (append_u64 "" n) = N_of_ascii <$> rev ds)
    by (unfold chars_of, append_u64; by rewrite append_chars_list).
  assert (Hds : digit_chars ds) by apply digit_loop_chars.
  assert (Hval : digits_value ds = n).
  { apply digit_loop_value. unfold u64, two64 in Hn. cbn. lia. }
  assert (Hne : exists c cs, N_of_ascii <$> rev ds = c :: cs /\ is_digit c = true).
  { destruct (rev ds) as [|c cs] eqn:E.
    - apply (f_equal (@length ascii)) in E. rewrite length_rev in E. done.
    - exists (N_of_ascii c), (N_of_ascii <$> cs). split; [done|].
      apply Forall_rev in Hds. rewrite E in Hds. by apply Forall_cons in Hds as [? _]. }
  destruct Hne as (c & cs & E & Hc). destruct (digit_first c cs Hc) as [Hsp Hsg].
  assert (Hrd : read_digits 0 (c :: cs) = (n, [])).
  { rewrite <- E, <- (app_nil_r (N_of_ascii <$> rev ds)), read_digits_rev by done. by rewrite Hval. }
  unfold parse_u64. destruct (String.eqb_spec (append_u64 "" n) "") as [H0|_].
  { rewrite H0, E in Hchars. discriminate Hchars. }
  rewrite Hchars, E. unfold strtoull. rewrite Hsp, Hsg, Hc, Hrd.
  rewrite (proj2 (N.ltb_ge u64_max n)) by (unfold u64, two64, u64_max in *; lia). done.
Qed.

Lemma parse_u64_decimal_witness : parse_u64 (append_u64 "" 18446744073709551615) = Some 18446744073709551615.
Proof. apply (parse_u64_decimal 18446744073709551615). reflexivity. Defined.

(** ** What the daemon sets up *)

Lemma numbers_elem (n i : N) : i ∈ numbers n -> 1 <= i <= n.
Proof.
  unfold numbers. intros (j & -> & Hj)%list_elem_of_fmap. apply elem_of_seq in Hj. lia.
Qed.
Lemma numbers_size (n : N) : sizeN (numbers n) = n.
Proof. unfold numbers, sizeN. rewrite length_fmap, length_seq. lia. Qed.

Lemma start_unrecovered (platform : Platform) (journal : Journal) (config : ServerConfig) :
  sv_state_directory config = "" ->
  cs_engine (start platform journal (CoordinatorServer_new config)).2 = AdmissionEngine_new (sv_engine config).
Proof.
  intros Hdir. unfold start. cbn [cs_running cs_config CoordinatorServer_new]. rewrite Hdir. cbn [String.eqb negb].
  unfold bind_transport. cbn [cs_config CoordinatorServer_new].
  destruct (sv_stdio config); [done|]. by destruct (pf_create_listener _ _).
Qed.

Lemma no_epoch_profile (o : DaemonOptions) (k : EngineCore) :
  ek_epoch k = 0 -> publish_demo_profile o k = (error EpochMismatch "engine has no fabric epoch", k).
Proof. intros He. unfold publish_demo_profile, engine_epoch, mbind, M_bind, get. by rewrite He. Qed.

Lemma require_no_epoch (k : EngineCore) :
  ek_epoch k = 0 -> require_epoch k = (error EpochMismatch "engine has no fabric epoch", k).
Proof. intros He. unfold require_epoch, mbind, M_bind, get. by rewrite He. Qed.

(** Without a state directory the daemon is of no use: it starts, but its engine never
    has a fabric epoch, so the demo profile is refused and the process ends, or every
    claimant's session and every capacity snapshot is refused. *)
Theorem no_state_directory_no_epoch (platform : Platform) (journal : Journal) (clock : N) (o : DaemonOptions)
    (Hdir : do_state_directory o = "") :
  let '(code, server) := daemon_setup platform journal clock o in
  (do_demo_profile o = true -> code = Some 1) /\
  ek_epoch (cs_engine server) = 0 /\
  (forall p b, p <> 0 -> b <> 0 ->
     (register_session p b (cs_engine server)).1 = error EpochMismatch "engine has no fabric epoch") /\
  (forall s, validate_capacity s = Val tt ->
     (publish_capacity s (cs_engine server)).1 = error EpochMismatch "engine has no fabric epoch").
Proof.
  assert (Hno : forall k, ek_epoch k = 0 ->
    (forall p b, p <> 0 -> b <> 0 ->
       (register_session p b k).1 = error EpochMismatch "engine has no fabric epoch") /\
    (forall s, validate_capacity s = Val tt ->
       (publish_capacity s k).1 = error EpochMismatch "engine has no fabric epoch")).
  { intros k He. split.
    - intros p b Hp Hb. unfold register_session, mbind, M_bind, get, lift. cbv beta iota.
      rewrite (proj2 (is_unknown_false p) Hp), (proj2 (is_unknown_false b) Hb). cbn [orb refuse_if].
      by rewrite (require_no_epoch k He).
    - intros s Hs. unfold publish_capacity, mbind, M_bind, lift. rewrite Hs. by rewrite (require_no_epoch k He). }
  unfold daemon_setup. pose proof (start_unrecovered platform journal (daemon_config clock o) Hdir) as Hk.
  destruct (start _ _ _) as [report server]. cbn [snd] in Hk.
  assert (He : ek_epoch (cs_engine server) = 0) by (by rewrite Hk).
  destruct (negb _); [split_and!; [done|done|by apply Hno..]|].
  destruct (do_demo_profile o); [|split_and!; [done|done|by apply Hno..]].
  rewrite (no_epoch_profile o _ He). split_and!; [done|done|by apply Hno..].
Qed.

(** The daemon as its documentation starts it, on a platform where everything works. *)
Definition working_platform : Platform := mkPlatform (fun _ => Val tt) (fun _ => Val tt).
Definition demo_options : DaemonOptions :=
  DaemonOptions_new <| do_demo_profile := true |> <| do_incarnation := 7 |>.

Lemma no_state_directory_no_epoch_witness :
  (daemon_setup working_platform (Journal_new "" JournalOptions_new) 0 demo_options).1 = Some 1.
Proof.
  pose proof (no_state_directory_no_epoch working_platform (Journal_new "" JournalOptions_new) 0 demo_options eq_refl) as H.
  destruct (daemon_setup _ _ _ _) as [code server]. by apply H.
Defined.

(** ** The demo profile *)

(** Consecutive numbers satisfy every ordering a validator asks for. *)
Lemma seq_sorted (a n : nat) : StronglySorted N.lt (N.of_nat <$> seq a n).
Proof.
  revert a. induction n as [|n IH]; intros a; cbn; constructor; [apply IH|].
  apply Forall_fmap, Forall_forall. intros x Hx%elem_of_seq. cbn. lia.
Qed.
Lemma numbers_increasing (n : N) : increasing (numbers n).
Proof. apply StronglySorted_Sorted, seq_sorted. Qed.

(** The profile is never at fault: whatever number of resources, capacity, tick and
    headroom the options ask for, if [publish_demo_profile] gets past its own checks each
    of its six snapshots satisfies the validator of its publication. *)
Theorem demo_profile_valid (epoch : FabricEpoch) (o : DaemonOptions) (He : epoch <> 0)
    (Hr : do_resources o <= max_resources) (Hh : do_headroom_permille o <= 1000) :
  validate_policy (demo_policy epoch o) = Val tt /\ validate_capacity (demo_capacity epoch o) = Val tt /\
  validate_reservations (demo_reservations epoch) = Val tt /\ validate_paths (demo_paths epoch o) = Val tt /\
  validate_qos (demo_qos epoch) = Val tt /\ validate_priorities (demo_priorities epoch) = Val tt.
Proof.
  assert (Hn : forall i, i ∈ numbers (do_resources o) -> i <> 0) by (intros i Hi%numbers_elem; lia).
  split_and!.
  - apply validate_policy_spec. constructor; cbn; try done. all: by repeat constructor.
  - apply validate_capacity_spec. constructor; cbn; try done.
    + unfold sizeN. rewrite length_fmap. fold (sizeN (numbers (do_resources o))). by rewrite numbers_size.
    + apply Forall_fmap, Forall_forall. intros i Hi. split; [by apply Hn|]. split; [done|]. cbn. lia.
    + rewrite <- list_fmap_compose. rewrite (list_fmap_id (numbers _)). apply numbers_increasing.
  - apply validate_reservations_spec; [constructor|]. constructor; cbn; try done; constructor.
  - apply validate_paths_spec. constructor; cbn; try done.
    + unfold sizeN. rewrite length_fmap. fold (sizeN (numbers (do_resources o))). by rewrite numbers_size.
    + apply Forall_fmap, Forall_forall. intros i Hi. split_and!; cbn; try done; [by apply Hn|by repeat constructor; apply Hn|].
      by repeat constructor.
    + rewrite <- list_fmap_compose. rewrite (list_fmap_id (numbers _)). apply numbers_increasing.
  - apply validate_qos_spec. constructor; cbn; try done; [|by repeat constructor]. by repeat constructor.
  - apply validate_priorities_spec. constructor; cbn; try done; [by repeat constructor|by repeat constructor|].
    apply NoDup_singleton.
Qed.

Lemma demo_profile_valid_witness : validate_capacity (demo_capacity 1 demo_options) = Val tt.
Proof. apply (demo_profile_valid 1 demo_options); [done|by vm_compute|by vm_compute]. Defined.
