(* ===== verification/Service.v ===== *)
(** * Serving connections: properties

    What a connection can do to the engine, whatever bytes it sends; that serving
    ends; and what becomes of its session. *)

From S2P Require Import Prelude Checked Identity Hash State Policy Request Authority.
From S2P Require Import Decision.
From S2P Require Import Ledger History Bytes Records Journal Engine Admission Capacity.
From S2P Require Import Frames Grant Safety Api Enforce Reach Protocol Stream Wire Server.
From S2P Require Import Client.
Local Open Scope N_scope.
Local Open Scope naf_scope.

(** ** What a connection does to the engine *)

(** The engine calls the server makes. *)
Inductive message_step : EngineCore -> EngineCore -> Prop :=
  | message_admit request claim k : message_step k (admit_locked request claim k).2
  | message_revalidate d k : message_step k (revalidate_locked d k).2
  | message_revoke d reason k : message_step k (revoke_locked d reason k).2.
Inductive wire_step (k : EngineCore) : EngineCore -> Prop :=
  | wire_message k' : message_step k k' -> wire_step k k'
  | wire_register p b : wire_step k (register_session p b k).2
  | wire_retire n : wire_step k (retire_session n k).2.

Section engine_side.
Context {T : Type} {stream : Stream T}.

Section calls.
Context (W : T -> T -> Prop) {preorder : PreOrder W} (step : EngineCore -> EngineCore -> Prop).

(** [m] never fails, changes the stream by [W] and takes the engine through at most
    [n] steps. *)
Definition calls {A} (n : nat) (m : M (@Served T) A) : Prop :=
  forall s, exists a s', m s = (Val a, s') /\ W s.1 s'.1 /\
    exists i, (i <= n)%nat /\ nsteps step i s.2 s'.2.

Lemma calls_ret {A} (a : A) (n : nat) : calls n (mret a).
Proof. intros s. exists a, s. split_and!; [done..|]. exists 0%nat. split; [lia|constructor]. Qed.

Lemma calls_bind {A B} (n i j : nat) (m : M Served A) (f : A -> M Served B) :
  (i + j <= n)%nat -> calls i m -> (forall a, calls j (f a)) -> calls n (m ≫= f).
Proof.
  intros Hn Hm Hf s. destruct (Hm s) as (a & s1 & E1 & W1 & i' & Hi & Hs1).
  destruct (Hf a s1) as (b & s2 & E2 & W2 & j' & Hj & Hs2). exists b, s2.
  rewrite (bind_run _ _ _ _ _ E1). split_and!; [done|by etrans|]. exists (i' + j')%nat.
  split; [lia|by eapply nsteps_trans].
Qed.

(** A computation on the stream alone. *)
Definition moves {A} (m : M T A) : Prop := forall t, W t (m t).2.

Lemma calls_stream {A} (m : M T A) (n : nat) : moves m -> calls n (attempt (on_stream m)).
Proof.
  intros Hm [t k]. unfold attempt, on_stream. cbn. specialize (Hm t). destruct (m t) as [r t'].
  exists r, (t', k). split_and!; [done..|]. exists 0%nat. split; [lia|constructor].
Qed.
Lemma calls_engine {A} (m : M EngineCore A) :
  (forall k, step k (m k).2) -> calls 1 (attempt (on_engine m)).
Proof.
  intros Hm [t k]. unfold attempt, on_engine. cbn. specialize (Hm k). destruct (m k) as [r k'].
  exists r, (t, k'). split_and!; [done..|]. exists 1%nat. split; [lia|]. by apply nsteps_once.
Qed.
Lemma calls_read {A} (f : EngineCore -> A) : calls 0 (on_engine (gets f)).
Proof. intros [t k]. exists (f k), (t, k). split_and!; [done..|]. exists 0%nat. split; [lia|constructor]. Qed.

Lemma calls_weaken {A} (i n : nat) (m : M Served A) : (i <= n)%nat -> calls i m -> calls n m.
Proof.
  intros H Hm s. destruct (Hm s) as (a & s' & E & Hw & j & Hj & Hs). exists a, s'.
  split_and!; [done..|]. exists j. by split; [lia|].
Qed.

Lemma calls_ignore {A} (n : nat) (m : M Served A) : calls n (attempt m) -> calls n (ignore m).
Proof. intros H. apply (calls_bind n n 0); [lia|done|]. intros _. apply calls_ret. Qed.

Context (writes : forall kind flags payload max_frame, moves (write_message kind flags payload max_frame)).

Lemma moves_error (config : ServerConfig) (c : StatusCode) (text : string) : moves (send_error config c text).
Proof. apply writes. Qed.
Lemma moves_decision (config : ServerConfig) (d : AdmissionDecision) : moves (send_decision config d).
Proof. unfold send_decision. destruct (_ <? _); [apply moves_error|apply writes]. Qed.
Lemma moves_revalidation (config : ServerConfig) (r : RevalidationResult) : moves (send_revalidation config r).
Proof. unfold send_revalidation. destruct (_ <? _); [apply moves_error|apply writes]. Qed.

Lemma calls_report (config : ServerConfig) (s : Status) (n : nat) : calls n (report_error config s).
Proof.
  apply (calls_bind n n 0); [lia|apply calls_ignore, calls_stream, moves_error|]. intros _. apply calls_ret.
Qed.
Lemma calls_or_return (m : M T unit) (n : nat) : moves m -> calls n (or_return m).
Proof. intros Hm. apply (calls_bind n n 0); [lia|by apply calls_stream|]. intros r. apply calls_ret. Qed.

(** An engine call whose result is sent to the peer. *)
Lemma calls_answer {A} (config : ServerConfig) (m : M EngineCore A) (send : A -> M T unit) :
  (forall k, step k (m k).2) -> (forall a, moves (send a)) ->
  calls 1 (a ← attempt (on_engine m);
           match a with Err status => report_error config status | Val a => or_return (send a) end).
Proof.
  intros Hm Hs. apply (calls_bind 1 1 0); [lia|by apply calls_engine|].
  intros [a|s]; [by apply calls_or_return|apply calls_report].
Qed.
End calls.

Lemma calls_mono {A} (W : T -> T -> Prop) (step step' : EngineCore -> EngineCore -> Prop) (n : nat) (m : M Served A) :
  (forall k k', step k k' -> step' k k') -> calls W step n m -> calls W step' n m.
Proof.
  intros Hsub Hm s. destruct (Hm s) as (a & s' & E & Hw & i & Hi & Hs). exists a, s'. split_and!; [done..|].
  exists i. split; [done|]. clear -Hsub Hs. induction Hs; [constructor|econstructor; eauto].
Qed.

(** Handling a frame takes one engine call at most, and only writes to the stream. *)
Lemma calls_handle_frame (W : T -> T -> Prop) `{!PreOrder W} (config : ServerConfig) (frame : WireFrame) :
  (forall kind flags payload max_frame, moves W (write_message kind flags payload max_frame)) ->
  calls W message_step 1 (handle_frame config frame).
Proof.
  intros Hw.
  assert (Hbye : calls W message_step 1 (ignore (on_stream (send_error config ProtocolViolation
    ("unexpected message " +:+ message_kind_to_string (wf_kind frame)))) ;; mret Return)).
  { apply (calls_bind W _ 1 1 0); [lia|by apply calls_ignore, calls_stream, moves_error|]. intros _. by apply calls_ret. }
  unfold handle_frame. destruct (wf_kind frame); try exact Hbye; try by apply calls_or_return; try by apply calls_ret.
  - unfold handle_admit. destruct (decode_admit _) as [m|s]; [|by apply calls_report].
    apply calls_answer; [done|done|intros k; apply message_admit|by apply moves_decision].
  - unfold handle_revalidate. destruct (decode_revalidate _) as [m|s]; [|by apply calls_report].
    apply calls_answer; [done|done|intros k; apply message_revalidate|by apply moves_revalidation].
  - unfold handle_revoke. destruct (decode_revoke _) as [m|s]; [|by apply calls_report].
    apply calls_answer; [done|done|intros k; apply message_revoke|by apply moves_revalidation].
  - unfold handle_status_request. destruct (negb _); [by apply calls_report|].
    apply (calls_bind W _ 1 0 1); [lia|by apply calls_read|]. intros st. by apply calls_or_return.
  - by apply calls_ret.
Qed.

(** ** Serving, whatever the stream does *)

Definition anyhow (t t' : T) : Prop := True.
#[local] Instance anyhow_preorder : PreOrder anyhow.
Proof. by split. Qed.
Lemma moves_anyhow {A} (m : M T A) : moves anyhow m.
Proof. done. Qed.

Lemma calls_close (step : EngineCore -> EngineCore -> Prop) : calls anyhow step 0 close_stream.
Proof. by apply (calls_ignore anyhow), (calls_stream anyhow). Qed.
Lemma calls_finish {A} (step : EngineCore -> EngineCore -> Prop) (a : A) (n : nat) :
  calls anyhow step n (close_stream ;; mret a).
Proof.
  apply (calls_bind anyhow _ n 0 n); [lia|apply calls_close|]. intros _. apply (calls_ret anyhow).
Qed.
Lemma calls_reply_finish {A B} (step : EngineCore -> EngineCore -> Prop) (m : M T A) (b : B) (n : nat) :
  calls anyhow step n (ignore (on_stream m) ;; close_stream ;; mret b).
Proof.
  apply (calls_bind anyhow _ n 0 n); [lia|by apply (calls_ignore anyhow), (calls_stream anyhow)|].
  intros _. apply calls_finish.
Qed.

Lemma calls_connection (fuel : nat) (config : ServerConfig) (observations : list bool) :
  calls anyhow message_step fuel (handle_connection fuel config observations).
Proof.
  revert observations. induction fuel as [|fuel IH]; intros obs; cbn [handle_connection]; [apply (calls_ret anyhow)|].
  destruct (observe obs) as [stop obs']. destruct stop; [apply (calls_ret anyhow)|].
  apply (calls_bind anyhow _ _ 0 (S fuel)); [lia|by apply (calls_stream anyhow)|]. intros [frame|s].
  - apply (calls_bind anyhow _ _ 1 fuel); [lia|by apply calls_handle_frame|].
    intros []; [apply IH|apply (calls_ret anyhow)|apply (calls_ret anyhow)].
  - destruct (String.eqb _ _); [apply (calls_ret anyhow)|]. destruct (observe obs') as [stop o2].
    destruct stop; [apply (calls_ret anyhow)|].
    apply (calls_bind anyhow _ _ 0 0); [lia|by apply (calls_ignore anyhow), (calls_stream anyhow)|].
    intros _. apply (calls_ret anyhow).
Qed.

Lemma calls_retire (n : SessionNonce) : calls anyhow wire_step 1 (retire n).
Proof. apply (calls_ignore anyhow), (calls_engine anyhow). intros k. apply wire_retire. Qed.

Lemma calls_serve (fuel : nat) (config : ServerConfig) (observations : list bool) :
  calls anyhow wire_step (fuel + 2) (serve fuel config observations).
Proof.
  unfold serve. apply (calls_bind anyhow _ _ 0 (fuel + 2)); [lia|by apply (calls_stream anyhow)|]. intros [frame|s]; [|apply calls_finish].
  destruct (negb _); [apply calls_reply_finish|].
  destruct (decode_hello _) as [hello|s]; [|apply calls_reply_finish].
  destruct (_ <? _); [apply calls_reply_finish|]. unfold serve_hello.
  apply (calls_bind anyhow _ _ 1 (fuel + 1)); [lia|apply (calls_engine anyhow); intros k; apply wire_register|].
  intros [grant|s].
  - unfold serve_session. apply (calls_bind anyhow _ _ 0 (fuel + 1)); [lia|by apply (calls_stream anyhow)|]. intros sent. destruct (negb _).
    + apply (calls_bind anyhow _ _ 1 0); [lia|apply calls_retire|]. intros _. apply calls_finish.
    + apply (calls_bind anyhow _ _ fuel 1); [lia|apply (calls_mono _ message_step); [apply wire_message|apply calls_connection]|].
      intros [[]|]; [| |apply (calls_ret anyhow)].
      * apply (calls_bind anyhow _ _ 1 0); [lia|apply calls_retire|]. intros _. apply calls_finish.
      * apply (calls_bind anyhow _ _ 0 0); [lia|apply (calls_ret anyhow)|]. intros _. apply calls_finish.
  - apply (calls_bind anyhow _ _ 0 0); [lia|apply (calls_read anyhow _ (fun k => k))|]. intros k. apply calls_reply_finish.
Qed.
End engine_side.

(** Each call uses up at most one decision identity and one audit sequence. *)
Definition spends (k k' : EngineCore) : Prop :=
  ek_next_decision_sequence k' <= ek_next_decision_sequence k + 1 /\ ek_audit k' <= ek_audit k + 1.

Lemma admit_spends (k : EngineCore) (request : AdmissionRequest) (claim : ClaimContext) :
  engine_wf k -> sequences_left k -> spends k (admit_locked request claim k).2.
Proof.
  intros Hk Hs. destruct (consumed_ids k Hs) as [E1 E2]. unfold spends.
  destruct (admit_locked request claim k) as [res k'] eqn:E. cbn [snd].
  pose proof (admit_runs k k' request claim res Hk E) as Ha.
  destruct Ha as [b o d k0 k' Hc Ho [Hd Hau _ _ Hr] _ _ _ Hst|s k0 k' Hc Hv _|d k' Hc Hr|res k' Hp Hpl].
  - rewrite (fil_next _ _ _ _ _ _ Hst), (fil_audit _ _ _ _ _ _ Hst). destruct Hc as [c ->].
    change (ek_next_decision_sequence (consumed k) <= ek_next_decision_sequence k + 1 /\
            ek_audit (consumed k) <= ek_audit k + 1). lia.
  - rewrite (vo_next _ _ Hv), (vo_audit _ _ Hv). destruct Hc as [c ->].
    change (ek_next_decision_sequence (consumed k) <= ek_next_decision_sequence k + 1 /\
            ek_audit (consumed k) <= ek_audit k + 1). lia.
  - destruct Hc as [c ->]. cbn. lia.
  - destruct Hpl as [o d k' Ho _ _ Hst|targets d res k' Hj Hi Hres|s k' Hv _].
    + rewrite (fil_next _ _ _ _ _ _ Hst), (fil_audit _ _ _ _ _ _ Hst). lia.
    + destruct Hi as [_ _ Hn Haud _ _ _ _ _]. rewrite Hn, Haud. lia.
    + rewrite (vo_next _ _ Hv), (vo_audit _ _ Hv). lia.
Qed.

Lemma lowered_spends (k k' : EngineCore) : lowered k k' -> spends k k'.
Proof. intros [(j & f & l & h & c & ->) _ _ _ _]. unfold spends. cbn. lia. Qed.

Lemma spends_refl (k : EngineCore) : spends k k.
Proof. unfold spends. lia. Qed.

Lemma register_spends (p : PublisherId) (b : BootId) (k : EngineCore) :
  wp (register_session p b) (fun _ k' => spends k k') k.
Proof.
  unfold register_session. apply wp_bind, wp_get, wp_validated; [intros; apply spends_refl|].
  intros _. apply wp_require_epoch; [intros; apply spends_refl|]. intros _.
  apply wp_validated; [intros; apply spends_refl|]. intros _.
  apply wp_bind, wp_modify, wp_ret. split; cbn; lia.
Qed.
Lemma retire_spends (n : SessionNonce) (k : EngineCore) : wp (retire_session n) (fun _ k' => spends k k') k.
Proof.
  unfold retire_session. apply wp_bind, wp_get. destruct (_ !! n); [|apply spends_refl].
  apply wp_modify. split; cbn; lia.
Qed.

Lemma message_step_safe (k k' : EngineCore) :
  message_step k k' -> engine_wf k -> sequences_left k -> safe_step k true k' /\ spends k k'.
Proof.
  intros [request claim k0|d k0|d reason k0] Hk Hs.
  - split; [by apply safe_admit|by apply admit_spends].
  - pose proof (lowers_revalidate d k0 Hk) as H. split; [by apply safe_lowered|by apply lowered_spends].
  - pose proof (lowers_revoke d reason k0 Hk) as H. split; [by apply safe_lowered|by apply lowered_spends].
Qed.

Lemma wire_step_safe (k k' : EngineCore) :
  engine_wf k -> sequences_left k -> wire_step k k' -> safe_step k true k' /\ spends k k'.
Proof.
  intros Hk Hs [k1 Hm|p b|n].
  - by apply message_step_safe.
  - split; [exact (safe_register k p b Hk)|apply register_spends].
  - split; [exact (safe_retire k n Hk)|apply retire_spends].
Qed.

(** [n] calls from [k] do not exhaust the counters. *)
Definition calls_left (k : EngineCore) (n : nat) : Prop :=
  ek_next_decision_sequence k + N.of_nat n < u64_max /\ ek_audit k + N.of_nat n < u64_max.

Lemma wire_steps_safe (n : nat) (k k' : EngineCore) :
  nsteps wire_step n k k' -> engine_wf k -> calls_left k n ->
  engine_wf k' /\ progress k k' /\ (accounted k -> accounted k').
Proof.
  induction 1 as [k|n k k1 k' Hstep _ IH]; intros Hk [Hn Ha]; [by split_and!|].
  destruct (wire_step_safe k k1 Hk) as [[Hw Hp Hacc _] [H1 H2]]; [split; lia|done|].
  destruct IH as (Hw' & Hp' & Hacc'); [done|split; lia|].
  split_and!; [done|by etrans|intros H; apply Hacc', Hacc; done].
Qed.

(** C18: no peer can break the accounting.  Whatever bytes arrive on a connection, in
    whatever pieces, however its writes fail and whenever the server is stopped,
    serving it never fails, takes the engine through calls of admission,
    revalidation, revocation and session handling only, at most two more than the
    frames it may read, and leaves it well-formed: clocks and identities have only
    advanced, and load that was within the authority's allowance still is. *)
Theorem serving_keeps_accounting {T : Type} {stream : Stream T} (fuel : nat) (config : ServerConfig)
    (observations : list bool) (t : T) (k : EngineCore) (Hk : engine_wf k)
    (Hleft : calls_left k (fuel + 2)) :
  exists served t' k', serve fuel config observations (t, k) = (Val served, (t', k')) /\
    (exists n, (n <= fuel + 2)%nat /\ nsteps wire_step n k k') /\
    engine_wf k' /\ progress k k' /\
    (accounted k -> ek_capacity k' <> None ->
     forall r, admitted (ek_ledger k') r = 0 \/
       exists cap, find_capacity k' r = Some cap /\ rc_evidence cap = EvidenceKnown /\
         admitted (ek_ledger k') r <= allowance_of k' r cap).
Proof.
  destruct (calls_serve fuel config observations (t, k)) as (served & [t' k'] & E & _ & n & Hn & Hsteps).
  cbn [snd] in Hsteps. exists served, t', k'. split; [done|]. split; [by exists n|].
  destruct (wire_steps_safe n k k' Hsteps Hk) as (Hw & Hp & Ha).
  { destruct Hleft. split; lia. }
  split_and!; [done..|]. intros Hacc Hc r. apply (accounted_within k' (ew_ledger k' Hw) (Ha Hacc) Hc).
Qed.

(** The witness's server: a policy-only engine with an epoch, and a claimant that
    registers, asks for its status and leaves without a word. *)
Definition server_config : ServerConfig := ServerConfig_new.
Definition hello_frame : list N :=
  encode_wire_frame MK_Hello 0 (encode_hello (mkHelloMessage protocol_version 7 3 max_frame_bytes 3)).
Definition bye_frame : list N := encode_wire_frame MK_Bye 0 [].
Definition peer_sends (frames : list (list N)) : MemoryStream :=
  mkMemoryStream (concat frames) [] default_capacity true true.

Lemma serving_keeps_accounting_witness :
  exists t' k', serve 4 server_config [] (peer_sends [hello_frame; bye_frame], sample_engine) =
    (Val true, (t', k')) /\ engine_wf k'.
Proof.
  assert (Hleft : calls_left sample_engine 6) by (by vm_compute).
  destruct (serving_keeps_accounting 4 server_config [] (peer_sends [hello_frame; bye_frame]) sample_engine
    sample_engine_wf Hleft) as (served & t' & k' & E & _ & Hw & _).
  exists t', k'. split; [|exact Hw].
  assert (Hs : (serve 4 server_config [] (peer_sends [hello_frame; bye_frame], sample_engine)).1 = Val true)
    by (by vm_compute).
  rewrite E in Hs. cbn [fst] in Hs. injection Hs as ->. exact E.
Defined.

(** ** What a connection leaves behind *)

Lemma message_step_sessions (k k' : EngineCore) :
  message_step k k' -> engine_wf k -> ek_sessions k' = ek_sessions k.
Proof.
  intros [request claim k0|d k0|d reason k0] Hk.
  - destruct (admit_locked request claim k0) as [res k9] eqn:E. cbn [snd].
    pose proof (admit_runs k0 k9 request claim res Hk E) as Ha.
    destruct Ha as [b o d k1 k2 Hc Ho _ _ _ _ Hst|s k1 k2 Hc Hv _|d k2 Hc Hr|res k2 Hp Hpl].
    + rewrite (si_sessions _ _ (fil_inputs _ _ _ _ _ _ Hst)). by destruct Hc as [c ->].
    + rewrite (si_sessions _ _ (vo_inputs _ _ Hv)). by destruct Hc as [c ->].
    + by destruct Hc as [c ->].
    + destruct Hpl as [o d k3 _ _ _ Hst|targets d res k3 _ Hi _|s k3 Hv _].
      * by rewrite (si_sessions _ _ (fil_inputs _ _ _ _ _ _ Hst)).
      * by rewrite (si_sessions _ _ (ins_inputs _ _ _ _ _ Hi)).
      * by rewrite (si_sessions _ _ (vo_inputs _ _ Hv)).
  - by destruct (lowers_revalidate d k0 Hk) as [(j & f & l & h & c & ->) _ _ _ _].
  - by destruct (lowers_revoke d reason k0 Hk) as [(j & f & l & h & c & ->) _ _ _ _].
Qed.

Lemma message_steps_sessions (n : nat) (k k' : EngineCore) :
  nsteps message_step n k k' -> engine_wf k -> calls_left k n -> ek_sessions k' = ek_sessions k.
Proof.
  induction 1 as [k|n k k1 k' Hstep _ IH]; intros Hk [Hn Ha]; [done|].
  destruct (message_step_safe k k1 Hstep Hk) as [[Hw _ _] [H1 H2]]; [split; lia|].
  rewrite IH; [by apply message_step_sessions|done|split; lia].
Qed.

Section settled.
Context {T : Type} {stream : Stream T} {incoming written : T -> list N}
  {reliable : ReliableStream T incoming written}.

(** Nothing is read from an open stream. *)
Definition unread (t t' : T) : Prop :=
  is_open t = true -> incoming t' = incoming t /\ is_open t' = true.
#[local] Instance unread_preorder : PreOrder unread.
Proof.
  split; [done|]. intros t1 t2 t3 H12 H23 Ho. destruct (H12 Ho) as [<- Ho2]. by apply H23.
Qed.

Lemma unread_write (kind : MessageKind) (flags : N) (payload : list N) (max_frame : N) :
  moves unread (write_message kind flags payload max_frame).
Proof.
  intros t. unfold write_message. destruct (_ <? _); [done|]. intros Ho.
  destruct (write_all _ t) as [r t'] eqn:E. by destruct (write_reliable _ t r t' Ho E) as (? & ? & _).
Qed.

(** A frame takes at least its header off the stream. *)
Lemma read_progress (t t' : T) (max_frame : N) (m : WireFrame) :
  is_open t = true -> Forall is_byte (incoming t) -> read_message max_frame t = (Val m, t') ->
  is_open t' = true /\ Forall is_byte (incoming t') /\ (length (incoming t') + 20 <= length (incoming t))%nat /\
  incoming t = encode_wire_frame (wf_kind m) (wf_flags m) (wf_payload m) ++ incoming t'.
Proof.
  intros Ho Hb E. destruct (deliver_only_sent t max_frame Ho Hb m t' E) as (Hin & _ & _ & _ & Ho').
  split_and!; [done| | |done].
  - rewrite Hin in Hb. by apply Forall_app in Hb as [_ Hb].
  - rewrite Hin, length_app, encoded_frame, length_app, header_bytes_length. lia.
Qed.
Lemma goodbye_is_bye (config : ServerConfig) (frame : WireFrame) (s s' : @Served T) :
  handle_frame config frame s = (Val Goodbye, s') -> wf_kind frame = MK_Bye.
Proof.
  unfold handle_frame, handle_admit, handle_revalidate, handle_revoke, handle_status_request, report_error,
    or_return, ignore, attempt, mbind, M_bind, mret, M_ret.
  destruct (wf_kind frame); repeat case_match; naive_solver.
Qed.

(** Frames the peer sent end in a [Bye]. *)
Definition said_bye (bytes : list N) : Prop :=
  exists before flags payload after, bytes = before ++ encode_wire_frame MK_Bye flags payload ++ after.
Lemma said_bye_app (l bytes : list N) : said_bye bytes -> said_bye (l ++ bytes).
Proof. intros (b & f & p & a & ->). exists (l ++ b), f, p, a. by rewrite <- app_assoc. Qed.

Lemma stream_step {A} (m : M T A) (t : T) (k : EngineCore) :
  attempt (on_stream m) (t, k) = (Val (m t).1, ((m t).2, k)).
Proof. unfold attempt, on_stream. cbn. by destruct (m t). Qed.

Lemma ignore_step {A} (m : M T A) (t : T) (k : EngineCore) :
  ignore (on_stream m) (t, k) = (Val tt, ((m t).2, k)).
Proof. unfold ignore. by rewrite (bind_run _ _ _ _ _ (stream_step m t k)). Qed.
Lemma engine_step_run {A} (m : M EngineCore A) (t : T) (k : EngineCore) :
  attempt (on_engine m) (t, k) = (Val (m k).1, (t, (m k).2)).
Proof. unfold attempt, on_engine. cbn. by destruct (m k). Qed.
Lemma retire_step (n : SessionNonce) (t : T) (k : EngineCore) :
  retire n (t, k) = (Val tt, (t, (retire_session n k).2)).
Proof. unfold retire, ignore. by rewrite (bind_run _ _ _ _ _ (engine_step_run _ t k)). Qed.

Lemma connection_ends (fuel : nat) (config : ServerConfig) (observations : list bool) (t : T) (k : EngineCore) :
  is_open t = true -> Forall is_byte (incoming t) -> (length (incoming t) < 20 * fuel)%nat ->
  exists b s', handle_connection fuel config observations (t, k) = (Val (Some b), s') /\
    (b = false -> said_bye (incoming t)).
Proof.
  revert observations t k. induction fuel as [|fuel IH]; intros obs t k Ho Hb Hf; [lia|]. cbn [handle_connection].
  destruct (observe obs) as [stop obs']. destruct stop; [by eexists _, _|].
  rewrite (bind_run _ _ _ _ _ (stream_step (read_message (sv_max_frame config)) t k)).
  destruct (read_message (sv_max_frame config) t) as [[frame|s] t1] eqn:E; cbn [fst snd].
  - destruct (read_progress t t1 _ frame Ho Hb E) as (Ho1 & Hb1 & Hlen & Hin).
    destruct (calls_handle_frame unread config frame unread_write (t1, k)) as (flow & [t2 k2] & E2 & Hw & _).
    rewrite (bind_run _ _ _ _ _ E2). destruct (Hw Ho1) as [Hi2 Ho2]. cbn [fst snd] in Hi2, Ho2.
    destruct flow.
    + destruct (IH obs' t2 k2) as (b & s' & E' & Hbye); [done|by rewrite Hi2|rewrite Hi2; lia|].
      exists b, s'. split; [done|]. intros Hbf. rewrite Hin. apply said_bye_app. rewrite <- Hi2. by apply Hbye.
    + by eexists _, _.
    + eexists _, _. split; [done|]. intros _. exists [], (wf_flags frame), (wf_payload frame), (incoming t1).
      by rewrite <- (goodbye_is_bye _ _ _ _ E2).
  - destruct (String.eqb _ _); [by eexists _, _|]. destruct (observe obs') as [stop o2].
    destruct stop; [by eexists _, _|]. rewrite (bind_run _ _ _ _ _ (ignore_step _ t1 k)).
    by eexists _, _.
Qed.
(** The ways a run can end that leave no trace of the connection. *)
Definition closed_run (sessions : gmap N SessionRecord) (run : Expected bool * @Served T) : Prop :=
  exists t' k', run = (Val true, (t', k')) /\ is_open t' = false /\ ek_sessions k' = sessions.

Lemma finish_closed (t : T) (k : EngineCore) (sessions : gmap N SessionRecord) :
  ek_sessions k = sessions -> closed_run sessions ((close_stream ;; mret true) (t, k)).
Proof.
  intros Hs. unfold close_stream. rewrite (bind_run _ _ _ _ _ (ignore_step close t k)).
  eexists _, _. split; [done|]. split; [by apply (close_reliable t)|done].
Qed.
Lemma reply_closed {A} (m : M T A) (t : T) (k : EngineCore) :
  closed_run (ek_sessions k) ((ignore (on_stream m) ;; close_stream ;; mret true) (t, k)).
Proof. rewrite (bind_run _ _ _ _ _ (ignore_step m t k)). by apply finish_closed. Qed.

Lemma register_shape (p : PublisherId) (b : BootId) (k : EngineCore) :
  (exists s, register_session p b k = (Err s, k)) \/
  (exists g k1 record, register_session p b k = (Val g, k1) /\ sg_session g = ek_next_session_nonce k /\
    (ek_sessions k !! sg_session g = None -> ek_sessions k1 = <[sg_session g := record]> (ek_sessions k))).
Proof.
  unfold register_session, require_epoch, mbind, M_bind, get, lift, modify.
  destruct (refuse_if (_ || _) _) as [[]|]; [|left; by eexists].
  destruct (refuse_if (epoch_is_none _) _) as [[]|]; [|left; by eexists].
  destruct (refuse_if _ _) as [[]|]; [|left; by eexists].
  right. eexists _, _, _. split; [done|]. split; [done|]. cbn [sg_session]. intros E. cbn. by rewrite E.
Qed.
Lemma retire_shape (n : SessionNonce) (k : EngineCore) :
  ek_sessions (retire_session n k).2 = delete n (ek_sessions k).
Proof.
  unfold retire_session, mbind, M_bind, get, modify. destruct (ek_sessions k !! n) eqn:E; [done|].
  cbn. by rewrite delete_id.
Qed.

(** What is left of a connection's session: nothing, or the session when the peer said [Bye]. *)
Definition account_settled (bytes : list N) (n : SessionNonce) (sessions : gmap N SessionRecord)
    (run : Expected bool * @Served T) : Prop :=
  exists t' k', run = (Val true, (t', k')) /\ is_open t' = false /\
    (ek_sessions k' = sessions \/
     said_bye bytes /\ exists record, ek_sessions k' = <[n := record]> sessions).

Lemma closed_settled (bytes : list N) (n : SessionNonce) (sessions : gmap N SessionRecord)
    (run : Expected bool * @Served T) : closed_run sessions run -> account_settled bytes n sessions run.
Proof. intros (t' & k' & E & Hc & Hs). exists t', k'. split_and!; [done|done|by left]. Qed.

Lemma retire_closed (n : SessionNonce) (record : SessionRecord) (sessions : gmap N SessionRecord)
    (t : T) (k : EngineCore) :
  sessions !! n = None -> ek_sessions k = <[n := record]> sessions ->
  closed_run sessions ((retire n ;; close_stream ;; mret true) (t, k)).
Proof.
  intros Hn Hs. rewrite (bind_run _ _ _ _ _ (retire_step n t k)). apply finish_closed.
  by rewrite retire_shape, Hs, delete_insert_id.
Qed.

Lemma session_settled (fuel : nat) (config : ServerConfig) (observations : list bool) (grant : SessionGrant)
    (record : SessionRecord) (sessions : gmap N SessionRecord) (t : T) (k : EngineCore) :
  is_open t = true -> Forall is_byte (incoming t) -> (length (incoming t) < 20 * fuel)%nat ->
  engine_wf k -> calls_left k fuel ->
  sessions !! sg_session grant = None -> ek_sessions k = <[sg_session grant := record]> sessions ->
  account_settled (incoming t) (sg_session grant) sessions (serve_session fuel config observations grant (t, k)).
Proof.
  intros Ho Hb Hf Hk Hleft Hn Hs. unfold serve_session.
  rewrite (bind_run _ _ _ _ _ (stream_step _ t k)).
  match goal with |- context[write_message MK_Welcome 0 ?p ?m] =>
    destruct (unread_write MK_Welcome 0 p m t Ho) as [Hi Ho1]; destruct (write_message MK_Welcome 0 p m t) as [sent t1] end.
  cbn [fst snd] in *. destruct (negb _); [by eapply closed_settled, retire_closed|].
  destruct (connection_ends fuel config observations t1 k) as (b & [t2 k2] & E & Hbye);
    [done|by rewrite Hi|by rewrite Hi|].
  destruct (calls_connection fuel config observations (t1, k)) as (r & s2 & E' & _ & n & Hle & Hsteps).
  rewrite E in E'. injection E' as <- <-. cbn [snd] in Hsteps.
  assert (Hs2 : ek_sessions k2 = <[sg_session grant := record]> sessions).
  { rewrite <- Hs. eapply message_steps_sessions; [done|done|]. destruct Hleft; split; lia. }
  rewrite (bind_run _ _ _ _ _ E). destruct b; [by eapply closed_settled, retire_closed|].
  unfold mbind at 1, M_bind at 1, mret at 1, M_ret at 1.
  destruct (finish_closed t2 k2 _ Hs2) as (t' & k' & E2 & Hc & Hs').
  exists t', k'. split_and!; [done|done|right]. rewrite <- Hi. split; [by apply Hbye|by exists record].
Qed.

(** C19: serving ends, and settles the connection's account.  On a reliable transport,
    whatever the peer sends, [serve] returns after at most one turn per twenty bytes,
    leaves the stream closed, and touches no session but its own: the session it
    registered is retired again, unless the peer said [Bye]. *)
Theorem serving_settles (fuel : nat) (config : ServerConfig) (observations : list bool)
    (t : T) (k : EngineCore) (Ho : is_open t = true) (Hb : Forall is_byte (incoming t))
    (Hfuel : (length (incoming t) < 20 * fuel)%nat) (Hk : engine_wf k) (Hleft : calls_left k (fuel + 2))
    (Hfresh : ek_sessions k !! ek_next_session_nonce k = None) :
  exists t' k', serve fuel config observations (t, k) = (Val true, (t', k')) /\ is_open t' = false /\
    (ek_sessions k' = ek_sessions k \/
     said_bye (incoming t) /\
     exists record, ek_sessions k' = <[ek_next_session_nonce k := record]> (ek_sessions k)).
Proof.
  change (account_settled (incoming t) (ek_next_session_nonce k) (ek_sessions k) (serve fuel config observations (t, k))).
  unfold serve. rewrite (bind_run _ _ _ _ _ (stream_step _ t k)).
  destruct (read_message _ t) as [[frame|s] t1] eqn:E; cbn [fst snd]; [|by apply closed_settled, finish_closed].
  destruct (read_progress t t1 _ frame Ho Hb E) as (Ho1 & Hb1 & Hlen & Hin).
  destruct (negb _); [apply closed_settled, reply_closed|].
  destruct (decode_hello _) as [hello|s]; [|apply closed_settled, reply_closed].
  destruct (_ <? _); [apply closed_settled, reply_closed|]. unfold serve_hello.
  rewrite (bind_run _ _ _ _ _ (engine_step_run _ t1 k)).
  pose proof (safe_register k (hm_publisher hello) (hm_boot hello) Hk) as Hsafe.
  pose proof (register_spends (hm_publisher hello) (hm_boot hello) k) as Hsp.
  destruct (register_shape (hm_publisher hello) (hm_boot hello) k) as [(s & Er)|(g & k1 & rec & Er & Hg & Hs)];
    destruct (wp_elim _ _ _ _ _ Hsafe Er) as [Hwf _ _]; rewrite Er; cbn [fst snd].
  { apply closed_settled. unfold mbind at 1, M_bind at 1. cbn. apply reply_closed. }
  destruct (session_settled fuel config observations g rec (ek_sessions k) t1 k1) as (t' & k' & E' & Hc & Hs');
    [done|done|lia|done| |by rewrite Hg|apply Hs; by rewrite Hg|].
  - destruct Hleft, (wp_elim _ _ _ _ _ Hsp Er). split; lia.
  - exists t', k'. split_and!; [done|done|]. rewrite Hg in Hs'. destruct Hs' as [?|[Hbye ?]]; [by left|right].
    split; [|done]. rewrite Hin. by apply said_bye_app.
Qed.
End settled.

Lemma serving_settles_witness :
  exists t' k', serve 8 server_config [] (peer_sends [hello_frame], sample_engine) = (Val true, (t', k')) /\
    ms_open t' = false /\ (ek_sessions k' = ek_sessions sample_engine \/
     said_bye (ms_incoming (peer_sends [hello_frame])) /\
     exists record, ek_sessions k' = <[1 := record]> (ek_sessions sample_engine)).
Proof.
  apply (serving_settles (reliable := memory_reliable) 8 server_config [] (peer_sends [hello_frame]) sample_engine).
  - reflexivity.
  - apply (bool_decide_unpack _). vm_compute. exact I.
  - apply Nat.ltb_lt. vm_compute. reflexivity.
  - exact sample_engine_wf.
  - by vm_compute.
  - reflexivity.
Defined.

(** Two claimants, one after the other, of a server for one session: the first sends
    the given frames after its hello. *)
Definition single_session : EngineConfig :=
  mkEngineConfig 1 1 0 max_decision_records max_attempt_records max_ledger_entries 1 true.
Definition single_engine : EngineCore := AdmissionEngine_new single_session.
Definition served_by (k : EngineCore) (frames : list (list N)) : MemoryStream * EngineCore :=
  (serve 8 server_config [] (peer_sends frames, k)).2.
Definition reply_of (m : MemoryStream) : Expected WireFrame :=
  (read_message (T := MemoryStream) max_frame_bytes (mkMemoryStream (ms_outgoing m) [] default_capacity true true)).1.
Definition welcome_after (frames : list (list N)) : Expected WelcomeMessage :=
  match reply_of (served_by (served_by single_engine (hello_frame :: frames)).2 [hello_frame]).1 with
  | Val frame => decode_welcome (wf_payload frame)
  | Err s => Err s
  end.

(** A peer that says [Bye] leaves its session behind.  The handler clears
    [registered] before it returns, so the session of an orderly goodbye is the one
    that [serve] does not retire; a peer that just disconnects is retired.  With
    room for one session, the next claimant is refused after the orderly goodbye and
    welcome after the disconnection. *)
Theorem orderly_goodbye_leaks_session :
  welcome_after [bye_frame] = Val (mkWelcomeMessage false 1 1 0 "session capacity is exhausted") /\
  welcome_after [] = Val (mkWelcomeMessage true 1 1 2 "session established").
Proof. split; vm_compute; reflexivity. Qed.

(** ** What the wire lets through *)

Definition admit_frame (claim : ClaimContext) (request : AdmissionRequest) : list N :=
  encode_wire_frame MK_Admit 0 (encode_admit (mkAdmitMessage claim request)).
Definition revoke_frame (claim : ClaimContext) (d : AdmissionDecisionId) : list N :=
  encode_wire_frame MK_Revoke 0 (encode_revoke (mkRevokeMessage claim d OperatorRequest)).
Definition nobody (origin : OriginKind) : ClaimContext := mkClaimContext origin 9 9 0 0 0 1 0 0.
Definition load_after (k : EngineCore) (frames : list (list N)) : Rate :=
  admitted (ek_ledger (served_by k (hello_frame :: frames)).2) 1.

(** Fencing is not enforced on the wire.  The claim of an Admit message is decoded
    with whatever origin the peer wrote, and the engine accepts in-process claims by
    default: a peer that writes [InProcess], with no epoch, no session and another's
    publisher, is granted load for which the same claim as a claimant's is refused.
    The claim of a Revoke message is not looked at: a stranger's releases a grant. *)
Theorem wire_claims_unfenced :
  load_after sample_engine [admit_frame (nobody InProcess) (sample_request 1 3)] = 50 /\
  load_after sample_engine [admit_frame (nobody Claimant) (sample_request 1 3)] = 0 /\
  load_after first_run.2 [] = 50 /\
  load_after first_run.2 [revoke_frame (nobody Claimant) (ad_decision (decision_of first_run))] = 0.
Proof. split_and!; vm_compute; reflexivity. Qed.
