(* ===== verification/Exchange.v ===== *)
(** * Claimant and coordinator together: properties

    A request travels through the client, the frames, the server and the engine, and
    its decision back. *)

From S2P Require Import Prelude Checked Identity Hash State Policy Request Authority.
From S2P Require Import Decision.
From S2P Require Import Ledger History Bytes Records Journal Engine Admission Capacity.
From S2P Require Import Frames Grant Safety Api Enforce Reach Fencing Protocol Stream Wire.
From S2P Require Import Server Client Service.
Local Open Scope N_scope.
Local Open Scope naf_scope.

(** ** The server's side *)

Definition decision_frame (d : AdmissionDecision) : list N := encode_wire_frame MK_Decision 0 (encode_decision d).

Section coordinator.
Context {T : Type} {stream : Stream T} {incoming written : T -> list N}
  {reliable : ReliableStream T incoming written}.

(** The decision goes out, and the connection goes on if it could be sent. *)
Lemma answer_admit (config : ServerConfig) (m : AdmitMessage) (t : T) (k k' : EngineCore)
    (d : AdmissionDecision) :
  admit_sendable m -> admit_locked (am_request m) (am_claim m) k = (Val d, k') ->
  sizeN (encode_decision d) <= sv_max_frame config ->
  handle_frame config (mkWireFrame MK_Admit 0 (encode_admit m)) (t, k) =
    (Val (if has_value (write_all (decision_frame d) t).1 then NextMessage else Return),
     ((write_all (decision_frame d) t).2, k')).
Proof.
  intros Hm Ha Hs. unfold handle_frame, handle_admit. cbn [wf_kind wf_payload].
  rewrite (codec_roundtrip m Hm), (bind_run _ _ _ _ _ (engine_step_run _ t k)).
  unfold engine_admit. rewrite Ha. cbn [fst snd]. unfold or_return.
  rewrite (bind_run _ _ _ _ _ (stream_step _ t k')). unfold send_decision, write_message.
  apply N.ltb_ge in Hs as ->. reflexivity.
Qed.

(** A request that starts the incoming bytes is read, decided and answered. *)
Lemma serve_admit (config : ServerConfig) (m : AdmitMessage) (t : T) (k k' : EngineCore)
    (d : AdmissionDecision) (rest : list N) :
  is_open t = true -> incoming t = encode_wire_frame MK_Admit 0 (encode_admit m) ++ rest ->
  admit_sendable m -> sizeN (encode_admit m) <= sv_max_frame config -> sv_max_frame config < two32 ->
  admit_locked (am_request m) (am_claim m) k = (Val d, k') ->
  sizeN (encode_decision d) <= sv_max_frame config ->
  exists t1, let '(sent, t2) := write_all (decision_frame d) t1 in
    read_message (sv_max_frame config) t = (Val (mkWireFrame MK_Admit 0 (encode_admit m)), t1) /\
    handle_frame config (mkWireFrame MK_Admit 0 (encode_admit m)) (t1, k) =
      (Val (if has_value sent then NextMessage else Return), (t2, k')) /\
    incoming t2 = rest /\ is_open t2 = true /\
    (has_value sent = true -> written t2 = written t ++ decision_frame d).
Proof.
  intros Ho Hin Hm Hs Hmax Ha Hd.
  destruct (deliver_whole t (sv_max_frame config) Ho Hmax MK_Admit 0 (encode_admit m) rest)
    as (t1 & E & Hi & Hw & Ho1); [done..|].
  exists t1. pose proof (answer_admit config m t1 k k' d Hm Ha Hd) as Hans.
  destruct (write_all (decision_frame d) t1) as [sent t2] eqn:Ew. cbn [fst snd] in Hans.
  destruct (write_reliable _ t1 sent t2 Ho1 Ew) as (Hi2 & Ho2 & Hok & _).
  split_and!; [done|done|by rewrite Hi2|done|]. rewrite <- Hw.
  destruct sent as [[]|s]; [intros _; by apply Hok|done].
Qed.
End coordinator.

(** ** The claimant's side *)

Section claimant.
Context {T : Type} {stream : Stream T} {incoming written : T -> list N}
  {reliable : ReliableStream T incoming written} (foreign_code : N -> StatusCode).

(** A connected client whose reply is waiting gets it. *)
Lemma request_reply (c : Client T) (t t' : T) (kind kind' : MessageKind) (payload payload' rest : list N) :
  cl_stream c = Some t -> is_open t = true ->
  write_all (encode_wire_frame kind 0 payload) t = (Val tt, t') ->
  incoming t = encode_wire_frame kind' 0 payload' ++ rest ->
  sizeN payload <= co_max_frame (cl_options c) -> sizeN payload' <= co_max_frame (cl_options c) ->
  co_max_frame (cl_options c) < two32 -> kind' <> MK_Error ->
  exists t2, request foreign_code kind payload c =
      (Val (mkWireFrame kind' 0 payload'), c <| cl_stream := Some t2 |>) /\
    written t2 = written t ++ encode_wire_frame kind 0 payload /\ incoming t2 = rest /\ is_open t2 = true.
Proof.
  intros Hc Ho Hw Hin Hp Hp' Hmax Hk.
  destruct (write_reliable _ t _ t' Ho Hw) as (Hi & Ho' & Hok & _).
  destruct (deliver_whole t' (co_max_frame (cl_options c)) Ho' Hmax kind' 0 payload' rest)
    as (t2 & E & Hi2 & Hw2 & Ho2); [done|done|by rewrite Hi|].
  exists t2. split_and!; [|by rewrite Hw2, (Hok eq_refl)|done|done].
  unfold request, mbind, M_bind, get, on_connection. rewrite Hc. cbv beta iota. rewrite Hc. unfold write_message.
  rewrite (proj2 (N.ltb_ge _ _) Hp), Hw. cbn [cl_stream set_field]. cbv beta iota. rewrite E. cbn [wf_kind].
  rewrite bool_decide_false by done. reflexivity.
Qed.
End claimant.

(** ** Both sides *)

(** C16: an admission over the wire is an admission.  When the bytes the client sends
    are the bytes the server receives and the other way round, in whatever pieces,
    [Client::admit] returns the decision [EngineCore::admit_locked] made on the
    client's own claim and request, up to what the reply cannot carry; each side has
    read exactly the other's frame, the server has written exactly the decision's
    frame unless its transport failed, and the engine is as the local call leaves it. *)
Theorem remote_admission {Tc Ts : Type} {stream_c : Stream Tc} {stream_s : Stream Ts}
    {incoming_c written_c : Tc -> list N} {incoming_s written_s : Ts -> list N}
    {reliable_c : ReliableStream Tc incoming_c written_c}
    {reliable_s : ReliableStream Ts incoming_s written_s}
    (foreign_code : N -> StatusCode) (c : Client Tc) (tc tc' : Tc) (value : AdmissionRequest)
    (config : ServerConfig) (ts : Ts) (k k' : EngineCore) (d : AdmissionDecision) (more rest : list N)
    (m : AdmitMessage) (Hm : m = admit_message (c <| cl_sequence := cl_sequence c +w 1 |>) value)
    (Hc : cl_stream c = Some tc) (Hoc : is_open tc = true) (Hos : is_open ts = true)
    (Hms : admit_sendable m) (Hds : decision_sendable d)
    (Hmax : co_max_frame (cl_options c) < two32 /\ sv_max_frame config < two32)
    (Hsize : sizeN (encode_admit m) <= N.min (co_max_frame (cl_options c)) (sv_max_frame config) /\
             sizeN (encode_decision d) <= N.min (co_max_frame (cl_options c)) (sv_max_frame config))
    (Hsend : write_all (encode_wire_frame MK_Admit 0 (encode_admit m)) tc = (Val tt, tc'))
    (Hserver : incoming_s ts = encode_wire_frame MK_Admit 0 (encode_admit m) ++ more)
    (Hrun : admit_locked value (am_claim m) k = (Val d, k'))
    (Hclient : incoming_c tc = decision_frame d ++ rest) :
  (exists ts1, let '(sent, ts2) := write_all (decision_frame d) ts1 in
    read_message (sv_max_frame config) ts = (Val (mkWireFrame MK_Admit 0 (encode_admit m)), ts1) /\
    handle_frame config (mkWireFrame MK_Admit 0 (encode_admit m)) (ts1, k) =
      (Val (if has_value sent then NextMessage else Return), (ts2, k')) /\
    incoming_s ts2 = more /\ is_open ts2 = true /\
    (has_value sent = true -> written_s ts2 = written_s ts ++ decision_frame d)) /\
  (exists c' tc2, client_admit foreign_code value c = (Val (received_decision d), c') /\
    cl_stream c' = Some tc2 /\ incoming_c tc2 = rest /\
    written_c tc2 = written_c tc ++ encode_wire_frame MK_Admit 0 (encode_admit m)).
Proof.
  destruct Hmax as [Hmc Hmsv], Hsize as [Hsm Hsd]. split.
  - apply (serve_admit config m ts k k' d more); [done|done|done|lia|done| |lia]. by rewrite Hm in Hrun |- *.
  - set (c1 := c <| cl_sequence := cl_sequence c +w 1 |>) in *.
    destruct (request_reply foreign_code c1 tc tc' MK_Admit MK_Decision (encode_admit m) (encode_decision d) rest)
      as (tc2 & E & Hw & Hi & Ho); [done|done|done|done|change (cl_options c1) with (cl_options c); lia..|done|done|].
    exists (c1 <| cl_stream := Some tc2 |>), tc2. split_and!; [|done|done|done].
    unfold client_admit, modify, mbind, M_bind, get. cbv beta iota. fold c1.
    rewrite <- Hm, E. unfold expect. cbn [wf_kind wf_payload]. rewrite bool_decide_true by done.
    unfold refuse_if, lift. cbn [negb]. by rewrite (decision_received d Hds).
Qed.


(** ** A claimant, its request and the decision on it *)

(** The session is the one [session_run] registers. *)
Definition claimant : Client MemoryStream :=
  (Client_new (mkClientOptions "naf-coordinator" 7 3 max_frame_bytes 5000 Claimant))
    <| cl_welcome := mkWelcomeMessage true 1 0 1 "session established" |>.
Definition first_message : AdmitMessage :=
  admit_message (claimant <| cl_sequence := 1 |>) (sample_request 1 3).
Definition remote_run : Expected AdmissionDecision * EngineCore :=
  admit_locked (sample_request 1 3) (am_claim first_message) session_run.2.
Definition remote_decision : AdmissionDecision := Eval vm_compute in decision_of remote_run.
Lemma remote_run_value : remote_run = (Val remote_decision, remote_run.2).
Proof. apply unit_run. vm_compute. reflexivity. Qed.

Lemma first_message_sendable : admit_sendable first_message.
Proof. sendable. Qed.
Lemma remote_decision_sendable : decision_sendable remote_decision.
Proof.
  split; [|split].
  - unfold decision_fields_sendable. cbn. split_and!; try done. repeat constructor; done.
  - split; [|cbn; repeat constructor; done].
    constructor; cbn; try done. by repeat constructor.
  - split; [|cbn; repeat constructor; done]. constructor; [|done].
    apply (bool_decide_unpack _). vm_compute. exact I.
Qed.

(** The client's connection, with the reply waiting, and the server's. *)
Definition client_stream : MemoryStream :=
  mkMemoryStream (decision_frame remote_decision) [] default_capacity true true.
Definition server_stream : MemoryStream := peer_sends [encode_wire_frame MK_Admit 0 (encode_admit first_message)].

Lemma remote_admission_witness :
  exists c', client_admit (T := MemoryStream) (fun _ => Internal) (sample_request 1 3)
      (claimant <| cl_stream := Some client_stream |>) = (Val (received_decision remote_decision), c') /\
    ad_outcome (received_decision remote_decision) = Admit.
Proof.
  destruct (remote_admission (reliable_c := memory_reliable) (reliable_s := memory_reliable)
    (fun _ => Internal) (claimant <| cl_stream := Some client_stream |>) client_stream
    (memory_write_all (encode_wire_frame MK_Admit 0 (encode_admit first_message)) client_stream).2
    (sample_request 1 3) server_config server_stream session_run.2 remote_run.2 remote_decision [] []
    first_message) as (_ & c' & tc2 & E & _).
  - reflexivity.
  - reflexivity.
  - reflexivity.
  - reflexivity.
  - apply first_message_sendable.
  - apply remote_decision_sendable.
  - split; reflexivity.
  - split; apply N.leb_le; vm_compute; reflexivity.
  - apply unit_run. vm_compute. reflexivity.
  - reflexivity.
  - exact remote_run_value.
  - symmetry. apply app_nil_r.
  - exists c'. split; [exact E|reflexivity].
Defined.

(** The claimant's first connection breaks before the reply; it registers again and
    asks again. *)
Definition broken_stream : MemoryStream := mkMemoryStream [] [] 0 true true.
Definition second_run : Expected SessionGrant * EngineCore :=
  register_session 7 3 (retire_session 1 remote_run.2).2.
Definition second_message : AdmitMessage :=
  admit_message (claimant <| cl_welcome := mkWelcomeMessage true 1 0 2 "session established" |>
                          <| cl_sequence := 1 |>) (sample_request 1 3).

