(* ===== verification/Demo.v ===== *)
(** * The tools run together

    [nafd] with its demo profile on an empty state directory, and [nafctl] talking to
    it, evaluated from the command line to the exit code and the state left behind. *)

From S2P Require Import Prelude.
From S2P Require Import Checked.
From S2P Require Import Identity.
From S2P Require Import Hash.
From S2P Require Import State.
From S2P Require Import Policy.
From S2P Require Import Request.
From S2P Require Import Authority.
From S2P Require Import Decision.
From S2P Require Import Ledger.
From S2P Require Import History.
From S2P Require Import Bytes.
From S2P Require Import Records.
From S2P Require Import Journal.
From S2P Require Import Engine.
From S2P Require Import Recovery.
From S2P Require Import Admission.
From S2P Require Import Api.
From S2P Require Import Restart.
From S2P Require Import Protocol.
From S2P Require Import Stream.
From S2P Require Import Wire.
From S2P Require Import Server.
From S2P Require Import Client.
From S2P Require Import Tools.
Local Open Scope N_scope.
Local Open Scope naf_scope.

(** ** A connection to a running server

    The server has seen [lb_sent]; what it answers is what [serve] writes when it is
    given those bytes and then the end of the stream. *)

Record Loopback := mkLoopback { lb_config : ServerConfig; lb_engine : EngineCore; lb_sent : list N; lb_read : N; lb_open : bool }.

Definition server_side (l : Loopback) : MemoryStream * EngineCore :=
  (serve 16 (lb_config l) [] (mkMemoryStream (lb_sent l) [] default_capacity true true, lb_engine l)).2.

#[export] Instance loopback_stream : Stream Loopback := {
  read_some n l :=
    let got := take (N.to_nat n) (drop (N.to_nat (lb_read l)) (ms_outgoing (server_side l).1)) in
    (Val got, mkLoopback (lb_config l) (lb_engine l) (lb_sent l) (lb_read l + sizeN got) (lb_open l));
  write_all data l := (Val tt, mkLoopback (lb_config l) (lb_engine l) (lb_sent l ++ data) (lb_read l) (lb_open l));
  close l := (Val tt, mkLoopback (lb_config l) (lb_engine l) (lb_sent l) (lb_read l) false);
  is_open := lb_open;
}.

(** [nafd --profile demo --state-dir naf --incarnation 7] on an empty directory. *)
Definition daemon_args : list string := ["--profile"; "demo"; "--state-dir"; "naf"; "--incarnation"; "7"].
Definition demo_daemon : option N * CoordinatorServer :=
  match daemon_parse daemon_args DaemonOptions_new with
  | ParsedOptions o => daemon_setup working_platform (on_disk []) 0 o
  | _ => (Some 2, CoordinatorServer_new ServerConfig_new)
  end.

(** One run of [nafctl] against an engine: its exit code, whether it spoke with the
    server, and the engine after it.  The client drops its stream when it closes, so the
    bytes it sent are those of the client's run up to the close, and its farewell. *)
Definition control_session (o : ControlOptions) (config : ServerConfig) (k : EngineCore) : N * EngineCore :=
  let line := mkLoopback config k [] 0 true in
  let before :=
    (open (fun _ => Internal) (fun _ _ => Val line) ;; run_command (fun _ => Internal) o)
      (control_client o) in
  match cl_stream before.2 with
  | Some l =>
      let rc := (control_main (fun _ => Internal) (fun _ _ => Val line) o (control_client o)).1 in
      (default 1 (match rc with Val n => Some n | Err _ => None end),
       (server_side ((write_message MK_Bye 0 [] max_frame_bytes l).2)).2)
  | None => (1, k)
  end.
Definition nafctl (args : list string) (k : EngineCore) : N * EngineCore :=
  match control_parse args ControlOptions_new with
  | ParsedOptions o => control_session o (cs_config demo_daemon.2) k
  | _ => (2, k)
  end.

Definition demo_engine : EngineCore := cs_engine demo_daemon.2.
Definition admit_args (request : string) : list string :=
  ["admit"; "--min"; "10"; "--desired"; "20"; "--max"; "30"; "--latency"; "1000"; "--request"; request;
   "--demand"; request].


Definition after_admit : N * EngineCore := nafctl (admit_args "1") demo_engine.
Definition after_retry : N * EngineCore := nafctl (admit_args "1") after_admit.2.
Definition after_second : N * EngineCore := nafctl (admit_args "2") after_retry.2.
Definition after_revoke : N * EngineCore := nafctl ["revoke"; "--decision"; "1"] after_second.2.
(** The daemon is started again on the journal the first one left. *)
Definition after_restart : option N * CoordinatorServer :=
  match daemon_parse daemon_args DaemonOptions_new with
  | ParsedOptions o => daemon_setup working_platform (on_disk (disk_of after_revoke.2)) 0 o
  | _ => (Some 2, CoordinatorServer_new ServerConfig_new)
  end.
Definition on_first (k : EngineCore) : Rate * N := (admitted (ek_ledger k) 1, live_sessions k).

(** A life of the demo coordinator.  It comes up ready; an admission of at most 30 is
    granted 30; the same command again is answered with the same grant and moves no load;
    a second demand is granted on top; revoking the first takes its load away; and after a
    restart on the journal the second grant stands under the next epoch, no session does.
    Every run of [nafctl] exits with success, and leaves a session behind. *)
Theorem demo_life :
  demo_daemon.1 = None /\ readiness demo_engine = Ready /\ ek_epoch demo_engine = 1 /\
  (after_admit.1, on_first after_admit.2) = (0, (30, 1)) /\
  (after_retry.1, on_first after_retry.2) = (0, (30, 2)) /\
  (after_second.1, on_first after_second.2) = (0, (60, 3)) /\
  (after_revoke.1, on_first after_revoke.2) = (0, (30, 4)) /\
  after_restart.1 = None /\ readiness (cs_engine after_restart.2) = Ready /\
  ek_epoch (cs_engine after_restart.2) = 2 /\ on_first (cs_engine after_restart.2) = (30, 0).
Proof. split_and!; vm_compute; reflexivity. Qed.
